(* ===== verification/_CoqProject ===== *)
-Q . S2P
Prelude.v
GoLib.v
GoText.v
Rfc3339.v
Classifier.v
Http.v
Mux.v
Json.v
JsonCodec.v
JsonStruct.v
JsonValid.v
Payload.v
Kube.v
Remedy.v
RemedyProps.v
Dedupe.v
Server.v
Pool.v
Rely.v
Waiting.v
Calls.v
Lifecycle.v
Obs.v
MetricsPool.v
Trace.v
Rpc.v
Inventory.v
Payments.v
Orders.v
CbWatch.v
OrdersPool.v
Checkout.v
Detached.v
Deadlines.v
EmailWorker.v
Procs.v
GrpcProc.v
Manager.v
Concurrent.v
Locked.v
Frame.v
System.v
