(* ===== verification/Prelude.v ===== *)
(** * Reliability Lab: a verification library

    The program under src/ is a small order system and the operator that keeps it
    within its service level objectives:

    - orders-svc takes orders over HTTP, charges them at payments-svc over gRPC,
      which reserves stock at inventory-svc, and publishes an event to NATS, which
      email-worker consumes;
    - the remediation operator receives AlertManager webhooks, classifies the
      alerts and repairs the cluster: it aborts a rollout, raises the floor of an
      autoscaler, or pauses the publishing of orders-svc through a ConfigMap that
      orders-svc watches as a mounted file;
    - pkg/obs holds what all services share: health flags, probe routes, HTTP
      metrics, tracing set-up and the running of an HTTP server.

    ** Conventions

    Definitions keep the names of the source.  Code that reads or writes state is a
    function of type [M S A := S → A * S]; a Go [error] is [option error], a pair of a
    pointer and an error is [Rpc.result]; a pointer that may be nil is an [option]; a
    map is a [gmap]; int32 values are [Z] with the wrap-around written out; times and
    durations are [Z] in nanoseconds; strings are byte strings.  What is outside the
    repository (the Kubernetes client, the gRPC runtime, NATS, OpenTelemetry,
    fsnotify, Prometheus' collectors) is an argument or a type class of operations,
    with laws only where a theorem needs them; every theorem with hypotheses is
    applied at a concrete input by the lemma named after it with [_witness].

    ** Files

    Language and libraries:
    - [Prelude]: the state monad, [range] loops, errors, tactics, hint databases;
    - [GoLib]: fixed-width integers, time, timers, environment variables;
    - [GoText]: TrimSpace, EqualFold, UTF-8, strconv's Quote and FormatInt;
    - [Rfc3339]: the text of a time, its reader, and the calendar behind both;
    - [Http]: response writers, the server's own writer, http.Error;
    - [Pool]: programs of calls, what they promise, and pools that interleave them;
      [Rely]: the promises of threads that learn from each other through the state, by
      an invariant, a guarantee and facts that the others leave alone; [Waiting]: calls
      that wait until they can be made, and whether a thread can go on;
    - [Mux]: http.ServeMux with method patterns, its conflict check and matching;
    - [Json], [JsonCodec], [JsonStruct], [JsonValid]: documents, the parser and merge
      patches; the encoder and the parser's round trip on what it wrote; decoding into
      structs; that every string out of the parser is valid UTF-8.

    The operator (operator/):
    - [Classifier]: internal/classifier;
    - [Kube]: the client interface with its laws, current or cached reads apart, and
      in-memory clients, one behind a lagging cache, that satisfy them;
    - [Remedy], [RemedyProps]: internal/remedy and its theorems;
    - [Payload], [Dedupe], [Server]: internal/server (payload.go, dedupe.go, server.go);
    - [Calls]: the atomic calls of the webhook's handler; [Concurrent]: the handler as
      a program of them, alone and interleaved; [Locked]: the same with the mutex of the
      deduplication and its accesses of the map one by one; [Frame]: what it can touch,
      beside other editors of the cluster;
    - [Manager]: cmd/manager/main.go.

    Shared code (pkg/obs): [Lifecycle] (obs.Serve and the operator's Server.Start as
    one step relation), [Obs] (obs.go, redmetrics.go), [MetricsPool] (the metrics under
    concurrency), [Trace] (trace.go, Logger).

    The services (services/, gen/go/):
    - [Rpc]: the generated messages, stubs, handlers and descriptors;
    - [Inventory], [Payments], [Orders], [CbWatch], [EmailWorker]: the servers, the
      order handler, the flag watcher and the message handler;
    - [OrdersPool]: handlers and watcher interleaved on the flag they share;
      [Checkout]: orders through the three services over a network with losses, each
      caller waiting for its callee; [Detached]: the same with a thread per service and
      order, so that callees run on when their callers have given up; [Deadlines]: the
      same where a caller has to wait for an answer, an error or its own deadline;
    - [Procs]: the main functions as scripts of calls; [GrpcProc]: main and the server
      goroutine of the gRPC services as a step relation;
    - [System]: theorems across the parts.

    ** What the theorems show

    - Which remedies run: [Classifier] refines a table of rules; [Server] shows that a
      payload runs one remedy per fresh, firing, actionable alert and that the answer
      does not depend on it; [Dedupe] that grants are a cooldown apart and when
      concurrency breaks that; [Manager] that the wired registry covers every
      decision; [Payload] that a payload is read from any text of it, whatever the
      order of its members, its escapes and its times' offsets.
    - Concurrent requests: [Concurrent] shows that the program of calls is the handler,
      and, over every interleaving, one grant per fingerprint and cooldown, the bounds
      of the scale-up floor and that no call lifts an engaged brake; [Locked] that the
      mutex makes [Acquire] the one atomic call [Concurrent] takes it for, that it is
      never held while a request waits for the API server, and that every request is
      answered; [Frame] that nothing is touched but what the alerts name.  These hold
      for reads of a cache: the bounds of the floor are relative to the oldest state it
      may still show, and what a stale read can spoil is shown by runs.  What [Frame]
      says of a request's steps holds beside any other editors too.
    - What remedies do: [RemedyProps] bounds and convergence of the scale-up with
      int32 overflow, the circuit break and the rollback change one thing and are
      idempotent, the scale-up is not.
    - The circuit break's way to the publisher: [CbWatch] and [System], which says what
      an application without an error leaves when the cache may lag.
    - Orders: [Orders] (answers, calls made and their types, metric, the clash of its
      routes), [Payments], [Inventory] (the store refines the history of calls),
      [OrdersPool] (each order among others; only orders in flight publish once the
      flag is up), [Checkout] (confirmed orders have their reservations; a lost response
      leaks one; the programs run alone are the code), [Detached] (confirmed orders have
      their reservations though callees outlive their callers; the threads can serve an
      order exactly as the code composes the services; what outlives a 502), [Deadlines]
      (the deadline of the charge reaches every wait, so no order waits for ever), [EmailWorker] (one settlement per message), [System] (the event's
      round trip, an order through the three services, an inventory outage).
    - Processes: [Lifecycle], [Procs], [GrpcProc] (termination, exit codes, cleanups,
      readiness in shutdown); [Obs] (recorder and probes), [MetricsPool] (no request is
      lost from the counters); [Trace] (settings).

    ** Fuel

    Byte-string functions recurse on a number that is at least the length of their
    input: [trim_left_done] shows nothing is left to trim; the JSON parser
    recurses on [nesting_fuel], one more than the lesser of the number of input bytes
    and encoding/json's limit of 10000 nested arrays and objects, so it refuses deeper
    documents as the package does, and [JsonCodec.parse_Marshal] shows that it suffices
    for every rendered document within the limit; [dec_digits] takes the number of bits.

    ** What is not modelled

    The text of the metrics and the values of log lines; the reflection plumbing of the
    generated packages, and their raw descriptors, whose bytes only mean something to
    the protobuf runtime, which is not in the repository, as the wire format is its own;
    the manifests, rules, scripts and load tests, which are not Go.  Deadlines are
    values of contexts, but when one passes is not tied to the clock: in [Detached] a
    caller can give up at any moment, in [Deadlines] at any moment if its context has a
    deadline, so the theorems cover every timing.  A call to the API server that hangs is
    a thread that makes no further step: the webhook sets no deadline of its own, and
    [Locked] shows that the others do not wait for it.  Redirects of
    ServeMux and unclean paths are left out, as no registered pattern brings them in.

    ** What could follow

    Every operation of the Go code is modelled but the generated packages' plumbing.
    What is left are assumptions of the parts outside: a clock shared by contexts and
    threads, the validation the API server applies to an HPA that another editor has
    shrunk between the operator's read and its patch, and redelivery by NATS. *)

From Stdlib Require Import ZArith Lia.
From stdpp Require Export base decidable option list gmap strings fin_maps.

#[export] Set Default Goal Selector "!".
#[export] Set Warnings "-clear-no-such-hyp".

(** ** Stateful code

    Go code that reads or writes shared state is a function from the state it
    runs in to its result and the state it leaves.  Errors are ordinary result
    values, as they are in Go, so a failed call keeps the state it reached. *)

Definition M (S A : Type) : Type := S → A * S.

#[export] Instance M_ret {S} : MRet (M S) := λ A a s, (a, s).
#[export] Instance M_bind {S} : MBind (M S) := λ A B f m s, let '(a, s') := m s in f a s'.

Definition get {S} : M S S := λ s, (s, s).
Definition put {S} (s : S) : M S unit := λ _, (tt, s).
Definition modify {S} (f : S → S) : M S unit := λ s, (tt, f s).
Definition gets {S A} (f : S → A) : M S A := λ s, (f s, s).

(** [for _, a := range l { body }] with a body that returns nothing. *)
Fixpoint range {S A} (l : list A) (body : A → M S unit) : M S unit :=
  match l with
  | [] => mret ()
  | a :: l' => _ ← body a; range l' body
  end.

(** Runs [m] and keeps only the state it leaves. *)
Definition exec {S A} (m : M S A) (s : S) : S := snd (m s).

(** A Go [error] value: [None] is [nil], [Some msg] an error. *)
Inductive error := Error (msg : string).
#[export] Instance error_eq_dec : EqDecision error.
Proof. solve_decision. Defined.

(** [fmt.Errorf("prefix: %w", err)]: the error a caller wraps around another. *)
Definition wrapf (prefix : string) (e : error) : error :=
  let '(Error msg) := e in Error (prefix +:+ ": " +:+ msg).

(** ** Lemmas on stateful code *)

Lemma bind_run {S A B} (m : M S A) (f : A → M S B) s :
  (m ≫= f) s = f (fst (m s)) (snd (m s)).
Proof. unfold mbind, M_bind. by destruct (m s). Qed.

Lemma range_cons {S A} (a : A) l (body : A → M S unit) s :
  exec (range (a :: l) body) s = exec (range l body) (exec (body a) s).
Proof. unfold exec. cbn. by rewrite bind_run. Qed.

Lemma range_app {S A} (l1 l2 : list A) (body : A → M S unit) s :
  exec (range (l1 ++ l2) body) s = exec (range l2 body) (exec (range l1 body) s).
Proof.
  revert s. induction l1 as [|a l1 IH]; intros s; [done|].
  rewrite <- app_comm_cons, !range_cons. apply IH.
Qed.

(** A relation that every iteration respects relates the two ends of the loop. *)
Lemma range_rel {S A} (R : relation S) `{!PreOrder R} (l : list A) (body : A → M S unit) s :
  (∀ a s', a ∈ l → R s' (exec (body a) s')) → R s (exec (range l body) s).
Proof.
  revert s. induction l as [|a l IH]; intros s Hbody; [done|].
  rewrite range_cons. transitivity (exec (body a) s).
  - apply Hbody. left.
  - apply IH. intros b s' Hb. apply Hbody. by right.
Qed.

(** A loop whose every iteration leaves the state alone leaves it alone. *)
Lemma range_id {S A} (l : list A) (body : A → M S unit) s :
  (∀ a, a ∈ l → exec (body a) s = s) → exec (range l body) s = s.
Proof.
  induction l as [|a l IH]; intros Hbody; [done|].
  rewrite range_cons, Hbody by left. apply IH. intros b Hb. apply Hbody. by right.
Qed.

(** ** Automation *)

Create HintDb go discriminated.
Create Rewrite HintDb go.
#[export] Hint Rewrite @bind_run @range_cons @range_app : go.

(** Unfolds the monad and reduces the pairs a run produces. *)
Ltac go_run :=
  unfold exec, get, put, modify, gets, mret, M_ret in *;
  repeat rewrite bind_run in *; cbn [fst snd] in *.

(** Splits every [match] and [if] on a hypothesis-free scrutinee in the goal. *)
Ltac split_matches :=
  repeat (case_match; simplify_eq/=; try done).

(** Turns boolean tests in the context into the propositions they decide. *)
Ltac bool_to_prop :=
  repeat match goal with
  | H : _ && _ = true |- _ => apply andb_true_iff in H as [??]
  | H : _ || _ = false |- _ => apply orb_false_iff in H as [??]
  | H : negb _ = true |- _ => apply negb_true_iff in H
  | H : negb _ = false |- _ => apply negb_false_iff in H
  | H : bool_decide _ = true |- _ => apply bool_decide_eq_true in H
  | H : bool_decide _ = false |- _ => apply bool_decide_eq_false in H
  | H : (_ <? _)%Z = true |- _ => apply Z.ltb_lt in H
  | H : (_ <? _)%Z = false |- _ => apply Z.ltb_ge in H
  | H : (_ <=? _)%Z = true |- _ => apply Z.leb_le in H
  | H : (_ <=? _)%Z = false |- _ => apply Z.leb_gt in H
  | H : (_ =? _)%Z = true |- _ => apply Z.eqb_eq in H
  | H : (_ =? _)%Z = false |- _ => apply Z.eqb_neq in H
  end.
