(* ===== verification/GoLib.v ===== *)
(** * What the program uses of the Go language and its standard library

    - fixed-width signed integers with their wrap-around;
    - [time.Duration] and the saturating [time.Time.Sub];
    - byte strings: [strings.TrimSpace], [strings.EqualFold], UTF-8 decoding and
      [strconv.Quote] (the [%q] verb);
    - environment variables. *)

From Stdlib Require Import ZArith Lia NArith Ascii.
From S2P Require Import Prelude.

(** ** Fixed-width integers *)

Module GoInt.
Local Open Scope Z_scope.

Definition min_int32 : Z := - 2 ^ 31.
Definition max_int32 : Z := 2 ^ 31 - 1.
Definition min_int64 : Z := - 2 ^ 63.
Definition max_int64 : Z := 2 ^ 63 - 1.

(** The value a w-bit two's complement register holds after an overflow. *)
Definition wrap (w : Z) (z : Z) : Z := (z + 2 ^ (w - 1)) mod 2 ^ w - 2 ^ (w - 1).

Definition add_int32 (a b : Z) : Z := wrap 32 (a + b).

Definition is_int32 (z : Z) : Prop := min_int32 ≤ z ≤ max_int32.
Definition is_int64 (z : Z) : Prop := min_int64 ≤ z ≤ max_int64.

#[export] Instance is_int32_dec z : Decision (is_int32 z).
Proof. unfold is_int32. apply _. Defined.

Lemma wrap32_eq z : wrap 32 z = (z + 2147483648) mod 4294967296 - 2147483648.
Proof. done. Qed.

Lemma is_int32_eq z : is_int32 z ↔ -2147483648 ≤ z ≤ 2147483647.
Proof. done. Qed.

Lemma wrap32_in_range z : is_int32 (wrap 32 z).
Proof.
  rewrite is_int32_eq, wrap32_eq.
  pose proof (Z.mod_pos_bound (z + 2147483648) 4294967296 ltac:(lia)). lia.
Qed.

Lemma add_int32_exact a b : is_int32 (a + b) → add_int32 a b = a + b.
Proof.
  rewrite is_int32_eq. intros H. unfold add_int32.
  rewrite wrap32_eq, Z.mod_small; lia.
Qed.

Lemma add_int32_overflow a b :
  is_int32 a → is_int32 b → max_int32 < a + b → add_int32 a b = a + b - 2 ^ 32.
Proof.
  rewrite !is_int32_eq. change max_int32 with 2147483647. change (2 ^ 32) with 4294967296.
  intros Ha Hb Hab. unfold add_int32. rewrite wrap32_eq.
  replace (a + b + 2147483648) with (a + b - 2147483648 + 1 * 4294967296) by lia.
  rewrite Z.mod_add by lia. rewrite Z.mod_small; lia.
Qed.
End GoInt.

(** ** Time

    A time is a count of nanoseconds.  What [time.Now] returns is compared and
    subtracted by its monotonic reading, and that is what it counts; a time that is
    written or read as text counts from the Unix epoch (file Rfc3339). *)

Module GoTime.
Import GoInt.
Local Open Scope Z_scope.

Definition Time := Z.
Definition Duration := Z.

Definition Millisecond : Duration := 1000000.
Definition Second : Duration := 1000 * Millisecond.
Definition Minute : Duration := 60 * Second.
Definition Hour : Duration := 60 * Minute.

(** [t.Sub(u)]: the difference, saturated to the range of a [Duration]. *)
Definition Sub (t u : Time) : Duration :=
  let d := t - u in
  if d <? min_int64 then min_int64 else if max_int64 <? d then max_int64 else d.

Lemma Sub_exact t u : is_int64 (t - u) → Sub t u = t - u.
Proof.
  unfold Sub, is_int64. intros H.
  repeat (case_match; bool_to_prop); lia.
Qed.

(** Saturation never changes a comparison with a positive duration. *)
Lemma Sub_lt t u d : min_int64 < d ≤ max_int64 → Sub t u < d ↔ t - u < d.
Proof. unfold Sub. intros H. repeat (case_match; bool_to_prop); lia. Qed.

Lemma Sub_ltb t u d :
  min_int64 < d ≤ max_int64 → (Sub t u <? d) = (t - u <? d).
Proof.
  intros H. apply eq_true_iff_eq. rewrite !Z.ltb_lt. by apply Sub_lt.
Qed.

(** The clock's [time.Sleep]. *)
Class Timer (W : Type) := Sleep : Duration → M W unit.

(** [context.WithTimeout(ctx, d)]: the deadline is the earlier of the parent's
    and [now + d]. *)
Definition WithTimeout (now : Time) (parent : option Time) (d : Duration) : option Time :=
  match parent with
  | Some t => Some (Z.min t (now + d))
  | None => Some (now + d)
  end.

Lemma WithTimeout_bound now parent d t :
  WithTimeout now parent d = Some t → t ≤ now + d.
Proof. destruct parent; cbn; intros [= <-]; lia. Qed.
End GoTime.

(** ** Environment variables *)

Module Env.
(** [os.Getenv]: the empty string stands for an unset variable. *)
Abbreviation env := (gmap string string).
Definition Getenv (e : env) (k : string) : string := default "" (e !! k).
End Env.
