(* ===== verification/GoText.v ===== *)
(** * Byte strings: the functions of [strings], [unicode/utf8] and [strconv] in use

    A Go string is a sequence of bytes, here a [string] of 8-bit characters.
    The functions of this file work on the list of its byte values. *)

From Stdlib Require Import ZArith NArith Lia Ascii.
From Stdlib Require Strings.String.
From S2P Require Import Prelude.

Local Open Scope N_scope.

(** ** Bytes *)

Definition bytes (s : string) : list N :=
  N_of_ascii <$> Stdlib.Strings.String.list_ascii_of_string s.

Definition of_bytes (l : list N) : string :=
  Stdlib.Strings.String.string_of_list_ascii (ascii_of_N <$> l).

Lemma of_bytes_bytes s : of_bytes (bytes s) = s.
Proof.
  unfold of_bytes, bytes. induction s as [|c s IH]; [done|].
  cbn. rewrite ascii_N_embedding. by f_equal.
Qed.

Lemma bytes_app s t : bytes (s +:+ t) = bytes s ++ bytes t.
Proof.
  unfold bytes. rewrite <- fmap_app. f_equal.
  induction s as [|c s IH]; [done|]. change (String c s +:+ t) with (String c (s +:+ t)).
  cbn. by f_equal.
Qed.

#[export] Instance bytes_inj : Inj (=) (=) bytes.
Proof. intros s t H. rewrite <- (of_bytes_bytes s), <- (of_bytes_bytes t). by f_equal. Qed.

Definition byte (b : N) : Prop := b < 256.

Lemma bytes_byte s : Forall byte (bytes s).
Proof. unfold bytes. apply Forall_fmap, Forall_forall. intros c _. apply N_ascii_bounded. Qed.

Lemma bytes_of_bytes l : Forall byte l → bytes (of_bytes l) = l.
Proof.
  induction 1 as [|b l Hb Hl IH]; [done|].
  change (bytes (of_bytes (b :: l))) with (N_of_ascii (ascii_of_N b) :: bytes (of_bytes l)).
  by rewrite N_ascii_embedding, IH.
Qed.

(** [s[len(p):]] when [s] starts with [p]. *)
Fixpoint strip_prefix (p l : list N) : option (list N) :=
  match p, l with
  | [], _ => Some l
  | b :: p', c :: l' => if b =? c then strip_prefix p' l' else None
  | _ :: _, [] => None
  end.

Lemma strip_prefix_Some p l r : strip_prefix p l = Some r ↔ l = p ++ r.
Proof.
  revert l. induction p as [|b p IH]; intros l; [cbn; split; congruence|].
  destruct l as [|c l]; [done|]. cbn.
  destruct (N.eqb_spec b c) as [->|Hne]; [rewrite IH|]; split; congruence.
Qed.

(** ** [strings.TrimSpace]

    It cuts Unicode white space at both ends.  [spaces] is the UTF-8 encoding of
    every rune [unicode.IsSpace] accepts. *)

Definition spaces : list (list N) :=
  [ [9]; [10]; [11]; [12]; [13]; [32];
    [194; 133]; [194; 160]; [225; 154; 128];
    [226; 128; 128]; [226; 128; 129]; [226; 128; 130]; [226; 128; 131];
    [226; 128; 132]; [226; 128; 133]; [226; 128; 134]; [226; 128; 135];
    [226; 128; 136]; [226; 128; 137]; [226; 128; 138];
    [226; 128; 168]; [226; 128; 169]; [226; 128; 175];
    [226; 129; 159]; [227; 128; 128] ].

(** The rest of [l] after the first of [ps] that it starts with. *)
Fixpoint strip_any (ps : list (list N)) (l : list N) : option (list N) :=
  match ps with
  | [] => None
  | p :: ps' => match strip_prefix p l with Some r => Some r | None => strip_any ps' l end
  end.

(** Cuts every leading occurrence of one of [ps]; [fuel] bounds their number. *)
Fixpoint trim_left (fuel : nat) (ps : list (list N)) (l : list N) : list N :=
  match fuel with
  | O => l
  | S f => match strip_any ps l with Some r => trim_left f ps r | None => l end
  end.

Definition trim_bytes (l : list N) : list N :=
  let l' := trim_left (length l) spaces l in
  reverse (trim_left (length l') (reverse <$> spaces) (reverse l')).

Definition TrimSpace (s : string) : string := of_bytes (trim_bytes (bytes s)).

Lemma strip_any_length ps l r :
  Forall (λ p, p ≠ []) ps → strip_any ps l = Some r → (length r < length l)%nat.
Proof.
  induction 1 as [|p ps Hp Hps IH]; [done|]. cbn.
  destruct (strip_prefix p l) as [r'|] eqn:E; [|done].
  intros [= ->]. apply strip_prefix_Some in E as ->. rewrite length_app.
  destruct p; [done|]. cbn. lia.
Qed.

Lemma strip_any_nil ps : Forall (λ p, p ≠ []) ps → strip_any ps [] = None.
Proof. induction 1 as [|[] ps Hp Hps IH]; done. Qed.

(** The length of the string is fuel enough: nothing is left to cut. *)
Lemma trim_left_done ps l fuel :
  Forall (λ p, p ≠ []) ps → (length l ≤ fuel)%nat →
  strip_any ps (trim_left fuel ps l) = None.
Proof.
  intros Hps. revert l. induction fuel as [|f IH]; intros l Hl; cbn.
  - destruct l; [by apply strip_any_nil|cbn in Hl; lia].
  - destruct (strip_any ps l) as [r|] eqn:E; [|done].
    apply IH. apply strip_any_length in E; [lia|done].
Qed.

(** A run of one-byte spaces in front is cut, whatever the fuel that covers it. *)
Lemma trim_left_app ps w l fuel :
  Forall (λ b, ∀ l', strip_any ps (b :: l') = Some l') w →
  trim_left (length w + fuel) ps (w ++ l) = trim_left fuel ps l.
Proof.
  revert l. induction w as [|b w IH]; intros l Hw; [done|].
  apply Forall_cons in Hw as [Hb Hw]. cbn. rewrite Hb. by apply IH.
Qed.

Lemma trim_left_id ps l fuel : strip_any ps l = None → trim_left fuel ps l = l.
Proof. intros H. destruct fuel; [done|]. cbn. by rewrite H. Qed.

(** The white space a shell, an editor or a YAML block leaves around a value. *)
Definition ascii_space (b : N) : Prop := b ∈ [9; 10; 11; 12; 13; 32].

#[export] Instance ascii_space_dec b : Decision (ascii_space b).
Proof. unfold ascii_space. apply _. Defined.

Lemma strip_any_ascii_space b l :
  ascii_space b → strip_any spaces (b :: l) = Some l.
Proof. unfold ascii_space. intros H. repeat (apply elem_of_cons in H as [->|H]; [done|]). by apply elem_of_nil in H. Qed.

Lemma strip_any_ascii_space_rev b l :
  ascii_space b → strip_any (reverse <$> spaces) (b :: l) = Some l.
Proof. unfold ascii_space. intros H. repeat (apply elem_of_cons in H as [->|H]; [done|]). by apply elem_of_nil in H. Qed.

(** Padding with white space on either side does not change the trimmed value. *)
Lemma TrimSpace_pad (w1 w2 : list N) (s : string) :
  Forall ascii_space w1 → Forall ascii_space w2 →
  strip_any spaces (bytes s ++ w2) = None →
  strip_any (reverse <$> spaces) (reverse (bytes s)) = None →
  trim_bytes (w1 ++ bytes s ++ w2) = bytes s.
Proof.
  intros Hw1 Hw2 Hl Hr. unfold trim_bytes.
  assert (trim_left (length (w1 ++ bytes s ++ w2)) spaces (w1 ++ bytes s ++ w2)
          = bytes s ++ w2) as ->.
  { rewrite length_app. etransitivity; [apply trim_left_app|exact (trim_left_id _ _ _ Hl)].
    eapply Forall_impl; [exact Hw1|]. intros b Hb l'. by apply strip_any_ascii_space. }
  assert (length (bytes s ++ w2) = length (reverse w2) + length (bytes s))%nat as ->.
  { rewrite length_app, length_reverse. lia. }
  rewrite reverse_app.
  etransitivity; [apply (f_equal reverse)|apply reverse_involutive].
  etransitivity; [apply trim_left_app|exact (trim_left_id _ _ _ Hr)].
  apply Forall_reverse. eapply Forall_impl; [exact Hw2|]. intros b Hb l'.
  by apply strip_any_ascii_space_rev.
Qed.

(** ** [strings.EqualFold]

    Unicode simple case folding; when one argument is made of ASCII letters other
    than [k] and [s], as in this program, it compares bytes up to ASCII case. *)

Definition lower (b : N) : N := if (65 <=? b) && (b <=? 90) then b + 32 else b.

Definition EqualFold (s t : string) : bool :=
  bool_decide (lower <$> bytes s = lower <$> bytes t).

(** ** UTF-8

    [utf8.DecodeRuneInString]: the first rune and its width; an invalid encoding
    is [RuneError] with width 1. *)

Definition RuneError : N := 0xFFFD.
Definition RuneSelf : N := 0x80.

Definition in_range (lo hi b : N) : bool := (lo <=? b) && (b <=? hi).
Definition cont (b : N) : bool := in_range 0x80 0xBF b.

Definition DecodeRune (l : list N) : N * nat :=
  match l with
  | [] => (RuneError, 0%nat)
  | b0 :: l1 =>
    let bad := (RuneError, 1%nat) in
    if b0 <? RuneSelf then (b0, 1%nat) else
    if in_range 0xC2 0xDF b0 then
      match l1 with
      | b1 :: _ => if cont b1 then ((b0 - 0xC0) * 64 + (b1 - 0x80), 2%nat) else bad
      | _ => bad
      end else
    if in_range 0xE0 0xEF b0 then
      match l1 with
      | b1 :: b2 :: _ =>
        let lo := if b0 =? 0xE0 then 0xA0 else 0x80 in
        let hi := if b0 =? 0xED then 0x9F else 0xBF in
        if in_range lo hi b1 && cont b2
        then ((b0 - 0xE0) * 4096 + (b1 - 0x80) * 64 + (b2 - 0x80), 3%nat) else bad
      | _ => bad
      end else
    if in_range 0xF0 0xF4 b0 then
      match l1 with
      | b1 :: b2 :: b3 :: _ =>
        let lo := if b0 =? 0xF0 then 0x90 else 0x80 in
        let hi := if b0 =? 0xF4 then 0x8F else 0xBF in
        if in_range lo hi b1 && cont b2 && cont b3
        then ((b0 - 0xF0) * 262144 + (b1 - 0x80) * 4096 + (b2 - 0x80) * 64 + (b3 - 0x80), 4%nat)
        else bad
      | _ => bad
      end
    else bad
  end.

(** ** [strconv.Quote], the [%q] verb

    The Unicode tables behind [strconv.IsPrint] are a parameter for the runes
    outside ASCII. *)

Class UnicodeTables := { IsPrintWide : N → bool }.

Section Quote.
Context {UT : UnicodeTables}.

Definition IsPrint (r : N) : bool :=
  if r <? RuneSelf then in_range 0x20 0x7E r else IsPrintWide r.

Definition hex_digit (d : N) : N := if d <? 10 then 48 + d else 87 + d.

(** [n] lower-case hexadecimal digits of [r]. *)
Fixpoint hex (n : nat) (r : N) : list N :=
  match n with
  | O => []
  | S n' => hex n' (r / 16) ++ [hex_digit (r mod 16)]
  end.

Definition escape (r : N) : list N :=
  if r =? 7 then [92; 97] else if r =? 8 then [92; 98] else
  if r =? 12 then [92; 102] else if r =? 10 then [92; 110] else
  if r =? 13 then [92; 114] else if r =? 9 then [92; 116] else
  if r =? 11 then [92; 118] else
  if (r <? 32) || (r =? 127) then [92; 120] ++ hex 2 r else
  if r <? 0x10000 then [92; 117] ++ hex 4 r else [92; 85] ++ hex 8 r.

(** One step per rune; [fuel] is at least the number of bytes left. *)
Fixpoint quote_with (fuel : nat) (l : list N) : list N :=
  match fuel, l with
  | S f, b :: _ =>
    let '(r, w) := DecodeRune l in
    let out :=
      if (Nat.eqb w 1) && (r =? RuneError) then [92; 120] ++ hex 2 b else
      if (r =? 34) || (r =? 92) then [92; r] else
      if IsPrint r then take w l else escape r in
    out ++ quote_with f (drop w l)
  | _, _ => []
  end.

Definition Quote (s : string) : string :=
  of_bytes ([34] ++ quote_with (length (bytes s)) (bytes s) ++ [34]).
End Quote.

(** ** [strconv.FormatInt] in base ten *)

(** The digits of [n]; [fuel] is more than the number of its bits. *)
Fixpoint dec_digits (fuel : nat) (n : N) : list N :=
  match fuel with
  | O => []
  | S f => if n <? 10 then [48 + n] else dec_digits f (n / 10) ++ [48 + n mod 10]
  end.

Definition format_N (n : N) : list N := dec_digits (S (N.to_nat (N.log2 n))) n.

Definition format_int (z : Z) : list N :=
  if (z <? 0)%Z then 45 :: format_N (Z.to_N (- z)) else format_N (Z.to_N z).

Definition FormatInt (z : Z) : string := of_bytes (format_int z).

(** A decimal numeral: digits only, and no zero in front of another digit. *)
Definition numeral (ds : list N) : Prop :=
  ds = [48] ∨ Forall (λ b, 48 ≤ b ≤ 57) ds ∧ ∃ b l, ds = b :: l ∧ b ≠ 48.

Lemma dec_digits_pos fuel n :
  0 < n → n < 2 ^ N.of_nat fuel →
  Forall (λ b, 48 ≤ b ≤ 57) (dec_digits fuel n) ∧ ∃ b l, dec_digits fuel n = b :: l ∧ b ≠ 48.
Proof.
  revert n. induction fuel as [|f IH]; intros n Hn0 Hn; cbn [dec_digits].
  { change (2 ^ N.of_nat 0) with 1 in Hn. lia. }
  destruct (N.ltb_spec n 10) as [Hlt|Hge].
  { split; [apply Forall_singleton; lia|]. eexists _, _. split; [done|lia]. }
  rewrite Nat2N.inj_succ, N.pow_succ_r' in Hn.
  pose proof (N.div_mod n 10 ltac:(lia)) as Hd. pose proof (N.mod_lt n 10 ltac:(lia)) as Hm.
  revert Hd Hm IH. generalize (n / 10) as q, (n mod 10) as m. intros q m Hd Hm IH.
  destruct (IH q) as (Hall & b & l & Heq & Hb); [lia| |].
  { revert Hn. generalize (2 ^ N.of_nat f) as p. lia. }
  split; [apply Forall_app; split; [done|apply Forall_singleton; lia]|].
  rewrite Heq. eexists _, _. split; [reflexivity|done].
Qed.

Lemma format_N_numeral n : numeral (format_N n).
Proof.
  destruct (N.eq_0_gt_0_cases n) as [->|Hn]; [by left|right].
  apply dec_digits_pos; [done|]. rewrite Nat2N.inj_succ, N2Nat.id. by apply N.log2_spec.
Qed.
