(* ===== verification/Rfc3339.v ===== *)
(** * The text of a [time.Time] in JSON

    [time.Time.MarshalJSON] on a UTC time and [time.Time.UnmarshalJSON]: RFC 3339
    with nanoseconds.  An instant is counted in nanoseconds from the Unix epoch;
    dates are of the proleptic Gregorian calendar, counted in days from 0000-01-01. *)

From Stdlib Require Import ZArith NArith Lia.
From S2P Require Import Prelude GoLib GoText.

Module Rfc3339.
Import GoTime.
Local Open Scope Z_scope.

(** What [time.Now().UTC()] returns: the wall clock, without the monotonic reading. *)
Class WallClock (W : Type) := UTCNow : W → Time.

(** ** The calendar *)

Definition isLeap (y : Z) : bool :=
  (y mod 4 =? 0) && (negb (y mod 100 =? 0) || (y mod 400 =? 0)).

(** The days before the first of January of year [y], for [0 ≤ y]. *)
Definition days_before (y : Z) : Z := 365 * y + (y + 3) / 4 - (y + 99) / 100 + (y + 399) / 400.

Definition month_lengths (leap : bool) : list Z :=
  [31; if leap then 29 else 28; 31; 30; 31; 30; 31; 31; 30; 31; 30; 31].

Definition daysIn (y m : Z) : Z := nth (Z.to_nat (m - 1)) (month_lengths (isLeap y)) 0.

(** The days of the months before month [m]. *)
Definition days_before_month (leap : bool) (m : Z) : Z :=
  foldr Z.add 0 (take (Z.to_nat (m - 1)) (month_lengths leap)).

Definition date_days (y m d : Z) : Z := days_before y + days_before_month (isLeap y) m + (d - 1).

Definition epoch_days : Z := 719528.

(** The year of a day: 146097 days are 400 years, so the estimate is off by one at most. *)
Definition year_of (n : Z) : Z :=
  let y := 400 * n / 146097 in
  if n <? days_before y then y - 1 else if days_before (y + 1) <=? n then y + 1 else y.

(** The month and the day of the month, by cutting months off the day of the year. *)
Fixpoint cut_months (m : Z) (lens : list Z) (d : Z) : Z * Z :=
  match lens with
  | [] => (m, d + 1)
  | len :: lens' => if d <? len then (m, d + 1) else cut_months (m + 1) lens' (d - len)
  end.

Definition civil (n : Z) : Z * Z * Z :=
  let y := year_of n in
  let '(m, d) := cut_months 1 (month_lengths (isLeap y)) (n - days_before y) in (y, m, d).

(** ** Formatting *)

Definition ascii_digit (z : Z) : N := Z.to_N (48 + z).
Definition two_digits (z : Z) : list N := [ascii_digit (z / 10); ascii_digit (z mod 10)].
Definition four_digits (z : Z) : list N := two_digits (z / 100) ++ two_digits (z mod 100).

(** [n] digits of a fraction, most significant first. *)
Fixpoint fraction_digits (n : nat) (z : Z) : list Z :=
  match n with
  | O => []
  | S n' => fraction_digits n' (z / 10) ++ [z mod 10]
  end.

Fixpoint drop_zeros (l : list Z) : list Z :=
  match l with
  | z :: l' => if z =? 0 then drop_zeros l' else l
  | [] => []
  end.

(** The nine digits of a fraction of a second without their trailing zeros. *)
Definition trimmed (ns : Z) : list Z := reverse (drop_zeros (reverse (fraction_digits 9 ns))).

Definition format_fraction (ns : Z) : list N :=
  match trimmed ns with
  | [] => []
  | ds => 46%N :: (ascii_digit <$> ds)
  end.

(** The bytes of a date and a time of day. *)
Definition time_bytes (y m d hh mm ss ns : Z) : list N :=
  four_digits y ++ 45%N :: two_digits m ++ 45%N :: two_digits d ++ 84%N ::
  two_digits hh ++ 58%N :: two_digits mm ++ 58%N :: two_digits ss ++ format_fraction ns ++ [90%N].

(** [None] for a year that RFC 3339 cannot write. *)
Definition FormatTime (t : Time) : option string :=
  let ns := t mod Second in
  let s := t / Second in
  let sod := s mod 86400 in
  let '(y, m, d) := civil (s / 86400 + epoch_days) in
  if (0 <=? y) && (y <=? 9999) then
    Some (of_bytes (time_bytes y m d (sod / 3600) (sod / 60 mod 60) (sod mod 60) ns))
  else None.

(** ** Parsing: [time.Parse] with the layout [time.RFC3339]

    [parseStrictRFC3339] tries a fast path first, which accepts a subset of what
    [Parse] accepts and gives the same time.  [Parse] is more lenient than RFC 3339:
    an hour of one digit and a comma before the fraction are accepted. *)

Definition digit (l : list N) : option (Z * list N) :=
  match l with
  | b :: l' => if in_range 48 57 b then Some (Z.of_N b - 48, l') else None
  | [] => None
  end.

(** [getnum]: two digits, or one when [fixed] is not asked for. *)
Definition getnum (fixed : bool) (l : list N) : option (Z * list N) :=
  '(a, l1) ← digit l;
  match digit l1 with
  | Some (b, l2) => Some (10 * a + b, l2)
  | None => if fixed then None else Some (a, l1)
  end.

(** A number within bounds. *)
Definition getnum_in (fixed : bool) (lo hi : Z) (l : list N) : option (Z * list N) :=
  '(z, r) ← getnum fixed l; if (lo <=? z) && (z <=? hi) then Some (z, r) else None.

Definition getyear (l : list N) : option (Z * list N) :=
  '(a, l1) ← getnum true l; '(b, l2) ← getnum true l1; Some (100 * a + b, l2).

(** The rest after the literal byte [c]. *)
Definition lit (c : N) (l : list N) : option (list N) :=
  match l with b :: l' => if (b =? c)%N then Some l' else None | [] => None end.

(** The leading digits. *)
Fixpoint span_digits (l : list N) : list Z * list N :=
  match digit l, l with
  | Some (z, _), _ :: l' => let '(ds, r) := span_digits l' in (z :: ds, r)
  | _, _ => ([], l)
  end.

(** The number a list of digits writes. *)
Definition decimal (ds : list Z) : Z := foldl (λ a z, 10 * a + z) 0 ds.

(** Nanoseconds from the digits of a fraction; those past the ninth are dropped. *)
Definition nanoseconds (ds : list Z) : Z :=
  let ds9 := take 9 ds in decimal ds9 * 10 ^ (9 - Z.of_nat (length ds9)).

(** A fraction after the seconds, when there is one. *)
Definition getfraction (l : list N) : Z * list N :=
  match l with
  | c :: l' =>
    if ((c =? 46) || (c =? 44))%N then
      match span_digits l' with
      | ([], _) => (0, l)
      | (ds, r) => (nanoseconds ds, r)
      end
    else (0, l)
  | [] => (0, l)
  end.

(** "Z", or the offset of a zone in seconds. *)
Definition getzone (l : list N) : option (Z * list N) :=
  match l with
  | [] => None
  | c :: l' =>
    if (c =? 90)%N then Some (0, l') else
    '(hh, l1) ← getnum_in true 0 24 l';
    l2 ← lit 58 l1;
    '(mm, l3) ← getnum_in true 0 60 l2;
    let offset := (hh * 60 + mm) * 60 in
    if (c =? 43)%N then Some (offset, l3)
    else if (c =? 45)%N then Some (- offset, l3) else None
  end.

Definition ParseTime (s : string) : option Time :=
  '(y, l1) ← getyear (bytes s);
  l2 ← lit 45 l1; '(m, l3) ← getnum_in true 1 12 l2;
  l4 ← lit 45 l3; '(d, l5) ← getnum true l4;
  l6 ← lit 84 l5; '(hh, l7) ← getnum_in false 0 23 l6;
  l8 ← lit 58 l7; '(mm, l9) ← getnum_in true 0 59 l8;
  l10 ← lit 58 l9; '(ss, l11) ← getnum_in true 0 59 l10;
  let '(ns, l12) := getfraction l11 in
  '(offset, l13) ← getzone l12;
  if bool_decide (l13 = []) && (1 <=? d) && (d <=? daysIn y m) then
    Some ((((date_days y m d - epoch_days) * 24 + hh) * 3600 + mm * 60 + ss - offset) * Second + ns)
  else None.

(** The zero [time.Time]: the first of January of year 1. *)
Definition zero_time : Time := (date_days 1 1 1 - epoch_days) * 86400 * Second.

Example zero_time_value : zero_time = -62135596800 * Second.
Proof. reflexivity. Qed.

(** ** The calendar is right *)

Lemma year_of_bounds n :
  0 ≤ n → 0 ≤ year_of n ∧ days_before (year_of n) ≤ n < days_before (year_of n + 1).
Proof.
  intros Hn. unfold year_of. cbv zeta.
  repeat (case_match; bool_to_prop); unfold days_before in *;
    Z.to_euclidean_division_equations; lia.
Qed.

Lemma days_before_succ y :
  0 ≤ y → days_before (y + 1) = days_before y + (if isLeap y then 366 else 365).
Proof.
  intros Hy. unfold days_before, isLeap.
  destruct (Z.eqb_spec (y mod 4) 0), (Z.eqb_spec (y mod 100) 0), (Z.eqb_spec (y mod 400) 0);
    cbn [andb orb negb]; Z.to_euclidean_division_equations; lia.
Qed.

(** Every day of a year is a day of one of its months. *)
Definition cut_ok (leap : bool) (d : Z) : bool :=
  let '(m, day) := cut_months 1 (month_lengths leap) d in
  (1 <=? m) && (m <=? 12) && (1 <=? day) &&
  (day <=? nth (Z.to_nat (m - 1)) (month_lengths leap) 0) &&
  (days_before_month leap m + (day - 1) =? d).

Lemma cut_months_ok (leap : bool) d :
  0 ≤ d < (if leap then 366 else 365) → cut_ok leap d = true.
Proof.
  intros Hd.
  assert (Hall : forallb (λ k, cut_ok leap (Z.of_nat k)) (seq 0 (if leap then 366 else 365)) = true)
    by (destruct leap; vm_compute; reflexivity).
  rewrite forallb_forall in Hall. rewrite <- (Z2Nat.id d) by lia. apply Hall.
  apply in_seq. destruct leap; lia.
Qed.

(** The date of a day is a date of the calendar, and its day is the day. *)
Lemma civil_correct n y m d :
  0 ≤ n → civil n = (y, m, d) →
  0 ≤ y ∧ 1 ≤ m ≤ 12 ∧ 1 ≤ d ≤ daysIn y m ∧ date_days y m d = n.
Proof.
  intros Hn. unfold civil. destruct (year_of_bounds n Hn) as (Hy0 & Hlo & Hhi).
  rewrite days_before_succ in Hhi by done.
  pose proof (cut_months_ok (isLeap (year_of n)) (n - days_before (year_of n))) as Hok.
  unfold cut_ok in Hok. destruct (cut_months _ _ _) as [m' d'] eqn:E.
  specialize (Hok ltac:(destruct (isLeap (year_of n)); lia)). intros [= <- <- <-].
  bool_to_prop. unfold daysIn, date_days. split_and!; try done; lia.
Qed.

(** ** Reading a time back *)

Definition is_dec (z : Z) : Prop := 0 ≤ z ≤ 9.

Lemma digit_ascii z l : is_dec z → digit (ascii_digit z :: l) = Some (z, l).
Proof.
  unfold is_dec. intros Hz. unfold digit, ascii_digit, in_range.
  replace ((48 <=? Z.to_N (48 + z)) && (Z.to_N (48 + z) <=? 57))%N with true.
  - rewrite Z2N.id by lia. do 2 f_equal. lia.
  - symmetry. apply andb_true_iff. split; apply N.leb_le; lia.
Qed.

Lemma is_dec_mod z : is_dec (z mod 10).
Proof. unfold is_dec. pose proof (Z.mod_pos_bound z 10). lia. Qed.

Lemma getnum_two fixed z l : 0 ≤ z ≤ 99 → getnum fixed (two_digits z ++ l) = Some (z, l).
Proof.
  intros Hz. unfold getnum, two_digits. cbn [app].
  rewrite digit_ascii by (unfold is_dec; Z.to_euclidean_division_equations; lia).
  cbn [mbind option_bind].
  rewrite digit_ascii by apply is_dec_mod. do 2 f_equal. Z.to_euclidean_division_equations; lia.
Qed.

Lemma getnum_in_two fixed lo hi z l :
  lo ≤ z ≤ hi → 0 ≤ z ≤ 99 → getnum_in fixed lo hi (two_digits z ++ l) = Some (z, l).
Proof.
  intros Hb Hz. unfold getnum_in. rewrite getnum_two by done. cbn [mbind option_bind].
  by rewrite (proj2 (Z.leb_le lo z)), (proj2 (Z.leb_le z hi)) by lia.
Qed.

Lemma getyear_four y l : 0 ≤ y ≤ 9999 → getyear (four_digits y ++ l) = Some (y, l).
Proof.
  intros Hy. unfold getyear, four_digits. rewrite <- app_assoc.
  rewrite getnum_two by (Z.to_euclidean_division_equations; lia). cbn [mbind option_bind].
  rewrite getnum_two by (Z.to_euclidean_division_equations; lia). cbn [mbind option_bind].
  do 2 f_equal. Z.to_euclidean_division_equations; lia.
Qed.

Lemma fraction_digits_dec n z : Forall is_dec (fraction_digits n z).
Proof.
  revert z. induction n as [|n IH]; intros z; cbn; [by apply Forall_nil|].
  apply Forall_app. split; [apply IH|]. apply Forall_singleton, is_dec_mod.
Qed.

Lemma fraction_digits_length n z : length (fraction_digits n z) = n.
Proof. revert z. induction n as [|n IH]; intros z; cbn; [done|]. rewrite length_app, IH. cbn. lia. Qed.

Lemma decimal_snoc ds z : decimal (ds ++ [z]) = 10 * decimal ds + z.
Proof. unfold decimal. by rewrite foldl_app. Qed.

Lemma decimal_fraction n z : 0 ≤ z < 10 ^ Z.of_nat n → decimal (fraction_digits n z) = z.
Proof.
  revert z. induction n as [|n IH]; intros z Hz; cbn [fraction_digits].
  { change (10 ^ Z.of_nat 0) with 1 in Hz. cbn. lia. }
  rewrite Nat2Z.inj_succ, Z.pow_succ_r in Hz by lia. rewrite decimal_snoc, IH.
  - Z.to_euclidean_division_equations; lia.
  - split; [apply Z.div_pos; lia|]. apply Z.div_lt_upper_bound; lia.
Qed.

Lemma decimal_zeros ds k : decimal (ds ++ replicate k 0) = decimal ds * 10 ^ Z.of_nat k.
Proof.
  revert ds. induction k as [|k IH]; intros ds; cbn [replicate].
  { rewrite app_nil_r. change (10 ^ Z.of_nat 0) with 1. lia. }
  replace (ds ++ 0 :: replicate k 0) with ((ds ++ [0]) ++ replicate k 0) by by rewrite <- app_assoc.
  rewrite IH, decimal_snoc, Nat2Z.inj_succ, Z.pow_succ_r by lia. lia.
Qed.

Lemma drop_zeros_split l : ∃ k, l = replicate k 0 ++ drop_zeros l.
Proof.
  induction l as [|z l [k IH]]; [by exists O|]. cbn.
  destruct (Z.eqb_spec z 0) as [->|]; [|by exists O].
  exists (S k). cbn. by f_equal.
Qed.

Lemma trimmed_split ns : ∃ k, fraction_digits 9 ns = trimmed ns ++ replicate k 0.
Proof.
  destruct (drop_zeros_split (reverse (fraction_digits 9 ns))) as [k Hk]. exists k.
  unfold trimmed. rewrite <- (reverse_involutive (fraction_digits 9 ns)), Hk at 1.
  by rewrite reverse_app, reverse_replicate.
Qed.

Lemma trimmed_dec ns : Forall is_dec (trimmed ns).
Proof.
  destruct (trimmed_split ns) as [k Hk]. pose proof (fraction_digits_dec 9 ns) as Hd.
  rewrite Hk in Hd. by apply Forall_app in Hd as [? _].
Qed.

Lemma nanoseconds_trimmed ns : 0 ≤ ns < Second → nanoseconds (trimmed ns) = ns.
Proof.
  intros Hns. destruct (trimmed_split ns) as [k Hk].
  pose proof (fraction_digits_length 9 ns) as Hlen. rewrite Hk in Hlen.
  rewrite length_app, length_replicate in Hlen. unfold nanoseconds. rewrite take_ge by lia.
  replace (9 - Z.of_nat (length (trimmed ns))) with (Z.of_nat k) by lia.
  rewrite <- decimal_zeros, <- Hk. by apply decimal_fraction.
Qed.

Lemma span_digits_ascii ds l :
  Forall is_dec ds → digit l = None → span_digits ((ascii_digit <$> ds) ++ l) = (ds, l).
Proof.
  intros Hds Hl. induction Hds as [|z ds Hz Hds IH].
  { destruct l as [|b l]; [done|]. cbn [fmap list_fmap app span_digits]. by rewrite Hl. }
  change ((ascii_digit <$> z :: ds) ++ l) with (ascii_digit z :: ((ascii_digit <$> ds) ++ l)).
  cbn [span_digits]. by rewrite digit_ascii, IH.
Qed.

Lemma getfraction_format ns l :
  0 ≤ ns < Second → digit l = None → (∀ l', l ≠ 46%N :: l' ∧ l ≠ 44%N :: l') →
  getfraction (format_fraction ns ++ l) = (ns, l).
Proof.
  intros Hns Hl Hsep. pose proof (nanoseconds_trimmed ns Hns) as Hval.
  unfold format_fraction. pose proof (trimmed_dec ns) as Hdec. destruct (trimmed ns) as [|z ds].
  - change (nanoseconds []) with 0 in Hval. rewrite <- Hval. cbn [app]. destruct l as [|c l]; [done|].
    cbn [getfraction]. destruct (Hsep l) as [H1 H2].
    destruct (N.eqb_spec c 46) as [->|_]; [done|]. by destruct (N.eqb_spec c 44) as [->|_].
  - cbn [app getfraction N.eqb Pos.eqb orb]. rewrite span_digits_ascii by done. by rewrite Hval.
Qed.

(** The bytes of a time's text: digits, "-", ".", ":", "T" and "Z". *)
Definition time_byte (b : N) : Prop := (45 ≤ b ≤ 58 ∨ b = 84 ∨ b = 90)%N.

Lemma two_digits_byte z : 0 ≤ z ≤ 99 → Forall time_byte (two_digits z).
Proof.
  intros Hz. unfold two_digits, ascii_digit, time_byte.
  repeat (apply Forall_cons; split); [| |by apply Forall_nil];
    Z.to_euclidean_division_equations; lia.
Qed.

Lemma format_fraction_byte ns : Forall time_byte (format_fraction ns).
Proof.
  unfold format_fraction. pose proof (trimmed_dec ns) as Hdec. destruct (trimmed ns); [by apply Forall_nil|].
  apply Forall_cons. split; [unfold time_byte; lia|]. apply Forall_fmap. eapply Forall_impl; [exact Hdec|].
  intros x Hx. unfold is_dec, ascii_digit, time_byte in *. cbn. lia.
Qed.

Lemma daysIn_le y m : daysIn y m ≤ 31.
Proof.
  unfold daysIn. destruct (isLeap y); generalize (Z.to_nat (m - 1)) as k; intros k;
    do 12 (destruct k as [|k]; [cbn; lia|]); destruct k; cbn; lia.
Qed.

Lemma time_bytes_byte y m d hh mm ss ns :
  0 ≤ y ≤ 9999 → 0 ≤ m ≤ 99 → 0 ≤ d ≤ 99 → 0 ≤ hh ≤ 99 → 0 ≤ mm ≤ 99 → 0 ≤ ss ≤ 99 →
  Forall time_byte (time_bytes y m d hh mm ss ns).
Proof.
  intros. unfold time_bytes, four_digits.
  repeat first [apply two_digits_byte; Z.to_euclidean_division_equations; lia
               |apply format_fraction_byte|apply Forall_nil; done
               |apply Forall_app; split|apply Forall_cons; split; [unfold time_byte; lia|]].
Qed.

(** The parts of an instant. *)
Lemma time_parts t :
  let s := t / Second in let sod := s mod 86400 in
  0 ≤ t mod Second < Second ∧ 0 ≤ sod / 3600 ≤ 23 ∧ 0 ≤ sod / 60 mod 60 ≤ 59 ∧ 0 ≤ sod mod 60 ≤ 59 ∧
  t = ((s / 86400 * 24 + sod / 3600) * 3600 + sod / 60 mod 60 * 60 + sod mod 60) * Second + t mod Second.
Proof.
  cbv zeta. change Second with 1000000000. set (s := t / 1000000000). set (sod := s mod 86400).
  pose proof (Z.div_mod t 1000000000 ltac:(lia)) as H1. fold s in H1.
  pose proof (Z.mod_pos_bound t 1000000000 ltac:(lia)) as B1.
  pose proof (Z.div_mod s 86400 ltac:(lia)) as H2. fold sod in H2.
  pose proof (Z.mod_pos_bound s 86400 ltac:(lia)) as B2. fold sod in B2.
  pose proof (Z.div_mod sod 60 ltac:(lia)) as H3. pose proof (Z.mod_pos_bound sod 60 ltac:(lia)) as B3.
  pose proof (Z.div_mod (sod / 60) 60 ltac:(lia)) as H4.
  pose proof (Z.mod_pos_bound (sod / 60) 60 ltac:(lia)) as B4.
  rewrite Z.div_div in H4 by lia. change (60 * 60) with 3600 in H4.
  revert H1 B1 H2 B2 H3 B3 H4 B4.
  generalize (t mod 1000000000), (s / 86400), (sod / 60 mod 60), (sod mod 60), (sod / 3600).
  generalize (sod / 60), sod, s. intros. lia.
Qed.

(** A parser reads a formatted date and time of day back. *)
Lemma ParseTime_bytes y m d hh mm ss ns :
  0 ≤ y ≤ 9999 → 1 ≤ m ≤ 12 → 1 ≤ d ≤ daysIn y m →
  0 ≤ hh ≤ 23 → 0 ≤ mm ≤ 59 → 0 ≤ ss ≤ 59 → 0 ≤ ns < Second →
  ParseTime (of_bytes (time_bytes y m d hh mm ss ns)) =
    Some ((((date_days y m d - epoch_days) * 24 + hh) * 3600 + mm * 60 + ss) * Second + ns).
Proof.
  intros Hy Hm Hd Hh Hmm Hss Hns. pose proof (daysIn_le y m) as Hd31.
  unfold ParseTime. rewrite bytes_of_bytes.
  2:{ eapply Forall_impl; [apply time_bytes_byte; lia|]. intros b Hb. unfold byte, time_byte in *. lia. }
  unfold time_bytes.
  rewrite getyear_four by done. cbn [mbind option_bind lit N.eqb Pos.eqb].
  rewrite getnum_in_two by lia. cbn [mbind option_bind lit N.eqb Pos.eqb].
  rewrite getnum_two by lia. cbn [mbind option_bind lit N.eqb Pos.eqb].
  rewrite getnum_in_two by lia. cbn [mbind option_bind lit N.eqb Pos.eqb].
  rewrite getnum_in_two by lia. cbn [mbind option_bind lit N.eqb Pos.eqb].
  rewrite getnum_in_two by lia. cbn [mbind option_bind].
  rewrite getfraction_format by (done || split; done).
  cbn [getzone N.eqb Pos.eqb mbind option_bind].
  rewrite (proj2 (Z.leb_le 1 d)), (proj2 (Z.leb_le d _)) by lia. cbn. f_equal. lia.
Qed.

Lemma year_of_neg n : n < 0 → year_of n < 0.
Proof.
  intros Hn. unfold year_of. cbv zeta.
  repeat (case_match; bool_to_prop); unfold days_before in *; Z.to_euclidean_division_equations; lia.
Qed.

(** What [FormatTime] prints is the text of a date and a time of day. *)
Lemma FormatTime_parts t text :
  FormatTime t = Some text →
  ∃ y m d hh mm ss, text = of_bytes (time_bytes y m d hh mm ss (t mod Second)) ∧
    0 ≤ y ≤ 9999 ∧ 1 ≤ m ≤ 12 ∧ 1 ≤ d ≤ daysIn y m ∧
    0 ≤ hh ≤ 23 ∧ 0 ≤ mm ≤ 59 ∧ 0 ≤ ss ≤ 59 ∧ 0 ≤ t mod Second < Second ∧
    (((date_days y m d - epoch_days) * 24 + hh) * 3600 + mm * 60 + ss) * Second + t mod Second = t.
Proof.
  unfold FormatTime. pose proof (time_parts t) as Hp. cbv zeta in Hp |- *.
  destruct Hp as (Hns & Hh & Hm & Hs & Hsum). set (n := t / Second / 86400 + epoch_days) in *.
  destruct (Z.lt_ge_cases n 0) as [Hneg|Hpos].
  { unfold civil. destruct (cut_months _ _ _). pose proof (year_of_neg n Hneg).
    case_match eqn:E; [bool_to_prop; lia|done]. }
  destruct (civil n) as [[y m] d] eqn:Hciv.
  destruct (civil_correct n y m d Hpos Hciv) as (Hy & Hm12 & Hd & Hdate).
  destruct ((0 <=? y) && (y <=? 9999)) eqn:E; [|done]. bool_to_prop. intros [= <-].
  eexists y, m, d, _, _, _. split; [reflexivity|]. split_and!; try done; try lia.
Qed.

(** What is printed is read back: the same instant, to the nanosecond. *)
Lemma ParseTime_FormatTime t text : FormatTime t = Some text → ParseTime text = Some t.
Proof.
  intros (y & m & d & hh & mm & ss & -> & Hy & Hm & Hd & Hh & Hmm & Hss & Hns & Heq)%FormatTime_parts.
  rewrite ParseTime_bytes by done. by f_equal.
Qed.

(** The bytes of a time's text. *)
Lemma FormatTime_byte t text : FormatTime t = Some text → Forall time_byte (bytes text).
Proof.
  intros (y & m & d & hh & mm & ss & -> & Hy & Hm & Hd & Hh & Hmm & Hss & Hns & Heq)%FormatTime_parts.
  pose proof (daysIn_le y m). pose proof (time_bytes_byte y m d hh mm ss (t mod Second)
    ltac:(lia) ltac:(lia) ltac:(lia) ltac:(lia) ltac:(lia) ltac:(lia)) as Hall.
  rewrite bytes_of_bytes; [done|]. eapply Forall_impl; [exact Hall|].
  intros b Hb. unfold byte, time_byte in *. lia.
Qed.

(** Times from year 0 to year 9999 have a text. *)
Lemma FormatTime_total t :
  zero_time ≤ t → t / Second / 86400 + epoch_days < days_before 10000 → is_Some (FormatTime t).
Proof.
  intros Ht Hmax. unfold FormatTime. cbv zeta.
  set (n := t / Second / 86400 + epoch_days) in *.
  assert (Hn : 0 ≤ n).
  { unfold n, epoch_days. rewrite zero_time_value in Ht. change Second with 1000000000 in *.
    Z.to_euclidean_division_equations; lia. }
  destruct (year_of_bounds n Hn) as (Hy & Hlo & _).
  unfold civil. destruct (cut_months _ _ _).
  assert (Hle : year_of n ≤ 9999).
  { destruct (Z.le_gt_cases (year_of n) 9999); [done|].
    assert (days_before 10000 ≤ days_before (year_of n)); [|lia].
    unfold days_before. Z.to_euclidean_division_equations; lia. }
  rewrite (proj2 (Z.leb_le 0 _)), (proj2 (Z.leb_le _ 9999)) by done. by eexists.
Qed.

End Rfc3339.
