(* ===== verification/Classifier.v ===== *)
(** * The classifier: from an alert's labels to a remedy decision

    Models operator/internal/classifier/classifier.go: the remedy kinds, their
    names, the decision record and [Classify].  A [map[string]string] lookup of
    a missing key is the empty string. *)

From S2P Require Import Prelude GoText.

Module Classifier.

(** ** Data *)

Inductive Kind := NoRemedy | Rollback | ScaleUp | CircuitBreak.

#[export] Instance Kind_eq_dec : EqDecision Kind.
Proof. solve_decision. Defined.

(** [iota]: the numbers behind the constants. *)
Definition Kind_to_nat (k : Kind) : nat :=
  match k with NoRemedy => 0 | Rollback => 1 | ScaleUp => 2 | CircuitBreak => 3 end.

#[export] Instance Kind_countable : Countable Kind.
Proof.
  refine (inj_countable' Kind_to_nat
    (λ n, match n with 0 => NoRemedy | 1 => Rollback | 2 => ScaleUp | _ => CircuitBreak end) _).
  by intros [].
Defined.

Definition Kind_String (k : Kind) : string :=
  match k with
  | Rollback => "rollback"
  | ScaleUp => "scale-up"
  | CircuitBreak => "circuit-break"
  | NoRemedy => "no-remedy"
  end.

Record Decision := mkDecision {
  d_Kind : Kind;
  d_Target : string;
  d_Reason : string;
}.

(** ** Classification *)

(** [labels[k]] on a Go map: the zero value when the key is missing. *)
Definition label (labels : gmap string string) (k : string) : string :=
  default "" (labels !! k).

(** [a == b] on strings. *)
Definition streq (a b : string) : bool := bool_decide (a = b).

Section Classify.
Context {UT : UnicodeTables}.

Definition Classify (labels : gmap string string) : Decision :=
  let severity := label labels "severity" in
  let service := label labels "service" in
  let slo := label labels "slo" in
  let burn := label labels "burn_speed" in
  if negb (streq severity "page") then
    mkDecision NoRemedy ""
      ("severity=" +:+ Quote severity +:+ ", only page is auto-actioned")
  else if streq service "email-worker" then
    mkDecision CircuitBreak "orders-svc-flags"
      ("email-worker SLO " +:+ Quote slo +:+
       " burning; pause orders-svc publish to drain backlog")
  else if streq service "orders" && (streq burn "fast" || streq slo "orders_latency") then
    mkDecision Rollback "orders-svc"
      ("orders SLO " +:+ Quote slo +:+ " burning fast; rollback to previous stable")
  else if streq service "payments" && streq burn "fast" then
    mkDecision ScaleUp "payments-svc"
      ("payments SLO " +:+ Quote slo +:+ " burning fast; scale up to absorb load")
  else if streq service "inventory" && streq burn "fast" then
    mkDecision ScaleUp "inventory-svc"
      ("inventory SLO " +:+ Quote slo +:+ " burning fast; scale up")
  else mkDecision NoRemedy "" "no rule matched alert labels".
End Classify.

(** ** The policy as a table

    The rules of the operator as independent facts about an alert, with no
    order between them.  A paging alert falls under at most one of them. *)

Inductive policy (labels : gmap string string) : Kind → string → Prop :=
  | policy_email :
      label labels "severity" = "page" → label labels "service" = "email-worker" →
      policy labels CircuitBreak "orders-svc-flags"
  | policy_orders_fast :
      label labels "severity" = "page" → label labels "service" = "orders" →
      label labels "burn_speed" = "fast" → policy labels Rollback "orders-svc"
  | policy_orders_latency :
      label labels "severity" = "page" → label labels "service" = "orders" →
      label labels "slo" = "orders_latency" → policy labels Rollback "orders-svc"
  | policy_payments :
      label labels "severity" = "page" → label labels "service" = "payments" →
      label labels "burn_speed" = "fast" → policy labels ScaleUp "payments-svc"
  | policy_inventory :
      label labels "severity" = "page" → label labels "service" = "inventory" →
      label labels "burn_speed" = "fast" → policy labels ScaleUp "inventory-svc".

Lemma streq_true a b : streq a b = true ↔ a = b.
Proof. apply bool_decide_eq_true. Qed.

Lemma streq_false a b : streq a b = false ↔ a ≠ b.
Proof. apply bool_decide_eq_false. Qed.

(** Turns the tests of the classifier into equations between labels. *)
Ltac label_tests :=
  bool_to_prop;
  repeat match goal with
  | H : streq _ _ = true |- _ => apply streq_true in H
  | H : streq _ _ = false |- _ => apply streq_false in H
  | H : _ || _ = true |- _ => apply orb_true_iff in H as [H|H]
  | H : _ && _ = false |- _ => apply andb_false_iff in H as [H|H]
  | H : _ || _ = false |- _ => apply orb_false_iff in H as [? ?]
  end.

Section Properties.
Context {UT : UnicodeTables}.
Implicit Types (labels : gmap string string) (k : Kind) (t : string).

Lemma policy_acts labels k t : policy labels k t → k ≠ NoRemedy.
Proof. by destruct 1. Qed.

(** The rules do not overlap in what they ask for. *)
Lemma policy_functional labels k1 t1 k2 t2 :
  policy labels k1 t1 → policy labels k2 t2 → k1 = k2 ∧ t1 = t2.
Proof. destruct 1; destruct 1; first [done | congruence]. Qed.

Lemma Classify_sound labels :
  d_Kind (Classify labels) ≠ NoRemedy →
  policy labels (d_Kind (Classify labels)) (d_Target (Classify labels)).
Proof.
  unfold Classify. intros Hk. repeat case_match; cbn in *; try done.
  all: label_tests; eauto using policy.
Qed.

Lemma Classify_complete labels k t :
  policy labels k t → d_Kind (Classify labels) = k ∧ d_Target (Classify labels) = t.
Proof.
  unfold Classify. intros Hp.
  repeat case_match; cbn in *; label_tests; destruct Hp; first [done | exfalso; congruence].
Qed.

(** A decision to act names the kind and target of a rule of the policy, and
    every rule is acted on: the ordered switch computes the unordered table. *)
Lemma Classify_policy labels k t :
  k ≠ NoRemedy →
  (d_Kind (Classify labels) = k ∧ d_Target (Classify labels) = t) ↔ policy labels k t.
Proof.
  intros Hk. split; [|apply Classify_complete].
  intros [<- <-]. by apply Classify_sound.
Qed.

Lemma Classify_kinds labels :
  d_Kind (Classify labels) ∈ [NoRemedy; Rollback; ScaleUp; CircuitBreak].
Proof. destruct (d_Kind (Classify labels)); set_solver. Qed.

(** (C18) Refinement to the policy table.  The decision acts with kind [k] on
    object [t] exactly when some rule of the table asks for it; the kind and
    target of an acting decision are thus determined by the labels alone, the
    order of the switch does not matter, and [NoRemedy] is returned, with an
    empty target, exactly when no rule applies. *)
Theorem Classify_refines_policy labels :
  (∀ k t, k ≠ NoRemedy →
     (d_Kind (Classify labels) = k ∧ d_Target (Classify labels) = t) ↔ policy labels k t) ∧
  ((d_Kind (Classify labels) = NoRemedy ∧ d_Target (Classify labels) = "") ↔
   ∀ k t, ¬ policy labels k t).
Proof.
  split; [intros k t; apply Classify_policy|]. split.
  - intros [HN _] k t Hp. pose proof (policy_acts _ _ _ Hp).
    apply Classify_complete in Hp as [? _]. congruence.
  - intros Hno. destruct (decide (d_Kind (Classify labels) = NoRemedy)) as [HN|HN].
    + split; [done|]. revert HN. unfold Classify. by repeat case_match.
    + by apply Classify_sound, Hno in HN.
Qed.

(** Slow burns and tickets are left to humans.  A decision to act
    requires severity [page]; and a paging alert that burns slowly is acted on
    only on behalf of the email worker or of the orders latency objective. *)
Theorem Classify_leaves_humans_alone labels :
  (label labels "severity" ≠ "page" → d_Kind (Classify labels) = NoRemedy) ∧
  (label labels "burn_speed" = "slow" → label labels "service" ≠ "email-worker" →
   label labels "slo" ≠ "orders_latency" → d_Kind (Classify labels) = NoRemedy).
Proof.
  assert (Hd : ∀ P : Prop, (∀ k t, policy labels k t → P) →
            d_Kind (Classify labels) = NoRemedy ∨ P).
  { intros P HP. destruct (decide (d_Kind (Classify labels) = NoRemedy)) as [HN|HN]; [by left|].
    right. by eapply HP, Classify_sound. }
  split.
  - intros Hs. destruct (Hd False) as [?|[]]; [|done]. by intros ?? [].
  - intros Hb Hserv Hslo. destruct (Hd False) as [?|[]]; [|done].
    intros ?? []; congruence.
Qed.
End Properties.

(** ** The alert rules shipped with the repository

    The routing labels of the alerts of k8s/prometheus/rules, and the remedy the
    map of docs/runbooks/README.md documents for each. *)

Record alert_rule := {
  alert_name : string;
  alert_labels : gmap string string;
  alert_remedy : Kind;
}.

Definition rule_labels (severity service slo burn : string) : gmap string string :=
  {[ "severity" := severity; "service" := service; "slo" := slo; "burn_speed" := burn ]}.

Definition rule_labels_no_burn (severity service slo : string) : gmap string string :=
  {[ "severity" := severity; "service" := service; "slo" := slo ]}.

Definition orders_rules : list alert_rule :=
  [ {| alert_name := "OrdersSLOFastBurn"; alert_remedy := Rollback;
       alert_labels := rule_labels "page" "orders" "orders_availability" "fast" |};
    {| alert_name := "OrdersSLOSlowBurn"; alert_remedy := NoRemedy;
       alert_labels := rule_labels "ticket" "orders" "orders_availability" "slow" |};
    {| alert_name := "OrdersLatencyHigh"; alert_remedy := Rollback;
       alert_labels := rule_labels_no_burn "page" "orders" "orders_latency" |} ].

Definition payments_rules : list alert_rule :=
  [ {| alert_name := "PaymentsSLOFastBurn"; alert_remedy := ScaleUp;
       alert_labels := rule_labels "page" "payments" "payments_availability" "fast" |};
    {| alert_name := "PaymentsSLOSlowBurn"; alert_remedy := NoRemedy;
       alert_labels := rule_labels "ticket" "payments" "payments_availability" "slow" |} ].

Definition inventory_rules : list alert_rule :=
  [ {| alert_name := "InventorySLOFastBurn"; alert_remedy := ScaleUp;
       alert_labels := rule_labels "page" "inventory" "inventory_availability" "fast" |} ].

Definition email_rules : list alert_rule :=
  [ {| alert_name := "EmailWorkerBacklogGrowing"; alert_remedy := CircuitBreak;
       alert_labels := rule_labels_no_burn "page" "email-worker" "email_delivery_within_60s" |};
    {| alert_name := "EmailWorkerOOMRestart"; alert_remedy := CircuitBreak;
       alert_labels := rule_labels_no_burn "page" "email-worker" "email_delivery_within_60s" |} ].

Definition shipped_rules : list alert_rule :=
  orders_rules ++ payments_rules ++ inventory_rules ++ email_rules.

(** The labels [Classify] reads. *)
Definition routing_labels : list string := ["severity"; "service"; "slo"; "burn_speed"].

(** An alert instance of a rule: Prometheus adds the labels of the series (pod,
    namespace, alertname, ...) to the rule's own. *)
Definition instance_of (rule : alert_rule) (labels : gmap string string) : Prop :=
  ∀ k, k ∈ routing_labels → labels !! k = alert_labels rule !! k.

Section Shipped.
Context {UT : UnicodeTables}.

(** The decision depends on the four routing labels only. *)
Lemma Classify_ext (l1 l2 : gmap string string) :
  (∀ k, k ∈ routing_labels → l1 !! k = l2 !! k) → Classify l1 = Classify l2.
Proof.
  intros Heq. unfold Classify, label.
  by rewrite !(Heq "severity"), !(Heq "service"), !(Heq "slo"), !(Heq "burn_speed")
    by (unfold routing_labels; set_solver).
Qed.

(** The classifier agrees with the runbook map: every alert instance of
    every rule shipped in k8s/prometheus/rules, whatever further labels its
    series carries, gets the remedy docs/runbooks/README.md lists for it. *)
Theorem Classify_shipped_rules :
  Forall (λ rule, ∀ labels, instance_of rule labels →
            d_Kind (Classify labels) = alert_remedy rule) shipped_rules.
Proof.
  repeat (apply Forall_cons; split; [intros labels Hi; by rewrite (Classify_ext _ _ Hi)|]).
  apply Forall_nil_2.
Qed.
End Shipped.

End Classifier.
