(* ===== verification/Http.v ===== *)
(** * net/http as the program uses it

    - the calls a handler makes on its [http.ResponseWriter], and what the
      server's own writer does with them;
    - [http.Error];
    - [http.ServeMux] with the pattern syntax, conflict check and precedence of
      Go 1.22 and later, for patterns without host and without wildcards. *)

From Stdlib Require Import ZArith Lia Ascii.
From S2P Require Import Prelude.

Module Http.
Local Open Scope Z_scope.

(** ** Status codes *)

Definition StatusOK : Z := 200.
Definition StatusAccepted : Z := 202.
Definition StatusBadRequest : Z := 400.
Definition StatusPaymentRequired : Z := 402.
Definition StatusNotFound : Z := 404.
Definition StatusMethodNotAllowed : Z := 405.
Definition StatusBadGateway : Z := 502.
Definition StatusServiceUnavailable : Z := 503.

(** ** Response writers

    A handler drives its writer with these calls.  The program's handlers ignore
    their results, so a handler is the list of calls it makes. *)

Inductive rw_op :=
  | SetHeader (k v : string)
  | DelHeader (k : string)
  | WriteHeader (code : Z)
  | Write (body : string).

(** The [http.ResponseWriter] interface: how a writer of type [R] reacts. *)
Class ResponseWriter (R : Type) := {
  rw_SetHeader : string → string → R → R;
  rw_DelHeader : string → R → R;
  rw_WriteHeader : Z → R → R;
  rw_Write : string → R → R;
}.

Definition rw_do `{ResponseWriter R} (r : R) (op : rw_op) : R :=
  match op with
  | SetHeader k v => rw_SetHeader k v r
  | DelHeader k => rw_DelHeader k r
  | WriteHeader c => rw_WriteHeader c r
  | Write b => rw_Write b r
  end.

Definition rw_run `{ResponseWriter R} (ops : list rw_op) (r : R) : R := foldl rw_do r ops.

(** [http.Error(w, msg, code)]. *)
Definition http_Error (msg : string) (code : Z) : list rw_op :=
  [ DelHeader "Content-Length";
    SetHeader "Content-Type" "text/plain; charset=utf-8";
    SetHeader "X-Content-Type-Options" "nosniff";
    WriteHeader code;
    Write (msg +:+ String "010"%char "") ].

(** ** The server's writer (net/http's [response])

    The header map is frozen when the header is written; a second [WriteHeader]
    is ignored; an informational code is sent at once and is not final; [Write]
    without a header writes status 200 first; codes that allow no body drop it. *)

Record response := mkResponse {
  wroteHeader : bool;
  status : Z;
  handlerHeader : gmap string string;
  sentHeader : gmap string string;
  informational : list Z;
  body : string;
}.

Definition new_response : response := mkResponse false 0 ∅ ∅ [] "".

Definition is_informational (c : Z) : bool := (100 <=? c) && (c <=? 199) && negb (c =? 101).

Definition bodyAllowed (c : Z) : bool := (200 <=? c) && negb (c =? 204) && negb (c =? 304).

Definition response_WriteHeader (c : Z) (r : response) : response :=
  if wroteHeader r then r
  else if is_informational c then
    mkResponse false (status r) (handlerHeader r) (sentHeader r) (informational r ++ [c]) (body r)
  else mkResponse true c (handlerHeader r) (handlerHeader r) (informational r) (body r).

Definition response_Write (b : string) (r : response) : response :=
  let r' := if wroteHeader r then r else response_WriteHeader StatusOK r in
  if bodyAllowed (status r') then
    mkResponse (wroteHeader r') (status r') (handlerHeader r') (sentHeader r')
      (informational r') (body r' +:+ b)
  else r'.

Definition response_with_header (h : gmap string string) (r : response) : response :=
  mkResponse (wroteHeader r) (status r) h (sentHeader r) (informational r) (body r).

#[export] Instance response_writer : ResponseWriter response := {
  rw_SetHeader k v r := response_with_header (<[k := v]> (handlerHeader r)) r;
  rw_DelHeader k r := response_with_header (delete k (handlerHeader r)) r;
  rw_WriteHeader := response_WriteHeader;
  rw_Write := response_Write;
}.

(** When the handler returns, a header that was never written is written as 200. *)
Definition finishRequest (r : response) : response :=
  if wroteHeader r then r else response_WriteHeader StatusOK r.

(** What the client receives from a handler that makes the calls [ops]. *)
Definition serve (ops : list rw_op) : response := finishRequest (rw_run ops new_response).

(** The status a sequence of calls settles on: the code of the first final
    [WriteHeader], or 200 if a [Write] or the end of the handler comes first. *)
Fixpoint final_status (ops : list rw_op) : Z :=
  match ops with
  | [] => StatusOK
  | WriteHeader c :: ops' => if is_informational c then final_status ops' else c
  | Write _ :: _ => StatusOK
  | _ :: ops' => final_status ops'
  end.

Lemma rw_run_app `{ResponseWriter R} ops1 ops2 (r : R) :
  rw_run (ops1 ++ ops2) r = rw_run ops2 (rw_run ops1 r).
Proof. apply foldl_app. Qed.

(** Once the header is out, the status does not change. *)
Lemma rw_run_wrote ops r :
  wroteHeader r = true →
  wroteHeader (rw_run ops r) = true ∧ status (rw_run ops r) = status r.
Proof.
  revert r. induction ops as [|op ops IH]; intros r Hr; [done|]. cbn.
  assert (Hop : wroteHeader (rw_do r op) = true ∧ status (rw_do r op) = status r).
  { destruct op; cbn; unfold response_WriteHeader, response_Write; rewrite ?Hr; [done..|].
    by case_match. }
  destruct Hop as [Hw Hs]. destruct (IH _ Hw) as [Hw' Hs'].
  split; [exact Hw'|]. by transitivity (status (rw_do r op)).
Qed.

Lemma serve_status_gen ops r :
  wroteHeader r = false → status (finishRequest (rw_run ops r)) = final_status ops.
Proof.
  revert r. induction ops as [|op ops IH]; intros r Hr.
  { unfold finishRequest. cbn. rewrite Hr. unfold response_WriteHeader. by rewrite Hr. }
  cbn [rw_run foldl final_status]. destruct op as [k v|k|c|b]; cbn.
  1,2: by apply IH.
  - unfold response_WriteHeader. rewrite Hr. case_match; [by apply IH|].
    unfold finishRequest.
    match goal with |- context [foldl _ ?r0 ops] => destruct (rw_run_wrote ops r0) as [Hw Hs]; [done|] end.
    unfold rw_run in *. by rewrite Hw, Hs.
  - unfold response_Write, response_WriteHeader. rewrite Hr. cbn.
    unfold finishRequest.
    match goal with |- context [foldl _ ?r0 ops] => destruct (rw_run_wrote ops r0) as [Hw Hs]; [done|] end.
    unfold rw_run in *. by rewrite Hw, Hs.
Qed.

(** The status on the wire is the one [final_status] reads off the calls. *)
Lemma serve_status ops : status (serve ops) = final_status ops.
Proof. by apply serve_status_gen. Qed.

Lemma final_status_http_Error msg code ops :
  is_informational code = false → final_status (http_Error msg code ++ ops) = code.
Proof. intros H. cbn. by rewrite H. Qed.

End Http.
