(* ===== verification/Mux.v ===== *)
(** * http.ServeMux with method patterns

    Registration, conflict detection and matching as net/http has done them since
    Go 1.22, for patterns of the form ["[METHOD ]/path"] without host, wildcard or
    percent escape and with a clean path, which is every pattern the program
    registers.  Requests have clean paths too, and no pattern ends in a slash
    except the root, so the redirects of [ServeMux] do not arise. *)

From Stdlib Require Import Ascii.
From S2P Require Import Prelude Http.
Import Http.

Module Mux.

(** ** Patterns *)

Inductive segment := Lit (s : string) | Multi.

#[export] Instance segment_eq_dec : EqDecision segment.
Proof. solve_decision. Defined.

Record pattern := mkPattern { p_method : string; p_segs : list segment }.

#[export] Instance pattern_eq_dec : EqDecision pattern.
Proof. solve_decision. Defined.

(** [strings.Split] on one byte. *)
Fixpoint split (c : ascii) (s : string) : list string :=
  match s with
  | EmptyString => [EmptyString]
  | String d s' =>
    if bool_decide (c = d) then EmptyString :: split c s'
    else match split c s' with
         | [] => [String d EmptyString]
         | w :: ws => String d w :: ws
         end
  end.

(** The segments of a pattern's path after its leading slash: a final empty one
    is a trailing slash, which matches any remainder. *)
Fixpoint segments (ws : list string) : option (list segment) :=
  match ws with
  | [] => None
  | [w] => Some [if bool_decide (w = "") then Multi else Lit w]
  | w :: ws' => if bool_decide (w = "") then None else (Lit w ::.) <$> segments ws'
  end.

Definition parse_path (method path : string) : option pattern :=
  match split "/" path with
  | "" :: ws => mkPattern method <$> segments ws
  | _ => None
  end.

Definition parsePattern (s : string) : option pattern :=
  match split " " s with
  | [path] => parse_path "" path
  | [method; path] => if bool_decide (method = "") then None else parse_path method path
  | _ => None
  end.

(** ** Conflicts (net/http's pattern.go) *)

Inductive relationship := equivalent | moreGeneral | moreSpecific | disjoint | overlaps.

#[export] Instance relationship_eq_dec : EqDecision relationship.
Proof. solve_decision. Defined.

Definition inverseRelationship (r : relationship) : relationship :=
  match r with moreGeneral => moreSpecific | moreSpecific => moreGeneral | _ => r end.

Definition combineRelationships (r1 r2 : relationship) : relationship :=
  match r1 with
  | equivalent => r2
  | disjoint => disjoint
  | overlaps => if bool_decide (r2 = disjoint) then disjoint else overlaps
  | moreGeneral | moreSpecific =>
    if bool_decide (r2 = equivalent) then r1
    else if bool_decide (r2 = inverseRelationship r1) then overlaps else r2
  end.

Definition compareMethods (m1 m2 : string) : relationship :=
  if bool_decide (m1 = m2) then equivalent
  else if bool_decide (m1 = "") then moreGeneral
  else if bool_decide (m2 = "") then moreSpecific
  else if bool_decide (m1 = "GET" ∧ m2 = "HEAD") then moreGeneral
  else if bool_decide (m2 = "GET" ∧ m1 = "HEAD") then moreSpecific
  else disjoint.

Definition compareSegments (s1 s2 : segment) : relationship :=
  match s1, s2 with
  | Multi, Multi => equivalent
  | Multi, Lit _ => moreGeneral
  | Lit _, Multi => moreSpecific
  | Lit a, Lit b => if bool_decide (a = b) then equivalent else disjoint
  end.

Fixpoint compare_from (rel : relationship) (l1 l2 : list segment) (m1 m2 : bool)
    : relationship :=
  match l1, l2 with
  | [], [] => rel
  | [], _ :: _ => if m1 then combineRelationships rel moreGeneral else disjoint
  | _ :: _, [] => if m2 then combineRelationships rel moreSpecific else disjoint
  | s1 :: l1', s2 :: l2' =>
    let rel' := combineRelationships rel (compareSegments s1 s2) in
    if bool_decide (rel' = disjoint) then disjoint else compare_from rel' l1' l2' m1 m2
  end.

Definition ends_multi (l : list segment) : bool := bool_decide (last l = Some Multi).

Definition comparePaths (l1 l2 : list segment) : relationship :=
  if negb (Nat.eqb (length l1) (length l2)) && negb (ends_multi l1) && negb (ends_multi l2)
  then disjoint
  else compare_from equivalent l1 l2 (ends_multi l1) (ends_multi l2).

Definition comparePathsAndMethods (p1 p2 : pattern) : relationship :=
  let mrel := compareMethods (p_method p1) (p_method p2) in
  if bool_decide (mrel = disjoint) then disjoint
  else combineRelationships mrel (comparePaths (p_segs p1) (p_segs p2)).

Definition conflictsWith (p1 p2 : pattern) : bool :=
  bool_decide (comparePathsAndMethods p1 p2 = equivalent) ||
  bool_decide (comparePathsAndMethods p1 p2 = overlaps).

(** ** The mux *)

Section Mux.
Context {H : Type}.

Definition mux : Type := list (pattern * H).

Definition NewServeMux : mux := [].

(** [mux.Handle(pattern, handler)]: [None] is the panic on a pattern that does
    not parse or that conflicts with a registered one. *)
Definition Handle (s : string) (h : H) (m : mux) : option mux :=
  match parsePattern s with
  | None => None
  | Some p => if existsb (λ q, conflictsWith p (fst q)) m then None else Some (m ++ [(p, h)])
  end.

(** The segments of a request path; a trailing slash is a segment of its own. *)
Fixpoint path_segments (ws : list string) : list string :=
  match ws with
  | [] => []
  | [w] => [if bool_decide (w = "") then "/" else w]
  | w :: ws' => w :: path_segments ws'
  end.

Definition request_segments (path : string) : list string :=
  match split "/" path with
  | "" :: ws => path_segments ws
  | _ => []
  end.

(** What is left of the patterns whose next segment is the literal [s]. *)
Definition child (s : string) (ps : list (list segment * H)) : list (list segment * H) :=
  omap (λ '(l, h), match l with
                   | Lit s' :: l' => if bool_decide (s = s') then Some (l', h) else None
                   | _ => None
                   end) ps.

Definition find_segs (l : list segment) (ps : list (list segment * H)) : option H :=
  snd <$> head (filter (λ p, fst p = l) ps).

(** The tree search of routing_tree.go: a literal child first, then the multi. *)
Fixpoint matchPath (path : list string) (ps : list (list segment * H)) : option H :=
  match path with
  | [] => find_segs [] ps
  | s :: path' =>
    match matchPath path' (child s ps) with
    | Some h => Some h
    | None => find_segs [Multi] ps
    end
  end.

Definition of_method (method : string) (m : mux) : list (list segment * H) :=
  omap (λ '(p, h), if bool_decide (p_method p = method) then Some (p_segs p, h) else None) m.

Definition orElse (a b : option H) : option H := match a with Some _ => a | None => b end.

Definition matchMethodAndPath (method : string) (path : list string) (m : mux) : option H :=
  orElse (matchPath path (of_method method m))
    (orElse (if bool_decide (method = "HEAD") then matchPath path (of_method "GET" m) else None)
            (matchPath path (of_method "" m))).

Inductive routed := Found (h : H) | MethodNotAllowed | NotFound.

(** Some pattern matches the path under another method. *)
Definition matchingMethods (path : list string) (m : mux) : bool :=
  existsb (λ '(p, h), match matchPath path [(p_segs p, h)] with Some _ => true | None => false end) m.

Definition findHandler (method path : string) (m : mux) : routed :=
  let segs := request_segments path in
  match matchMethodAndPath method segs m with
  | Some h => Found h
  | None => if matchingMethods segs m then MethodNotAllowed else NotFound
  end.
End Mux.

Arguments mux : clear implicits.
Arguments routed : clear implicits.

(** What the mux itself answers when no handler is found. *)
Definition mux_error (status : Z) : list rw_op :=
  http_Error (if (status =? 405)%Z then "Method Not Allowed" else "404 page not found") status.

(** [mux.ServeHTTP]: the calls made on the writer. *)
Definition ServeHTTP {S R} (m : mux (R → M S (list rw_op))) (method path : string) (r : R)
    : M S (list rw_op) :=
  match findHandler method path m with
  | Found h => h r
  | MethodNotAllowed => mret (mux_error StatusMethodNotAllowed)
  | NotFound => mret (mux_error StatusNotFound)
  end.

(** Registers a list of routes in order. *)
Fixpoint register_all {H} (routes : list (string * H)) (m : mux H) : option (mux H) :=
  match routes with
  | [] => Some m
  | (s, h) :: rs => m' ← Handle s h m; register_all rs m'
  end.

(** ** Matching literal routes *)

Section Facts.
Context {H : Type}.

Lemma matchPath_nil (path : list string) : matchPath path ([] : list (list segment * H)) = None.
Proof. induction path as [|s path IH]; [done|]. cbn. by rewrite IH. Qed.

Lemma matchPath_lit (path : list string) (p : string) (h : H) :
  matchPath path [([Lit p], h)] = if bool_decide (path = [p]) then Some h else None.
Proof.
  destruct path as [|s path]; [done|]. cbn. case_bool_decide as Hs.
  - subst s. destruct path as [|s2 path]; cbn; [by rewrite bool_decide_eq_true_2|].
    rewrite matchPath_nil. by rewrite bool_decide_eq_false_2.
  - rewrite matchPath_nil. rewrite bool_decide_eq_false_2; [done|congruence].
Qed.

(** One GET and one POST route on two paths. *)
Definition get_post (p1 p2 : string) (h1 h2 : H) : mux H :=
  [(mkPattern "GET" [Lit p1], h1); (mkPattern "POST" [Lit p2], h2)].

Lemma get_post_of_method method p1 p2 h1 h2 :
  of_method method (get_post p1 p2 h1 h2) =
  if bool_decide (method = "GET") then [([Lit p1], h1)]
  else if bool_decide (method = "POST") then [([Lit p2], h2)] else [].
Proof.
  unfold of_method, get_post. cbn [omap list_omap p_method p_segs].
  repeat case_bool_decide; congruence.
Qed.

Lemma get_post_match method path p1 p2 h1 h2 :
  matchMethodAndPath method path (get_post p1 p2 h1 h2) =
  if bool_decide (method = "GET" ∨ method = "HEAD")
  then if bool_decide (path = [p1]) then Some h1 else None
  else if bool_decide (method = "POST" ∧ path = [p2]) then Some h2 else None.
Proof.
  unfold matchMethodAndPath. rewrite !get_post_of_method.
  rewrite (bool_decide_eq_false_2 ("" = "GET")), (bool_decide_eq_false_2 ("" = "POST")),
    (bool_decide_eq_true_2 ("GET" = "GET")), matchPath_nil by done.
  repeat case_bool_decide; rewrite ?matchPath_nil, ?matchPath_lit; cbn;
    repeat case_bool_decide; naive_solver.
Qed.

Lemma get_post_methods path p1 p2 h1 h2 :
  matchingMethods path (get_post p1 p2 h1 h2) = bool_decide (path = [p1] ∨ path = [p2]).
Proof.
  unfold matchingMethods, get_post. cbn [existsb p_segs]. rewrite !matchPath_lit.
  repeat case_bool_decide; naive_solver.
Qed.

(** Literal routes for any method. *)
Definition any_method (routes : list (string * H)) : mux H :=
  (λ r, (mkPattern "" [Lit r.1], r.2)) <$> routes.

Definition lit_entries (routes : list (string * H)) : list (list segment * H) :=
  (λ r, ([Lit r.1], r.2)) <$> routes.

(** The handler registered for a one-segment path. *)
Fixpoint route_of (path : list string) (routes : list (string * H)) : option H :=
  match routes with
  | [] => None
  | (p, h) :: rs => if bool_decide (path = [p]) then Some h else route_of path rs
  end.

Lemma any_of_method method routes :
  of_method method (any_method routes) =
  if bool_decide (method = "") then lit_entries routes else [].
Proof.
  unfold of_method. induction routes as [|r rs IH]; cbn; [by case_bool_decide|].
  unfold any_method in IH. rewrite IH. repeat case_bool_decide; first [done|congruence].
Qed.

Lemma matchPath_lits path routes : matchPath path (lit_entries routes) = route_of path routes.
Proof.
  assert (Hm : find_segs [Multi] (lit_entries routes) = None).
  { unfold find_segs. induction routes as [|r rs IH]; [done|]. exact IH. }
  destruct path as [|s path]; cbn.
  { unfold find_segs. clear Hm. induction routes as [|[p h] rs IH]; [done|]. cbn.
    rewrite bool_decide_eq_false_2 by done. exact IH. }
  rewrite Hm. clear Hm. induction routes as [|[p h] rs IH]; [by rewrite matchPath_nil|].
  cbn. case_bool_decide as Hs.
  - subst s. destruct path as [|s2 path]; cbn.
    + by rewrite bool_decide_eq_true_2.
    + rewrite bool_decide_eq_false_2 by done. exact IH.
  - rewrite (bool_decide_eq_false_2 (s :: path = [p])) by congruence. exact IH.
Qed.

Lemma any_method_routed method path routes :
  findHandler method path (any_method routes) =
  match route_of (request_segments path) routes with Some h => Found h | None => NotFound end.
Proof.
  unfold findHandler, matchMethodAndPath. rewrite !any_of_method.
  generalize (request_segments path) as segs. intros segs.
  rewrite (bool_decide_eq_true_2 ("" = "")), (bool_decide_eq_false_2 ("GET" = "")) by done.
  assert (Hmm : route_of segs routes = None → matchingMethods segs (any_method routes) = false).
  { unfold matchingMethods. induction routes as [|[p h] rs IH]; [done|]. cbn -[matchPath].
    rewrite matchPath_lit. case_bool_decide; [done|]. exact IH. }
  repeat case_bool_decide; rewrite ?matchPath_nil, ?matchPath_lits;
    destruct (route_of segs routes); cbn; by rewrite ?Hmm.
Qed.

End Facts.

(** The clash the router reports as "GET / matches fewer methods than /x, but has
    a more general path pattern". *)
Lemma get_root_conflicts w :
  conflictsWith (mkPattern "GET" [Multi]) (mkPattern "" [Lit w]) = true.
Proof. done. Qed.

End Mux.
