(* ===== verification/Json.v ===== *)
(** * JSON documents

    The document type, a parser for the grammar of RFC 8259 (strings keep their
    UTF-8 bytes; numbers keep their text) and JSON merge patch (RFC 7386), which
    the operator's status patch is written in. *)

From Stdlib Require Import NArith Lia Ascii.
From S2P Require Import Prelude GoText.

Module Json.

#[warnings="-register-all"]
Inductive json :=
  | JNull
  | JBool (b : bool)
  | JNum (lexeme : string)
  | JStr (s : string)
  | JArr (l : list json)
  | JObj (fields : list (string * json)).

(** The value of a field; of repeated names the first. *)
Fixpoint field (k : string) (fs : list (string * json)) : option json :=
  match fs with
  | [] => None
  | (k', v) :: fs' => if bool_decide (k = k') then Some v else field k fs'
  end.

Definition fields (j : json) : list (string * json) :=
  match j with JObj fs => fs | _ => [] end.

Definition get (k : string) (j : json) : option json := field k (fields j).

Fixpoint remove_field (k : string) (fs : list (string * json)) : list (string * json) :=
  match fs with
  | [] => []
  | (k', v) :: fs' =>
    if bool_decide (k = k') then remove_field k fs' else (k', v) :: remove_field k fs'
  end.

Definition set_field (k : string) (v : json) (fs : list (string * json)) : list (string * json) :=
  (k, v) :: remove_field k fs.

(** ** Merge patch: MergePatch(Target, Patch) of RFC 7386, section 2 *)

Fixpoint merge_patch (target patch : json) {struct patch} : json :=
  match patch with
  | JObj pfs =>
    JObj ((fix go (pfs : list (string * json)) (tfs : list (string * json)) :=
             match pfs with
             | [] => tfs
             | (k, v) :: pfs' =>
               go pfs'
                 (match v with
                  | JNull => remove_field k tfs
                  | _ => set_field k (merge_patch (default JNull (field k tfs)) v) tfs
                  end)
             end) pfs (fields target))
  | _ => patch
  end.

Lemma field_remove_ne k k' fs : k ≠ k' → field k (remove_field k' fs) = field k fs.
Proof.
  intros Hne. induction fs as [|[k2 v] fs IH]; [done|]. cbn.
  destruct (decide (k' = k2)) as [->|Hk'].
  - rewrite (bool_decide_eq_true_2 (k2 = k2)), (bool_decide_eq_false_2 (k = k2)) by done. done.
  - rewrite (bool_decide_eq_false_2 (k' = k2)) by done. cbn. by rewrite IH.
Qed.

Lemma field_remove_eq k fs : field k (remove_field k fs) = None.
Proof.
  induction fs as [|[k2 v] fs IH]; [done|]. cbn. case_bool_decide; [done|].
  cbn. by rewrite bool_decide_eq_false_2.
Qed.

Lemma field_set_eq k v fs : field k (set_field k v fs) = Some v.
Proof. cbn. by rewrite bool_decide_eq_true_2. Qed.

Lemma field_set_ne k k' v fs : k ≠ k' → field k (set_field k' v fs) = field k fs.
Proof. intros Hne. cbn. rewrite bool_decide_eq_false_2 by done. by apply field_remove_ne. Qed.

Lemma remove_field_idem k fs : remove_field k (remove_field k fs) = remove_field k fs.
Proof.
  induction fs as [|[k2 v] fs IH]; [done|]. cbn. case_bool_decide; [done|].
  cbn. rewrite bool_decide_eq_false_2 by done. by rewrite IH.
Qed.

Lemma set_field_idem k v fs : set_field k v (set_field k v fs) = set_field k v fs.
Proof.
  unfold set_field. cbn. rewrite bool_decide_eq_true_2 by done. by rewrite remove_field_idem.
Qed.

(** ** Parsing *)

Local Open Scope N_scope.

Definition is_ws (b : N) : bool := (b =? 32) || (b =? 9) || (b =? 10) || (b =? 13).

Fixpoint skip_ws (l : list N) : list N :=
  match l with
  | b :: l' => if is_ws b then skip_ws l' else l
  | [] => []
  end.

Definition is_digit (b : N) : bool := in_range 48 57 b.

Fixpoint digits (l : list N) : list N * list N :=
  match l with
  | b :: l' => if is_digit b then let '(ds, r) := digits l' in (b :: ds, r) else ([], l)
  | [] => ([], [])
  end.

(** The rest of [l] after the byte [c]. *)
Definition eat (c : N) (l : list N) : option (list N) :=
  match l with b :: l' => if b =? c then Some l' else None | [] => None end.

(** int [frac] [exp], with no leading zero. *)
Definition parse_number (l : list N) : option (string * list N) :=
  let '(sign, l0) := match eat 45 l with Some l' => ([45], l') | None => ([], l) end in
  let '(int, l1) := match eat 48 l0 with Some l' => ([48], l') | None => digits l0 end in
  if bool_decide (int = []) then None else
  let frac := match eat 46 l1 with
              | Some l' => let '(ds, r) := digits l' in
                           if bool_decide (ds = []) then None else Some (46 :: ds, r)
              | None => Some ([], l1)
              end in
  match frac with
  | None => None
  | Some (fr, l2) =>
    match l2 with
    | e :: l3 =>
      if (e =? 101) || (e =? 69) then
        let '(s, l4) := match l3 with
                        | c :: l' => if (c =? 43) || (c =? 45) then ([c], l') else ([], l3)
                        | [] => ([], l3)
                        end in
        let '(ds, r) := digits l4 in
        if bool_decide (ds = []) then None
        else Some (of_bytes (sign ++ int ++ fr ++ [e] ++ s ++ ds), r)
      else Some (of_bytes (sign ++ int ++ fr), l2)
    | [] => Some (of_bytes (sign ++ int ++ fr), l2)
    end
  end.

Definition unhex (b : N) : option N :=
  if in_range 48 57 b then Some (b - 48)
  else if in_range 97 102 b then Some (b - 87)
  else if in_range 65 70 b then Some (b - 55) else None.

Definition hex4 (l : list N) : option (N * list N) :=
  match l with
  | a :: b :: c :: d :: r =>
    match unhex a, unhex b, unhex c, unhex d with
    | Some a', Some b', Some c', Some d' => Some (((a' * 16 + b') * 16 + c') * 16 + d', r)
    | _, _, _, _ => None
    end
  | _ => None
  end.

(** [utf8.AppendRune]. *)
Definition EncodeRune (r : N) : list N :=
  if r <? 0x80 then [r]
  else if r <? 0x800 then [0xC0 + r / 64; 0x80 + r mod 64]
  else if in_range 0xD800 0xDFFF r || (0x10FFFF <? r) then [0xEF; 0xBF; 0xBD]
  else if r <? 0x10000 then [0xE0 + r / 4096; 0x80 + (r / 64) mod 64; 0x80 + r mod 64]
  else [0xF0 + r / 262144; 0x80 + (r / 4096) mod 64; 0x80 + (r / 64) mod 64; 0x80 + r mod 64].

(** One escape after the backslash. *)
Definition parse_escape (l : list N) : option (list N * list N) :=
  match l with
  | 34 :: r => Some ([34], r) | 92 :: r => Some ([92], r) | 47 :: r => Some ([47], r)
  | 98 :: r => Some ([8], r) | 102 :: r => Some ([12], r) | 110 :: r => Some ([10], r)
  | 114 :: r => Some ([13], r) | 116 :: r => Some ([9], r)
  | 117 :: r =>
    match hex4 r with
    | None => None
    | Some (u, r1) =>
      if in_range 0xD800 0xDBFF u then
        match r1 with
        | 92 :: 117 :: r2 =>
          match hex4 r2 with
          | Some (u2, r3) =>
            if in_range 0xDC00 0xDFFF u2
            then Some (EncodeRune (0x10000 + (u - 0xD800) * 1024 + (u2 - 0xDC00)), r3)
            else Some (EncodeRune RuneError, r1)
          | None => Some (EncodeRune RuneError, r1)
          end
        | _ => Some (EncodeRune RuneError, r1)
        end
      else Some (EncodeRune u, r1)
    end
  | _ => None
  end.

(** The rest of a string after its opening quote; invalid UTF-8 becomes U+FFFD. *)
Fixpoint parse_string (fuel : nat) (acc l : list N) : option (string * list N) :=
  match fuel, l with
  | S f, b :: l' =>
    if b =? 34 then Some (of_bytes acc, l')
    else if b =? 92 then
      match parse_escape l' with
      | Some (bs, r) => parse_string f (acc ++ bs) r
      | None => None
      end
    else if b <? 32 then None
    else let '(r, w) := DecodeRune l in
         parse_string f (acc ++ (if Nat.eqb w 1 && (r =? RuneError) then EncodeRune RuneError
                                 else take w l)) (drop w l)
  | _, _ => None
  end.

(** The rest of a string, decoded. *)
Definition read_string (l : list N) : option (string * list N) := parse_string (length l) [] l.

(** The elements of an array after its bracket, and the members of an object after
    its brace; [pv] parses a value, [n] bounds their number. *)
Fixpoint elements (pv : list N → option (json * list N)) (n : nat) (acc : list json) (l : list N)
    : option (json * list N) :=
  match n with
  | O => None
  | S n' =>
    match pv l with
    | None => None
    | Some (v, r) =>
      match skip_ws r with
      | [] => None
      | c :: r' =>
        if c =? 44 then elements pv n' (acc ++ [v]) r'
        else if c =? 93 then Some (JArr (acc ++ [v]), r') else None
      end
    end
  end.

(** A name, its colon and its value. *)
Definition member (pv : list N → option (json * list N)) (l : list N)
    : option (string * json * list N) :=
  match skip_ws l with
  | [] => None
  | q :: r =>
    if negb (q =? 34) then None else
    match read_string r with
    | None => None
    | Some (k, r1) =>
      match skip_ws r1 with
      | [] => None
      | c :: r2 =>
        if negb (c =? 58) then None else
        match pv r2 with Some (v, r3) => Some (k, v, r3) | None => None end
      end
    end
  end.

Fixpoint members (pv : list N → option (json * list N)) (n : nat) (acc : list (string * json))
    (l : list N) : option (json * list N) :=
  match n with
  | O => None
  | S n' =>
    match member pv l with
    | None => None
    | Some (kv, r) =>
      match skip_ws r with
      | [] => None
      | c :: r' =>
        if c =? 44 then members pv n' (acc ++ [kv]) r'
        else if c =? 125 then Some (JObj (acc ++ [kv]), r') else None
      end
    end
  end.

(** The rest of [l] after a literal name, with its value. *)
Definition literal (name : list N) (v : json) (l : list N) : option (json * list N) :=
  match strip_prefix name l with Some r => Some (v, r) | None => None end.

(** A value and what follows it; [fuel] bounds the nesting and [str] reads the rest of
    a string value. *)
Fixpoint parse_value_with (str : list N → option (string * list N)) (fuel : nat) (l0 : list N)
    : option (json * list N) :=
  match fuel with
  | O => None
  | S f =>
    match skip_ws l0 with
    | [] => None
    | b :: r =>
      if b =? 34 then
        match str r with Some (s, r') => Some (JStr s, r') | None => None end
      else if b =? 91 then
        match skip_ws r with
        | [] => None
        | c :: r' =>
          if c =? 93 then Some (JArr [], r') else elements (parse_value_with str f) (length r) [] r
        end
      else if b =? 123 then
        match skip_ws r with
        | [] => None
        | c :: r' =>
          if c =? 125 then Some (JObj [], r') else members (parse_value_with str f) (length r) [] r
        end
      else if b =? 110 then literal [110; 117; 108; 108] JNull (b :: r)
      else if b =? 116 then literal [116; 114; 117; 101] (JBool true) (b :: r)
      else if b =? 102 then literal [102; 97; 108; 115; 101] (JBool false) (b :: r)
      else
        match parse_number (b :: r) with Some (n, r') => Some (JNum n, r') | None => None end
    end
  end.

(** The rest of a string as it stands in the text, without its closing quote. *)
Definition read_raw (l : list N) : option (string * list N) :=
  match read_string l with
  | Some (_, r) => Some (of_bytes (take (length l - S (length r)) l), r)
  | None => None
  end.

Abbreviation parse_value := (parse_value_with read_string).

(** encoding/json's [maxNestingDepth]: one level of fuel is for a scalar inside. *)
Definition maxNestingDepth : nat := N.to_nat 10000.
Definition nesting_fuel (l : list N) : nat := S (Nat.min (length l) maxNestingDepth).

(** The first value of a stream and the rest, as [Decoder.Decode] reads it. *)
Definition parse_prefix (s : string) : option (json * list N) :=
  parse_value (nesting_fuel (bytes s)) (bytes s).

(** The same with string values left as they stand in the text; names are decoded. *)
Definition parse_prefix_raw (s : string) : option (json * list N) :=
  parse_value_with read_raw (nesting_fuel (bytes s)) (bytes s).

(** The string a raw text stands for. *)
Definition unquote (raw : string) : string :=
  match read_string (bytes raw ++ [34]) with Some (s, _) => s | None => "" end.

(** A document that is one value and white space, as [json.Unmarshal] requires. *)
Definition parse (s : string) : option json :=
  match parse_prefix s with
  | Some (v, r) => if bool_decide (skip_ws r = []) then Some v else None
  | None => None
  end.

End Json.
