(* ===== verification/JsonCodec.v ===== *)
(** * encoding/json: rendering, and the round trip with the parser

    - UTF-8: decoding the encoding of a scalar value gives it back;
    - the string encoder of encoding/json (HTML escaping on, as [Marshal] and
      [Encoder] have it) and the rendering of documents;
    - parsing a rendered document gives the document back. *)

From Stdlib Require Import ZArith NArith Lia Ascii.
From S2P Require Import Prelude GoText Json.

Module JsonCodec.
Import Json.
Local Open Scope N_scope.

(** ** UTF-8 *)

(** The Unicode scalar values. *)
Definition scalar (r : N) : Prop := r < 0xD800 ∨ (0xE000 ≤ r ∧ r ≤ 0x10FFFF).

(** The string whose runes are [rs]. *)
Definition utf8 (rs : list N) : list N := concat (EncodeRune <$> rs).

(** The strings that are valid UTF-8. *)
Definition valid_utf8 (s : string) : Prop := ∃ rs, Forall scalar rs ∧ bytes s = utf8 rs.

(** Splits a boolean comparison of [N] in the goal and drops impossible cases. *)
Ltac n_cases :=
  repeat match goal with
  | |- context [?a =? ?b] => destruct (N.eqb_spec a b); cbn [andb orb]; try lia
  | |- context [?a <? ?b] => destruct (N.ltb_spec a b); cbn [andb orb]; try lia
  | |- context [?a <=? ?b] => destruct (N.leb_spec a b); cbn [andb orb]; try lia
  end.

Lemma DecodeRune_EncodeRune r tl :
  scalar r → DecodeRune (EncodeRune r ++ tl) = (r, length (EncodeRune r)).
Proof.
  intros Hr. unfold scalar in Hr. unfold EncodeRune, in_range.
  pose proof (N.div_mod r 64 ltac:(lia)) as H1. pose proof (N.mod_lt r 64 ltac:(lia)) as L1.
  pose proof (N.div_mod (r / 64) 64 ltac:(lia)) as H2. pose proof (N.mod_lt (r / 64) 64 ltac:(lia)) as L2.
  pose proof (N.div_mod (r / 4096) 64 ltac:(lia)) as H3.
  pose proof (N.mod_lt (r / 4096) 64 ltac:(lia)) as L3.
  assert (r / 64 / 64 = r / 4096) as E1 by (rewrite N.Div0.div_div; reflexivity).
  assert (r / 4096 / 64 = r / 262144) as E2 by (rewrite N.Div0.div_div; reflexivity).
  rewrite E1 in H2. rewrite E2 in H3. clear E1 E2. revert H1 L1 H2 L2 H3 L3.
  generalize (r mod 64) as x0. generalize ((r / 64) mod 64) as x1.
  generalize ((r / 4096) mod 64) as x2.
  generalize (r / 64) as q1, (r / 4096) as q2, (r / 262144) as q3.
  intros q1 q2 q3 x2 x1 x0 H1 L1 H2 L2 H3 L3.
  destruct (N.ltb_spec r 0x80).
  { cbn. unfold RuneSelf. by n_cases. }
  destruct (N.ltb_spec r 0x800).
  { cbn -[N.add N.sub N.mul]. unfold RuneSelf, cont, in_range. n_cases. f_equal. lia. }
  destruct (N.leb_spec 0xD800 r), (N.leb_spec r 0xDFFF), (N.ltb_spec 0x10FFFF r);
    cbn [andb orb]; try lia;
    destruct (N.ltb_spec r 0x10000); try lia;
    cbn -[N.add N.sub N.mul]; unfold RuneSelf, cont, in_range; n_cases; f_equal; lia.
Qed.

(** Every encoding is one to four bytes; past ASCII its first byte is 194 or more. *)
Lemma EncodeRune_ascii r : r < 128 → EncodeRune r = [r].
Proof. intros Hr. unfold EncodeRune. by n_cases. Qed.

Lemma EncodeRune_wide r :
  scalar r → 128 ≤ r → ∃ b l, EncodeRune r = b :: l ∧ 128 ≤ b ∧ (1 ≤ length l)%nat.
Proof.
  intros _ Hr. unfold EncodeRune. destruct (N.ltb_spec r 0x80); [lia|].
  generalize (r / 64) as q1, (r / 4096) as q2, (r / 262144) as q3. intros.
  repeat case_match; eexists _, _; (split; [reflexivity|]; cbn [length]; lia).
Qed.

Lemma EncodeRune_length r : (1 ≤ length (EncodeRune r))%nat.
Proof. unfold EncodeRune. repeat case_match; cbn; lia. Qed.

Lemma utf8_cons r rs : utf8 (r :: rs) = EncodeRune r ++ utf8 rs.
Proof. done. Qed.

Lemma utf8_length rs : (length rs ≤ length (utf8 rs))%nat.
Proof.
  induction rs as [|r rs IH]; [done|]. rewrite utf8_cons, length_app. cbn [length].
  pose proof (EncodeRune_length r). lia.
Qed.

(** ** The string encoder (encoding/json, [appendString] with HTML escaping) *)

(** [htmlSafeSet]. *)
Definition html_safe (b : N) : bool :=
  in_range 32 127 b && negb ((b =? 34) || (b =? 92) || (b =? 60) || (b =? 62) || (b =? 38)).

Definition escape_ascii (b : N) : list N :=
  if html_safe b then [b]
  else if (b =? 34) || (b =? 92) then [92; b]
  else if b =? 8 then [92; 98]
  else if b =? 12 then [92; 102]
  else if b =? 10 then [92; 110]
  else if b =? 13 then [92; 114]
  else if b =? 9 then [92; 116]
  else [92; 117; 48; 48; hex_digit (b / 16); hex_digit (b mod 16)].

(** U+2028 and U+2029, which JavaScript does not allow in a string. *)
Definition is_line_sep (r : N) : bool := (r =? 0x2028) || (r =? 0x2029).

Definition escape_line_sep (r : N) : list N := [92; 117; 50; 48; 50; hex_digit (r mod 16)].

(** One step per rune; [fuel] is at least the number of bytes left. *)
Fixpoint escape_string (fuel : nat) (l : list N) : list N :=
  match fuel, l with
  | S f, b :: l' =>
    if b <? RuneSelf then escape_ascii b ++ escape_string f l'
    else
      let '(r, w) := DecodeRune l in
      (if Nat.eqb w 1 && (r =? RuneError) then [92; 117; 102; 102; 102; 100]
       else if is_line_sep r then escape_line_sep r else take w l)
      ++ escape_string f (drop w l)
  | _, _ => []
  end.

Definition render_string (s : string) : list N :=
  [34] ++ escape_string (length (bytes s)) (bytes s) ++ [34].

(** What the encoder makes of one rune of a valid string. *)
Definition escape_rune (r : N) : list N :=
  if r <? RuneSelf then escape_ascii r
  else if is_line_sep r then escape_line_sep r else EncodeRune r.

Lemma escape_string_utf8 rs fuel :
  Forall scalar rs → (length (utf8 rs) ≤ fuel)%nat →
  escape_string fuel (utf8 rs) = concat (escape_rune <$> rs).
Proof.
  intros Hrs. revert fuel. induction Hrs as [|r rs Hr Hrs IH]; intros fuel Hf.
  { by destruct fuel. }
  rewrite utf8_cons in *. rewrite length_app in Hf. cbn [fmap list_fmap concat].
  unfold escape_rune at 1, RuneSelf. destruct (N.ltb_spec r 128) as [Hlt|Hge].
  - rewrite EncodeRune_ascii in * by done. destruct fuel as [|f]; [cbn in Hf; lia|].
    cbn [escape_string app]. unfold RuneSelf. destruct (N.ltb_spec r 128); [|lia].
    rewrite IH; [done|]. cbn in Hf. lia.
  - pose proof (DecodeRune_EncodeRune r (utf8 rs) Hr) as Hdec.
    destruct (EncodeRune_wide r Hr Hge) as (b & l & He & Hb & Hl). rewrite He in *.
    destruct fuel as [|f]; [cbn in Hf; lia|].
    change ((b :: l) ++ utf8 rs) with (b :: (l ++ utf8 rs)) in *.
    cbn [escape_string]. unfold RuneSelf. destruct (N.ltb_spec b 128); [lia|].
    rewrite Hdec.
    replace (Nat.eqb (length (b :: l)) 1) with false by (destruct l; [cbn in Hl; lia|done]).
    cbn [andb]. change (b :: (l ++ utf8 rs)) with ((b :: l) ++ utf8 rs).
    rewrite drop_app_length, take_app_length, IH by (cbn in Hf; lia). done.
Qed.

(** ** Reading a rendered string back *)

Lemma forall_below (P : N → Prop) (n : nat) :
  Forall P (N.of_nat <$> seq 0 n) → ∀ b, b < N.of_nat n → P b.
Proof.
  intros HP b Hb. rewrite Forall_forall in HP. apply HP. apply list_elem_of_fmap.
  exists (N.to_nat b). rewrite N2Nat.id. split; [done|]. apply elem_of_seq. lia.
Qed.

Lemma parse_string_ascii f acc r tl :
  r < 128 → parse_string (S f) acc (escape_ascii r ++ tl) = parse_string f (acc ++ [r]) tl.
Proof.
  intros Hr. revert r Hr.
  apply (forall_below (λ r, parse_string (S f) acc (escape_ascii r ++ tl)
                            = parse_string f (acc ++ [r]) tl) 128).
  cbn [seq fmap list_fmap]. repeat (apply Forall_cons; split; [reflexivity|]). apply Forall_nil. done.
Qed.

Lemma parse_string_rune f acc r tl :
  scalar r →
  parse_string (S f) acc (escape_rune r ++ tl) = parse_string f (acc ++ EncodeRune r) tl.
Proof.
  intros Hr. unfold escape_rune, RuneSelf. destruct (N.ltb_spec r 128) as [Hlt|Hge].
  { rewrite EncodeRune_ascii by done. by apply parse_string_ascii. }
  unfold is_line_sep. destruct (N.eqb_spec r 0x2028) as [->|H1]; [reflexivity|].
  destruct (N.eqb_spec r 0x2029) as [->|H2]; [reflexivity|]. cbn [orb].
  pose proof (DecodeRune_EncodeRune r tl Hr) as Hdec.
  destruct (EncodeRune_wide r Hr Hge) as (b & l & He & Hb & Hl). rewrite He in *.
  change ((b :: l) ++ tl) with (b :: (l ++ tl)) in *. cbn [parse_string].
  destruct (N.eqb_spec b 34); [lia|]. destruct (N.eqb_spec b 92); [lia|].
  destruct (N.ltb_spec b 32); [lia|]. rewrite Hdec.
  replace (Nat.eqb (length (b :: l)) 1) with false by (destruct l; [cbn in Hl; lia|done]).
  cbn [andb]. change (b :: (l ++ tl)) with ((b :: l) ++ tl).
  by rewrite drop_app_length, take_app_length.
Qed.

Lemma parse_string_utf8 rs fuel acc tl :
  Forall scalar rs → (length rs < fuel)%nat →
  parse_string fuel acc (concat (escape_rune <$> rs) ++ 34 :: tl) =
    Some (of_bytes (acc ++ utf8 rs), tl).
Proof.
  intros Hrs. revert fuel acc. induction Hrs as [|r rs Hr Hrs IH]; intros fuel acc Hf.
  { destruct fuel as [|f]; [cbn in Hf; lia|]. cbn. by rewrite app_nil_r. }
  destruct fuel as [|f]; [cbn in Hf; lia|]. cbn [fmap list_fmap concat].
  rewrite <- app_assoc, parse_string_rune, IH by (done || cbn in Hf; lia).
  by rewrite utf8_cons, app_assoc.
Qed.

Lemma escape_rune_length r : scalar r → (1 ≤ length (escape_rune r))%nat.
Proof.
  intros Hr. unfold escape_rune, RuneSelf. destruct (N.ltb_spec r 128) as [Hlt|Hge].
  - unfold escape_ascii. repeat case_match; cbn; lia.
  - case_match; [cbn; lia|apply EncodeRune_length].
Qed.

Lemma escape_runes_length rs :
  Forall scalar rs → (length rs ≤ length (concat (escape_rune <$> rs)))%nat.
Proof.
  induction 1 as [|r rs Hr Hrs IH]; [done|].
  change (concat (escape_rune <$> r :: rs)) with (escape_rune r ++ concat (escape_rune <$> rs)).
  rewrite length_app. cbn [length]. pose proof (escape_rune_length r Hr). lia.
Qed.

(** A rendered valid string, after its opening quote, is read back with the fuel the
    parser gives it: the number of bytes that follow. *)
Lemma parse_render_string s tl :
  valid_utf8 s →
  ∃ l, render_string s ++ tl = 34 :: l ∧ read_string l = Some (s, tl).
Proof.
  intros (rs & Hrs & Hb). unfold render_string. rewrite Hb, escape_string_utf8 by done.
  eexists. split; [cbn; reflexivity|]. rewrite <- app_assoc. cbn [app].
  unfold read_string. rewrite parse_string_utf8.
  - cbn [app]. by rewrite <- Hb, of_bytes_bytes.
  - done.
  - rewrite length_app. pose proof (escape_runes_length rs Hrs). cbn. lia.
Qed.

(** ** Rendering documents *)

(** Comma-separated texts. *)
Fixpoint join (ls : list (list N)) : list N :=
  match ls with
  | [] => []
  | [l] => l
  | l :: ls' => l ++ 44 :: join ls'
  end.

Fixpoint render (j : json) : list N :=
  match j with
  | JNull => [110; 117; 108; 108]
  | JBool true => [116; 114; 117; 101]
  | JBool false => [102; 97; 108; 115; 101]
  | JNum lexeme => bytes lexeme
  | JStr s => render_string s
  | JArr l => 91 :: join (map render l) ++ [93]
  | JObj fs => 123 :: join (map (λ m, render_string m.1 ++ 58 :: render m.2) fs) ++ [125]
  end.

Fixpoint depth (j : json) : nat :=
  match j with
  | JArr l => S (list_max (map depth l))
  | JObj fs => S (list_max (map (λ m, depth m.2) fs))
  | _ => 0
  end.

(** The text after a value in a rendered document: nothing, or a separator. *)
Definition delimited (tl : list N) : Prop :=
  tl = [] ∨ ∃ b l, tl = b :: l ∧ b ∈ [44; 93; 125; 10].

(** The bytes a number starts with. *)
Definition number_start : list N := [45; 48; 49; 50; 51; 52; 53; 54; 55; 56; 57].

(** A text the parser reads as a number, whatever delimiter follows. *)
Definition number_lexeme (s : string) : Prop :=
  (∃ b l, bytes s = b :: l ∧ b ∈ number_start) ∧
  ∀ tl, delimited tl → parse_number (bytes s ++ tl) = Some (s, tl).

(** Documents a Go program can render: valid UTF-8 and numbers. *)
Fixpoint wf (j : json) : Prop :=
  match j with
  | JNum s => number_lexeme s
  | JStr s => valid_utf8 s
  | JArr l => foldr (λ v P, wf v ∧ P) True l
  | JObj fs => foldr (λ m P, valid_utf8 m.1 ∧ wf m.2 ∧ P) True fs
  | _ => True
  end.

(** The bytes a value starts with. *)
Definition value_start : list N := [110; 116; 102; 34; 91; 123] ++ number_start.

Lemma render_start j : wf j → ∃ b l, render j = b :: l ∧ b ∈ value_start.
Proof.
  intros Hj.
  assert (Hin : ∀ b, bool_decide (b ∈ value_start) = true → b ∈ value_start)
    by (intros b Hb; by apply bool_decide_eq_true in Hb).
  destruct j as [|[]|s|s|l|fs]; try (eexists _, _; split; [reflexivity|by apply Hin]).
  destruct Hj as [(b & l & Hb & Hs) _]. exists b, l. split; [done|].
  apply elem_of_app. by right.
Qed.

(** A value's first byte is neither white space nor a closing bracket. *)
Lemma value_start_not b :
  b ∈ value_start → is_ws b = false ∧ (b =? 93) = false ∧ (b =? 125) = false.
Proof.
  unfold value_start, number_start. cbn [app]. intros H.
  repeat (apply elem_of_cons in H as [->|H]; [done|]). by apply elem_of_nil in H.
Qed.

Lemma parse_value_number str f b l :
  b ∈ number_start →
  parse_value_with str (S f) (b :: l) =
    match parse_number (b :: l) with Some (n, r) => Some (JNum n, r) | None => None end.
Proof.
  unfold number_start. intros H.
  repeat (apply elem_of_cons in H as [->|H]; [reflexivity|]). by apply elem_of_nil in H.
Qed.

Lemma skip_ws_delimited_comma tl : delimited (44 :: tl).
Proof. right. eexists _, _. split; [done|]. by left. Qed.

Lemma delimited_bracket b tl : b = 93 ∨ b = 125 → delimited (b :: tl).
Proof. intros [->| ->]; right; eexists _, _; (split; [done|]); set_solver. Qed.

Lemma join_cons2 x y ls : join (x :: y :: ls) = x ++ 44 :: join (y :: ls).
Proof. done. Qed.

Lemma elements_render pv h l n acc tl :
  l ≠ [] → (length l ≤ n)%nat →
  (∀ j r, j ∈ l → delimited r → pv (render j ++ r) = Some (h j, r)) →
  elements pv n acc (join (map render l) ++ 93 :: tl) = Some (JArr (acc ++ map h l), tl).
Proof.
  intros Hne Hn Hpv. revert n acc Hn. induction l as [|j l IH]; intros n acc Hn; [done|].
  destruct n as [|n]; [cbn in Hn; lia|]. cbn [elements]. destruct l as [|j' l].
  - cbn [map join]. rewrite Hpv; [reflexivity|by left|by apply delimited_bracket; left].
  - change (map render (j :: j' :: l)) with (render j :: map render (j' :: l)).
    change (map render (j' :: l)) with (render j' :: map render l). rewrite join_cons2.
    rewrite <- app_assoc. cbn [app].
    rewrite Hpv; [|by left|apply skip_ws_delimited_comma]. cbn [skip_ws is_ws N.eqb Pos.eqb orb].
    change (render j' :: map render l) with (map render (j' :: l)).
    rewrite IH; [cbn [map]; by rewrite <- app_assoc|done| |cbn in *; lia].
    intros i r Hi. apply Hpv. by right.
Qed.

Definition render_member (m : string * json) : list N := render_string m.1 ++ 58 :: render m.2.

Lemma members_render pv h fs n acc tl :
  fs ≠ [] → (length fs ≤ n)%nat →
  (∀ k j r, (k, j) ∈ fs → delimited r → valid_utf8 k ∧ pv (render j ++ r) = Some (h j, r)) →
  members pv n acc (join (map render_member fs) ++ 125 :: tl) =
    Some (JObj (acc ++ map (prod_map id h) fs), tl).
Proof.
  intros Hne Hn Hpv. revert n acc Hn. induction fs as [|[k j] fs IH]; intros n acc Hn; [done|].
  destruct n as [|n]; [cbn in Hn; lia|].
  assert (Hstep : ∀ r, delimited r →
    members pv (S n) acc (render_member (k, j) ++ r) =
    match skip_ws r with
    | [] => None
    | c :: r' =>
      if c =? 44 then members pv n (acc ++ [(k, h j)]) r'
      else if c =? 125 then Some (JObj (acc ++ [(k, h j)]), r') else None
    end).
  { intros r Hr. unfold render_member. cbn [fst snd]. rewrite <- app_assoc. cbn [app].
    destruct (Hpv k j r) as [Hk Hj]; [by left|done|].
    destruct (parse_render_string k (58 :: render j ++ r) Hk) as (l & Hl & Hp).
    rewrite Hl. cbn [members]. unfold member. cbn [skip_ws is_ws N.eqb Pos.eqb orb negb]. rewrite Hp.
    cbn [skip_ws is_ws N.eqb Pos.eqb orb negb]. by rewrite Hj. }
  destruct fs as [|[k' j'] fs].
  - cbn [map join]. rewrite Hstep; [reflexivity|by apply delimited_bracket; right].
  - cbn [map]. rewrite join_cons2, <- app_assoc. cbn [app].
    rewrite Hstep by apply skip_ws_delimited_comma. cbn [skip_ws is_ws N.eqb Pos.eqb orb].
    change (render_member (k', j') :: map render_member fs) with (map render_member ((k', j') :: fs)).
    rewrite IH; [cbn [map]; by rewrite <- app_assoc|done| |cbn in *; lia].
    intros k2 j2 r Hi. apply Hpv. by right.
Qed.

Lemma wf_elements l j : foldr (λ v P, wf v ∧ P) True l → j ∈ l → wf j.
Proof.
  induction l as [|i l IH]; [by intros _ ?%elem_of_nil|]. cbn. intros [Hi Hl] [->|Hin]%elem_of_cons; auto.
Qed.

Lemma wf_members fs m :
  foldr (λ m P, valid_utf8 m.1 ∧ wf m.2 ∧ P) True fs → m ∈ fs → valid_utf8 m.1 ∧ wf m.2.
Proof.
  induction fs as [|i fs IH]; [by intros _ ?%elem_of_nil|].
  cbn. intros (Hk & Hv & Hl) [->|Hin]%elem_of_cons; auto.
Qed.

Lemma wf_arr l : Forall wf l → wf (JArr l).
Proof. cbn. induction 1; cbn; auto. Qed.

Lemma wf_obj fs : Forall (λ m, valid_utf8 m.1 ∧ wf m.2) fs → wf (JObj fs).
Proof. cbn. induction 1 as [|m fs [] Hfs IH]; cbn; auto. Qed.

Lemma list_max_in (l : list nat) n : n ∈ l → (n ≤ list_max l)%nat.
Proof.
  induction l as [|m l IH]; [by intros ?%elem_of_nil|].
  change (list_max (m :: l)) with (Nat.max m (list_max l)).
  intros [->|Hin]%elem_of_cons; [lia|]. specialize (IH Hin). lia.
Qed.

Lemma join_length ls : (length ls ≤ S (length (join ls)))%nat.
Proof.
  induction ls as [|l [|l' ls] IH]; [cbn; lia|cbn; lia|].
  rewrite join_cons2, length_app. cbn [length] in *. lia.
Qed.

Lemma join_in ls l : l ∈ ls → (length l ≤ length (join ls))%nat.
Proof.
  induction ls as [|x [|y ls] IH]; [by intros ?%elem_of_nil| |].
  - intros ->%list_elem_of_singleton. done.
  - rewrite join_cons2, length_app. cbn [length].
    intros [->|Hin]%elem_of_cons; [lia|]. specialize (IH Hin). lia.
Qed.

(** The document with [g] applied to its string values. *)
Fixpoint map_strings (g : string → string) (j : json) : json :=
  match j with
  | JStr s => JStr (g s)
  | JArr l => JArr (map (map_strings g) l)
  | JObj fs => JObj (map (prod_map id (map_strings g)) fs)
  | _ => j
  end.

Section ParseRender.
Context (str : list N → option (string * list N)) (g : string → string).
Context (str_render : ∀ s tl, valid_utf8 s →
           ∃ l, render_string s ++ tl = 34 :: l ∧ str l = Some (g s, tl)).

Lemma parse_elements_render f l tl :
  (∀ i r, i ∈ l → delimited r → parse_value_with str f (render i ++ r) = Some (map_strings g i, r)) →
  foldr (λ v P, wf v ∧ P) True l →
  parse_value_with str (S f) (render (JArr l) ++ tl) = Some (map_strings g (JArr l), tl).
Proof.
  intros Hall Hl. destruct l as [|j l]; [reflexivity|].
  cbn [render]. rewrite <- app_comm_cons, <- app_assoc. cbn [app].
  pose proof (join_length (map render (j :: l))) as Hlen. rewrite length_map in Hlen.
  set (txt := join (map render (j :: l)) ++ 93 :: tl).
  assert (Hel : elements (parse_value_with str f) (length txt) [] txt =
                Some (map_strings g (JArr (j :: l)), tl)).
  { apply (elements_render _ (map_strings g) (j :: l) _ []); [done| |done].
    unfold txt. rewrite length_app. cbn [length] in *. lia. }
  assert (Hhead : ∃ b r, txt = b :: r ∧ b ∈ value_start).
  { destruct (render_start j) as (b & r & Hb & Hs); [by apply (wf_elements (j :: l)); [|left]|].
    unfold txt. cbn [map]. destruct (map render l) as [|y ls];
      [cbn [join]|rewrite join_cons2]; rewrite Hb; eexists _, _; (split; [reflexivity|done]). }
  destruct Hhead as (b & r & Htxt & Hb). rewrite Htxt in Hel |- *.
  destruct (value_start_not b Hb) as (Hws & H93 & _).
  cbn [parse_value_with skip_ws is_ws N.eqb Pos.eqb orb]. fold (is_ws b). by rewrite Hws, H93.
Qed.

Lemma parse_members_render f fs tl :
  (∀ k i r, (k, i) ∈ fs → delimited r →
     valid_utf8 k ∧ parse_value_with str f (render i ++ r) = Some (map_strings g i, r)) →
  parse_value_with str (S f) (render (JObj fs) ++ tl) = Some (map_strings g (JObj fs), tl).
Proof.
  intros Hall. destruct fs as [|[k j] fs]; [reflexivity|].
  change (render (JObj ((k, j) :: fs))) with
    (123 :: join (map render_member ((k, j) :: fs)) ++ [125]).
  rewrite <- app_comm_cons, <- app_assoc. cbn [app].
  pose proof (join_length (map render_member ((k, j) :: fs))) as Hlen. rewrite length_map in Hlen.
  set (txt := join (map render_member ((k, j) :: fs)) ++ 125 :: tl).
  assert (Hel : members (parse_value_with str f) (length txt) [] txt =
                Some (map_strings g (JObj ((k, j) :: fs)), tl)).
  { apply (members_render _ (map_strings g) ((k, j) :: fs) _ []); [done| |done].
    unfold txt. rewrite length_app. cbn [length] in *. lia. }
  assert (Hhead : ∃ r, txt = 34 :: r).
  { unfold txt. cbn [map]. destruct (map render_member fs) as [|y ls];
      [cbn [join]|rewrite join_cons2]; eexists; reflexivity. }
  destruct Hhead as (r & Htxt). rewrite Htxt in Hel |- *. exact Hel.
Qed.

(** Parsing a rendered value gives the value, its strings as [str] reads them, and
    leaves what follows it. *)
Lemma parse_value_with_render f j tl :
  (depth j < f)%nat → wf j → delimited tl →
  parse_value_with str f (render j ++ tl) = Some (map_strings g j, tl).
Proof.
  revert j tl. induction f as [|f IH]; intros j tl Hd Hj Htl; [lia|].
  destruct j as [|[]|s|s|l|fs]; try reflexivity.
  - destruct Hj as [(b & l & Hb & Hs) Hp]. specialize (Hp tl Htl). cbn [render].
    rewrite Hb in Hp |- *. cbn [app] in Hp |- *. rewrite parse_value_number by done. by rewrite Hp.
  - destruct (str_render s tl Hj) as (l & Hl & Hp). cbn [render]. rewrite Hl.
    cbn [parse_value_with skip_ws is_ws N.eqb Pos.eqb orb]. by rewrite Hp.
  - apply parse_elements_render; [|done]. intros i r Hi Hr. apply IH; [|by eapply wf_elements|done].
    cbn [depth] in Hd. pose proof (list_max_in (map depth l) (depth i)
      ltac:(apply list_elem_of_fmap; eauto)). lia.
  - apply parse_members_render. intros k i r Hi Hr. destruct (wf_members _ _ Hj Hi) as [Hk Hv].
    split; [done|]. apply IH; [|done|done]. cbn [depth] in Hd.
    pose proof (list_max_in (map (λ m, depth m.2) fs) (depth i)
      ltac:(apply list_elem_of_fmap; by exists (k, i))). lia.
Qed.
End ParseRender.

Lemma map_strings_id j : map_strings id j = j.
Proof.
  assert (Hgen : ∀ n j, (depth j ≤ n)%nat → map_strings id j = j); [|by eapply Hgen].
  clear j. induction n as [|n IH]; intros j Hn; destruct j as [|b|s|s|l|fs];
    try reflexivity; try (cbn in Hn; lia); cbn [map_strings depth] in *.
  - f_equal. transitivity (map (λ x, x) l); [|apply list_fmap_id].
    apply map_ext_in. intros i Hi%list_elem_of_In. apply IH.
    pose proof (list_max_in (map depth l) (depth i) ltac:(apply list_elem_of_fmap; eauto)). lia.
  - f_equal. transitivity (map (λ x, x) fs); [|apply list_fmap_id].
    apply map_ext_in. intros [k i] Hi%list_elem_of_In. unfold prod_map. cbn. f_equal. apply IH.
    pose proof (list_max_in (map (λ m, depth m.2) fs) (depth i)
      ltac:(apply list_elem_of_fmap; by exists (k, i))). lia.
Qed.

Lemma parse_value_render f j tl :
  (depth j < f)%nat → wf j → delimited tl → parse_value f (render j ++ tl) = Some (j, tl).
Proof.
  intros. rewrite <- (map_strings_id j) at 2. by apply parse_value_with_render; [apply parse_render_string|..].
Qed.

Lemma depth_render j : (depth j ≤ length (render j))%nat.
Proof.
  assert (Hgen : ∀ n j, (depth j ≤ n)%nat → (depth j ≤ length (render j))%nat); [|by eapply Hgen].
  clear j. induction n as [|n IH]; intros j Hn; [lia|].
  destruct j as [|b|s|s|l|fs]; cbn [depth] in *; try lia.
  - cbn [render length]. rewrite length_app.
    assert (list_max (map depth l) ≤ length (join (map render l)))%nat; [|lia].
    apply list_max_le, Forall_fmap, Forall_forall. intros j Hj.
    pose proof (list_max_in (map depth l) (depth j) ltac:(apply list_elem_of_fmap; eauto)).
    pose proof (join_in (map render l) (render j) ltac:(apply list_elem_of_fmap; eauto)).
    specialize (IH j ltac:(lia)). cbn. lia.
  - change (render (JObj fs)) with (123 :: join (map render_member fs) ++ [125]).
    cbn [length]. rewrite length_app.
    assert (list_max (map (λ m, depth m.2) fs) ≤ length (join (map render_member fs)))%nat; [|lia].
    apply list_max_le, Forall_fmap, Forall_forall. intros m Hm.
    pose proof (list_max_in (map (λ m, depth m.2) fs) (depth m.2)
      ltac:(apply list_elem_of_fmap; eauto)).
    pose proof (join_in (map render_member fs) (render_member m)
      ltac:(apply list_elem_of_fmap; eauto)) as Hlen.
    unfold render_member at 1 in Hlen. rewrite length_app in Hlen. cbn [length] in Hlen.
    specialize (IH m.2 ltac:(lia)). cbn. lia.
Qed.

(** ** As strings *)

Lemma hex_digit_byte d : d < 16 → byte (hex_digit d).
Proof. unfold hex_digit, byte. n_cases. Qed.

Lemma escape_ascii_byte r : r < 128 → Forall byte (escape_ascii r).
Proof.
  intros Hr.
  assert (Hb : forallb (λ b, b <? 256) (escape_ascii r) = true).
  { revert r Hr. apply (forall_below (λ r, forallb (λ b, b <? 256) (escape_ascii r) = true) 128).
    cbn [seq fmap list_fmap]. repeat (apply Forall_cons; split; [reflexivity|]). by apply Forall_nil. }
  apply Forall_forall. intros b Hin. rewrite forallb_forall in Hb.
  apply N.ltb_lt, Hb. by apply list_elem_of_In.
Qed.

Lemma escape_rune_byte r : Forall byte (EncodeRune r) → Forall byte (escape_rune r).
Proof.
  intros He. unfold escape_rune, RuneSelf. destruct (N.ltb_spec r 128); [by apply escape_ascii_byte|].
  case_match; [|done]. unfold escape_line_sep.
  repeat (apply Forall_cons; split; [unfold byte; lia|]). apply Forall_singleton, hex_digit_byte.
  apply N.mod_lt. lia.
Qed.

Lemma render_string_byte s : valid_utf8 s → Forall byte (render_string s).
Proof.
  intros (rs & Hrs & Hb). unfold render_string.
  apply Forall_app. split; [apply Forall_singleton; unfold byte; lia|].
  apply Forall_app. split; [|apply Forall_singleton; unfold byte; lia].
  pose proof (bytes_byte s) as Hall. rewrite Hb in Hall |- *. rewrite escape_string_utf8 by done.
  clear Hb Hrs. induction rs as [|r rs IH]; [by apply Forall_nil|].
  rewrite utf8_cons in Hall. apply Forall_app in Hall as [Hr Hall].
  change (concat (escape_rune <$> r :: rs)) with (escape_rune r ++ concat (escape_rune <$> rs)).
  apply Forall_app. split; [by apply escape_rune_byte|by apply IH].
Qed.

Lemma join_byte ls : Forall (Forall byte) ls → Forall byte (join ls).
Proof.
  induction 1 as [|l [|l' ls] Hl Hls IH]; [by apply Forall_nil|done|].
  rewrite join_cons2. apply Forall_app. split; [done|]. apply Forall_cons. split; [unfold byte; lia|done].
Qed.

Lemma render_byte j : wf j → Forall byte (render j).
Proof.
  assert (Hgen : ∀ n j, (depth j ≤ n)%nat → wf j → Forall byte (render j)); [|by eapply Hgen].
  assert (Hb : ∀ b, (b <? 256) = true → byte b) by (intros b; apply N.ltb_lt).
  assert (Hwrap : ∀ a z l, byte a → byte z → Forall byte l → Forall byte (a :: l ++ [z])).
  { intros a z l Ha Hz Hl. apply Forall_cons. split; [done|]. apply Forall_app. split; [done|].
    by apply Forall_singleton. }
  clear j. induction n as [|n IH]; intros j Hn Hj; destruct j as [|[]|s|s|l|fs];
    try (cbn [render]; repeat (apply Forall_cons; split; [by apply Hb|]); by apply Forall_nil);
    try (by apply bytes_byte); try (by apply render_string_byte); try (cbn in Hn; lia).
  - apply Hwrap; [by apply Hb|by apply Hb|]. apply join_byte, Forall_fmap, Forall_forall.
    intros j Hin. apply IH; [|by eapply wf_elements].
    cbn [depth] in Hn. pose proof (list_max_in (map depth l) (depth j)
      ltac:(apply list_elem_of_fmap; eauto)). lia.
  - apply Hwrap; [by apply Hb|by apply Hb|]. apply join_byte, Forall_fmap, Forall_forall.
    intros m Hin. destruct (wf_members _ _ Hj Hin) as [Hk Hv]. apply Forall_app.
    split; [by apply render_string_byte|]. apply Forall_cons. split; [by apply Hb|].
    apply IH; [|done]. cbn [depth] in Hn.
    pose proof (list_max_in (map (λ m, depth m.2) fs) (depth m.2)
      ltac:(apply list_elem_of_fmap; eauto)). lia.
Qed.

(** The documents of the program are flat. *)
Lemma flat_nesting : (1 ≤ maxNestingDepth)%nat.
Proof. unfold maxNestingDepth. lia. Qed.

(** [json.Marshal]'s text of a document. *)
Definition Marshal (j : json) : string := of_bytes (render j).

(** Parsing what was marshalled gives the document back. *)
Lemma parse_Marshal j : wf j → (depth j ≤ maxNestingDepth)%nat → parse (Marshal j) = Some j.
Proof.
  intros Hj Hmax. unfold parse, parse_prefix, Marshal, nesting_fuel. rewrite bytes_of_bytes by by apply render_byte.
  pose proof (depth_render j) as Hd.
  set (f := S (Nat.min (length (render j)) maxNestingDepth)).
  pose proof (parse_value_render f j [] ltac:(lia) Hj ltac:(by left)) as Hp.
  rewrite app_nil_r in Hp. by rewrite Hp.
Qed.

(** The same for an [Encoder], which ends its text with a newline, and a [Decoder]. *)
Lemma parse_prefix_Encode j :
  wf j → (depth j ≤ maxNestingDepth)%nat →
  parse_prefix (of_bytes (render j ++ [10])) = Some (j, [10]).
Proof.
  intros Hj Hmax. unfold parse_prefix. rewrite bytes_of_bytes.
  - apply parse_value_render; [|done|].
    + pose proof (depth_render j). unfold nesting_fuel. rewrite length_app. lia.
    + right. exists 10, []. split; [done|]. set_solver.
  - apply Forall_app. split; [by apply render_byte|]. apply Forall_singleton. unfold byte. lia.
Qed.

(** ** String values left as they stand in the text *)

Definition raw_text (s : string) : string := of_bytes (escape_string (length (bytes s)) (bytes s)).

Lemma raw_text_bytes s :
  valid_utf8 s → bytes (raw_text s) = escape_string (length (bytes s)) (bytes s).
Proof.
  intros Hs. unfold raw_text. apply bytes_of_bytes. pose proof (render_string_byte s Hs) as Hb.
  unfold render_string in Hb. apply Forall_app in Hb as [_ Hb]. by apply Forall_app in Hb as [? _].
Qed.

Lemma read_string_escaped s tl :
  valid_utf8 s →
  read_string (escape_string (length (bytes s)) (bytes s) ++ 34 :: tl) = Some (s, tl).
Proof.
  intros Hs. destruct (parse_render_string s tl Hs) as (l & Hl & Hp).
  unfold render_string in Hl. rewrite <- !app_assoc in Hl. cbn [app] in Hl. injection Hl as <-. exact Hp.
Qed.

Lemma parse_render_raw s tl :
  valid_utf8 s → ∃ l, render_string s ++ tl = 34 :: l ∧ read_raw l = Some (raw_text s, tl).
Proof.
  intros Hs. set (e := escape_string (length (bytes s)) (bytes s)). exists (e ++ 34 :: tl).
  split; [unfold render_string; by rewrite <- !app_assoc|].
  unfold read_raw. fold e. rewrite (read_string_escaped s tl Hs : read_string (e ++ 34 :: tl) = _).
  rewrite length_app. cbn [length].
  replace (length e + S (length tl) - S (length tl))%nat with (length e) by lia.
  by rewrite take_app_length.
Qed.

Lemma unquote_raw_text s : valid_utf8 s → unquote (raw_text s) = s.
Proof. intros Hs. unfold unquote. by rewrite raw_text_bytes, read_string_escaped. Qed.

(** Text the encoder has nothing to escape in. *)
Definition plain_text (s : string) : Prop := Forall (λ b, html_safe b = true) (bytes s).

Lemma raw_text_plain s : plain_text s → raw_text s = s.
Proof.
  intros Hs. unfold raw_text. rewrite <- (of_bytes_bytes s) at 3. f_equal.
  unfold plain_text in Hs. induction Hs as [|b l Hb Hl IH]; [done|]. cbn [length escape_string].
  unfold RuneSelf. replace (b <? 128) with true.
  - unfold escape_ascii. rewrite Hb. cbn [app]. by f_equal.
  - unfold html_safe, in_range in Hb. bool_to_prop. symmetry. apply N.ltb_lt.
    match goal with H : (b <=? 127) = true |- _ => apply N.leb_le in H; lia end.
Qed.

(** What a decoder that keeps raw strings reads of a marshalled document. *)
Lemma parse_prefix_raw_Marshal j :
  wf j → (depth j ≤ maxNestingDepth)%nat →
  parse_prefix_raw (Marshal j) = Some (map_strings raw_text j, []).
Proof.
  intros Hj Hmax. unfold parse_prefix_raw, Marshal, nesting_fuel.
  rewrite bytes_of_bytes by by apply render_byte. pose proof (depth_render j) as Hd.
  rewrite <- (app_nil_r (render j)) at 2.
  apply parse_value_with_render; [apply parse_render_raw|lia|done|by left].
Qed.

(** ASCII text is valid UTF-8. *)
Lemma valid_utf8_ascii s : Forall (λ b, b < 128) (bytes s) → valid_utf8 s.
Proof.
  intros Hs. exists (bytes s). split.
  - eapply Forall_impl; [exact Hs|]. intros b Hb. cbn in Hb. left. lia.
  - induction Hs as [|b l Hb Hl IH]; [done|]. by rewrite utf8_cons, EncodeRune_ascii, <- IH.
Qed.

Definition ascii_text (s : string) : bool := forallb (λ b, b <? 128) (bytes s).

Lemma ascii_text_utf8 s : ascii_text s = true → valid_utf8 s.
Proof.
  unfold ascii_text. rewrite forallb_forall. intros Hs. apply valid_utf8_ascii, Forall_forall.
  intros b Hb. apply N.ltb_lt, Hs. by apply list_elem_of_In.
Qed.

(** ** Integers as numbers *)

Lemma digits_app ds tl :
  Forall (λ b, 48 ≤ b ≤ 57) ds → (∀ b l, tl = b :: l → is_digit b = false) →
  digits (ds ++ tl) = (ds, tl).
Proof.
  intros Hds Htl. induction Hds as [|b ds Hb Hds IH].
  - destruct tl as [|b l]; [done|]. cbn. by rewrite (Htl b l).
  - cbn. rewrite IH. unfold is_digit, in_range. by n_cases.
Qed.

Lemma delimited_not_digit tl b l :
  delimited tl → tl = b :: l →
  is_digit b = false ∧ (b =? 46) = false ∧ (b =? 101) = false ∧ (b =? 69) = false.
Proof.
  intros [->|(b' & l' & -> & Hb)] [= -> ->].
  repeat (apply elem_of_cons in Hb as [->|Hb]; [done|]). by apply elem_of_nil in Hb.
Qed.

(** After an integer's digits nothing more of a number follows. *)
Lemma parse_number_tail (sign int tl : list N) :
  delimited tl →
  (let frac := match eat 46 tl with
               | Some l' => let '(ds, r) := digits l' in
                            if bool_decide (ds = []) then None else Some (46 :: ds, r)
               | None => Some ([], tl)
               end in
   match frac with
   | None => None
   | Some (fr, l2) =>
     match l2 with
     | e :: l3 =>
       if (e =? 101) || (e =? 69) then
         let '(s, l4) := match l3 with
                         | c :: l' => if (c =? 43) || (c =? 45) then ([c], l') else ([], l3)
                         | [] => ([], l3)
                         end in
         let '(ds, r) := digits l4 in
         if bool_decide (ds = []) then None
         else Some (of_bytes (sign ++ int ++ fr ++ [e] ++ s ++ ds), r)
       else Some (of_bytes (sign ++ int ++ fr), l2)
     | [] => Some (of_bytes (sign ++ int ++ fr), l2)
     end
   end) = Some (of_bytes (sign ++ int), tl).
Proof.
  intros Htl. destruct tl as [|b l]; [cbn; by rewrite app_nil_r|].
  destruct (delimited_not_digit _ b l Htl eq_refl) as (_ & H46 & H101 & H69).
  cbn [eat]. rewrite H46, H101, H69. cbn [orb]. by rewrite app_nil_r.
Qed.

Lemma parse_number_numeral sign ds tl :
  sign = [] ∨ sign = [45] → numeral ds → delimited tl →
  parse_number (sign ++ ds ++ tl) = Some (of_bytes (sign ++ ds), tl).
Proof.
  intros Hsign Hds Htl. unfold parse_number.
  assert (Hhead : ∃ b l, ds = b :: l ∧ 48 ≤ b).
  { destruct Hds as [->|[Hall (b & l & -> & _)]]; [by exists 48, []|].
    apply Forall_cons in Hall as [Hb _]. exists b, l. split; [done|lia]. }
  assert (Hs : (match eat 45 (sign ++ ds ++ tl) with
                | Some l' => ([45], l') | None => ([], sign ++ ds ++ tl) end) = (sign, ds ++ tl)).
  { destruct Hsign as [->| ->]; [|done]. destruct Hhead as (b & l & -> & Hb). cbn [app eat].
    destruct (N.eqb_spec b 45); [lia|done]. }
  assert (Hi : (match eat 48 (ds ++ tl) with
                | Some l' => ([48], l') | None => digits (ds ++ tl) end) = (ds, tl)).
  { destruct Hds as [->|[Hall (b & l & Hbl & Hb)]]; [done|].
    rewrite digits_app; [|done|intros b' l' ->; by apply (delimited_not_digit _ b' l' Htl)].
    rewrite Hbl. cbn [app eat]. destruct (N.eqb_spec b 48); [done|done]. }
  rewrite Hs, Hi, bool_decide_eq_false_2 by (by destruct Hhead as (? & ? & -> & _)).
  by apply parse_number_tail.
Qed.

Lemma numeral_byte ds : numeral ds → Forall byte ds.
Proof.
  intros [->|[Hall _]]; [by apply Forall_singleton|].
  eapply Forall_impl; [exact Hall|]. intros b Hb. cbn in Hb. unfold byte. lia.
Qed.

Lemma numeral_start ds : numeral ds → ∃ b l, ds = b :: l ∧ b ∈ number_start.
Proof.
  assert (Hin : ∀ b, 48 ≤ b ≤ 57 → b ∈ number_start).
  { intros b Hb. apply elem_of_cons. right.
    assert (b ∈ (λ n, 48 + N.of_nat n) <$> seq 0 10); [|done].
    apply list_elem_of_fmap. exists (N.to_nat (b - 48)). rewrite N2Nat.id. split; [lia|].
    apply elem_of_seq. lia. }
  intros [->|[Hall (b & l & -> & _)]]; [by exists 48, []; split; [|apply Hin; lia]|].
  exists b, l. split; [done|]. apply Forall_cons in Hall as [Hb _]. by apply Hin.
Qed.

(** [strconv.FormatInt] writes what a JSON parser reads as that number. *)
Lemma number_lexeme_FormatInt z : number_lexeme (FormatInt z).
Proof.
  assert (Hform : ∃ sign ds, format_int z = sign ++ ds ∧ (sign = [] ∨ sign = [45]) ∧ numeral ds).
  { unfold format_int. destruct (z <? 0)%Z; eexists; eexists.
    - split; [by apply (eq_refl ([45] ++ _))|]. split; [by right|apply format_N_numeral].
    - split; [by apply (eq_refl ([] ++ _))|]. split; [by left|apply format_N_numeral]. }
  destruct Hform as (sign & ds & Hz & Hsign & Hds).
  assert (Hbytes : bytes (FormatInt z) = sign ++ ds).
  { unfold FormatInt. rewrite Hz. apply bytes_of_bytes, Forall_app. split; [|by apply numeral_byte].
    destruct Hsign as [->| ->]; [by apply Forall_nil|by apply Forall_singleton]. }
  split.
  - rewrite Hbytes. destruct (numeral_start ds Hds) as (b & l & -> & Hb).
    destruct Hsign as [->| ->]; [by exists b, l|]. exists 45, (b :: l). split; [done|by left].
  - intros tl Htl. rewrite Hbytes, <- app_assoc, parse_number_numeral by done.
    unfold FormatInt. by rewrite Hz.
Qed.

End JsonCodec.
