(* ===== verification/JsonStruct.v ===== *)
(** * encoding/json: decoding an object into a struct

    The rules of [json.Unmarshal] for structs whose fields are strings and integers:
    a member goes to the field of its exact name, else to one whose name it equals
    up to case; unknown members are skipped; [null] leaves a field alone; a value of
    another type or an integer out of range is an error; of repeated members the
    last wins. *)

From Stdlib Require Import ZArith NArith Lia.
From S2P Require Import Prelude GoLib GoText Json.

Module JsonStruct.
Import Json GoInt.

(** ** Field names (encoding/json's [foldName])

    Upper case for ASCII, and the two other runes that fold to ASCII letters. *)
Fixpoint fold_bytes (fuel : nat) (l : list N) : list N :=
  match fuel, l with
  | S f, b :: l' =>
    if (b <? RuneSelf)%N then
      (if in_range 97 122 b then b - 32 else b)%N :: fold_bytes f l'
    else
      let '(r, w) := DecodeRune l in
      (if (r =? 0x17F)%N then [83%N] else if (r =? 0x212A)%N then [75%N] else take w l)
      ++ fold_bytes f (drop w l)
  | _, _ => []
  end.

Definition foldName (s : string) : list N := fold_bytes (length (bytes s)) (bytes s).

(** ** Fields *)

(** How a field takes a value: [None] is a type error. *)
Abbreviation setter A := (json → A → option A).

Definition string_field {A} (set : string → A → A) : setter A := λ j a,
  match j with
  | JStr s => Some (set s a)
  | JNull => Some a
  | _ => None
  end.

(** [strconv.ParseInt(s, 10, 64)] on a JSON number, within [lo] and [hi]. *)
Definition ParseInt (lo hi : Z) (s : string) : option Z :=
  let '(neg, ds) := match eat 45 (bytes s) with
                    | Some ds => (true, ds) | None => (false, bytes s) end in
  let n := foldl (λ a b, 10 * a + Z.of_N (b - 48))%Z 0%Z ds in
  let z := if neg : bool then (- n)%Z else n in
  if negb (bool_decide (ds = [])) && forallb is_digit ds && (lo <=? z)%Z && (z <=? hi)%Z
  then Some z else None.

Definition int_field {A} (lo hi : Z) (set : Z → A → A) : setter A := λ j a,
  match j with
  | JNum s => match ParseInt lo hi s with Some z => Some (set z a) | None => None end
  | JNull => Some a
  | _ => None
  end.
Definition int64_field {A} := @int_field A min_int64 max_int64.
Definition int32_field {A} := @int_field A min_int32 max_int32.

(** *** Over documents that keep their string values as they stand in the text

    So that a field whose type has an [UnmarshalJSON] gets the text itself. *)

Definition raw_string_field {A} (set : string → A → A) : setter A := λ j a,
  match j with
  | JStr raw => Some (set (unquote raw) a)
  | JNull => Some a
  | _ => None
  end.

(** A field of type map[string]string.  A map that is there already is added to;
    [null] makes it nil, and a value [null] is the empty string. *)
Fixpoint map_entries (ms : list (string * json)) (m : gmap string string)
    : option (gmap string string) :=
  match ms with
  | [] => Some m
  | (k, v) :: ms' =>
    match v with
    | JStr raw => map_entries ms' (<[k := unquote raw]> m)
    | JNull => map_entries ms' (<[k := ""]> m)
    | _ => None
    end
  end.

Definition raw_map_field {A} (read : A → gmap string string) (set : gmap string string → A → A)
    : setter A := λ j a,
  match j with
  | JObj ms => m ← map_entries ms (read a); Some (set m a)
  | JNull => Some (set ∅ a)
  | _ => None
  end.

(** A slice, with the elements its array keeps behind its length.  Decoding an array
    overwrites the cells that are there, each on top of the value it holds. *)
Record slice A := mkSlice { elems : list A; behind : list A }.
Arguments mkSlice {A}.
Arguments elems {A}.
Arguments behind {A}.

Fixpoint decode_cells {A} (dec : A → json → option A) (zero : A) (js : list json) (cells : list A)
    : option (list A * list A) :=
  match js with
  | [] => Some ([], cells)
  | j :: js' =>
    a ← dec (hd zero cells) j;
    '(l, rest) ← decode_cells dec zero js' (tl cells);
    Some (a :: l, rest)
  end.

Definition decode_slice {A} (dec : A → json → option A) (zero : A) (s : slice A) (j : json)
    : option (slice A) :=
  match j with
  | JArr [] | JNull => Some (mkSlice [] [])
  | JArr js =>
    '(l, rest) ← decode_cells dec zero js (elems s ++ behind s); Some (mkSlice l rest)
  | _ => None
  end.

(** ** Structs *)

Section Struct.
Context {A : Type} (struct_fields : list (string * setter A)).

Fixpoint exact_field (k : string) (fs : list (string * setter A)) : option (setter A) :=
  match fs with
  | [] => None
  | (n, s) :: fs' => if bool_decide (k = n) then Some s else exact_field k fs'
  end.

Fixpoint folded_field (k : string) (fs : list (string * setter A)) : option (setter A) :=
  match fs with
  | [] => None
  | (n, s) :: fs' =>
    if bool_decide (foldName k = foldName n) then Some s else folded_field k fs'
  end.

Definition field_of (k : string) : option (setter A) :=
  match exact_field k struct_fields with
  | Some s => Some s
  | None => folded_field k struct_fields
  end.

Fixpoint decode_members (ms : list (string * json)) (a : A) : option A :=
  match ms with
  | [] => Some a
  | (k, v) :: ms' =>
    match field_of k with
    | None => decode_members ms' a
    | Some set => a' ← set v a; decode_members ms' a'
    end
  end.

Definition decode_struct (zero : A) (j : json) : option A :=
  match j with
  | JObj ms => decode_members ms zero
  | JNull => Some zero
  | _ => None
  end.

(** [json.NewDecoder(body).Decode(&a)]: the first value of the stream. *)
Definition Decode (zero : A) (body : string) : option A :=
  jr ← parse_prefix body; decode_struct zero jr.1.

(** The same over a document that keeps its string values raw. *)
Definition DecodeRaw (zero : A) (body : string) : option A :=
  jr ← parse_prefix_raw body; decode_struct zero jr.1.

(** [json.Unmarshal(data, &a)]: the whole of the data. *)
Definition Unmarshal (zero : A) (data : string) : option A :=
  j ← parse data; decode_struct zero j.
End Struct.

(** ** Lemmas *)

(** The bound of an integer field is what its type can hold. *)
Lemma ParseInt_bounds lo hi s z : ParseInt lo hi s = Some z → (lo ≤ z ≤ hi)%Z.
Proof.
  unfold ParseInt. destruct (eat 45 (bytes s)); cbn zeta; case_match eqn:E; try done;
    intros [= <-]; bool_to_prop; lia.
Qed.

End JsonStruct.
