(* ===== verification/JsonValid.v ===== *)
(** * Strings that come out of the JSON parser are valid UTF-8

    Whatever the input bytes are: the parser replaces what is not UTF-8, and escapes
    of surrogates that do not pair up, by U+FFFD. *)

From Stdlib Require Import ZArith NArith Lia.
From S2P Require Import Prelude GoLib GoText Json JsonCodec JsonStruct.

Module JsonValid.
Import Json JsonCodec JsonStruct.
Local Open Scope N_scope.

(** ** Decoding and encoding of runes *)

Lemma div_mod_parts q r b : r < b → (q * b + r) / b = q ∧ (q * b + r) mod b = r.
Proof.
  intros Hr. split.
  - symmetry. apply (N.div_unique _ b q r); lia.
  - symmetry. apply (N.mod_unique _ b q r); lia.
Qed.

Lemma EncodeRune2 a b :
  2 <= a < 32 → b < 64 → EncodeRune (a * 64 + b) = [0xC0 + a; 0x80 + b].
Proof.
  intros Ha Hb. destruct (div_mod_parts a b 64 Hb) as [Hd Hm]. unfold EncodeRune. rewrite Hd, Hm.
  by n_cases.
Qed.

Lemma EncodeRune3 a b c :
  a < 16 → b < 64 → c < 64 → (a = 0 → 32 <= b) → (a = 13 → b < 32) →
  EncodeRune (a * 4096 + b * 64 + c) = [0xE0 + a; 0x80 + b; 0x80 + c].
Proof.
  intros Ha Hb Hc H0 H13. destruct (div_mod_parts (a * 64 + b) c 64 Hc) as [Hd Hm].
  destruct (div_mod_parts a b 64 Hb) as [Hd2 Hm2].
  assert (Hr : a * 4096 + b * 64 + c = (a * 64 + b) * 64 + c) by lia. rewrite Hr.
  assert (H4096 : ((a * 64 + b) * 64 + c) / 4096 = a).
  { change 4096 with (64 * 64). rewrite <- N.Div0.div_div, Hd. exact Hd2. }
  unfold EncodeRune, in_range. rewrite Hd, Hm, H4096, Hm2. n_cases; done.
Qed.

Lemma EncodeRune4 a b c d :
  a < 5 → b < 64 → c < 64 → d < 64 → (a = 0 → 16 <= b) → (a = 4 → b < 16) →
  EncodeRune (a * 262144 + b * 4096 + c * 64 + d) = [0xF0 + a; 0x80 + b; 0x80 + c; 0x80 + d].
Proof.
  intros Ha Hb Hc Hd H0 H4.
  destruct (div_mod_parts ((a * 64 + b) * 64 + c) d 64 Hd) as [E1 M1].
  destruct (div_mod_parts (a * 64 + b) c 64 Hc) as [E2 M2].
  destruct (div_mod_parts a b 64 Hb) as [E3 M3].
  assert (Hr : a * 262144 + b * 4096 + c * 64 + d = ((a * 64 + b) * 64 + c) * 64 + d) by lia.
  rewrite Hr.
  assert (D4096 : (((a * 64 + b) * 64 + c) * 64 + d) / 4096 = a * 64 + b).
  { change 4096 with (64 * 64). rewrite <- N.Div0.div_div, E1. exact E2. }
  assert (D262144 : (((a * 64 + b) * 64 + c) * 64 + d) / 262144 = a).
  { change 262144 with (4096 * 64). rewrite <- N.Div0.div_div, D4096. exact E3. }
  unfold EncodeRune, in_range. rewrite D262144, D4096, E1, M1, M2, M3. n_cases; done.
Qed.

Lemma in_range_true lo hi b : in_range lo hi b = true ↔ lo ≤ b ≤ hi.
Proof. unfold in_range. rewrite andb_true_iff, !N.leb_le. done. Qed.

(** A rune that was decoded is a scalar value, and the bytes it came from are its
    encoding, unless the decoder reports an error. *)
Lemma DecodeRune_take l r w :
  l ≠ [] → DecodeRune l = (r, w) → Nat.eqb w 1 && (r =? RuneError) = false →
  scalar r ∧ take w l = EncodeRune r.
Proof.
  intros Hl Hdec Hgood. destruct l as [|b0 l]; [done|]. cbn [DecodeRune] in Hdec.
  assert (Hbad : (RuneError, 1%nat) ≠ (r, w)) by by intros [= <- <-].
  unfold RuneSelf in Hdec. destruct (N.ltb_spec b0 128).
  { injection Hdec as <- <-. split; [left; lia|]. by rewrite EncodeRune_ascii. }
  destruct (in_range 0xC2 0xDF b0) eqn:E2; [|destruct (in_range 0xE0 0xEF b0) eqn:E3;
    [|destruct (in_range 0xF0 0xF4 b0) eqn:E4; [|done]]].
  - destruct l as [|b1 l]; [done|]. destruct (cont b1) eqn:C1; [|done]. injection Hdec as <- <-.
    apply in_range_true in E2, C1. rewrite EncodeRune2 by lia. split; [unfold scalar; lia|].
    cbn. repeat f_equal; lia.
  - destruct l as [|b1 [|b2 l]]; [done..|]. destruct (in_range _ _ b1 && cont b2) eqn:C; [|done].
    injection Hdec as <- <-. apply andb_true_iff in C as [C1 C2].
    apply in_range_true in E3, C1, C2.
    destruct (N.eqb_spec b0 0xE0), (N.eqb_spec b0 0xED);
      (rewrite EncodeRune3 by lia; split; [unfold scalar; lia|cbn; repeat f_equal; lia]).
  - destruct l as [|b1 [|b2 [|b3 l]]]; [done..|].
    destruct (in_range _ _ b1 && cont b2 && cont b3) eqn:C; [|done].
    injection Hdec as <- <-. apply andb_true_iff in C as [[C1 C2]%andb_true_iff C3].
    apply in_range_true in E4, C1, C2, C3.
    destruct (N.eqb_spec b0 0xF0), (N.eqb_spec b0 0xF4);
      (rewrite EncodeRune4 by lia; split; [unfold scalar; lia|cbn; repeat f_equal; lia]).
Qed.

(** What [EncodeRune] makes of any number is the encoding of a scalar value. *)
Lemma EncodeRune_scalar r : ∃ r', scalar r' ∧ EncodeRune r = EncodeRune r'.
Proof.
  destruct (decide (scalar r)) as [Hs|Hs]; [by exists r|].
  exists RuneError. unfold RuneError, scalar in *. split; [lia|].
  unfold EncodeRune at 1, in_range. n_cases; done.
Qed.

(** ** Well-formed byte lists *)

Definition utf8_bytes (l : list N) : Prop := ∃ rs, Forall scalar rs ∧ l = utf8 rs.

Lemma utf8_bytes_nil : utf8_bytes [].
Proof. by exists []. Qed.

Lemma utf8_bytes_app l1 l2 : utf8_bytes l1 → utf8_bytes l2 → utf8_bytes (l1 ++ l2).
Proof.
  intros (r1 & H1 & ->) (r2 & H2 & ->). exists (r1 ++ r2). split; [by apply Forall_app|].
  unfold utf8. by rewrite fmap_app, concat_app.
Qed.

Lemma utf8_bytes_rune r : utf8_bytes (EncodeRune r).
Proof.
  destruct (EncodeRune_scalar r) as (r' & Hs & ->). exists [r']. split; [by apply Forall_singleton|].
  unfold utf8. cbn. by rewrite app_nil_r.
Qed.

Lemma utf8_bytes_ascii b : b < 128 → utf8_bytes [b].
Proof. intros Hb. rewrite <- (EncodeRune_ascii b Hb). apply utf8_bytes_rune. Qed.

Lemma EncodeRune_byte r : Forall byte (EncodeRune r).
Proof.
  destruct (EncodeRune_scalar r) as (r' & Hs & ->). unfold scalar in Hs. unfold EncodeRune, byte, in_range.
  pose proof (N.mod_lt r' 64 ltac:(lia)) as M1. pose proof (N.mod_lt (r' / 64) 64 ltac:(lia)) as M2.
  pose proof (N.mod_lt (r' / 4096) 64 ltac:(lia)) as M3.
  pose proof (N.div_mod r' 64 ltac:(lia)) as D1. pose proof (N.div_mod r' 4096 ltac:(lia)) as D2.
  pose proof (N.div_mod r' 262144 ltac:(lia)) as D3.
  revert M1 M2 M3 D1 D2 D3. generalize (r' mod 64), ((r' / 64) mod 64), ((r' / 4096) mod 64).
  generalize (r' / 64), (r' / 4096), (r' / 262144), (r' mod 4096), (r' mod 262144). intros.
  repeat case_match; bool_to_prop; rewrite ?N.ltb_lt, ?N.ltb_ge in *;
    repeat (apply Forall_cons; split; [lia|]); by apply Forall_nil.
Qed.

Lemma utf8_bytes_byte l : utf8_bytes l → Forall byte l.
Proof.
  intros (rs & _ & ->). induction rs as [|r rs IH]; [by apply Forall_nil|].
  rewrite utf8_cons. apply Forall_app. split; [apply EncodeRune_byte|done].
Qed.

Lemma utf8_bytes_valid l : utf8_bytes l → valid_utf8 (of_bytes l).
Proof.
  intros Hl. pose proof (utf8_bytes_byte l Hl) as Hb. destruct Hl as (rs & Hrs & Heq).
  exists rs. by rewrite bytes_of_bytes.
Qed.

(** ** The parser *)

Lemma parse_escape_utf8 l bs r : parse_escape l = Some (bs, r) → utf8_bytes bs.
Proof.
  unfold parse_escape. intros H.
  repeat (case_match; simplify_eq/=; try done);
    first [apply utf8_bytes_rune|by apply utf8_bytes_ascii].
Qed.

Lemma parse_string_valid fuel acc l s r :
  utf8_bytes acc → parse_string fuel acc l = Some (s, r) → valid_utf8 s.
Proof.
  revert acc l. induction fuel as [|f IH]; intros acc l Hacc; [done|].
  destruct l as [|b l]; [done|]. cbn [parse_string]. destruct (b =? 34).
  { intros [= <- _]. by apply utf8_bytes_valid. }
  destruct (b =? 92).
  { destruct (parse_escape l) as [[bs l']|] eqn:He; [|done]. apply IH.
    apply utf8_bytes_app; [done|]. by eapply parse_escape_utf8. }
  destruct (b <? 32); [done|]. destruct (DecodeRune (b :: l)) as [ru w] eqn:Hdec.
  apply IH. apply utf8_bytes_app; [done|].
  destruct (Nat.eqb w 1 && (ru =? RuneError)) eqn:Hg; [apply utf8_bytes_rune|].
  destruct (DecodeRune_take (b :: l) ru w) as [_ Ht]; [done..|]. rewrite Ht. apply utf8_bytes_rune.
Qed.

Lemma read_string_valid l s r : read_string l = Some (s, r) → valid_utf8 s.
Proof. apply parse_string_valid, utf8_bytes_nil. Qed.

(** A document all of whose strings are valid. *)
Fixpoint utf8_json (j : json) : Prop :=
  match j with
  | JStr s => valid_utf8 s
  | JArr l => foldr (λ v P, utf8_json v ∧ P) True l
  | JObj fs => foldr (λ m P, valid_utf8 m.1 ∧ utf8_json m.2 ∧ P) True fs
  | _ => True
  end.

Lemma utf8_arr l : Forall utf8_json l → utf8_json (JArr l).
Proof. cbn. induction 1; cbn; auto. Qed.

Lemma utf8_obj fs : Forall (λ m, valid_utf8 m.1 ∧ utf8_json m.2) fs ↔ utf8_json (JObj fs).
Proof.
  cbn. induction fs as [|m fs IH]; cbn; [by split|].
  rewrite Forall_cons, IH. tauto.
Qed.

Section Values.
Context (pv : list N → option (json * list N)).
Context (pv_valid : ∀ l j r, pv l = Some (j, r) → utf8_json j).

Lemma elements_valid n acc l j r :
  Forall utf8_json acc → elements pv n acc l = Some (j, r) → utf8_json j.
Proof.
  revert acc l. induction n as [|n IH]; intros acc l Hacc; [done|]. cbn [elements].
  destruct (pv l) as [[v l1]|] eqn:Hv; [|done]. destruct (skip_ws l1) as [|c l2]; [done|].
  assert (Hacc' : Forall utf8_json (acc ++ [v])).
  { apply Forall_app. split; [done|]. apply Forall_singleton. by eapply pv_valid. }
  destruct (c =? 44); [by apply IH|]. destruct (c =? 93); [|done].
  intros [= <- _]. by apply utf8_arr.
Qed.

Lemma member_valid l m r : member pv l = Some (m, r) → valid_utf8 m.1 ∧ utf8_json m.2.
Proof.
  unfold member. destruct (skip_ws l) as [|q l1]; [done|]. destruct (negb (q =? 34)); [done|].
  destruct (read_string l1) as [[k l2]|] eqn:Hk; [|done]. destruct (skip_ws l2) as [|c l3]; [done|].
  destruct (negb (c =? 58)); [done|]. destruct (pv l3) as [[v l4]|] eqn:Hv; [|done].
  intros [= <- _]. split; [by eapply read_string_valid|by eapply pv_valid].
Qed.

Lemma members_valid n acc l j r :
  Forall (λ m, valid_utf8 m.1 ∧ utf8_json m.2) acc → members pv n acc l = Some (j, r) → utf8_json j.
Proof.
  revert acc l. induction n as [|n IH]; intros acc l Hacc; [done|]. cbn [members].
  destruct (member pv l) as [[m l1]|] eqn:Hm; [|done]. destruct (skip_ws l1) as [|c l2]; [done|].
  assert (Hacc' : Forall (λ m, valid_utf8 m.1 ∧ utf8_json m.2) (acc ++ [m])).
  { apply Forall_app. split; [done|]. apply Forall_singleton. by eapply member_valid. }
  destruct (c =? 44); [by apply IH|]. destruct (c =? 125); [|done].
  intros [= <- _]. by apply utf8_obj.
Qed.
End Values.

Lemma parse_value_valid fuel l j r : parse_value fuel l = Some (j, r) → utf8_json j.
Proof.
  revert l j r. induction fuel as [|f IH]; intros l j r; [done|]. cbn [parse_value_with].
  destruct (skip_ws l) as [|b l1]; [done|].
  destruct (b =? 34).
  { destruct (read_string l1) as [[s l2]|] eqn:Hs; [|done]. intros [= <- _]. by eapply read_string_valid. }
  destruct (b =? 91).
  { destruct (skip_ws l1) as [|c l2]; [done|]. destruct (c =? 93); [by intros [= <- _]|].
    apply elements_valid; [exact IH|by apply Forall_nil]. }
  destruct (b =? 123).
  { destruct (skip_ws l1) as [|c l2]; [done|]. destruct (c =? 125); [by intros [= <- _]|].
    apply members_valid; [exact IH|by apply Forall_nil]. }
  assert (Hlit : ∀ name v, utf8_json v → literal name v (b :: l1) = Some (j, r) → utf8_json j).
  { intros name v Hv. unfold literal. destruct (strip_prefix _ _); [|done]. by intros [= <- _]. }
  destruct (b =? 110); [by apply Hlit|]. destruct (b =? 116); [by apply Hlit|].
  destruct (b =? 102); [by apply Hlit|].
  destruct (parse_number _) as [[n l2]|]; [|done]. by intros [= <- _].
Qed.

(** ** Structs *)

Lemma field_of_in {A} (fs : list (string * setter A)) k set :
  field_of fs k = Some set → ∃ n, (n, set) ∈ fs.
Proof.
  assert (Hscan : ∀ P `{∀ n, Decision (P n)} (find : list (string * setter A) → option (setter A)),
    (∀ n s l, find ((n, s) :: l) = if bool_decide (P n) then Some s else find l) → find [] = None →
    ∀ l, find l = Some set → ∃ n, (n, set) ∈ l).
  { intros P HP find Hcons Hnil. induction l as [|[n s] l IH]; [congruence|]. rewrite Hcons.
    case_bool_decide; [intros [= ->]; exists n; by left|].
    intros [n' Hn]%IH. exists n'. by right. }
  unfold field_of. destruct (exact_field k fs) as [s|] eqn:He.
  - intros [= ->]. revert He. by apply (Hscan (λ n, k = n) (λ n, decide (k = n)) (λ l, exact_field k l)).
  - by apply (Hscan (λ n, foldName k = foldName n) (λ n, decide (foldName k = foldName n)) (λ l, folded_field k l)).
Qed.

(** An invariant that every setter keeps for valid values holds of what is decoded. *)
Lemma Decode_invariant {A} (fs : list (string * setter A)) (P : A → Prop) zero body a :
  P zero →
  Forall (λ f, ∀ j a a', utf8_json j → f.2 j a = Some a' → P a → P a') fs →
  Decode fs zero body = Some a → P a.
Proof.
  intros Hz Hfs. unfold Decode, parse_prefix. destruct (parse_value _ _) as [[j r]|] eqn:Hp; [|done].
  apply parse_value_valid in Hp. cbn [mbind option_bind fst]. unfold decode_struct.
  destruct j as [| | | | |ms]; try done; [by intros [= <-]|].
  apply utf8_obj in Hp. clear r. revert zero Hz.
  induction Hp as [|[k v] ms [_ Hv] Hms IH]; intros z Hz; [by intros [= <-]|].
  cbn [decode_members]. destruct (field_of fs k) as [set|] eqn:Hset; [|by apply IH].
  destruct (set v z) as [z'|] eqn:Hs; [|done]. cbn. apply IH.
  destruct (field_of_in fs k set Hset) as [n Hin]. rewrite Forall_forall in Hfs.
  exact (Hfs _ Hin v z z' Hv Hs Hz).
Qed.

(** The setters of strings and of integers. *)
Lemma string_field_keeps {A} (P : A → Prop) (set : string → A → A) :
  (∀ s a, valid_utf8 s → P a → P (set s a)) →
  ∀ j a a', utf8_json j → string_field set j a = Some a' → P a → P a'.
Proof. intros Hset [] a a' Hj; cbn; intros [= <-]; auto. Qed.

Lemma int_field_keeps {A} lo hi (P : A → Prop) (set : Z → A → A) :
  (∀ z a, (lo ≤ z ≤ hi)%Z → P a → P (set z a)) →
  ∀ j a a', utf8_json j → int_field lo hi set j a = Some a' → P a → P a'.
Proof.
  intros Hset [] a a' Hj; cbn; try (intros [= <-]; auto).
  destruct (ParseInt lo hi lexeme) as [z|] eqn:Hz; [|done]. intros [= <-]. apply Hset.
  by eapply ParseInt_bounds.
Qed.

End JsonValid.
