(* ===== verification/Payload.v ===== *)
(** * The AlertManager payload

    Models operator/internal/server/payload.go: the types, [Firing], and the decoding
    their JSON tags give them.  String values are kept as they stand in the text,
    because [time.Time] reads its own text, escapes and all. *)

From Stdlib Require Import ZArith Lia.
From S2P Require Import Prelude GoLib GoText Rfc3339 Json JsonCodec JsonStruct.
Import GoTime Rfc3339 Json JsonCodec JsonStruct.

Module Payload.

(** ** Data *)

Record Alert := mkAlert {
  a_Status : string;
  a_Labels : gmap string string;
  a_Annotations : gmap string string;
  a_StartsAt : Time;
  a_EndsAt : Time;
  a_Fingerprint : string;
}.

Record AlertManagerPayload := mkPayload {
  p_Version : string;
  p_GroupKey : string;
  p_Status : string;
  p_Receiver : string;
  p_Alerts : list Alert;
}.

Definition Firing (a : Alert) : bool := bool_decide (a_Status a = "firing").

(** ** Decoding *)

(** [Time.UnmarshalJSON]: null is ignored, anything but a string is an error, and the
    text between the quotes is not unescaped. *)
Definition time_field {A} (set : Time → A → A) : setter A := λ j a,
  match j with
  | JStr raw => match ParseTime raw with Some t => Some (set t a) | None => None end
  | JNull => Some a
  | _ => None
  end.

Definition zero_alert : Alert := mkAlert "" ∅ ∅ zero_time zero_time "".

Definition alert_fields : list (string * setter Alert) :=
  [ ("status", raw_string_field (λ v a, mkAlert v (a_Labels a) (a_Annotations a)
       (a_StartsAt a) (a_EndsAt a) (a_Fingerprint a)));
    ("labels", raw_map_field a_Labels (λ v a, mkAlert (a_Status a) v (a_Annotations a)
       (a_StartsAt a) (a_EndsAt a) (a_Fingerprint a)));
    ("annotations", raw_map_field a_Annotations (λ v a, mkAlert (a_Status a) (a_Labels a) v
       (a_StartsAt a) (a_EndsAt a) (a_Fingerprint a)));
    ("startsAt", time_field (λ v a, mkAlert (a_Status a) (a_Labels a) (a_Annotations a)
       v (a_EndsAt a) (a_Fingerprint a)));
    ("endsAt", time_field (λ v a, mkAlert (a_Status a) (a_Labels a) (a_Annotations a)
       (a_StartsAt a) v (a_Fingerprint a)));
    ("fingerprint", raw_string_field (λ v a, mkAlert (a_Status a) (a_Labels a) (a_Annotations a)
       (a_StartsAt a) (a_EndsAt a) v)) ].

Definition decode_alert (a : Alert) (j : json) : option Alert := decode_struct alert_fields a j.

(** A payload being decoded, with what lies behind the length of its slice. *)
Definition partial : Type := AlertManagerPayload * list Alert.

Definition zero_partial : partial := (mkPayload "" "" "" "" [], []).

Definition alerts_field : setter partial := λ j pb,
  let '(p, b) := pb in
  s ← decode_slice decode_alert zero_alert (mkSlice (p_Alerts p) b) j;
  Some (mkPayload (p_Version p) (p_GroupKey p) (p_Status p) (p_Receiver p) (elems s), behind s).

Definition payload_string (set : string → AlertManagerPayload → AlertManagerPayload)
    : setter partial :=
  raw_string_field (λ v pb, (set v pb.1, pb.2)).

Definition payload_fields : list (string * setter partial) :=
  [ ("version", payload_string (λ v p,
       mkPayload v (p_GroupKey p) (p_Status p) (p_Receiver p) (p_Alerts p)));
    ("groupKey", payload_string (λ v p,
       mkPayload (p_Version p) v (p_Status p) (p_Receiver p) (p_Alerts p)));
    ("status", payload_string (λ v p,
       mkPayload (p_Version p) (p_GroupKey p) v (p_Receiver p) (p_Alerts p)));
    ("receiver", payload_string (λ v p,
       mkPayload (p_Version p) (p_GroupKey p) (p_Status p) v (p_Alerts p)));
    ("alerts", alerts_field) ].

(** [json.NewDecoder(r.Body).Decode(&p)]. *)
Definition DecodePayload (body : string) : option AlertManagerPayload :=
  fst <$> DecodeRaw payload_fields zero_partial body.

(** ** The documents a sender makes of a payload

    As they are read, their string values kept as they stand in the text: the members of
    the types and members the operator does not know, in any order; of each map its
    entries, in any order; an instant in any text that RFC 3339 gives it. *)

Definition reads_string (j : json) (s : string) : Prop := ∃ raw, j = JStr raw ∧ unquote raw = s.

Definition reads_time (j : json) (t : Time) : Prop := ∃ raw, j = JStr raw ∧ ParseTime raw = Some t.

Definition reads_map (j : json) (m : gmap string string) : Prop :=
  ∃ entries, j = JObj (prod_map id JStr <$> entries) ∧ prod_map id unquote <$> entries ≡ₚ map_to_list m.

(** The members [known], each once, among members with names the type does not know. *)
Definition has_members {A} (fs : list (string * setter A)) (known ms : list (string * json)) : Prop :=
  ∃ extra, ms ≡ₚ known ++ extra ∧ Forall (λ m, field_of fs m.1 = None) extra.

Definition is_alert_doc (a : Alert) (j : json) : Prop :=
  ∃ status labels annotations startsAt endsAt fingerprint ms,
    j = JObj ms ∧
    has_members alert_fields
      [ ("status", status); ("labels", labels); ("annotations", annotations);
        ("startsAt", startsAt); ("endsAt", endsAt); ("fingerprint", fingerprint) ] ms ∧
    reads_string status (a_Status a) ∧ reads_map labels (a_Labels a) ∧
    reads_map annotations (a_Annotations a) ∧ reads_time startsAt (a_StartsAt a) ∧
    reads_time endsAt (a_EndsAt a) ∧ reads_string fingerprint (a_Fingerprint a).

Definition is_payload_doc (p : AlertManagerPayload) (j : json) : Prop :=
  ∃ version groupKey status receiver alerts ms,
    j = JObj ms ∧
    has_members payload_fields
      [ ("version", version); ("groupKey", groupKey); ("status", status);
        ("receiver", receiver); ("alerts", JArr alerts) ] ms ∧
    reads_string version (p_Version p) ∧ reads_string groupKey (p_GroupKey p) ∧
    reads_string status (p_Status p) ∧ reads_string receiver (p_Receiver p) ∧
    Forall2 is_alert_doc (p_Alerts p) alerts.

(** ** Lemmas *)

Lemma decode_members_unknown {A} (fs : list (string * setter A)) extra a :
  Forall (λ m, field_of fs m.1 = None) extra → decode_members fs extra a = Some a.
Proof.
  induction 1 as [|[k v] extra Hk Hrest IH]; [done|]. cbn [decode_members fst] in *. by rewrite Hk.
Qed.

Lemma decode_members_app {A} (fs : list (string * setter A)) l1 l2 a :
  decode_members fs (l1 ++ l2) a = (decode_members fs l1 a ≫= decode_members fs l2).
Proof.
  revert a. induction l1 as [|[k v] l1 IH]; intros a; [done|]. cbn [decode_members app].
  destruct (field_of fs k) as [set|]; [|apply IH]. destruct (set v a) as [a'|]; [apply IH|done].
Qed.

(** One known member after another. *)
Lemma decode_members_cons {A} (fs : list (string * setter A)) k v ms a set a' :
  field_of fs k = Some set → set v a = Some a' →
  decode_members fs ((k, v) :: ms) a = decode_members fs ms a'.
Proof. intros Hk Hv. cbn [decode_members]. by rewrite Hk, Hv. Qed.

(** *** Members in any order *)

(** Members that can change places. *)
Definition commuting {A} (fs : list (string * setter A)) (m1 m2 : string * json) : Prop :=
  ∀ a, (decode_members fs [m1] a ≫= decode_members fs [m2]) =
       (decode_members fs [m2] a ≫= decode_members fs [m1]).

Lemma decode_members_perm {A} (fs : list (string * setter A)) ms ms' a :
  ms ≡ₚ ms' → (∀ m1 m2, m1 ∈ ms → m2 ∈ ms → commuting fs m1 m2) →
  decode_members fs ms a = decode_members fs ms' a.
Proof.
  intros Hp. revert a. induction Hp as [|m ms ms' Hp IH|m1 m2 ms|ms1 ms2 ms3 H12 IH1 H23 IH2]; intros a Hc.
  - done.
  - change (m :: ms) with ([m] ++ ms). change (m :: ms') with ([m] ++ ms').
    rewrite !decode_members_app. destruct (decode_members fs [m] a) as [a'|]; [|done].
    apply IH. intros m1 m2 H1 H2. by apply Hc; right.
  - change (m2 :: m1 :: ms) with ([m2] ++ [m1] ++ ms). change (m1 :: m2 :: ms) with ([m1] ++ [m2] ++ ms).
    rewrite !(assoc (++)), !(decode_members_app _ (_ ++ _)), !(decode_members_app _ [_]).
    by rewrite (Hc m2 m1) by set_solver.
  - rewrite IH1 by done. apply IH2. intros m1 m2 H1 H2. apply Hc; by rewrite H12.
Qed.

Lemma commuting_fields {A} (fs : list (string * setter A)) k1 v1 s1 k2 v2 s2 :
  field_of fs k1 = Some s1 → field_of fs k2 = Some s2 →
  (∀ a, (s1 v1 a ≫= s2 v2) = (s2 v2 a ≫= s1 v1)) → commuting fs (k1, v1) (k2, v2).
Proof.
  intros H1 H2 Hs a.
  assert (Hone : ∀ k v s, field_of fs k = Some s → ∀ a, decode_members fs [(k, v)] a = s v a).
  { intros k v s Hk a0. cbn [decode_members]. rewrite Hk. by destruct (s v a0). }
  rewrite (Hone _ _ _ H1), (Hone _ _ _ H2). specialize (Hs a).
  destruct (s1 v1 a), (s2 v2 a); cbn [mbind option_bind] in Hs |- *; rewrite ?(Hone _ _ _ H1), ?(Hone _ _ _ H2); exact Hs.
Qed.

Lemma commuting_unknown {A} (fs : list (string * setter A)) m1 m2 :
  field_of fs m1.1 = None → commuting fs m1 m2 ∧ commuting fs m2 m1.
Proof.
  destruct m1 as [k v]. cbn [fst]. intros Hk.
  assert (Hid : ∀ a, decode_members fs [(k, v)] a = Some a) by (intros a; cbn; by rewrite Hk).
  split; intros a; rewrite Hid; cbn [mbind option_bind];
    destruct (decode_members fs [m2] a) as [a'|]; cbn [mbind option_bind]; by rewrite ?Hid.
Qed.

(** A document with known members that commute decodes as these alone, in their order. *)
Lemma has_members_decode {A} (fs : list (string * setter A)) known ms a :
  has_members fs known ms → Forall (λ m1, Forall (commuting fs m1) known) known →
  decode_members fs ms a = decode_members fs known a.
Proof.
  intros (extra & Hp & Hx) Hc. rewrite Forall_forall in Hx.
  rewrite (decode_members_perm fs ms (known ++ extra)); [|done|].
  - rewrite decode_members_app. destruct (decode_members fs known a) as [a'|]; [|done].
    by apply decode_members_unknown, Forall_forall.
  - intros m1 m2. rewrite !Hp, !elem_of_app. intros [H1|H1] [H2|H2].
    + rewrite Forall_forall in Hc. specialize (Hc m1 H1). rewrite Forall_forall in Hc. by apply Hc.
    + apply (commuting_unknown fs m2 m1), Hx, H2.
    + apply (commuting_unknown fs m1 m2), Hx, H1.
    + apply (commuting_unknown fs m1 m2), Hx, H1.
Qed.

(** The setters of different fields commute; [cases] takes the struct apart. *)
Ltac fields_commute cases :=
  repeat (apply Forall_cons; split); try apply Forall_nil_2;
  first
    [ intros ?; reflexivity
    | eapply commuting_fields; [reflexivity|reflexivity|]; cases;
      unfold payload_string, raw_string_field, raw_map_field, time_field, alerts_field, mbind, option_bind;
      cbn -[decode_slice]; repeat case_match; simplify_eq/=; first [congruence|reflexivity] ].

(** *** Values *)

Lemma map_entries_raw l m :
  map_entries (prod_map id JStr <$> l) m =
    Some (foldl (λ m e, <[e.1 := e.2]> m) m (prod_map id unquote <$> l)).
Proof. revert m. induction l as [|[k v] l IH]; intros m; [done|]. apply IH. Qed.

(** The entries of a map, in whatever order they are written, make the map again. *)
Lemma insert_entries (m : gmap string string) l :
  l ≡ₚ map_to_list m → foldl (λ m e, <[e.1 := e.2]> m) ∅ l = m.
Proof.
  intros Hp. transitivity (list_to_map (M := gmap string string) (reverse l)).
  - clear Hp. induction l as [|[k v] l IH] using rev_ind; [done|].
    rewrite foldl_app, IH, reverse_snoc. done.
  - rewrite <- (list_to_map_to_list m). apply list_to_map_proper.
    + rewrite reverse_Permutation, Hp. apply NoDup_fst_map_to_list.
    + by rewrite reverse_Permutation.
Qed.

Lemma raw_string_decodes {A} (set : string → A → A) j s a :
  reads_string j s → raw_string_field set j a = Some (set s a).
Proof. by intros (raw & -> & <-). Qed.

Lemma raw_map_decodes {A} (read : A → gmap string string) set j m a :
  reads_map j m → read a = ∅ → raw_map_field read set j a = Some (set m a).
Proof.
  intros (l & -> & Hl) Hr. unfold raw_map_field. rewrite Hr, map_entries_raw. cbn.
  by rewrite (insert_entries m).
Qed.

Lemma time_decodes {A} (set : Time → A → A) j t a :
  reads_time j t → time_field set j a = Some (set t a).
Proof. intros (raw & -> & Ht). unfold time_field. by rewrite Ht. Qed.

Lemma alert_doc_decodes a j : is_alert_doc a j → decode_alert zero_alert j = Some a.
Proof.
  intros (st & ls & an & sa & en & fp & ms & -> & Hms & Hst & Hls & Han & Hsa & Hen & Hfp).
  unfold decode_alert. cbn [decode_struct]. erewrite has_members_decode; [|exact Hms|].
  - erewrite decode_members_cons; [|reflexivity|by apply raw_string_decodes].
    erewrite decode_members_cons; [|reflexivity|by apply raw_map_decodes].
    erewrite decode_members_cons; [|reflexivity|by apply raw_map_decodes].
    erewrite decode_members_cons; [|reflexivity|by apply time_decodes].
    erewrite decode_members_cons; [|reflexivity|by apply time_decodes].
    erewrite decode_members_cons; [|reflexivity|by apply raw_string_decodes].
    by destruct a.
  - clear Hms. destruct Hst as (? & -> & _), Hls as (? & -> & _), Han as (? & -> & _),
      Hsa as (? & -> & _), Hen as (? & -> & _), Hfp as (? & -> & _). fields_commute ltac:(intros []).
Qed.

Lemma decode_cells_map {A} (dec : A → json → option A) zero (l : list A) js :
  Forall2 (λ a j, dec zero j = Some a) l js → decode_cells dec zero js [] = Some (l, []).
Proof.
  induction 1 as [|a j l js Hj Hrest IH]; [done|]. cbn [decode_cells hd tl].
  rewrite Hj. cbn [mbind option_bind]. by rewrite IH.
Qed.

Lemma alerts_decode v g s r l js :
  Forall2 is_alert_doc l js →
  alerts_field (JArr js) (mkPayload v g s r [], []) = Some (mkPayload v g s r l, []).
Proof.
  intros Hjs. unfold alerts_field.
  assert (Hc : decode_cells decode_alert zero_alert js [] = Some (l, [])).
  { apply decode_cells_map. eapply Forall2_impl; [exact Hjs|]. intros a j. apply alert_doc_decodes. }
  destruct js as [|j js].
  - apply Forall2_nil_inv_r in Hjs as ->. done.
  - unfold decode_slice. cbn [p_Alerts elems behind app]. by rewrite Hc.
Qed.

Lemma payload_doc_decodes p j :
  is_payload_doc p j → fst <$> decode_struct payload_fields zero_partial j = Some p.
Proof.
  intros (ve & gk & st & re & alerts & ms & -> & Hms & Hve & Hgk & Hst & Hre & Ha).
  cbn [decode_struct]. erewrite has_members_decode; [|exact Hms|].
  - erewrite decode_members_cons; [|reflexivity|by apply raw_string_decodes].
    erewrite decode_members_cons; [|reflexivity|by apply raw_string_decodes].
    erewrite decode_members_cons; [|reflexivity|by apply raw_string_decodes].
    erewrite decode_members_cons; [|reflexivity|by apply raw_string_decodes].
    erewrite decode_members_cons; [|reflexivity|by apply alerts_decode].
    by destruct p.
  - clear Hms Ha. destruct Hve as (? & -> & _), Hgk as (? & -> & _), Hst as (? & -> & _),
      Hre as (? & -> & _). fields_commute ltac:(intros [[] ?]).
Qed.

(** The text of a time is the text of a string. *)
Lemma time_utf8 t text : FormatTime t = Some text → valid_utf8 text.
Proof.
  intros Ht. apply valid_utf8_ascii. eapply Forall_impl; [by eapply FormatTime_byte|].
  intros b Hb. unfold time_byte in Hb. cbn. lia.
Qed.

(** ** Properties *)

(** (C7) The operator reads what AlertManager writes, however it is written.  Take a text
    whose first JSON value has the members of the payload and of each alert once, among
    members the operator does not know, all in any order; with the entries of each map
    in any order, its strings escaped in any way, and each instant in any RFC 3339 text,
    with an offset or a fraction or without: decoding gives exactly the payload, labels,
    annotations and instants included.  In particular it does for the text that
    [json.Marshal] makes of such a document. *)
Theorem DecodePayload_doc p j :
  is_payload_doc p j →
  (∀ body rest, parse_prefix_raw body = Some (j, rest) → DecodePayload body = Some p) ∧
  (∀ v, map_strings raw_text v = j → wf v → (depth v ≤ maxNestingDepth)%nat →
     DecodePayload (Marshal v) = Some p).
Proof.
  intros Hj.
  assert (Hraw : ∀ body rest, parse_prefix_raw body = Some (j, rest) → DecodePayload body = Some p).
  { intros body rest Hb. unfold DecodePayload, DecodeRaw. rewrite Hb. cbn [mbind option_bind fst].
    by apply payload_doc_decodes. }
  split; [exact Hraw|]. intros v <- Hwf Hd. by eapply Hraw, parse_prefix_raw_Marshal.
Qed.

(** The members of an alert, from the text of its times and the entries of its maps. *)
Definition map_doc (entries : list (string * string)) : json := JObj (prod_map id JStr <$> entries).

Definition alert_doc (a : Alert) (labels annotations : list (string * string))
    (startsAt endsAt : string) (extra : list (string * json)) : json :=
  JObj ([ ("status", JStr (a_Status a)); ("labels", map_doc labels);
          ("annotations", map_doc annotations); ("startsAt", JStr startsAt);
          ("endsAt", JStr endsAt); ("fingerprint", JStr (a_Fingerprint a)) ] ++ extra).

(** A payload in the order in which AlertManager writes it, with the members the operator
    has no use for and a start in local time; the text has characters the encoder
    escapes. *)
Definition sample_alert : Alert :=
  mkAlert "firing" {[ "severity" := "page"; "service" := "orders" ]} {[ "summary" := "p99 < 1s & more" ]}
    (1700000000 * Second + 500 * Millisecond)%Z zero_time "fp1".

Definition sample_doc : json :=
  JObj [ ("receiver", JStr "operator"); ("status", JStr "firing");
         ("alerts", JArr [
            JObj [ ("status", JStr "firing");
                   ("labels", map_doc [("service", "orders"); ("severity", "page")]);
                   ("annotations", map_doc [("summary", "p99 < 1s & more")]);
                   ("startsAt", JStr "2023-11-15T00:13:20.5+02:00");
                   ("endsAt", JStr "0001-01-01T00:00:00Z");
                   ("generatorURL", JStr "http://prometheus/graph?a=1&b=2");
                   ("fingerprint", JStr "fp1") ] ]);
         ("groupLabels", map_doc [("slo", "orders")]); ("externalURL", JStr "http://alertmanager");
         ("version", JStr "4"); ("groupKey", JStr "{}:{slo=orders}"); ("truncatedAlerts", JNum "0") ].

(** The member of a name, and the others. *)
Fixpoint pick (k : string) (ms : list (string * json)) : option (json * list (string * json)) :=
  match ms with
  | [] => None
  | (k', v) :: ms' =>
    if bool_decide (k' = k) then Some (v, ms')
    else match pick k ms' with Some (v', rest) => Some (v', (k', v) :: rest) | None => None end
  end.

Lemma pick_perm k ms v rest known :
  pick k ms = Some (v, rest) → rest ≡ₚ known → ms ≡ₚ (k, v) :: known.
Proof.
  intros Hp <-. revert v rest Hp. induction ms as [|[k' v'] ms IH]; intros v rest; [done|].
  cbn [pick]. case_bool_decide as Hk; [by intros [= -> ->]; subst|].
  destruct (pick k ms) as [[v0 rest0]|]; [|done]. intros [= -> <-].
  rewrite (IH _ _ eq_refl). by rewrite Permutation_swap.
Qed.

Ltac sort_members :=
  eexists; split;
  [ repeat (eapply pick_perm; [vm_compute; reflexivity|]); reflexivity
  | repeat (apply Forall_cons; split; [vm_compute; reflexivity|]); apply Forall_nil_2 ].

Ltac read_value :=
  first [ eexists; split; [reflexivity|vm_compute; reflexivity]
        | eexists [(_, _)]; split; [reflexivity|vm_compute; reflexivity]
        | eexists [(_, _); (_, _)]; split; [reflexivity|vm_compute; first [reflexivity|apply Permutation_swap]] ].

Lemma DecodePayload_doc_witness :
  let body := of_bytes [32%N; 10%N] +:+ Marshal sample_doc +:+ of_bytes [10%N] in
  let p := mkPayload "4" "{}:{slo=orders}" "firing" "operator" [sample_alert] in
  DecodePayload body = Some p ∧ DecodePayload (Marshal sample_doc) = Some p.
Proof.
  intros body p.
  assert (Hdoc : is_payload_doc p (map_strings raw_text sample_doc)).
  { do 6 eexists. split; [reflexivity|]. split; [sort_members|].
    do 4 (split; [read_value|]). apply Forall2_cons. split; [|apply Forall2_nil_2].
    do 7 eexists. split; [reflexivity|]. split; [sort_members|]. repeat split; read_value. }
  destruct (DecodePayload_doc p _ Hdoc) as [Htext Hmarshal]. split.
  - eapply Htext. vm_compute. reflexivity.
  - apply Hmarshal; [reflexivity| |].
    + repeat split; first [by apply ascii_text_utf8|apply (number_lexeme_FormatInt 0)].
    + unfold maxNestingDepth. change (depth sample_doc) with 4%nat. lia.
Defined.

End Payload.
