(* ===== verification/Kube.v ===== *)
(** * The Kubernetes client the remedies act through

    controller-runtime's [client.Client] and the logger are not part of this
    repository: they are the parameters [KubeClient] and [Logger] of the model.
    [KubeLaws] states what the remedies rely on, all documented API behaviour: a
    read changes nothing; a successful create or patch changes the named object and
    no other, a merge patch as the field-wise difference of its two documents says;
    logging does not touch the cluster.  Nothing is assumed of a call that fails,
    except where [KubeFailures] is asked for.

    What a read returns is a law of its own, because the manager's client serves reads
    from a cache that follows the cluster with a delay: under [CachedReads] a read
    shows the object as it was at some earlier moment, under [CurrentReads] as it is. *)

From Stdlib Require Import ZArith.
From S2P Require Import Prelude Json.
Import Json.

Module Kube.

(** ** Objects, as far as the remedies read or write them *)

(** [types.NamespacedName]: namespace and name. *)
Abbreviation NamespacedName := (string * string)%type.

Definition key_String (key : NamespacedName) : string := key.1 +:+ "/" +:+ key.2.

Record GroupVersionKind := mkGVK { gvk_Group : string; gvk_Version : string; gvk_Kind : string }.

(** autoscaling/v2 HorizontalPodAutoscaler: [Spec.MinReplicas *int32], [Spec.MaxReplicas int32]. *)
Record HPA := mkHPA { MinReplicas : option Z; MaxReplicas : Z }.

(** v1 ConfigMap: [Data map[string]string], [None] for a nil map. *)
Record ConfigMap := mkCM { cm_Data : option (gmap string string) }.

(** The stored objects, by key; of a custom resource the status document. *)
Record cluster := mkCluster {
  hpas : gmap NamespacedName HPA;
  configmaps : gmap NamespacedName ConfigMap;
  statuses : gmap (string * NamespacedName) json;
}.

Definition with_hpa (k : NamespacedName) (h : HPA) (c : cluster) : cluster :=
  mkCluster (<[k := h]> (hpas c)) (configmaps c) (statuses c).
Definition with_cm (k : NamespacedName) (m : ConfigMap) (c : cluster) : cluster :=
  mkCluster (hpas c) (<[k := m]> (configmaps c)) (statuses c).
Definition with_status (g : GroupVersionKind) (k : NamespacedName) (j : json) (c : cluster) : cluster :=
  mkCluster (hpas c) (configmaps c) (<[(gvk_Kind g, k) := j]> (statuses c)).

(** ** Merge patches between two versions of a typed object

    [client.MergeFrom(base)] sends the difference of [base] and the object; the
    server applies it to what is stored: a part that does not differ is kept. *)

Definition merge_field {A} `{EqDecision A} (base obj cur : A) : A :=
  if bool_decide (base = obj) then cur else obj.

Definition merge_hpa (base obj cur : HPA) : HPA :=
  mkHPA (merge_field (MinReplicas base) (MinReplicas obj) (MinReplicas cur))
        (merge_field (MaxReplicas base) (MaxReplicas obj) (MaxReplicas cur)).

Definition data_map (m : ConfigMap) : gmap string string := default ∅ (cm_Data m).

(** Key by key on the data; the difference of absent and empty data is empty. *)
Definition merge_data (base obj cur : gmap string string) : gmap string string :=
  merge (λ o c, match o with Some (Some v) => Some v | Some None => None | None => c end)
    (merge (λ b o, if bool_decide (b = o) then None else Some o) base obj) cur.

Definition merge_cm (base obj cur : ConfigMap) : ConfigMap :=
  if bool_decide (data_map base = data_map obj) then cur
  else mkCM (Some (merge_data (data_map base) (data_map obj) (data_map cur))).

Lemma merge_field_same {A} `{EqDecision A} (b cur : A) : merge_field b b cur = cur.
Proof. unfold merge_field. by rewrite bool_decide_eq_true_2. Qed.

Lemma lookup_merge_data base obj cur k :
  merge_data base obj cur !! k = if bool_decide (base !! k = obj !! k) then cur !! k else obj !! k.
Proof.
  unfold merge_data. rewrite !lookup_merge.
  destruct (base !! k), (obj !! k), (cur !! k); cbn; repeat case_bool_decide; naive_solver.
Qed.

(** ** The interface *)

Class KubeClient (W : Type) := {
  GetHPA : NamespacedName → M W (error + HPA);
  PatchHPA : NamespacedName → HPA → HPA → M W (option error);
  GetConfigMap : NamespacedName → M W (error + ConfigMap);
  CreateConfigMap : NamespacedName → ConfigMap → M W (option error);
  PatchConfigMap : NamespacedName → ConfigMap → ConfigMap → M W (option error);
  (** [Status().Patch] with a raw merge patch. *)
  StatusPatch : GroupVersionKind → NamespacedName → string → M W (option error);
  (** [apierrors.IsNotFound]. *)
  IsNotFound : error → bool;
}.

Class Logger (W : Type) := {
  LogInfo : string → M W unit;
  (** [log.V(1).Info]: below the default verbosity. *)
  LogV1 : string → M W unit;
  LogError : error → string → M W unit;
}.

(** What is stored in the cluster a client talks to. *)
Class ClusterView (W : Type) := view : W → cluster.

Class KubeLaws (W : Type) `{KubeClient W, Logger W, ClusterView W} : Prop := {
  GetHPA_view k w : view (exec (GetHPA k) w) = view w;
  PatchHPA_ok k base obj w :
    fst (PatchHPA k base obj w) = None →
    ∃ cur, hpas (view w) !! k = Some cur ∧
      view (exec (PatchHPA k base obj) w) = with_hpa k (merge_hpa base obj cur) (view w);
  GetConfigMap_view k w : view (exec (GetConfigMap k) w) = view w;
  CreateConfigMap_ok k m w :
    fst (CreateConfigMap k m w) = None →
    configmaps (view w) !! k = None ∧
    view (exec (CreateConfigMap k m) w) = with_cm k m (view w);
  PatchConfigMap_ok k base obj w :
    fst (PatchConfigMap k base obj w) = None →
    ∃ cur, configmaps (view w) !! k = Some cur ∧
      view (exec (PatchConfigMap k base obj) w) = with_cm k (merge_cm base obj cur) (view w);
  (** The body is merged into the object's document; of the result the status
      subresource is stored. *)
  StatusPatch_ok g k body w :
    fst (StatusPatch g k body w) = None →
    ∃ old doc, statuses (view w) !! (gvk_Kind g, k) = Some old ∧ parse body = Some doc ∧
      view (exec (StatusPatch g k body) w) =
        with_status g k
          (default JNull (get "status" (merge_patch (JObj [("status", old)]) doc))) (view w);
  LogInfo_view s w : view (exec (LogInfo s) w) = view w;
  LogV1_view s w : view (exec (LogV1 s) w) = view w;
  LogError_view e s w : view (exec (LogError e s) w) = view w;
}.

(** Reads of what is stored. *)
Class CurrentReads (W : Type) `{KubeClient W, ClusterView W} : Prop := {
  GetHPA_ok k w h : fst (GetHPA k w) = inr h → hpas (view w) !! k = Some h;
  GetConfigMap_ok k w m : fst (GetConfigMap k w) = inr m → configmaps (view w) !! k = Some m;
}.

(** The operations of the client and the logger. *)
Inductive client_op {W : Type} `{KubeClient W, Logger W} : ∀ A, M W A → Prop :=
  | op_GetHPA k : client_op _ (GetHPA k)
  | op_PatchHPA k base obj : client_op _ (PatchHPA k base obj)
  | op_GetConfigMap k : client_op _ (GetConfigMap k)
  | op_CreateConfigMap k m : client_op _ (CreateConfigMap k m)
  | op_PatchConfigMap k base obj : client_op _ (PatchConfigMap k base obj)
  | op_StatusPatch g k body : client_op _ (StatusPatch g k body)
  | op_LogInfo s : client_op _ (LogInfo s)
  | op_LogV1 s : client_op _ (LogV1 s)
  | op_LogError e s : client_op _ (LogError e s).

(** Reads of a cache: [cached w] are the past clusters a read may still show; the only
    one an operation can add to them is the cluster it leaves. *)
Class CachedReads (W : Type) `{KubeClient W, Logger W, ClusterView W} := {
  cached : W → cluster → Prop;
  GetHPA_cached k w h : fst (GetHPA k w) = inr h → ∃ c, cached w c ∧ hpas c !! k = Some h;
  GetConfigMap_cached k w m :
    fst (GetConfigMap k w) = inr m → ∃ c, cached w c ∧ configmaps c !! k = Some m;
  cached_op A (m : M W A) w c :
    client_op A m → cached (exec m w) c → cached w c ∨ c = view (exec m w);
}.

(** Current reads are those of a cache that never lags. *)
#[export] Program Instance current_cached {W} `{CurrentReads W} {KL : Logger W} : CachedReads W :=
  {| cached w c := c = view w |}.
Next Obligation. intros. eexists. split; [done|]. by apply GetHPA_ok. Qed.
Next Obligation. intros. eexists. split; [done|]. by apply GetConfigMap_ok. Qed.
Next Obligation. auto. Qed.

(** What is known of a write that reports an error: the server did not do it, or it did
    and the answer was lost. *)
Class KubeFailures (W : Type) `{KubeClient W, ClusterView W} : Prop := {
  PatchHPA_err k base obj w e :
    fst (PatchHPA k base obj w) = Some e →
    view (exec (PatchHPA k base obj) w) = view w ∨
    ∃ cur, hpas (view w) !! k = Some cur ∧
      view (exec (PatchHPA k base obj) w) = with_hpa k (merge_hpa base obj cur) (view w);
  CreateConfigMap_err k m w e :
    fst (CreateConfigMap k m w) = Some e →
    view (exec (CreateConfigMap k m) w) = view w ∨
    configmaps (view w) !! k = None ∧
      view (exec (CreateConfigMap k m) w) = with_cm k m (view w);
  PatchConfigMap_err k base obj w e :
    fst (PatchConfigMap k base obj w) = Some e →
    view (exec (PatchConfigMap k base obj) w) = view w ∨
    ∃ cur, configmaps (view w) !! k = Some cur ∧
      view (exec (PatchConfigMap k base obj) w) = with_cm k (merge_cm base obj cur) (view w);
  StatusPatch_err g k body w e :
    fst (StatusPatch g k body w) = Some e →
    view (exec (StatusPatch g k body) w) = view w ∨
    ∃ j, view (exec (StatusPatch g k body) w) = with_status g k j (view w);
}.

(** The key of a status subresource does not clash with another object's. *)
Lemma with_cm_lookup k m c : configmaps (with_cm k m c) !! k = Some m.
Proof. apply lookup_insert_eq. Qed.

Lemma with_hpa_lookup k h c : hpas (with_hpa k h c) !! k = Some h.
Proof. apply lookup_insert_eq. Qed.

Lemma with_status_lookup g k j c : statuses (with_status g k j c) !! (gvk_Kind g, k) = Some j.
Proof. apply lookup_insert_eq. Qed.

Create Rewrite HintDb kube.
#[export] Hint Rewrite @GetHPA_view @GetConfigMap_view @LogInfo_view @LogV1_view @LogError_view
  using typeclasses eauto : kube.

End Kube.

(** * An in-memory cluster

    A client that satisfies the laws, as the fake client of the Go tests does.
    It is what the concrete runs of this development talk to.  [fault] makes
    every call of that name fail. *)

Module FakeKube.
Import Kube.

Record fake := mkFake {
  fk_cluster : cluster;
  fk_fault : gset string;
  fk_log : list string;
}.

Definition NotFound : error := Error "not found".

Definition faulty (call : string) (w : fake) : bool := bool_decide (call ∈ fk_fault w).

Definition set_cluster (c : cluster) (w : fake) : fake := mkFake c (fk_fault w) (fk_log w).

Definition read {A} (call : string) (look : cluster → option A) : M fake (error + A) := λ w,
  (if faulty call w then inl (Error "timeout")
   else match look (fk_cluster w) with Some a => inr a | None => inl NotFound end, w).

Definition write (call : string) (upd : cluster → option cluster) : M fake (option error) := λ w,
  if faulty call w then (Some (Error "timeout"), w)
  else match upd (fk_cluster w) with
       | Some c => (None, set_cluster c w)
       | None => (Some NotFound, w)
       end.

#[export] Instance fake_client : KubeClient fake := {
  GetHPA k := read "get hpa" (λ c, hpas c !! k);
  PatchHPA k base obj := write "patch hpa" (λ c,
    cur ← hpas c !! k; Some (with_hpa k (merge_hpa base obj cur) c));
  GetConfigMap k := read "get configmap" (λ c, configmaps c !! k);
  CreateConfigMap k m := write "create configmap" (λ c,
    match configmaps c !! k with Some _ => None | None => Some (with_cm k m c) end);
  PatchConfigMap k base obj := write "patch configmap" (λ c,
    cur ← configmaps c !! k; Some (with_cm k (merge_cm base obj cur) c));
  StatusPatch g k body := write "patch status" (λ c,
    old ← statuses c !! (gvk_Kind g, k); doc ← parse body;
    Some (with_status g k
      (default JNull (get "status" (merge_patch (JObj [("status", old)]) doc))) c));
  IsNotFound e := bool_decide (e = NotFound);
}.

#[export] Instance fake_logger : Logger fake := {
  LogInfo s := modify (λ w, mkFake (fk_cluster w) (fk_fault w) (fk_log w ++ [s]));
  LogV1 s := mret ();
  LogError e s := modify (λ w, mkFake (fk_cluster w) (fk_fault w) (fk_log w ++ [s]));
}.

#[export] Instance fake_view : ClusterView fake := fk_cluster.

Lemma write_ok call upd w :
  fst (write call upd w) = None →
  upd (fk_cluster w) = Some (fk_cluster (exec (write call upd) w)).
Proof. unfold write, exec. by repeat case_match. Qed.

Lemma read_ok {A} call (look : cluster → option A) w a :
  fst (read call look w) = inr a → look (fk_cluster w) = Some a.
Proof. unfold read. cbn. repeat case_match; naive_solver. Qed.

#[export] Instance fake_current : CurrentReads fake.
Proof. split; intros k w a; apply read_ok. Qed.

#[export] Instance fake_laws : KubeLaws fake.
Proof.
  split; try done.
  - intros k base obj w Hok%write_ok. apply bind_Some in Hok as (cur & ? & [= ?]). eauto.
  - intros k m w Hok%write_ok. cbn in Hok. case_match; naive_solver.
  - intros k base obj w Hok%write_ok. apply bind_Some in Hok as (cur & ? & [= ?]). eauto.
  - intros g k b w Hok%write_ok. apply bind_Some in Hok as (old & ? & Hok).
    apply bind_Some in Hok as (doc & ? & [= ?]). eauto 6.
Qed.

Lemma write_err call upd w e :
  fst (write call upd w) = Some e → exec (write call upd) w = w.
Proof. unfold write, exec. by repeat case_match. Qed.

#[export] Instance fake_failures : KubeFailures fake.
Proof. split; intros; left; unfold view, fake_view; cbn in *; by erewrite write_err. Qed.

End FakeKube.

(** * The same cluster behind a cache

    Reads are served from [lg_cache]; after each operation the cache catches up with the
    cluster or not, as the next entry of [lg_syncs] says (not, when there is none). *)

Module LaggingKube.
Import Kube FakeKube.

Record lagging := mkLagging { lg_fake : fake; lg_cache : cluster; lg_syncs : list bool }.

(** An operation on the cluster itself. *)
Definition direct {A} (m : M fake A) : M lagging A := λ w,
  let '(a, f) := m (lg_fake w) in
  (a, match lg_syncs w with
      | true :: l => mkLagging f (fk_cluster f) l
      | false :: l => mkLagging f (lg_cache w) l
      | [] => mkLagging f (lg_cache w) []
      end).

(** A read of the cache. *)
Definition through_cache {A} (m : M fake A) : M lagging A := λ w,
  (fst (m (set_cluster (lg_cache w) (lg_fake w))), exec (direct m) w).

#[export] Instance lagging_client : KubeClient lagging := {
  GetHPA k := through_cache (GetHPA k);
  PatchHPA k base obj := direct (PatchHPA k base obj);
  GetConfigMap k := through_cache (GetConfigMap k);
  CreateConfigMap k m := direct (CreateConfigMap k m);
  PatchConfigMap k base obj := direct (PatchConfigMap k base obj);
  StatusPatch g k body := direct (StatusPatch g k body);
  IsNotFound := IsNotFound (W := fake);
}.

#[export] Instance lagging_logger : Logger lagging := {
  LogInfo s := direct (LogInfo s);
  LogV1 s := direct (LogV1 s);
  LogError e s := direct (LogError e s);
}.

#[export] Instance lagging_view : ClusterView lagging := λ w, fk_cluster (lg_fake w).

Lemma direct_ans {A} (m : M fake A) w : fst (direct m w) = fst (m (lg_fake w)).
Proof. unfold direct. by destruct (m (lg_fake w)). Qed.

Lemma direct_view {A} (m : M fake A) w : view (exec (direct m) w) = view (exec m (lg_fake w)).
Proof.
  unfold exec, direct. destruct (m (lg_fake w)). cbn.
  destruct (lg_syncs w) as [|[] l]; done.
Qed.

Lemma through_view {A} (m : M fake A) w :
  view (exec (through_cache m) w) = view (exec m (lg_fake w)).
Proof. apply direct_view. Qed.

Lemma direct_cache {A} (m : M fake A) w :
  lg_cache (exec (direct m) w) = lg_cache w ∨
  lg_cache (exec (direct m) w) = view (exec (direct m) w).
Proof.
  unfold exec, direct. destruct (m (lg_fake w)). cbn.
  destruct (lg_syncs w) as [|[] l]; auto.
Qed.

#[export] Instance lagging_laws : KubeLaws lagging.
Proof.
  split; cbn [GetHPA PatchHPA GetConfigMap CreateConfigMap PatchConfigMap StatusPatch
              LogInfo LogV1 LogError lagging_client lagging_logger]; intros;
    rewrite ?direct_ans in *; rewrite ?through_view, ?direct_view.
  - apply (GetHPA_view (W := fake)).
  - by apply (PatchHPA_ok (W := fake)).
  - apply (GetConfigMap_view (W := fake)).
  - by apply (CreateConfigMap_ok (W := fake)).
  - by apply (PatchConfigMap_ok (W := fake)).
  - by apply (StatusPatch_ok (W := fake)).
  - apply (LogInfo_view (W := fake)).
  - apply (LogV1_view (W := fake)).
  - apply (LogError_view (W := fake)).
Qed.

#[export] Instance lagging_failures : KubeFailures lagging.
Proof.
  split; cbn [PatchHPA CreateConfigMap PatchConfigMap StatusPatch lagging_client]; intros *;
    rewrite direct_ans, direct_view; intros.
  - by eapply (PatchHPA_err (W := fake)).
  - by eapply (CreateConfigMap_err (W := fake)).
  - by eapply (PatchConfigMap_err (W := fake)).
  - by eapply (StatusPatch_err (W := fake)).
Qed.

#[export] Program Instance lagging_cached : CachedReads lagging :=
  {| cached w c := c = lg_cache w |}.
Next Obligation.
  intros k w h Hok. eexists. split; [done|].
  by apply (GetHPA_ok (W := fake)) in Hok.
Qed.
Next Obligation.
  intros k w m Hok. eexists. split; [done|].
  by apply (GetConfigMap_ok (W := fake)) in Hok.
Qed.
Next Obligation.
  intros A m w c Hop ->. destruct Hop; apply direct_cache.
Qed.

End LaggingKube.
