(* ===== verification/Remedy.v ===== *)
(** * The remedies and their registry

    Models operator/internal/remedy: [remedy.go] (Input, Remedy, Registry),
    [rollback.go], [scale.go] and [circuitbreak.go].  A remedy runs in the state
    [W] of the cluster client and the logger. *)

From Stdlib Require Import ZArith Lia.
From S2P Require Import Prelude GoLib GoText Classifier Json Kube.
Import GoInt Classifier Json Kube.

Module Remedy.
Local Open Scope Z_scope.

(** ** remedy.go *)

Record Input := mkInput { in_Namespace : string; in_Decision : Decision }.

(** The [Remedy] interface: one method. *)
Definition Remedy (W : Type) : Type := Input → M W (option error).

(** [Registry]: a map from kinds to remedies. *)
Definition Registry (W : Type) : Type := gmap Kind (Remedy W).

Definition NewRegistry {W} : Registry W := ∅.
Definition Register {W} (k : Kind) (rem : Remedy W) (r : Registry W) : Registry W := <[k := rem]> r.
Definition Lookup {W} (k : Kind) (r : Registry W) : option (Remedy W) := r !! k.

Definition Registry_Apply {W} (r : Registry W) (inp : Input) : M W (option error) :=
  match Lookup (d_Kind (in_Decision inp)) r with
  | None => mret (Some (Error ("no remedy registered for kind " +:+
                                Kind_String (d_Kind (in_Decision inp)))))
  | Some rem => rem inp
  end.

Section Remedies.
Context {W : Type} {KC : KubeClient W} {KL : Logger W}.

Definition target_key (inp : Input) : NamespacedName :=
  (in_Namespace inp, d_Target (in_Decision inp)).

(** ** rollback.go *)

Definition rolloutGVR : GroupVersionKind := mkGVK "argoproj.io" "v1alpha1" "Rollout".

Definition quoted (s : string) : string := of_bytes [34%N] +:+ s +:+ of_bytes [34%N].

(** The bytes of the patch: an object with "status", an object with "abort": true. *)
Definition abort_patch : string :=
  "{" +:+ quoted "status" +:+ ":{" +:+ quoted "abort" +:+ ":true}}".

Definition Rollback_Apply : Remedy W := λ inp,
  err ← StatusPatch rolloutGVR (target_key inp) abort_patch;
  match err with
  | Some e =>
    mret (Some (wrapf ("patch rollout " +:+ key_String (target_key inp) +:+ " status.abort") e))
  | None =>
    _ ← LogInfo "rollback aborted in-flight rollout";
    mret None
  end.

(** ** scale.go *)

(** [ScaleUp{Step int32}]. *)
Record ScaleUp := mkScaleUp { Step : Z }.

Definition scale_step (s : ScaleUp) : Z := if Step s <=? 0 then 2 else Step s.

(** The floor the remedy computes, in int32 arithmetic. *)
Definition scale_current (h : HPA) : Z := default 0 (MinReplicas h).

Definition scale_target (s : ScaleUp) (h : HPA) : Z :=
  let target := add_int32 (scale_current h) (scale_step s) in
  if MaxReplicas h <? target then MaxReplicas h else target.

Definition ScaleUp_Apply (s : ScaleUp) : Remedy W := λ inp,
  let key := target_key inp in
  res ← GetHPA key;
  match res with
  | inl e => mret (Some (wrapf ("get hpa " +:+ key_String key) e))
  | inr hpa =>
    let current := scale_current hpa in
    let target := scale_target s hpa in
    if target <=? current then
      _ ← LogInfo "scale-up no-op (already at or above target)";
      mret None
    else
      let base := hpa in
      let hpa' := mkHPA (Some target) (MaxReplicas hpa) in
      err ← PatchHPA key base hpa';
      match err with
      | Some e => mret (Some (wrapf ("patch hpa " +:+ key_String key +:+ " minReplicas") e))
      | None =>
        _ ← LogInfo "scale-up bumped HPA minReplicas";
        mret None
      end
  end.

(** ** circuitbreak.go *)

Definition flagKey : string := "publish_enabled".
Definition flagValuePaused : string := "false".

Definition paused_data (cm : ConfigMap) : ConfigMap :=
  mkCM (Some (<[flagKey := flagValuePaused]> (data_map cm))).

Definition CircuitBreak_Apply : Remedy W := λ inp,
  let key := target_key inp in
  res ← GetConfigMap key;
  match res with
  | inl e =>
    if IsNotFound e then
      let cm := mkCM (Some {[ flagKey := flagValuePaused ]}) in
      err ← CreateConfigMap key cm;
      match err with
      | Some e' => mret (Some (wrapf ("create flags configmap " +:+ key_String key) e'))
      | None =>
        _ ← LogInfo "circuit-break engaged (configmap created)";
        mret None
      end
    else mret (Some (wrapf ("get flags configmap " +:+ key_String key) e))
  | inr cm =>
    if bool_decide (default "" (data_map cm !! flagKey) = flagValuePaused) then
      _ ← LogInfo "circuit-break already engaged (no-op)";
      mret None
    else
      let base := cm in
      err ← PatchConfigMap key base (paused_data cm);
      match err with
      | Some e => mret (Some (wrapf ("patch flags configmap " +:+ key_String key) e))
      | None =>
        _ ← LogInfo "circuit-break engaged";
        mret None
      end
  end.
End Remedies.

(** ** Lemmas on the effect of each remedy *)

Section Laws.
Context {W : Type} {KC : KubeClient W} {KL : Logger W} {KV : ClusterView W} {KLaws : KubeLaws W} {KR : CurrentReads W}.
Implicit Types (w : W) (inp : Input).

Lemma view_log (m : M W unit) A (a : A) w :
  (∀ w', view (exec m w') = view w') → view (snd ((_ ← m; mret a) w)) = view w.
Proof. intros Hm. rewrite <- (Hm w). unfold exec. by rewrite bind_run. Qed.

Lemma fst_log (m : M W unit) A (a : A) w : fst ((_ ← m; mret a) w) = a.
Proof. by rewrite bind_run. Qed.

(** The new state of a configmap once the brake is engaged. *)
Lemma merge_paused cm cur :
  data_map cm !! flagKey ≠ Some flagValuePaused →
  data_map (merge_cm cm (paused_data cm) cur) = <[flagKey := flagValuePaused]> (data_map cur).
Proof.
  intros Hne. unfold merge_cm. change (data_map (paused_data cm))
    with (<[flagKey := flagValuePaused]> (data_map cm)).
  rewrite bool_decide_eq_false_2.
  2:{ intros Heq. apply Hne. rewrite Heq. apply lookup_insert_eq. }
  cbn. apply map_eq. intros k. rewrite lookup_merge_data.
  destruct (decide (k = flagKey)) as [->|Hk].
  - rewrite !lookup_insert_eq. by rewrite bool_decide_eq_false_2.
  - rewrite !lookup_insert_ne by done. by rewrite bool_decide_eq_true_2.
Qed.

(** The brake is engaged in [c]: the configmap exists and its flag is "false". *)
Definition engaged (key : NamespacedName) (c : cluster) : Prop :=
  ∃ m, configmaps c !! key = Some m ∧ data_map m !! flagKey = Some flagValuePaused.

(** The data a cluster holds for a configmap key, empty when it is missing. *)
Definition cm_data_at (key : NamespacedName) (c : cluster) : gmap string string :=
  default ∅ (data_map <$> configmaps c !! key).

(** Everything but the data of one configmap is as before. *)
Definition same_but_cm (key : NamespacedName) (c c' : cluster) : Prop :=
  hpas c' = hpas c ∧ statuses c' = statuses c ∧
  ∀ k, k ≠ key → configmaps c' !! k = configmaps c !! k.

Lemma same_but_cm_refl key c : same_but_cm key c c.
Proof. done. Qed.

Lemma same_but_cm_with key m c : same_but_cm key c (with_cm key m c).
Proof. split; [done|]. split; [done|]. intros k Hk. cbn. by rewrite lookup_insert_ne. Qed.

(** A successful circuit break leaves the flag at "false" and the rest of the
    configmap and of the cluster as it was. *)
Lemma CircuitBreak_effect inp w :
  fst (CircuitBreak_Apply inp w) = None →
  let c := view w in let c' := view (exec (CircuitBreak_Apply inp) w) in
  let key := target_key inp in
  engaged key c' ∧ same_but_cm key c c' ∧
  cm_data_at key c' = <[flagKey := flagValuePaused]> (cm_data_at key c).
Proof.
  cbn zeta. unfold CircuitBreak_Apply, exec. rewrite bind_run.
  set (key := target_key inp).
  pose proof (GetConfigMap_view key w) as Hv. pose proof (GetConfigMap_ok key w) as Hok.
  unfold exec in Hv. set (w1 := snd (GetConfigMap key w)) in *.
  destruct (fst (GetConfigMap key w)) as [e|cm].
  - destruct (IsNotFound e); [|done]. rewrite bind_run.
    pose proof (CreateConfigMap_ok key (mkCM (Some {[flagKey := flagValuePaused]})) w1) as Hc.
    unfold exec in Hc. destruct (fst (CreateConfigMap _ _ w1)) as [e'|]; [done|]. intros _.
    destruct Hc as [Hnone Hc]; [done|].
    rewrite view_log by apply LogInfo_view. rewrite Hc, <- Hv.
    split; [|split; [apply same_but_cm_with|]].
    + eexists. by rewrite with_cm_lookup.
    + unfold cm_data_at. by rewrite with_cm_lookup, Hnone.
  - specialize (Hok _ eq_refl). case_bool_decide as Hflag.
    + rewrite view_log by apply LogInfo_view. rewrite Hv. intros _.
      assert (Hf : data_map cm !! flagKey = Some flagValuePaused).
      { destruct (data_map cm !! flagKey); cbn in Hflag; [by rewrite Hflag|done]. }
      split; [by exists cm|]. split; [done|].
      unfold cm_data_at. rewrite Hok. cbn. by rewrite insert_id.
    + rewrite bind_run. pose proof (PatchConfigMap_ok key cm (paused_data cm) w1) as Hp.
      unfold exec in Hp. destruct (fst (PatchConfigMap _ _ _ w1)) as [e'|]; [done|]. intros _.
      destruct Hp as (cur & Hcur & Hp); [done|].
      rewrite view_log by apply LogInfo_view. rewrite Hp, Hv. rewrite Hv in Hcur.
      assert (cur = cm) as -> by congruence.
      assert (Hm : data_map (merge_cm cm (paused_data cm) cm) =
                   <[flagKey := flagValuePaused]> (data_map cm)).
      { apply merge_paused. intros Heq. by rewrite Heq in Hflag. }
      split; [|split; [apply same_but_cm_with|]].
      * eexists. rewrite with_cm_lookup. split; [done|]. by rewrite Hm, lookup_insert_eq.
      * unfold cm_data_at. rewrite with_cm_lookup, Hok. cbn. exact Hm.
Qed.
End Laws.
End Remedy.
