(* ===== verification/RemedyProps.v ===== *)
(** * What the remedies do to the cluster

    Every statement is against the laws of the client interface ([KubeLaws]), so
    it holds of any client that keeps them; the runs that show the hypotheses
    can be met are on the in-memory cluster of [FakeKube]. *)

From Stdlib Require Import ZArith Lia.
From S2P Require Import Prelude GoLib GoText Classifier Json Kube Remedy.
Import GoInt Classifier Json Kube Remedy.

Module RemedyProps.
Local Open Scope Z_scope.

(** ** The scale-up floor as a function of the stored HPA *)

Definition scale_spec (s : ScaleUp) (h : HPA) : HPA :=
  if scale_target s h <=? scale_current h then h
  else mkHPA (Some (scale_target s h)) (MaxReplicas h).

(** The fields are int32 values. *)
Definition wf_hpa (h : HPA) : Prop := is_int32 (scale_current h) ∧ is_int32 (MaxReplicas h).
Definition wf_scale (s : ScaleUp) : Prop := is_int32 (Step s).

Lemma scale_step_pos s : wf_scale s → 0 < scale_step s ≤ max_int32.
Proof.
  unfold wf_scale, scale_step. rewrite is_int32_eq. change max_int32 with 2147483647.
  case_match; bool_to_prop; lia.
Qed.

Lemma merge_field_id {A} `{EqDecision A} (b o : A) : merge_field b o b = o.
Proof. unfold merge_field. by case_bool_decide. Qed.

(** The new floor, with the int32 overflow spelled out. *)
Lemma scale_spec_current s h :
  wf_scale s → wf_hpa h →
  scale_current (scale_spec s h) =
    if max_int32 <? scale_current h + scale_step s then scale_current h
    else Z.max (scale_current h) (Z.min (scale_current h + scale_step s) (MaxReplicas h)).
Proof.
  intros Hs [Hc Hm]. pose proof (scale_step_pos s Hs) as Hpos.
  unfold scale_spec, scale_target.
  destruct (Z.ltb_spec max_int32 (scale_current h + scale_step s)) as [Ho|Ho].
  - rewrite add_int32_overflow; [|done| |lia].
    2:{ rewrite is_int32_eq. change max_int32 with 2147483647 in *. lia. }
    change (2 ^ 32) with 4294967296. change max_int32 with 2147483647 in *.
    rewrite is_int32_eq in Hc.
    repeat (case_match; bool_to_prop); cbn; try done; lia.
  - rewrite add_int32_exact.
    2:{ rewrite is_int32_eq in *. change max_int32 with 2147483647 in *. lia. }
    repeat (case_match; bool_to_prop); cbn; lia.
Qed.

Lemma scale_spec_max s h : MaxReplicas (scale_spec s h) = MaxReplicas h.
Proof. unfold scale_spec. by case_match. Qed.

Lemma scale_spec_wf s h : wf_scale s → wf_hpa h → wf_hpa (scale_spec s h).
Proof.
  intros Hs Hh. split; [|rewrite scale_spec_max; apply Hh].
  rewrite scale_spec_current by done. destruct Hh as [Hc Hm]. pose proof (scale_step_pos s Hs).
  rewrite !is_int32_eq in *. change max_int32 with 2147483647 in *.
  case_match; bool_to_prop; lia.
Qed.

(** [n] steps from a floor at most the maximum, when no step can overflow. *)
Lemma scale_spec_iter s h n :
  wf_scale s → wf_hpa h → scale_current h ≤ MaxReplicas h →
  MaxReplicas h + scale_step s ≤ max_int32 →
  scale_current (Nat.iter n (scale_spec s) h) =
    Z.min (MaxReplicas h) (scale_current h + Z.of_nat n * scale_step s) ∧
  wf_hpa (Nat.iter n (scale_spec s) h) ∧
  MaxReplicas (Nat.iter n (scale_spec s) h) = MaxReplicas h.
Proof.
  intros Hs Hh Hle Hno. pose proof (scale_step_pos s Hs) as Hpos.
  induction n as [|n (IHc & IHw & IHm)]; [split; [|done]; cbn [Nat.iter nat_rect]; lia|].
  rewrite Nat.iter_succ, scale_spec_max, scale_spec_current by done.
  split; [|split; [by apply scale_spec_wf|done]].
  rewrite IHc, IHm. case_match; bool_to_prop; nia.
Qed.

Section Laws.
Context {W : Type} {KC : KubeClient W} {KL : Logger W} {KV : ClusterView W} {KLaws : KubeLaws W} {KR : CurrentReads W}.
Implicit Types (w : W) (inp : Input).

(** A successful scale-up replaces the HPA by [scale_spec] of it. *)
Lemma ScaleUp_effect s inp w :
  fst (ScaleUp_Apply s inp w) = None →
  ∃ h, hpas (view w) !! target_key inp = Some h ∧
       view (exec (ScaleUp_Apply s inp) w) = with_hpa (target_key inp) (scale_spec s h) (view w).
Proof.
  unfold ScaleUp_Apply, exec. rewrite bind_run. set (key := target_key inp).
  pose proof (GetHPA_view key w) as Hv. pose proof (GetHPA_ok key w) as Hok.
  unfold exec in Hv. set (w1 := snd (GetHPA key w)) in *.
  destruct (fst (GetHPA key w)) as [e|h]; [done|]. specialize (Hok _ eq_refl).
  unfold scale_spec. case_match eqn:Ht.
  - intros _. exists h. split; [done|]. rewrite view_log by apply LogInfo_view. rewrite Hv.
    rewrite Ht. unfold with_hpa. rewrite insert_id by done. by destruct (view w).
  - rewrite bind_run. pose proof (PatchHPA_ok key h (mkHPA (Some (scale_target s h)) (MaxReplicas h)) w1) as Hp.
    unfold exec in Hp. destruct (fst (PatchHPA _ _ _ w1)); [done|]. intros _.
    destruct Hp as (cur & Hcur & Hp); [done|]. rewrite Hv in Hcur.
    assert (cur = h) as -> by congruence. exists h. split; [done|].
    rewrite view_log by apply LogInfo_view. rewrite Hp, Hv, Ht. f_equal.
    unfold merge_hpa. by rewrite !merge_field_id.
Qed.

(** [n] applications in a row, all successful. *)
Fixpoint succeeds_n (n : nat) (rem : Remedy W) inp w : Prop :=
  match n with
  | O => True
  | S n' => fst (rem inp w) = None ∧ succeeds_n n' rem inp (exec (rem inp) w)
  end.

Fixpoint exec_n (n : nat) (rem : Remedy W) inp w : W :=
  match n with
  | O => w
  | S n' => exec_n n' rem inp (exec (rem inp) w)
  end.

Lemma ScaleUp_effect_n s inp n w h :
  succeeds_n n (ScaleUp_Apply s) inp w → hpas (view w) !! target_key inp = Some h →
  hpas (view (exec_n n (ScaleUp_Apply s) inp w)) !! target_key inp =
    Some (Nat.iter n (scale_spec s) h).
Proof.
  revert w h. induction n as [|n IH]; intros w h; [done|]. cbn [succeeds_n exec_n].
  intros [H1 Hn] Hh. destruct (ScaleUp_effect _ _ _ H1) as (h0 & Hh0 & Hv).
  assert (h0 = h) as -> by congruence.
  rewrite Nat.iter_succ_r. apply IH; [done|]. rewrite Hv. apply with_hpa_lookup.
Qed.

(** ** Rollback *)

Lemma abort_patch_doc :
  parse abort_patch = Some (JObj [("status", JObj [("abort", JBool true)])]).
Proof. vm_compute. done. Qed.

(** The status document once the abort is merged into it. *)
Definition aborted (old : json) : json := JObj (set_field "abort" (JBool true) (fields old)).

Lemma Rollback_effect inp w :
  fst (Rollback_Apply inp w) = None →
  ∃ old, statuses (view w) !! (gvk_Kind rolloutGVR, target_key inp) = Some old ∧
    view (exec (Rollback_Apply inp) w) =
      with_status rolloutGVR (target_key inp) (aborted old) (view w).
Proof.
  unfold Rollback_Apply, exec. rewrite bind_run.
  pose proof (StatusPatch_ok rolloutGVR (target_key inp) abort_patch w) as Hp.
  unfold exec in Hp. destruct (fst (StatusPatch _ _ _ w)); [done|]. intros _.
  destruct Hp as (old & doc & Hold & Hdoc & Hp); [done|].
  rewrite abort_patch_doc in Hdoc. simplify_eq. exists old. split; [done|].
  rewrite view_log by apply LogInfo_view. by rewrite Hp.
Qed.

Lemma aborted_idemp old : aborted (aborted old) = aborted old.
Proof.
  unfold aborted. cbn [fields]. by rewrite set_field_idem.
Qed.

(** ** Idempotence: a second application changes nothing *)

Definition repeat_changes_nothing (rem : Remedy W) inp w : Prop :=
  fst (rem inp (exec (rem inp) w)) = None →
  view (exec (rem inp) (exec (rem inp) w)) = view (exec (rem inp) w).

Definition idempotent_remedy (rem : Remedy W) : Prop := ∀ inp w,
  fst (rem inp w) = None → repeat_changes_nothing rem inp w.

Lemma same_but_cm_eq key m (c c' : cluster) :
  configmaps c !! key = Some m → configmaps c' !! key = Some m → same_but_cm key c c' → c' = c.
Proof.
  intros Hm Hm' (Hh & Hs & Ho). destruct c, c'; cbn in *; subst. f_equal.
  apply map_eq. intros k. destruct (decide (k = key)) as [->|]; [congruence|by apply Ho].
Qed.

(** A successful circuit break on an engaged brake writes nothing. *)
Lemma CircuitBreak_engaged inp w :
  engaged (target_key inp) (view w) → fst (CircuitBreak_Apply inp w) = None →
  view (exec (CircuitBreak_Apply inp) w) = view w.
Proof.
  intros (m & Hm & Hflag) Hok. revert Hok. unfold CircuitBreak_Apply, exec. rewrite bind_run.
  set (key := target_key inp) in *.
  pose proof (GetConfigMap_view key w) as Hv. pose proof (GetConfigMap_ok key w) as Hget.
  unfold exec in Hv. set (w1 := snd (GetConfigMap key w)) in *.
  destruct (fst (GetConfigMap key w)) as [e|cm].
  - destruct (IsNotFound e); [|done]. rewrite bind_run.
    match goal with |- context [CreateConfigMap ?k ?m] =>
      pose proof (CreateConfigMap_ok k m w1) as Hc end.
    destruct (fst (CreateConfigMap _ _ w1)); [done|].
    destruct Hc as [Hc _]; [done|]. rewrite Hv in Hc. congruence.
  - specialize (Hget _ eq_refl). assert (cm = m) as -> by congruence.
    rewrite Hflag, bool_decide_eq_true_2 by done. intros _.
    rewrite view_log by apply LogInfo_view. exact Hv.
Qed.

Lemma CircuitBreak_idem : idempotent_remedy CircuitBreak_Apply.
Proof.
  intros inp w H1 H2. apply CircuitBreak_engaged; [|done].
  by destruct (CircuitBreak_effect _ _ H1) as [? _].
Qed.

Lemma Rollback_idem : idempotent_remedy Rollback_Apply.
Proof.
  intros inp w H1 H2.
  destruct (Rollback_effect _ _ H1) as (old & Hold & Hv1).
  destruct (Rollback_effect _ _ H2) as (old2 & Hold2 & Hv2).
  rewrite Hv2, Hv1 in *. rewrite with_status_lookup in Hold2. simplify_eq.
  rewrite aborted_idemp. unfold with_status. cbn. by rewrite insert_insert_eq.
Qed.

(** ** Properties *)

(** (C8) Bounds of the scale-up, machine arithmetic included.  A successful
    application replaces the target HPA and nothing else; it keeps
    [maxReplicas]; and it raises the floor to [min (current + step) max] unless
    the floor is there already or the int32 sum overflows, in which case it
    leaves it alone.  So the floor never falls and never passes [maxReplicas]
    by the remedy's doing. *)
Theorem ScaleUp_bounded s inp w h :
  wf_scale s → hpas (view w) !! target_key inp = Some h → wf_hpa h →
  fst (ScaleUp_Apply s inp w) = None →
  ∃ h', view (exec (ScaleUp_Apply s inp) w) = with_hpa (target_key inp) h' (view w) ∧
    MaxReplicas h' = MaxReplicas h ∧
    scale_current h' =
      if max_int32 <? scale_current h + scale_step s then scale_current h
      else Z.max (scale_current h) (Z.min (scale_current h + scale_step s) (MaxReplicas h)).
Proof.
  intros Hs Hh Hwf Hok. destruct (ScaleUp_effect _ _ _ Hok) as (h0 & Hh0 & Hv).
  assert (h0 = h) as -> by congruence. exists (scale_spec s h).
  split; [done|]. split; [apply scale_spec_max|by apply scale_spec_current].
Qed.

(** (C16) Convergence of repeated scale-ups.  Starting at or below the maximum,
    [n] successful applications in a row leave the floor at
    [min max (current + n * step)]: each one adds a step until the ceiling is
    reached, and from then on nothing changes. *)
Theorem ScaleUp_converges s inp n w h :
  wf_scale s → hpas (view w) !! target_key inp = Some h → wf_hpa h →
  scale_current h ≤ MaxReplicas h → MaxReplicas h + scale_step s ≤ max_int32 →
  succeeds_n n (ScaleUp_Apply s) inp w →
  ∃ h', hpas (view (exec_n n (ScaleUp_Apply s) inp w)) !! target_key inp = Some h' ∧
    scale_current h' = Z.min (MaxReplicas h) (scale_current h + Z.of_nat n * scale_step s) ∧
    MaxReplicas h' = MaxReplicas h.
Proof.
  intros Hs Hh Hwf Hle Hno Hn. eexists. split; [by eapply ScaleUp_effect_n|].
  by destruct (scale_spec_iter s h n) as (? & ? & ?).
Qed.

(** The scale-up is not idempotent below the ceiling: whenever one
    step stays under [maxReplicas] and two do not overflow, a second application
    changes the cluster again, so a double apply does not converge to the state
    of a single one. *)
Theorem ScaleUp_not_idempotent s inp w h :
  wf_scale s → hpas (view w) !! target_key inp = Some h → wf_hpa h →
  scale_current h + scale_step s < MaxReplicas h →
  scale_current h + 2 * scale_step s ≤ max_int32 →
  succeeds_n 2 (ScaleUp_Apply s) inp w →
  view (exec_n 2 (ScaleUp_Apply s) inp w) ≠ view (exec_n 1 (ScaleUp_Apply s) inp w).
Proof.
  intros Hs Hh Hwf Hlt Hno Hn Heq.
  pose proof (ScaleUp_effect_n s inp 2 w h Hn Hh) as H2.
  pose proof (ScaleUp_effect_n s inp 1 w h (conj (proj1 Hn) I) Hh) as H1.
  rewrite Heq, H1 in H2. injection H2 as H2. apply (f_equal scale_current) in H2.
  cbn [Nat.iter nat_rect] in H2. pose proof (scale_step_pos s Hs) as Hpos.
  assert (Hwf' : wf_hpa (scale_spec s h)) by by apply scale_spec_wf.
  assert (Hc : scale_current (scale_spec s h) = scale_current h + scale_step s).
  { rewrite scale_spec_current by done. case_match; bool_to_prop; lia. }
  rewrite (scale_spec_current s (scale_spec s h)), scale_spec_max, Hc in H2 by done.
  case_match; bool_to_prop; lia.
Qed.

(** (C15) The circuit break engages the brake and converges.  After a successful
    application the target configmap exists, its [publish_enabled] is "false",
    every other key of it and every other object of the cluster is as before,
    whether the configmap had to be created or patched; and a second successful
    application changes nothing. *)
Theorem CircuitBreak_engages inp w :
  fst (CircuitBreak_Apply inp w) = None →
  let c := view w in let c' := view (exec (CircuitBreak_Apply inp) w) in
  let key := target_key inp in
  engaged key c' ∧ same_but_cm key c c' ∧
  cm_data_at key c' = <[flagKey := flagValuePaused]> (cm_data_at key c) ∧
  repeat_changes_nothing CircuitBreak_Apply inp w.
Proof.
  intros Hok. destruct (CircuitBreak_effect _ _ Hok) as (? & ? & ?).
  do 3 (split; [done|]). by apply CircuitBreak_idem.
Qed.

(** (C33) The rollback aborts the rollout and converges.  After a successful
    application the status of the target Rollout has [abort: true] and is
    otherwise as it was, no other object changed, and a second successful
    application changes nothing. *)
Theorem Rollback_aborts inp w :
  fst (Rollback_Apply inp w) = None →
  ∃ old new,
    statuses (view w) !! (gvk_Kind rolloutGVR, target_key inp) = Some old ∧
    view (exec (Rollback_Apply inp) w) = with_status rolloutGVR (target_key inp) new (view w) ∧
    get "abort" new = Some (JBool true) ∧
    (∀ k, k ≠ "abort" → get k new = get k old) ∧
    repeat_changes_nothing Rollback_Apply inp w.
Proof.
  intros Hok. destruct (Rollback_effect _ _ Hok) as (old & Hold & Hv).
  exists old, (aborted old). split; [done|]. split; [done|]. split; [apply field_set_eq|].
  split; [intros k Hk; by apply field_set_ne|]. by apply Rollback_idem.
Qed.
End Laws.

(** ** Concrete runs *)

Import FakeKube.

Definition ns : string := "reliability-lab".
Definition run_input (k : Kind) (target : string) : Input := mkInput ns (mkDecision k target "").

Definition payments_hpa (min max : Z) : fake :=
  mkFake (mkCluster {[ (ns, "payments-svc") := mkHPA (Some min) max ]} ∅ ∅) ∅ [].

Definition flags_true : fake :=
  mkFake (mkCluster ∅ {[ (ns, "orders-svc-flags") :=
    mkCM (Some {[ "publish_enabled" := "true"; "other" := "x" ]}) ]} ∅) ∅ [].

Definition orders_rollout : fake :=
  mkFake (mkCluster ∅ ∅ {[ ("Rollout", (ns, "orders-svc")) :=
    JObj [("phase", JStr "Progressing")] ]}) ∅ [].

(** The runs of scale_test.go: 2 becomes 4, 9 is capped at 10, 10 stays. *)
Lemma ScaleUp_bounded_witness :
  ∃ h', view (exec (ScaleUp_Apply (mkScaleUp 5) (run_input Classifier.ScaleUp "payments-svc"))
          (payments_hpa 9 10)) =
        with_hpa (ns, "payments-svc") h' (view (payments_hpa 9 10)) ∧
    MaxReplicas h' = 10 ∧ scale_current h' = 10.
Proof.
  apply (ScaleUp_bounded (mkScaleUp 5) (run_input Classifier.ScaleUp "payments-svc")
           (payments_hpa 9 10) (mkHPA (Some 9) 10)); done.
Defined.

Lemma ScaleUp_converges_witness :
  ∃ h', hpas (view (exec_n 5 (ScaleUp_Apply (mkScaleUp 0))
          (run_input Classifier.ScaleUp "payments-svc") (payments_hpa 2 10)))
          !! (ns, "payments-svc") = Some h' ∧
    scale_current h' = 10 ∧ MaxReplicas h' = 10.
Proof.
  apply (ScaleUp_converges (mkScaleUp 0) (run_input Classifier.ScaleUp "payments-svc") 5
           (payments_hpa 2 10) (mkHPA (Some 2) 10)); done.
Defined.

Lemma ScaleUp_not_idempotent_witness :
  let inp := run_input Classifier.ScaleUp "payments-svc" in
  view (exec_n 2 (ScaleUp_Apply (mkScaleUp 0)) inp (payments_hpa 2 10)) ≠
  view (exec_n 1 (ScaleUp_Apply (mkScaleUp 0)) inp (payments_hpa 2 10)).
Proof. by apply (ScaleUp_not_idempotent _ _ _ (mkHPA (Some 2) 10)). Defined.

Lemma CircuitBreak_engages_witness :
  let inp := run_input Classifier.CircuitBreak "orders-svc-flags" in
  engaged (ns, "orders-svc-flags") (view (exec (CircuitBreak_Apply inp) flags_true)).
Proof. apply (CircuitBreak_engages (run_input Classifier.CircuitBreak "orders-svc-flags")). done. Defined.

Lemma Rollback_aborts_witness :
  ∃ old new,
    statuses (view orders_rollout) !! ("Rollout", (ns, "orders-svc")) = Some old ∧
    statuses (view (exec (Rollback_Apply (run_input Classifier.Rollback "orders-svc")) orders_rollout))
      !! ("Rollout", (ns, "orders-svc")) = Some new ∧
    get "abort" new = Some (JBool true).
Proof.
  destruct (Rollback_aborts (run_input Classifier.Rollback "orders-svc") orders_rollout)
    as (old & new & Hold & Hv & Habort & _); [done|].
  exists old, new. split; [exact Hold|]. split; [|exact Habort].
  rewrite Hv. apply (with_status_lookup rolloutGVR).
Defined.

End RemedyProps.
