(* ===== verification/Dedupe.v ===== *)
(** * Per-alert deduplication

    Models operator/internal/server/dedupe.go: the map of fingerprints to the
    time of their last action, [Acquire] and [gcLocked].  The mutex makes every
    [Acquire] one atomic step, as [Locked] proves of its program, so a run of concurrent
    handlers is a list of calls in the order in which they held the lock. *)

From Stdlib Require Import ZArith Lia.
From stdpp Require Import sorting.
From S2P Require Import Prelude GoLib.
Import GoInt GoTime.

Module Dedupe.
Local Open Scope Z_scope.

(** ** The code *)

Record Dedupe := mkDedupe {
  cooldown : Duration;
  seen : gmap string Time;
}.

Definition NewDedupe (cd : Duration) : Dedupe := mkDedupe cd ∅.

(** The body of the loop of [gcLocked] on one entry. *)
Definition gc_entry (now : Time) (cd : Duration) (m : gmap string Time) (e : string * Time)
    : gmap string Time :=
  if cd <=? Sub now e.2 then delete e.1 m else m.

(** The loop over the entries in the order [es]; Go leaves that order open. *)
Definition gc_loop (now : Time) (cd : Duration) (es : list (string * Time))
    (m : gmap string Time) : gmap string Time :=
  foldl (gc_entry now cd) m es.

Definition gcLocked (now : Time) (d : Dedupe) : Dedupe :=
  mkDedupe (cooldown d) (gc_loop now (cooldown d) (map_to_list (seen d)) (seen d)).

Definition Acquire (fingerprint : string) (now : Time) : M Dedupe bool := λ d,
  if bool_decide (fingerprint = "") then (true, d)
  else
    let fresh :=
      match seen d !! fingerprint with
      | Some t => negb (Sub now t <? cooldown d)
      | None => true
      end in
    if fresh then
      (true, gcLocked now (mkDedupe (cooldown d) (<[fingerprint := now]> (seen d))))
    else (false, d).

(** A sequence of calls, as (fingerprint, time) pairs: the answers and the state. *)
Fixpoint acquires (calls : list (string * Time)) : M Dedupe (list bool) :=
  match calls with
  | [] => mret []
  | (fp, now) :: calls' =>
    b ← Acquire fp now;
    bs ← acquires calls';
    mret (b :: bs)
  end.

(** ** Garbage collection *)

Definition expired (now : Time) (cd : Duration) (t : Time) : Prop := cd ≤ Sub now t.

#[export] Instance expired_dec now cd t : Decision (expired now cd t).
Proof. unfold expired. apply _. Defined.

Definition gc_spec (now : Time) (cd : Duration) (m : gmap string Time) : gmap string Time :=
  filter (λ e, ¬ expired now cd e.2) m.

Lemma gc_loop_lookup now cd es m k :
  gc_loop now cd es m !! k =
  if decide (Exists (λ e, e.1 = k ∧ expired now cd e.2) es) then None else m !! k.
Proof.
  revert m. induction es as [|[fp t] es IH]; intros m.
  { cbn. by rewrite decide_False by (by intros ?%Exists_nil). }
  change (gc_loop now cd ((fp, t) :: es) m) with (gc_loop now cd es (gc_entry now cd m (fp, t))).
  rewrite IH. unfold gc_entry; cbn [fst snd].
  destruct (decide (Exists _ es)) as [He|He].
  { rewrite decide_True by (by apply Exists_cons_tl). done. }
  destruct (Z.leb_spec cd (Sub now t)) as [Hx|Hx].
  - destruct (decide (fp = k)) as [->|Hne].
    + rewrite lookup_delete_eq. rewrite decide_True; [done|]. by apply Exists_cons_hd.
    + rewrite lookup_delete_ne by done. rewrite decide_False; [done|].
      rewrite Exists_cons. cbn. naive_solver.
  - rewrite decide_False; [done|]. rewrite Exists_cons. unfold expired in *. cbn. intros [[??]|?]; [lia|done].
Qed.

(** Whatever order the range statement visits the entries in, the loop drops
    exactly the expired ones. *)
Lemma gc_loop_spec now cd es m : es ≡ₚ map_to_list m → gc_loop now cd es m = gc_spec now cd m.
Proof.
  intros Hes. apply map_eq. intros k. rewrite gc_loop_lookup. unfold gc_spec.
  destruct (decide (Exists _ es)) as [He|He].
  - symmetry. apply map_lookup_filter_None_2. right. intros t Ht Hn. apply Hn. cbn.
    apply Exists_exists in He as ([k' t'] & Hin & Hk & Hx). cbn in *. subst.
    rewrite Hes in Hin. apply elem_of_map_to_list in Hin. by simplify_eq.
  - destruct (m !! k) as [t|] eqn:Ht.
    + symmetry. apply map_lookup_filter_Some. split; [done|]. intros Hx. apply He.
      apply Exists_exists. exists (k, t). rewrite Hes, elem_of_map_to_list. done.
    + symmetry. apply map_lookup_filter_None_2. by left.
Qed.

Lemma gcLocked_lookup now d k t :
  seen (gcLocked now d) !! k = Some t ↔ seen d !! k = Some t ∧ ¬ expired now (cooldown d) t.
Proof. cbn. rewrite gc_loop_spec by done. unfold gc_spec. apply map_lookup_filter_Some. Qed.

(** ** One call *)

(** The configurations the server builds: a positive duration. *)
Definition wf_cooldown (cd : Duration) : Prop := 0 < cd ≤ max_int64.

Lemma wf_cooldown_sub cd t u : wf_cooldown cd → (Sub t u <? cd) = (t - u <? cd).
Proof. intros [??]. apply Sub_ltb. unfold min_int64, max_int64 in *. lia. Qed.

Lemma expired_iff cd now t : wf_cooldown cd → expired now cd t ↔ cd ≤ now - t.
Proof.
  intros Hcd. pose proof (wf_cooldown_sub cd now t Hcd) as Heq. unfold expired.
  rewrite <- Z.nlt_ge, <- Z.ltb_lt, Heq, Z.ltb_lt. lia.
Qed.

Lemma Acquire_cooldown fp now d : cooldown (exec (Acquire fp now) d) = cooldown d.
Proof. unfold exec, Acquire. by repeat case_match. Qed.

(** A call is refused exactly when a stamp of its fingerprint is still inside
    the window; a refused call leaves the state alone. *)
Lemma Acquire_false fp now d :
  wf_cooldown (cooldown d) →
  fst (Acquire fp now d) = false ↔
  fp ≠ "" ∧ ∃ t, seen d !! fp = Some t ∧ now - t < cooldown d.
Proof.
  intros Hcd. unfold Acquire. case_bool_decide as Hfp; [naive_solver|].
  destruct (seen d !! fp) as [t|]; [|naive_solver].
  rewrite wf_cooldown_sub by done.
  destruct (Z.ltb_spec (now - t) (cooldown d)); cbn; naive_solver lia.
Qed.

Lemma Acquire_refused fp now d : fst (Acquire fp now d) = false → exec (Acquire fp now) d = d.
Proof. unfold exec, Acquire. by repeat case_match. Qed.

(** After a granted call the stamps are the new one and those of the other
    fingerprints that are still inside the window. *)
Lemma Acquire_granted fp now d k t :
  wf_cooldown (cooldown d) → fp ≠ "" → fst (Acquire fp now d) = true →
  seen (exec (Acquire fp now) d) !! k = Some t ↔
  (k = fp ∧ t = now) ∨ (k ≠ fp ∧ seen d !! k = Some t ∧ now - t < cooldown d).
Proof.
  intros Hcd Hfp. unfold exec, Acquire. rewrite bool_decide_eq_false_2 by done.
  case_match; [|done]. intros _. cbn [snd]. rewrite gcLocked_lookup. cbn [seen cooldown].
  rewrite expired_iff by done. destruct Hcd. destruct (decide (k = fp)) as [->|Hk].
  - rewrite lookup_insert_eq. split; [naive_solver|].
    intros [[_ ->]|[? _]]; [|done]. split; [done|lia].
  - rewrite lookup_insert_ne by done. naive_solver lia.
Qed.

(** ** Runs *)

Lemma acquires_cons fp now calls d :
  acquires ((fp, now) :: calls) d =
  (fst (Acquire fp now d) :: fst (acquires calls (exec (Acquire fp now) d)),
   exec (acquires calls) (exec (Acquire fp now) d)).
Proof.
  cbn [acquires]. rewrite bind_run. unfold exec. rewrite bind_run.
  done.
Qed.

Lemma acquires_length calls d : length (fst (acquires calls d)) = length calls.
Proof.
  revert d. induction calls as [|[fp now] calls IH]; intros d; [done|].
  rewrite acquires_cons. cbn. f_equal. apply IH.
Qed.

(** The granted calls of a run: the history the window is about. *)
Definition granted (calls : list (string * Time)) (bs : list bool) : list (string * Time) :=
  omap (λ '(c, b), if b : bool then Some c else None) (zip calls bs).

(** What the state remembers of the history [hist] of grants made up to [clock]. *)
Record remembers (hist : list (string * Time)) (clock : Time) (d : Dedupe) : Prop := {
  rem_cd : wf_cooldown (cooldown d);
  rem_sound : ∀ fp t, seen d !! fp = Some t → (fp, t) ∈ hist;
  rem_past : ∀ fp t, (fp, t) ∈ hist → t ≤ clock;
  rem_complete : ∀ fp t, fp ≠ "" → (fp, t) ∈ hist → clock - t < cooldown d →
    ∃ t', seen d !! fp = Some t' ∧ t ≤ t';
}.

Lemma remembers_new cd clock : wf_cooldown cd → remembers [] clock (NewDedupe cd).
Proof. intros H. split; [done|..]; intros fp t; set_solver. Qed.

(** Under a clock that does not go back, the state answers as the history would. *)
Lemma remembers_answer hist clock d fp now :
  remembers hist clock d → clock ≤ now →
  fst (Acquire fp now d) = true ↔
  fp = "" ∨ ∀ t, (fp, t) ∈ hist → cooldown d ≤ now - t.
Proof.
  intros [Hcd Hs Hp Hc] Hnow. rewrite <- not_false_iff_true, Acquire_false by done. split.
  - intros Hn. destruct (decide (fp = "")) as [|Hfp]; [by left|right]. intros t Ht.
    apply Z.nlt_ge. intros Hlt. destruct (Hc fp t) as (t' & Ht' & Hle); [done..|lia|].
    apply Hn. split; [done|]. exists t'. split; [done|lia].
  - intros [->|Hall] (Hfp & t & Ht & Hlt); [done|]. apply Hs, Hall in Ht. lia.
Qed.

Lemma remembers_step hist clock d fp now :
  remembers hist clock d → clock ≤ now →
  remembers (if fst (Acquire fp now d) then (fp, now) :: hist else hist) now
            (exec (Acquire fp now) d).
Proof.
  intros [Hcd Hs Hp Hc] Hnow. destruct (fst (Acquire fp now d)) eqn:Hb.
  2:{ rewrite Acquire_refused by done.
      split; [done..| |]; [intros f t Ht; apply Hp in Ht; lia|].
      intros f t Hf Ht Hlt. apply Hc; [done..|lia]. }
  destruct (decide (fp = "")) as [->|Hfp].
  { change (exec (Acquire "" now) d) with d. split; [done|..].
    - intros f t Ht. right. by apply Hs.
    - intros f t [[= -> ->]|Ht]%elem_of_cons; [lia|]. apply Hp in Ht. lia.
    - intros f t Hf [[= -> ->]|Ht]%elem_of_cons Hlt; [done|]. apply Hc; [done..|lia]. }
  pose proof (λ k t, Acquire_granted fp now d k t Hcd Hfp Hb) as Hg.
  split; rewrite ?Acquire_cooldown; [done|..].
  - intros f t [[-> ->]|(? & Ht & _)]%Hg; [left|right; by apply Hs].
  - intros f t [[= -> ->]|Ht]%elem_of_cons; [lia|]. apply Hp in Ht. lia.
  - intros f t Hf Hin Hlt. destruct (decide (f = fp)) as [->|Hne].
    + exists now. split; [apply Hg; by left|].
      apply elem_of_cons in Hin as [[= ->]|Ht]; [done|]. apply Hp in Ht. lia.
    + apply elem_of_cons in Hin as [[= -> ->]|Ht]; [done|].
      destruct (Hc f t) as (t' & Ht' & ?); [done..|lia|].
      exists t'. split; [|done]. apply Hg. right. split; [done|]. split; [done|lia].
Qed.

(** The answers of a run from a state that remembers [hist]. *)
Lemma acquires_window calls hist clock d :
  remembers hist clock d → Forall (λ c, clock ≤ c.2) calls →
  StronglySorted Z.le calls.*2 →
  ∀ i fp now, calls !! i = Some (fp, now) →
    fst (acquires calls d) !! i = Some true ↔
    fp = "" ∨ (∀ t, (fp, t) ∈ hist → cooldown d ≤ now - t) ∧
      ∀ j t, (j < i)%nat → calls !! j = Some (fp, t) →
        fst (acquires calls d) !! j = Some true → cooldown d ≤ now - t.
Proof.
  revert hist clock d. induction calls as [|[f0 n0] calls IH]; [done|].
  intros hist clock d Hrem Hclock Hsort i fp now Hi.
  apply Forall_cons in Hclock as [Hn0 _]. cbn in Hn0.
  cbn in Hsort. apply StronglySorted_inv in Hsort as [Hsort Hle].
  rewrite Forall_fmap in Hle. rewrite acquires_cons. cbn [fst].
  pose proof (remembers_answer _ _ _ f0 n0 Hrem Hn0) as Hans.
  pose proof (remembers_step _ _ _ f0 n0 Hrem Hn0) as Hrem'.
  destruct i as [|i].
  - injection Hi as -> ->. cbn. split.
    + intros [= Hb]. apply Hans in Hb as [->|Hb]; [by left|right]. split; [done|lia].
    + intros Hr. f_equal. apply Hans. naive_solver.
  - cbn in Hi |- *. rewrite (IH _ _ _ Hrem' Hle Hsort i fp now Hi), Acquire_cooldown.
    set (b := fst (Acquire f0 n0 d)) in *. split.
    + intros [->|[Hh Hj]]; [by left|right]. split.
      * intros t Ht. apply Hh. destruct b; [by right|done].
      * intros [|j] t Hlt Hc Hb; [|by apply (Hj j); [lia|..]].
        injection Hc as -> ->. injection Hb as Hb. apply Hh. rewrite Hb. left.
    + intros [->|[Hh Hj]]; [by left|right]. split.
      * intros t Ht. destruct b eqn:Hb; [|by apply Hh].
        apply elem_of_cons in Ht as [[= -> ->]|Ht]; [|by apply Hh].
        apply (Hj 0%nat); [lia|done|by rewrite <- Hb].
      * intros j t Hlt Hc Hb. by apply (Hj (S j)); [lia|..].
Qed.

(** A stamp that no later call can outlive refuses every later call. *)
Lemma acquires_stamped calls d fp t :
  wf_cooldown (cooldown d) → fp ≠ "" → seen d !! fp = Some t →
  Forall (λ c, c.2 - t < cooldown d) calls →
  ∀ i now, calls !! i = Some (fp, now) → fst (acquires calls d) !! i = Some false.
Proof.
  revert d. induction calls as [|[f0 n0] calls IH]; [done|].
  intros d Hcd Hfp Hseen [Hn0 Hall]%Forall_cons i now Hi. cbn in Hn0.
  rewrite acquires_cons. cbn [fst]. destruct i as [|i].
  - injection Hi as -> ->. cbn. f_equal. apply Acquire_false; [done|]. eauto.
  - cbn in Hi |- *. eapply IH; [by rewrite Acquire_cooldown|done| |by rewrite Acquire_cooldown|done].
    destruct (fst (Acquire f0 n0 d)) eqn:Hb; [|by rewrite Acquire_refused].
    destruct (decide (f0 = "")) as [->|Hf0]; [done|].
    apply Acquire_granted; [done..|]. right. split; [|done].
    intros ->. assert (Hf : fst (Acquire f0 n0 d) = false) by (apply Acquire_false; eauto).
    congruence.
Qed.

(** ** Properties *)

(** (C6) The deduplication window, exactly.  Along any sequence of calls whose
    clock does not go back, call [i] is granted if and only if its fingerprint is
    empty or no granted call of the same fingerprint lies less than a cooldown
    before it.  So two grants of a fingerprint are at least a cooldown apart, and
    an alert that is due again is never held back: dropping expired stamps from
    the map cannot be observed. *)
Theorem Acquire_window cd calls :
  wf_cooldown cd → StronglySorted Z.le calls.*2 →
  let bs := fst (acquires calls (NewDedupe cd)) in
  ∀ i fp now, calls !! i = Some (fp, now) →
    bs !! i = Some true ↔
    fp = "" ∨ ∀ j t, (j < i)%nat → calls !! j = Some (fp, t) → bs !! j = Some true →
                cd ≤ now - t.
Proof.
  intros Hcd Hsort bs i fp now Hi.
  set (clock := default 0 (head calls.*2)).
  assert (Hclock : Forall (λ c, clock ≤ c.2) calls).
  { destruct calls as [|[f n] calls]; [done|]. cbn in Hsort.
    apply StronglySorted_inv in Hsort as [_ Hle]. rewrite Forall_fmap in Hle.
    apply Forall_cons. split; [cbn; lia|done]. }
  etransitivity; [exact (acquires_window _ _ _ _ (remembers_new cd clock Hcd) Hclock Hsort i fp now Hi)|].
  split; (intros [?|H]; [by left|right]); [apply H|]. split; [|exact H].
  intros t Ht. by apply elem_of_nil in Ht.
Qed.

Definition min10 : Duration := 10 * Minute.

Lemma Acquire_window_witness :
  fst (acquires [("fp3", 0); ("fp3", 1); ("fp3", min10)] (NewDedupe min10)) !! 2%nat = Some true.
Proof.
  apply (Acquire_window min10 [("fp3", 0); ("fp3", 1); ("fp3", min10)])
    with (fp := "fp3") (now := min10).
  - split; vm_compute; congruence.
  - cbn. repeat (apply SSorted_cons || apply Forall_cons_2); try apply SSorted_nil;
      try apply Forall_nil_2; vm_compute; congruence.
  - reflexivity.
  - right. intros j t Hj Hc. destruct j as [|[|j]]; [| |lia].
    + injection Hc as <-. intros _. vm_compute. congruence.
    + intros Hb. vm_compute in Hb. discriminate Hb.
Defined.

(** Concurrent handlers.  Whatever the interleaving of the calls of any number
    of handlers, in whatever order of their clocks and from whatever state, as long
    as their times lie within one cooldown of each other a non-empty fingerprint
    is granted at most once. *)
Theorem Acquire_once_under_interleaving d calls :
  wf_cooldown (cooldown d) →
  (∀ c1 c2, c1 ∈ calls → c2 ∈ calls → c1.2 - c2.2 < cooldown d) →
  ∀ i j fp t1 t2, calls !! i = Some (fp, t1) → calls !! j = Some (fp, t2) →
    fst (acquires calls d) !! i = Some true → fst (acquires calls d) !! j = Some true →
    fp = "" ∨ i = j.
Proof.
  intros Hcd Hnear i j fp t1 t2 Hi Hj Hbi Hbj.
  destruct (decide (fp = "")) as [|Hfp]; [by left|right].
  (* the first of the two grants stamps the fingerprint for the rest of the run *)
  assert (Hgen : ∀ i j t1 t2, (i < j)%nat → calls !! i = Some (fp, t1) → calls !! j = Some (fp, t2) →
            fst (acquires calls d) !! i = Some true → fst (acquires calls d) !! j = Some true → False).
  { clear i j t1 t2 Hi Hj Hbi Hbj. revert d Hcd Hnear.
    induction calls as [|[f0 n0] calls IH]; [done|].
    intros d Hcd Hnear i j t1 t2 Hij Hi Hj. rewrite acquires_cons. cbn [fst].
    destruct j as [|j]; [lia|]. cbn in Hj |- *. destruct i as [|i]; cbn in Hi |- *.
    - injection Hi as -> ->. intros [= Hb].
      rewrite (acquires_stamped _ _ fp t1) with (now := t2); try done.
      + by rewrite Acquire_cooldown.
      + apply Acquire_granted; [done..|]. by left.
      + rewrite Acquire_cooldown. apply Forall_forall. intros c Hc.
        apply (Hnear c (fp, t1)); set_solver.
    - apply (IH (exec (Acquire f0 n0) d)) with (t1 := t1) (t2 := t2); try done; [| |lia].
      + by rewrite Acquire_cooldown.
      + rewrite Acquire_cooldown. intros c1 c2 ??. apply Hnear; set_solver. }
  destruct (lt_eq_lt_dec i j) as [[Hlt|]|Hlt]; [|done|].
  - by destruct (Hgen i j t1 t2).
  - by destruct (Hgen j i t2 t1).
Qed.

Lemma Acquire_once_under_interleaving_witness :
  let calls := [("a", 5); ("b", 9); ("a", 2)] in
  fst (acquires calls (NewDedupe 10)) !! 0%nat = Some true ∧
  (fst (acquires calls (NewDedupe 10)) !! 2%nat = Some true → "a" = "" ∨ 0%nat = 2%nat).
Proof.
  split; [by vm_compute|]. intros Hb.
  apply (Acquire_once_under_interleaving (NewDedupe 10) [("a", 5); ("b", 9); ("a", 2)])
    with (t1 := 5) (t2 := 2).
  - split; vm_compute; congruence.
  - intros c1 c2 H1 H2. cbn [cooldown NewDedupe].
    repeat (apply elem_of_cons in H1 as [->|H1] || apply elem_of_nil in H1 as []);
    repeat (apply elem_of_cons in H2 as [->|H2] || apply elem_of_nil in H2 as []); cbn; lia.
  - reflexivity.
  - reflexivity.
  - by vm_compute.
  - exact Hb.
Defined.

(** The order of the clocks does matter to the window.  Handlers take their
    time before they take the lock; when one is overtaken by a later one whose
    garbage collection drops the stamp it should have met, two grants of a
    fingerprint come closer than the cooldown. *)
Theorem Acquire_overtaken :
  let calls := [("a", 0); ("b", 10); ("a", 5)] in
  fst (acquires calls (NewDedupe 10)) = [true; true; true] ∧
  fst (acquires [("a", 0); ("a", 5); ("b", 10)] (NewDedupe 10)) = [true; false; true].
Proof. split; by vm_compute. Qed.

(** Garbage collection.  The order in which the range statement visits the map
    is immaterial: every order leaves exactly the entries whose cooldown has not
    elapsed.  And it keeps the map small: right after a granted call every stamp
    lies inside the window, so the map holds no more fingerprints than were acted
    on within the last cooldown. *)
Theorem gcLocked_bounds_memory d fp now :
  (∀ es, es ≡ₚ map_to_list (seen d) →
     gc_loop now (cooldown d) es (seen d) =
     filter (λ e, ¬ cooldown d ≤ Sub now e.2) (seen d)) ∧
  (wf_cooldown (cooldown d) → fp ≠ "" → fst (Acquire fp now d) = true →
     ∀ k t, seen (exec (Acquire fp now) d) !! k = Some t →
       now - t < cooldown d ∧ (k = fp ∨ seen d !! k = Some t)).
Proof.
  split.
  - intros es Hes. by apply gc_loop_spec.
  - intros Hcd Hfp Hb k t Ht. apply Acquire_granted in Ht as [[-> ->]|(? & ? & ?)]; try done.
    + destruct Hcd. split; [lia|by left].
    + split; [done|by right].
Qed.

End Dedupe.
