(* ===== verification/Server.v ===== *)
(** * The webhook server

    Models the configuration and the handlers of operator/internal/server/server.go:
    [New], [handleAlert], [dispatch] and the routes of [Start].  Its state is the
    deduplication map and the world [W] the remedies and the logger run in.  The
    request body is decoded as [Payload] has it. *)

From Stdlib Require Import ZArith Lia.
From S2P Require Import Prelude GoLib GoText Rfc3339 Classifier Json JsonCodec Payload Kube Remedy RemedyProps Dedupe Http Mux.
Import GoTime Json JsonCodec Payload Classifier Kube Remedy Dedupe Http Mux.

Module Server.
Local Open Scope Z_scope.

(** ** server.go: configuration *)

Record Config (W : Type) := mkConfig {
  c_Addr : string;
  c_Version : string;
  c_Cooldown : Duration;
  c_Namespace : string;
  c_Remedies : option (Registry W);
}.
Arguments mkConfig {W}.
Arguments c_Addr {W}.
Arguments c_Version {W}.
Arguments c_Cooldown {W}.
Arguments c_Namespace {W}.
Arguments c_Remedies {W}.

Record Server (W : Type) := mkServer { s_cfg : Config W; s_dedupe : Dedupe }.
Arguments mkServer {W}.
Arguments s_cfg {W}.
Arguments s_dedupe {W}.

(** [server.New]: defaults for the fields left zero. *)
Definition New {W} (cfg : Config W) : Server W :=
  let cd := if c_Cooldown cfg <=? 0 then 10 * Minute else c_Cooldown cfg in
  let ns := if streq (c_Namespace cfg) "" then "reliability-lab" else c_Namespace cfg in
  let reg := match c_Remedies cfg with None => NewRegistry | Some r => r end in
  mkServer (mkConfig (c_Addr cfg) (c_Version cfg) cd ns (Some reg)) (NewDedupe cd).

(** The registry a server dispatches to.  [New] has replaced a nil one, so the
    default is never taken for the configuration of a server. *)
Definition registry {W} (cfg : Config W) : Registry W := default ∅ (c_Remedies cfg).

(** ** Handlers *)

(** The mutable state of a running server.  [Config]'s [Client] and [Log] are the
    operations of the classes [KubeClient] and [Logger] on the world [W]. *)
Record st (W : Type) := mkSt { st_dedupe : Dedupe; st_world : W }.
Arguments mkSt {W}.
Arguments st_dedupe {W}.
Arguments st_world {W}.

Definition in_world {W A} (m : M W A) : M (st W) A := λ s,
  let '(a, w) := m (st_world s) in (a, mkSt (st_dedupe s) w).

Definition in_dedupe {W A} (m : M Dedupe A) : M (st W) A := λ s,
  let '(a, d) := m (st_dedupe s) in (a, mkSt d (st_world s)).

Section Handlers.
Context {UT : UnicodeTables} {W : Type} {KL : Logger W}.
Context (cfg : Config W).

Definition remedy_input (a : Alert) : Input :=
  mkInput (c_Namespace cfg) (Classify (a_Labels a)).

Definition dispatch (a : Alert) : M W unit :=
  let d := Classify (a_Labels a) in
  if bool_decide (d_Kind d = NoRemedy) then LogInfo "no remedy for alert"
  else
    err ← Registry_Apply (registry cfg) (remedy_input a);
    match err with
    | Some e => LogError e "remedy apply failed"
    | None => mret ()
    end.

(** The body of the loop over the payload's alerts. *)
Definition handle_one (now : Time) (a : Alert) : M (st W) unit :=
  if negb (Firing a) then in_world (LogV1 "resolved alert (no remedy)")
  else
    ok ← in_dedupe (Acquire (a_Fingerprint a) now);
    if ok : bool then
      _ ← in_world (LogInfo "firing alert accepted for remedy dispatch");
      in_world (dispatch a)
    else in_world (LogV1 "inside cooldown — skipping").

(** [now] is what [time.Now] returns once the payload is decoded. *)
Definition handleAlert (now : Time) (req_body : string) : M (st W) (list rw_op) :=
  match DecodePayload req_body with
  | None =>
    _ ← in_world (LogError (Error "invalid payload") "decode AlertManager payload");
    mret (http_Error "bad payload" StatusBadRequest)
  | Some p =>
    _ ← range (p_Alerts p) (handle_one now);
    mret [WriteHeader StatusAccepted]
  end.

(** ** The routes [Start] registers *)


End Handlers.

(** ** Lemmas *)

Lemma exec_in_world {W A} (m : M W A) (s : st W) :
  exec (in_world m) s = mkSt (st_dedupe s) (exec m (st_world s)).
Proof. unfold exec, in_world. by destruct (m (st_world s)). Qed.

Lemma run_in_dedupe {W A} (m : M Dedupe A) (s : st W) :
  in_dedupe m s = (fst (m (st_dedupe s)), mkSt (exec m (st_dedupe s)) (st_world s)).
Proof. unfold exec, in_dedupe. by destruct (m (st_dedupe s)). Qed.

Lemma exec_in_dedupe {W A} (m : M Dedupe A) (s : st W) :
  exec (in_dedupe m) s = mkSt (exec m (st_dedupe s)) (st_world s).
Proof. unfold exec at 1. by rewrite run_in_dedupe. Qed.

Lemma exec_bind {S A B} (m : M S A) (f : A → M S B) s :
  exec (m ≫= f) s = exec (f (fst (m s))) (exec m s).
Proof. unfold exec. by rewrite bind_run. Qed.

(** The fingerprints a payload asks the dedupe about: those of its firing alerts. *)
Definition firing_calls (now : Time) (alerts : list Alert) : list (string * Time) :=
  (λ a, (a_Fingerprint a, now)) <$> filter (λ a, Firing a = true) alerts.

(** The firing alerts the dedupe lets through, in order. *)
Fixpoint fresh (now : Time) (alerts : list Alert) (d : Dedupe) : list Alert :=
  match alerts with
  | [] => []
  | a :: alerts' =>
    if Firing a then
      (if fst (Acquire (a_Fingerprint a) now d) then [a] else []) ++
      fresh now alerts' (exec (Acquire (a_Fingerprint a) now) d)
    else fresh now alerts' d
  end.

Lemma firing_calls_cons now a alerts :
  firing_calls now (a :: alerts) =
  (if Firing a then [(a_Fingerprint a, now)] else []) ++ firing_calls now alerts.
Proof. unfold firing_calls. rewrite filter_cons. by destruct (Firing a). Qed.

Lemma exec_acquires_cons fp now calls d :
  exec (acquires ((fp, now) :: calls)) d = exec (acquires calls) (exec (Acquire fp now) d).
Proof. unfold exec at 1. by rewrite acquires_cons. Qed.

(** A second look at the same alerts, all of them stamped: nothing is fresh. *)
Lemma fresh_stamped now t alerts d :
  wf_cooldown (cooldown d) → now - t < cooldown d →
  (∀ a, a ∈ alerts → Firing a = true → a_Fingerprint a ≠ "" ∧ seen d !! a_Fingerprint a = Some t) →
  fresh now alerts d = [].
Proof.
  intros Hcd Hlt. induction alerts as [|a alerts IH]; intros Hst; [done|]. cbn.
  destruct (Firing a) eqn:Hf; [|apply IH; set_solver].
  destruct (Hst a) as [Hne Hs]; [left|done|].
  assert (Hb : fst (Acquire (a_Fingerprint a) now d) = false) by (apply Acquire_false; eauto).
  rewrite Hb, Acquire_refused by done. apply IH. set_solver.
Qed.

(** All stamps of a state are of one moment. *)
Definition uniform (t : Time) (d : Dedupe) : Prop := ∀ k u, seen d !! k = Some u → u = t.

Lemma acquires_uniform t calls d :
  wf_cooldown (cooldown d) → uniform t d → Forall (λ c, c.2 = t) calls →
  uniform t (exec (acquires calls) d) ∧
  (∀ k, is_Some (seen d !! k) → is_Some (seen (exec (acquires calls) d) !! k)) ∧
  ∀ fp, fp ≠ "" → (fp, t) ∈ calls → seen (exec (acquires calls) d) !! fp = Some t.
Proof.
  revert d. induction calls as [|[fp now] calls IH]; intros d Hcd Hu Hall.
  { split; [done|]. split; [done|]. intros fp _ Hin. by apply elem_of_nil in Hin. }
  apply Forall_cons in Hall as [Hnow Hall]. cbn in Hnow. subst now.
  rewrite exec_acquires_cons. set (d1 := exec (Acquire fp t) d).
  assert (Hd1 : uniform t d1 ∧ (∀ k, is_Some (seen d !! k) → is_Some (seen d1 !! k)) ∧
                (fp ≠ "" → seen d1 !! fp = Some t)).
  { subst d1. destruct (fst (Acquire fp t d)) eqn:Hb.
    - destruct (decide (fp = "")) as [->|Hfp]; [done|].
      pose proof (λ k u, Acquire_granted fp t d k u Hcd Hfp Hb) as Hg. repeat split.
      + intros k u [[_ ->]|(_ & Hk & _)]%Hg; [done|by eapply Hu].
      + intros k [u Hk]. exists t. apply Hg. destruct (decide (k = fp)) as [|Hne]; [by left|right].
        pose proof (Hu _ _ Hk) as ->. destruct Hcd. split; [done|]. split; [done|lia].
      + intros _. apply Hg. by left.
    - rewrite Acquire_refused by done. apply Acquire_false in Hb as (Hfp & u & Hs & _); [|done].
      split; [done|]. split; [done|]. intros _. by rewrite (Hu _ _ Hs) in Hs. }
  destruct Hd1 as (Hu1 & Hk1 & Hf1).
  destruct (IH d1) as (Hu2 & Hk2 & Hf2); [by subst d1; rewrite Acquire_cooldown|done|done|].
  split; [done|]. split; [by eauto|]. intros f Hf Hin.
  destruct (decide (f = fp)) as [->|Hne]; [|apply Hf2; [done|]; set_solver].
  destruct (Hk2 fp) as [u Hu']; [by rewrite Hf1|]. by rewrite (Hu2 _ _ Hu') in Hu'.
Qed.

Lemma acquires_cooldown calls d : cooldown (exec (acquires calls) d) = cooldown d.
Proof.
  revert d. induction calls as [|[fp now] calls IH]; intros d; [done|].
  rewrite exec_acquires_cons, IH. apply Acquire_cooldown.
Qed.

Section Facts.
Context {UT : UnicodeTables} {W : Type} {KL : Logger W}.
Context (cfg : Config W).

(** One iteration moves the dedupe by at most one call and never otherwise. *)
Lemma handle_one_dedupe now a (s : st W) :
  st_dedupe (exec (handle_one cfg now a) s) =
  if Firing a then exec (Acquire (a_Fingerprint a) now) (st_dedupe s) else st_dedupe s.
Proof.
  unfold handle_one. destruct (Firing a); cbn [negb]; [|by rewrite exec_in_world].
  rewrite exec_bind, run_in_dedupe, exec_in_dedupe. cbn [fst snd].
  case_match; rewrite ?exec_bind, !exec_in_world; done.
Qed.

(** The loop makes the dedupe calls of the firing alerts, whatever the remedies do. *)
Lemma range_dedupe now alerts (s : st W) :
  st_dedupe (exec (range alerts (handle_one cfg now)) s) =
  exec (acquires (firing_calls now alerts)) (st_dedupe s).
Proof.
  revert s. induction alerts as [|a alerts IH]; intros s; [done|].
  rewrite range_cons, IH, handle_one_dedupe, firing_calls_cons.
  destruct (Firing a); [|done]. cbn [app]. by rewrite exec_acquires_cons.
Qed.

Lemma handleAlert_run now body (s : st W) :
  handleAlert cfg now body s =
  match DecodePayload body with
  | None => (http_Error "bad payload" StatusBadRequest,
             exec (in_world (LogError (Error "invalid payload") "decode AlertManager payload")) s)
  | Some p => ([WriteHeader StatusAccepted], exec (range (p_Alerts p) (handle_one cfg now)) s)
  end.
Proof. unfold handleAlert. by destruct (DecodePayload body); rewrite bind_run. Qed.

Section Views.
Context {KC : KubeClient W} {KV : ClusterView W} {KLaws : KubeLaws W}.

(** A payload with nothing fresh in it leaves the cluster alone. *)
Lemma range_nothing_fresh now alerts (s : st W) :
  fresh now alerts (st_dedupe s) = [] →
  view (st_world (exec (range alerts (handle_one cfg now)) s)) = view (st_world s).
Proof.
  revert s. induction alerts as [|a alerts IH]; intros s; [done|]. cbn [fresh].
  rewrite range_cons. intros Hf. pose proof (handle_one_dedupe now a s) as Hd.
  rewrite IH.
  - unfold handle_one. destruct (Firing a); cbn [negb].
    + rewrite exec_bind, run_in_dedupe, exec_in_dedupe. cbn [fst].
      destruct (fst (Acquire _ now (st_dedupe s))); [done|].
      rewrite exec_in_world. apply LogV1_view.
    + rewrite exec_in_world. apply LogV1_view.
  - rewrite Hd. destruct (Firing a); [|done]. by apply app_eq_nil in Hf as [_ ?].
Qed.
End Views.
End Facts.

(** ** Properties *)

(** The cooldown a configuration asks for, ten minutes when it names none. *)
Definition configured_cooldown {W} (cfg : Config W) : Duration :=
  if c_Cooldown cfg <=? 0 then 10 * Minute else c_Cooldown cfg.

Lemma configured_cooldown_wf {W} (cfg : Config W) :
  c_Cooldown cfg ≤ GoInt.max_int64 → wf_cooldown (configured_cooldown cfg).
Proof.
  unfold configured_cooldown, wf_cooldown. intros Hmax.
  destruct (Z.leb_spec (c_Cooldown cfg) 0); [split; vm_compute; congruence|lia].
Qed.

Section Properties.
Context {UT : UnicodeTables} {W : Type} {KL : Logger W}.

(** (C19) The answer never depends on the remedies.  A request whose payload parses
    is answered 202 and leaves the deduplication map with exactly the calls of
    its firing alerts, whether the remedies succeed, fail or are missing: for any
    two configurations and worlds the answer and the map are the same.  A request
    whose payload does not parse is answered 400 and moves nothing. *)
Theorem handleAlert_always_202 (cfg : Config W) now body d w :
  let r := handleAlert (s_cfg (New cfg)) now body (mkSt d w) in
  status (serve (fst r)) = match DecodePayload body with Some _ => 202 | None => 400 end ∧
  st_dedupe (snd r) =
    match DecodePayload body with
    | Some p => exec (acquires (firing_calls now (p_Alerts p))) d
    | None => d
    end ∧
  ∀ (cfg' : Config W) w', let r' := handleAlert (s_cfg (New cfg')) now body (mkSt d w') in
    fst r' = fst r ∧ st_dedupe (snd r') = st_dedupe (snd r).
Proof.
  cbn zeta. rewrite handleAlert_run. setoid_rewrite handleAlert_run.
  destruct (DecodePayload body) as [p|]; cbn [fst snd].
  - rewrite serve_status, range_dedupe. split; [done|]. split; [done|].
    intros cfg' w'. by rewrite range_dedupe.
  - rewrite serve_status, exec_in_world. split; [done|]. split; [done|].
    intros cfg' w'. by rewrite exec_in_world.
Qed.

(** (C14) AlertManager's repeats are harmless.  When a payload whose firing alerts
    all carry a fingerprint is posted to a fresh server and posted again less
    than a cooldown later (ten minutes unless a positive one is configured), the
    second request changes nothing in the cluster,
    whatever remedies are registered and whether or not they succeeded. *)
Theorem handleAlert_repeat_harmless {KC : KubeClient W} {KV : ClusterView W}
    {KLaws : KubeLaws W} (cfg : Config W) now1 now2 body p w :
  let srv := New cfg in
  DecodePayload body = Some p → c_Cooldown cfg ≤ GoInt.max_int64 →
  now2 - now1 < configured_cooldown cfg →
  (∀ a, a ∈ p_Alerts p → Firing a = true → a_Fingerprint a ≠ "") →
  let s1 := exec (handleAlert (s_cfg srv) now1 body) (mkSt (s_dedupe srv) w) in
  view (st_world (exec (handleAlert (s_cfg srv) now2 body) s1)) = view (st_world s1).
Proof.
  intros srv Hp Hmax Hnow Hfp s1.
  assert (Hsc : cooldown (s_dedupe srv) = configured_cooldown cfg) by reflexivity.
  pose proof (configured_cooldown_wf cfg Hmax) as Hcd. rewrite <- Hsc in Hnow, Hcd.
  unfold exec at 1. rewrite handleAlert_run, Hp. cbn [snd].
  eapply (range_nothing_fresh _ (KLaws := KLaws)). unfold s1, exec at 1. rewrite handleAlert_run, Hp. cbn [snd].
  rewrite range_dedupe. cbn [st_dedupe].
  destruct (acquires_uniform now1 (firing_calls now1 (p_Alerts p)) (s_dedupe srv)) as (_ & _ & Hst).
  - done.
  - intros k u Hk. unfold srv, New, NewDedupe in Hk. cbn in Hk. by rewrite lookup_empty in Hk.
  - unfold firing_calls. apply Forall_fmap, Forall_forall. by intros a _.
  - apply fresh_stamped with (t := now1); rewrite ?acquires_cooldown; [done..|].
    intros a Ha Hf. split; [by apply Hfp|]. apply Hst; [by apply Hfp|].
    unfold firing_calls. apply list_elem_of_fmap. exists a. split; [done|].
    by apply list_elem_of_filter.
Qed.

End Properties.

(** ** Which remedies run, with which inputs

    A registry that records its inputs, as the counting remedy of server_test.go
    does, and answers each with the error [out] picks. *)

Module Recorder.
#[export] Instance silent : Logger (list Input) := {
  LogInfo _ := mret (); LogV1 _ := mret (); LogError _ _ := mret () }.

Definition recorder (out : Input → option error) : Remedy (list Input) :=
  λ inp ran, (out inp, ran ++ [inp]).

Definition recording (out : Input → option error) : Registry (list Input) :=
  Register CircuitBreak (recorder out)
    (Register Classifier.ScaleUp (recorder out) (Register Rollback (recorder out) NewRegistry)).

Definition recording_config (out : Input → option error) (ns : string) : Config (list Input) :=
  mkConfig "" "" 0 ns (Some (recording out)).
End Recorder.
Import Recorder.

(** The inputs the remedies of a list of accepted alerts get. *)
Definition acted_on `{UnicodeTables} (ns : string) (alerts : list Alert) : list Input :=
  (λ a, mkInput ns (Classify (a_Labels a))) <$>
    filter (λ a, d_Kind (Classify (a_Labels a)) ≠ NoRemedy) alerts.

Section Dispatch.
Context {UT : UnicodeTables} (out : Input → option error) (ns : string).

Lemma dispatch_records a ran :
  exec (dispatch (recording_config out ns) a) ran = ran ++ acted_on ns [a].
Proof.
  unfold dispatch, acted_on. rewrite filter_cons, filter_nil.
  case_bool_decide as Hk; [rewrite decide_False by naive_solver; cbn; by rewrite app_nil_r|].
  rewrite decide_True by done. rewrite exec_bind.
  set (inp := remedy_input (recording_config out ns) a).
  assert (Ha : Registry_Apply (registry (recording_config out ns)) inp = recorder out inp).
  { unfold Registry_Apply, Lookup, registry, recording_config, recording, Register, NewRegistry.
    cbn [c_Remedies default].
    change (d_Kind (in_Decision inp)) with (d_Kind (Classify (a_Labels a))).
    by destruct (d_Kind (Classify (a_Labels a))). }
  rewrite Ha. unfold exec, recorder. cbn. by destruct (out inp).
Qed.

Lemma acted_on_app l1 l2 : acted_on ns (l1 ++ l2) = acted_on ns l1 ++ acted_on ns l2.
Proof. unfold acted_on. by rewrite filter_app, fmap_app. Qed.

Lemma range_records now alerts d ran :
  st_world (exec (range alerts (handle_one (recording_config out ns) now)) (mkSt d ran)) =
  ran ++ acted_on ns (fresh now alerts d).
Proof.
  revert d ran. induction alerts as [|a alerts IH]; intros d ran; [by rewrite app_nil_r|].
  rewrite range_cons. cbn [fresh]. unfold handle_one at 2.
  destruct (Firing a); cbn [negb]; [|rewrite exec_in_world; apply IH].
  rewrite exec_bind, run_in_dedupe, exec_in_dedupe. cbn [fst snd st_dedupe st_world].
  rewrite acted_on_app, (assoc (++)).
  destruct (fst (Acquire (a_Fingerprint a) now d)).
  - rewrite exec_bind, !exec_in_world. cbn [st_dedupe st_world].
    rewrite IH, dispatch_records. done.
  - rewrite exec_in_world. cbn [st_dedupe st_world]. rewrite IH.
    cbn. by rewrite app_nil_r.
Qed.

(** (C1) Which remedies run.  Handling a payload runs, in the order of its alerts,
    one remedy for each alert that is firing, that the deduplication grants at
    its turn, and that the classifier decides to act on; each gets the decision
    for its own labels and the configured namespace, and an error of one does not
    keep the next from running. *)
Theorem handleAlert_dispatches now body p d ran :
  DecodePayload body = Some p →
  st_world (snd (handleAlert (recording_config out ns) now body (mkSt d ran))) =
    ran ++ acted_on ns (fresh now (p_Alerts p) d) ∧
  ∀ a, a ∈ fresh now (p_Alerts p) d → a ∈ p_Alerts p ∧ Firing a = true.
Proof.
  intros Hp. rewrite handleAlert_run, Hp. cbn [snd]. split; [apply range_records|].
  clear Hp. revert d. induction (p_Alerts p) as [|a alerts IH]; intros d b; cbn; [by intros ?%elem_of_nil|].
  destruct (Firing a) eqn:Hf; [|intros [??]%IH; set_solver].
  rewrite elem_of_app. intros [Hin|[??]%IH]; [|set_solver].
  case_match; [|by apply elem_of_nil in Hin]. apply list_elem_of_singleton in Hin as ->. set_solver.
Qed.
End Dispatch.

(** ** Concrete runs *)

Import FakeKube.
#[local] Instance no_wide : UnicodeTables := { IsPrintWide _ := false }.

Definition orders_fast_burn (status fp : string) : Alert :=
  mkAlert status {[ "severity" := "page"; "service" := "orders"; "burn_speed" := "fast" ]} ∅
    Rfc3339.zero_time Rfc3339.zero_time fp.

(** The body postAlert of server_test.go sends for some alerts. *)
Definition alert_json (a : Alert) : json :=
  alert_doc a (map_to_list (a_Labels a)) (map_to_list (a_Annotations a))
    "0001-01-01T00:00:00Z" "0001-01-01T00:00:00Z" [].
Definition post_body (alerts : list Alert) : string :=
  Marshal (JObj [ ("version", JStr ""); ("groupKey", JStr ""); ("status", JStr "");
                  ("receiver", JStr ""); ("alerts", JArr (alert_json <$> alerts)) ]).

(** A resolved alert, a firing one, the firing one again: one rollback. *)
Lemma handleAlert_dispatches_witness :
  let alerts := [orders_fast_burn "resolved" "fp2"; orders_fast_burn "firing" "fp1";
                 orders_fast_burn "firing" "fp1"] in
  length (st_world (snd (handleAlert (recording_config (λ _, None) "reliability-lab")
    0 (post_body alerts) (mkSt (NewDedupe 1000) [])))) = 1%nat.
Proof.
  intros alerts.
  destruct (handleAlert_dispatches (λ _, None) "reliability-lab" 0 (post_body alerts)
    (mkPayload "" "" "" "" alerts) (NewDedupe 1000) []) as [Hw _]; [vm_compute; reflexivity|].
  rewrite Hw. by vm_compute.
Defined.

Lemma handleAlert_repeat_harmless_witness :
  let body := post_body [orders_fast_burn "firing" "fp3"] in
  let cfg := mkConfig ":8088" "dev" 0 "" (Some (Register Rollback Rollback_Apply NewRegistry)) in
  let s1 := exec (handleAlert (s_cfg (New cfg)) 0 body)
              (mkSt (s_dedupe (New cfg)) RemedyProps.orders_rollout) in
  view (st_world s1) ≠ view RemedyProps.orders_rollout ∧
  view (st_world (exec (handleAlert (s_cfg (New cfg)) Second body) s1)) = view (st_world s1).
Proof.
  intros body cfg s1. split.
  { intros Heq. apply (f_equal (λ c, map_to_list (statuses c))) in Heq. vm_compute in Heq. discriminate Heq. }
  apply (handleAlert_repeat_harmless cfg 0 Second body
           (mkPayload "" "" "" "" [orders_fast_burn "firing" "fp3"])).
  - vm_compute. reflexivity.
  - vm_compute. congruence.
  - vm_compute. reflexivity.
  - intros a Ha _. apply list_elem_of_singleton in Ha as ->. vm_compute. congruence.
Defined.

End Server.
