(* ===== verification/Pool.v ===== *)
(** * Programs of calls, and pools that interleave them

    A goroutine that shares state with others is a program: a tree of atomic calls,
    each of which says what to do with its answer.  [run] runs a program alone; [step]
    lets any thread of a pool make its next call, on the state all of them share.  What
    a program promises whatever its calls answer ([keeps], [returns], [all_calls],
    [at_most], [can_show]) carries over to every run of every pool it is in. *)

From Stdlib Require Import ZArith Lia.
From S2P Require Import Prelude.

Module Pool.

(** ** Programs *)

Inductive prog (call : Type → Type) (A : Type) : Type :=
  | Ret (a : A)
  | Call (R : Type) (c : call R) (k : R → prog call A).
Arguments Ret {call A}.
Arguments Call {call A R}.

Fixpoint prog_bind {call A B} (p : prog call A) (f : A → prog call B) : prog call B :=
  match p with
  | Ret a => f a
  | Call c k => Call c (λ r, prog_bind (k r) f)
  end.

#[export] Instance prog_ret call : MRet (prog call) := λ A, Ret.
#[export] Instance prog_mbind call : MBind (prog call) := λ A B f p, prog_bind p f.

Definition request {call R} (c : call R) : prog call R := Call c Ret.

Definition returned {call A} (p : prog call A) : bool :=
  match p with Ret _ => true | Call _ _ => false end.

(** A range statement. *)
Fixpoint each {call A} (l : list A) (body : A → prog call unit) : prog call unit :=
  match l with
  | [] => mret ()
  | a :: l' => _ ← body a; each l' body
  end.

(** What a call does to the shared state, and what an observer sees of it. *)
Class Handler (call : Type → Type) (S : Type) := do_call : ∀ {R}, call R → M S R.
Class Observer (call : Type → Type) (O : Type) := shows : ∀ {R}, call R → R → list O.

Section Semantics.
Context {call : Type → Type} {S O : Type} {HC : Handler call S} {OC : Observer call O}.

(** A program that runs alone. *)
Fixpoint run {A} (p : prog call A) : M S A :=
  match p with
  | Ret a => mret a
  | Call c k => r ← do_call c; run (k r)
  end.

(** ** Pools *)

(** An observation, with the thread it was made on. *)
Abbreviation trace := (list (nat * O)).

Inductive step {A} : list (prog call A) * S → trace → list (prog call A) * S → Prop :=
  | step_call i R (c : call R) k pool s :
      pool !! i = Some (Call c k) →
      step (pool, s) (pair i <$> shows c (fst (do_call c s)))
           (<[i := k (fst (do_call c s))]> pool, exec (do_call c) s).

(** Runs, with their number of steps and what was seen, in order. *)
Inductive steps {A} : list (prog call A) * S → nat → trace → list (prog call A) * S → Prop :=
  | steps_nil x : steps x 0 [] x
  | steps_cons x tr1 y n tr2 z : step x tr1 y → steps y n tr2 z → steps x (Datatypes.S n) (tr1 ++ tr2) z.

Definition reaches {A} (x y : list (prog call A) * S) : Prop := ∃ n tr, steps x n tr y.

Lemma steps_app {A} (x y z : list (prog call A) * S) n1 tr1 n2 tr2 :
  steps x n1 tr1 y → steps y n2 tr2 z → steps x (n1 + n2) (tr1 ++ tr2) z.
Proof.
  induction 1 as [|x tra y n trb z' Hxy _ IH]; intros Hz; [done|].
  rewrite <- app_assoc. cbn [Nat.add]. econstructor; [done|]. by apply IH.
Qed.

Lemma reaches_refl {A} (x : list (prog call A) * S) : reaches x x.
Proof. exists 0%nat, []. constructor. Qed.

Lemma reaches_trans {A} (x y z : list (prog call A) * S) : reaches x y → reaches y z → reaches x z.
Proof. intros (n1 & tr1 & H1) (n2 & tr2 & H2). do 2 eexists. by eapply steps_app. Qed.

(** A schedule names the thread of each step; steps of finished threads are idle. *)
Fixpoint scheduled {A} (sched : list nat) (pool : list (prog call A)) : M S (list (prog call A)) :=
  match sched with
  | [] => mret pool
  | i :: sched' =>
    match pool !! i with
    | Some (Call c k) => r ← do_call c; scheduled sched' (<[i := k r]> pool)
    | _ => scheduled sched' pool
    end
  end.

(** What a schedule shows. *)
Fixpoint seen {A} (sched : list nat) (pool : list (prog call A)) (s : S) : trace :=
  match sched with
  | [] => []
  | i :: sched' =>
    match pool !! i with
    | Some (Call c k) =>
      let '(r, s') := do_call c s in (pair i <$> shows c r) ++ seen sched' (<[i := k r]> pool) s'
    | _ => seen sched' pool s
    end
  end.

Lemma scheduled_steps {A} sched (pool : list (prog call A)) s :
  ∃ n, steps (pool, s) n (seen sched pool s) (scheduled sched pool s).
Proof.
  revert pool s. induction sched as [|i sched IH]; intros pool s.
  { exists 0%nat. constructor. }
  cbn. destruct (pool !! i) as [[a|R c k]|] eqn:Hi; [apply IH| |apply IH].
  rewrite bind_run. destruct (do_call c s) as [r s'] eqn:Hc. cbn [fst snd].
  destruct (IH (<[i := k r]> pool) s') as [n Hs]. exists (Datatypes.S n).
  econstructor; [|exact Hs].
  pose proof (step_call i R c k pool s Hi) as Hstep. unfold exec in Hstep. by rewrite Hc in Hstep.
Qed.

(** ** Running alone *)

Lemma run_bind {A B} (p : prog call A) (f : A → prog call B) s :
  run (p ≫= f) s = run (f (fst (run p s))) (snd (run p s)).
Proof.
  revert s. induction p as [a|R c k IH]; intros s; [done|].
  change (run (Call c k ≫= f)) with (r ← do_call c; run (k r ≫= f)).
  rewrite bind_run, IH. cbn [run]. by rewrite bind_run.
Qed.

Lemma run_request {R} (c : call R) s : run (request c) s = do_call c s.
Proof. cbn. rewrite bind_run. by destruct (do_call c s). Qed.

(** A thread can run ahead, as if it were alone. *)
Lemma reaches_run {A B} (p : prog call A) (f : A → prog call B) pool s i :
  pool !! i = Some (p ≫= f) →
  reaches (pool, s) (<[i := f (fst (run p s))]> pool, exec (run p) s).
Proof.
  revert pool s. induction p as [a|R c k IH]; intros pool s Hi.
  { cbn in *. rewrite list_insert_id by done. apply reaches_refl. }
  change (run (Call c k)) with (r ← do_call c; run (k r)).
  eapply reaches_trans; [do 2 eexists; eapply steps_cons; [by apply step_call|constructor]|].
  unfold exec at 2. rewrite !bind_run. set (r := fst (do_call c s)).
  pose proof (IH r (<[i := k r ≫= f]> pool) (exec (do_call c) s)) as H.
  rewrite list_insert_insert_eq in H. apply H, list_lookup_insert_eq. by eapply lookup_lt_Some.
Qed.

Lemma run_each {A} (l : list A) (body : A → prog call unit) (body' : A → M S unit) s :
  (∀ a s, run (body a) s = body' a s) → run (each l body) s = range l body' s.
Proof.
  intros Hb. revert s. induction l as [|a l IH]; intros s; [done|].
  cbn [each range]. rewrite run_bind, bind_run, IH. by rewrite Hb.
Qed.
End Semantics.

(** ** Calls implemented by programs *)

(** Every call of [p] replaced by the program that serves it. *)
Fixpoint expand {call call' : Type → Type} (serve : ∀ R, call R → prog call' R) {A} (p : prog call A)
    : prog call' A :=
  match p with
  | Ret a => Ret a
  | @Call _ _ R c k => serve R c ≫= λ r, expand serve (k r)
  end.

Lemma expand_request {call call' : Type → Type} (serve : ∀ R, call R → prog call' R) {R A} (c : call R)
    (f : R → prog call A) :
  expand serve (request c ≫= f) = serve R c ≫= λ r, expand serve (f r).
Proof. done. Qed.

(** Programs over handlers that do the same do the same. *)
Lemma run_ext {call S A} (H1 H2 : Handler call S) (p : prog call A) s :
  (∀ R (c : call R) s, do_call (Handler := H1) c s = do_call (Handler := H2) c s) →
  run (HC := H1) p s = run (HC := H2) p s.
Proof.
  intros Heq. revert s. induction p as [a|R c k IH]; intros s; [done|].
  cbn [run]. rewrite !bind_run, Heq. apply IH.
Qed.

(** An expanded program is the program over the calls as they are served. *)
Lemma run_expand {call call' S A} {HC' : Handler call' S} (serve : ∀ R, call R → prog call' R)
    (p : prog call A) (s : S) :
  run (expand serve p) s = run (HC := λ R c, run (serve R c)) p s.
Proof.
  revert s. induction p as [a|R c k IH]; intros s; [done|].
  cbn [expand run]. rewrite run_bind, bind_run. apply IH.
Qed.

(** ** What programs promise, whatever their calls answer *)

Section Promises.
Context {call : Type → Type} {S O : Type} {HC : Handler call S} {OC : Observer call O}.

(** Every call keeps [J], as long as the others do. *)
Fixpoint keeps (J : S → Prop) {A} (p : prog call A) : Prop :=
  match p with
  | Ret _ => True
  | Call c k => ∀ s, J s → J (exec (do_call c) s) ∧ keeps J (k (fst (do_call c s)))
  end.

(** Every result satisfies [Q]. *)
Fixpoint returns {A} (Q : A → Prop) (p : prog call A) : Prop :=
  match p with
  | Ret a => Q a
  | Call c k => ∀ r, returns Q (k r)
  end.

(** Every call satisfies [P]. *)
Fixpoint all_calls (P : ∀ R, call R → Prop) {A} (p : prog call A) : Prop :=
  match p with
  | Ret _ => True
  | @Call _ _ R c k => P R c ∧ ∀ r, all_calls P (k r)
  end.

(** There are at most [n] calls. *)
Fixpoint at_most (n : nat) {A} (p : prog call A) {struct p} : Prop :=
  match p with
  | Ret _ => True
  | Call c k => match n with 0%nat => False | Datatypes.S n' => ∀ r, at_most n' (k r) end
  end.

(** What a run of the program can have shown so far. *)
Fixpoint can_show {A} (p : prog call A) (l : list O) : Prop :=
  match p with
  | Ret _ => l = []
  | Call c k => l = [] ∨ ∃ r l', l = shows c r ++ l' ∧ can_show (k r) l'
  end.

(** What a run of the program that returned [a] has shown. *)
Fixpoint can_return {A} (p : prog call A) (l : list O) (a : A) : Prop :=
  match p with
  | Ret a' => l = [] ∧ a = a'
  | Call c k => ∃ r l', l = shows c r ++ l' ∧ can_return (k r) l' a
  end.

Lemma can_show_nil {A} (p : prog call A) : can_show p [].
Proof. destruct p; [done|by left]. Qed.

Lemma keeps_bind J {A B} (p : prog call A) (f : A → prog call B) :
  keeps J p → (∀ a, keeps J (f a)) → keeps J (p ≫= f).
Proof.
  intros Hp Hf. induction p as [a|R c k IH]; [apply Hf|].
  change (Call c k ≫= f) with (Call c (λ r, k r ≫= f)). intros s Hs.
  destruct (Hp s Hs) as [HI Hk]. split; [done|]. by apply IH.
Qed.

Lemma all_calls_bind P {A B} (p : prog call A) (f : A → prog call B) :
  all_calls P p → (∀ a, all_calls P (f a)) → all_calls P (p ≫= f).
Proof.
  intros Hp Hf. induction p as [a|R c k IH]; [apply Hf|].
  change (Call c k ≫= f) with (Call c (λ r, k r ≫= f)).
  destruct Hp as [Hc Hk]. split; [done|]. intros r. by apply IH.
Qed.

Lemma returns_bind {A B} (Q : B → Prop) (p : prog call A) (f : A → prog call B) :
  (∀ a, returns Q (f a)) → returns Q (p ≫= f).
Proof. intros Hf. induction p as [a|R c k IH]; [apply Hf|]. intros r. apply IH. Qed.

Lemma returns_wrap {A B} (Q : A → Prop) (Q' : B → Prop) (p : prog call A) (f : A → B) :
  (∀ a, Q a → Q' (f a)) → returns Q p → returns Q' (a ← p; mret (f a)).
Proof. intros HQ. induction p as [a|R c k IH]; [apply HQ|]. intros Hk r. apply IH, Hk. Qed.

Lemma returns_weaken {A} (Q Q' : A → Prop) (p : prog call A) :
  (∀ a, Q a → Q' a) → returns Q p → returns Q' p.
Proof.
  intros HQ. induction p as [a|R c k IH]; [apply HQ|]. intros Hk r. apply IH, Hk.
Qed.

Lemma all_calls_weaken (P P' : ∀ R, call R → Prop) {A} (p : prog call A) :
  (∀ R c, P R c → P' R c) → all_calls P p → all_calls P' p.
Proof.
  intros HP. induction p as [a|R c k IH]; [done|]. intros [Hc Hk].
  split; [by apply HP|]. intros r. apply IH, Hk.
Qed.

Lemma at_most_weaken n m {A} (p : prog call A) : at_most n p → (n ≤ m)%nat → at_most m p.
Proof.
  revert n m. induction p as [a|R c k IH]; intros n m; [done|].
  destruct n as [|n]; [done|]. destruct m as [|m]; [lia|].
  intros Hp Hle r. apply (IH r n); [apply Hp|lia].
Qed.

Lemma at_most_bind n m {A B} (p : prog call A) (f : A → prog call B) :
  at_most n p → (∀ a, at_most m (f a)) → at_most (n + m) (p ≫= f).
Proof.
  intros Hp Hf. revert n Hp. induction p as [a|R c k IH]; intros n Hp.
  { apply (at_most_weaken m); [apply Hf|lia]. }
  change (Call c k ≫= f) with (Call c (λ r, k r ≫= f)).
  destruct n as [|n]; [done|]. intros r. apply IH, Hp.
Qed.

Lemma keeps_each J {A} (l : list A) (body : A → prog call unit) :
  (∀ a, a ∈ l → keeps J (body a)) → keeps J (each l body).
Proof.
  intros Hb. induction l as [|a l IH]; [done|]. apply keeps_bind; [apply Hb; by left|].
  intros _. apply IH. intros b Hl. apply Hb. by right.
Qed.

Lemma all_calls_each P {A} (l : list A) (body : A → prog call unit) :
  (∀ a, a ∈ l → all_calls P (body a)) → all_calls P (each l body).
Proof.
  intros Hb. induction l as [|a l IH]; [done|]. apply all_calls_bind; [apply Hb; by left|].
  intros _. apply IH. intros b Hl. apply Hb. by right.
Qed.

Lemma at_most_each n {A} (l : list A) (body : A → prog call unit) :
  (∀ a, at_most n (body a)) → at_most (length l * n) (each l body).
Proof. intros Hb. induction l as [|a l IH]; [done|]. apply at_most_bind; [apply Hb|done]. Qed.

Lemma can_return_show {A} (p : prog call A) l a : can_return p l a → can_show p l.
Proof.
  revert l. induction p as [a'|R c k IH]; intros l; [by intros [-> _]|].
  intros (r & l' & -> & H). right. exists r, l'. split; [done|]. by apply IH.
Qed.

Lemma can_return_bind {A B} (p : prog call A) (f : A → prog call B) l b :
  can_return (p ≫= f) l b →
  ∃ a l1 l2, l = l1 ++ l2 ∧ can_return p l1 a ∧ can_return (f a) l2 b.
Proof.
  revert l. induction p as [a|R c k IH]; intros l Hl.
  { by exists a, [], l. }
  destruct Hl as (r & l' & -> & Hl). apply IH in Hl as (a & l1 & l2 & -> & H1 & H2).
  exists a, (shows c r ++ l1), l2. rewrite app_assoc. split_and!; [done| |done].
  by exists r, l1.
Qed.

Lemma can_show_bind {A B} (p : prog call A) (f : A → prog call B) l :
  can_show (p ≫= f) l →
  can_show p l ∨ ∃ a l1 l2, l = l1 ++ l2 ∧ can_return p l1 a ∧ can_show (f a) l2.
Proof.
  revert l. induction p as [a|R c k IH]; intros l Hl.
  { right. by exists a, [], l. }
  destruct Hl as [->|(r & l' & -> & Hl)]; [left; by left|].
  apply IH in Hl as [Hl|(a & l1 & l2 & -> & H1 & H2)].
  { left. right. by exists r, l'. }
  right. exists a, (shows c r ++ l1), l2. rewrite app_assoc. split_and!; [done| |done].
  by exists r, l1.
Qed.

Lemma all_calls_expand {call0} P (serve : ∀ R, call0 R → prog call R) {A} (p : prog call0 A) :
  (∀ R c, all_calls P (serve R c)) → all_calls P (expand serve p).
Proof.
  intros Hs. induction p as [a|R c k IH]; [done|]. apply all_calls_bind; [apply Hs|apply IH].
Qed.

(** A program that only wraps its result shows what it wraps. *)
Lemma can_show_wrap {A B} (p : prog call A) (f : A → B) l :
  can_show (a ← p; mret (f a)) l → can_show p l.
Proof.
  intros [H|(a & l1 & l2 & -> & H & H2)]%can_show_bind; [done|].
  change (l2 = []) in H2. subst l2. rewrite app_nil_r. by eapply can_return_show.
Qed.

Lemma can_return_wrap {A B} (p : prog call A) (f : A → B) l b :
  can_return (a ← p; mret (f a)) l b → ∃ a, b = f a ∧ can_return p l a.
Proof.
  intros (a & l1 & l2 & -> & H & [-> ->])%can_return_bind. exists a. by rewrite app_nil_r.
Qed.

(** ** From programs to pools *)

(** A property that a program passes on to what its call leaves of it holds of every
    thread of every pool reached. *)
Lemma pool_promise {A} (P : nat → prog call A → Prop) (J : S → Prop) :
  (∀ i R (c : call R) k s, P i (Call c k) → J s →
     P i (k (fst (do_call c s))) ∧ J (exec (do_call c) s)) →
  ∀ pool s n tr pool' s', steps (pool, s) n tr (pool', s') →
    (∀ i p, pool !! i = Some p → P i p) → J s →
    (∀ i p, pool' !! i = Some p → P i p) ∧ J s'.
Proof.
  intros Hstep pool s n tr pool' s' Hs. remember (pool, s) as x eqn:Hx. remember (pool', s') as y eqn:Hy.
  revert pool s Hx. induction Hs as [x|x tr1 z n tr2 y Hx1 Hrest IH]; intros pool s -> Hpool HJ.
  { by injection Hy as -> ->. }
  inversion Hx1 as [i R c k pool0 s0 Hi]; subst. destruct (Hstep i R c k s (Hpool _ _ Hi) HJ) as [HP HJ'].
  eapply IH; [done|done| |done].
  intros j p. destruct (decide (j = i)) as [->|Hne].
  - rewrite list_lookup_insert_eq by by eapply lookup_lt_Some. by intros [= <-].
  - rewrite list_lookup_insert_ne by done. apply Hpool.
Qed.

Lemma pool_keeps J {A} (pool : list (prog call A)) s n tr pool' s' :
  Forall (keeps J) pool → J s → steps (pool, s) n tr (pool', s') → J s'.
Proof.
  intros Hpool HI Hs. rewrite Forall_lookup in Hpool.
  eapply (pool_promise (λ _, keeps J) J); [|done|exact Hpool|done].
  intros i R c k s0 Hk HI0. destruct (Hk s0 HI0). by split.
Qed.

Lemma pool_returns {A} (Q : nat → A → Prop) (pool : list (prog call A)) s n tr pool' s' i a :
  (∀ i p, pool !! i = Some p → returns (Q i) p) → steps (pool, s) n tr (pool', s') →
  pool' !! i = Some (Ret a) → Q i a.
Proof.
  intros Hpool Hs Hi.
  eassert (Hall : ∀ i p, pool' !! i = Some p → returns (Q i) p); [|exact (Hall _ _ Hi)].
  eapply (pool_promise (λ i, returns (Q i)) (λ _, True)); [|exact Hs|exact Hpool|done].
  intros j R c k s0 Hk _. split; [apply Hk|done].
Qed.

(** What is seen of a run is shown by calls of its programs. *)
Lemma pool_calls {A} (P : ∀ R, call R → Prop) (pool : list (prog call A)) s n tr pool' s' :
  Forall (all_calls P) pool → steps (pool, s) n tr (pool', s') →
  Forall (λ e, ∃ R (c : call R) r, P R c ∧ e.2 ∈ shows c r) tr.
Proof.
  intros Hpool Hs. remember (pool, s) as x eqn:Hx. revert pool s Hx Hpool.
  induction Hs as [x|x tr1 z m tr2 y Hx1 Hrest IH]; intros pool s -> Hpool; [by apply Forall_nil|].
  inversion Hx1 as [i R c k pool0 s0 Hi]; subst.
  rewrite Forall_lookup in Hpool. destruct (Hpool _ _ Hi) as [Hc Hk]. apply Forall_app. split.
  - apply Forall_fmap, Forall_forall. intros o Ho. by exists R, c, (fst (do_call c s)).
  - eapply IH; [done|]. apply Forall_insert; [by apply Forall_lookup|apply Hk].
Qed.

(** What a thread has shown in a run. *)
Definition of_thread (i : nat) (tr : list (nat * O)) : list O :=
  (filter (λ e, e.1 = i) tr).*2.

Lemma of_thread_app i tr1 tr2 : of_thread i (tr1 ++ tr2) = of_thread i tr1 ++ of_thread i tr2.
Proof. unfold of_thread. by rewrite filter_app, fmap_app. Qed.

Lemma of_thread_step i j (l : list O) :
  of_thread i (pair j <$> l) = if decide (j = i) then l else [].
Proof.
  unfold of_thread. induction l as [|o l IH]; [by case_decide|].
  rewrite fmap_cons, filter_cons. cbn [fst]. case_decide; cbn; by rewrite IH.
Qed.

Lemma elem_of_thread i o tr : o ∈ of_thread i tr ↔ (i, o) ∈ tr.
Proof.
  unfold of_thread. rewrite list_elem_of_fmap. split.
  - intros ([j o'] & -> & [Hj Hin]%list_elem_of_filter). cbn in *. by subst.
  - intros Hin. exists (i, o). split; [done|]. by apply list_elem_of_filter.
Qed.

Lemma pool_thread {A} (pool : list (prog call A)) s n tr pool' s' i p :
  steps (pool, s) n tr (pool', s') → pool !! i = Some p → can_show p (of_thread i tr).
Proof.
  intros Hs. remember (pool, s) as x eqn:Hx. revert pool s p Hx.
  induction Hs as [x|x tr1 z m tr2 y Hx1 Hrest IH]; intros pool s p -> Hp; [apply can_show_nil|].
  inversion Hx1 as [j R c k pool0 s0 Hj]; subst. rewrite of_thread_app, of_thread_step.
  case_decide as Hji.
  - subst j. rewrite Hj in Hp. injection Hp as <-. right. eexists _, _. split; [done|].
    eapply IH; [done|]. apply list_lookup_insert_eq. by eapply lookup_lt_Some.
  - eapply IH; [done|]. by rewrite list_lookup_insert_ne.
Qed.

Lemma pool_returned {A} (pool : list (prog call A)) s n tr pool' s' i p a :
  steps (pool, s) n tr (pool', s') → pool !! i = Some p → pool' !! i = Some (Ret a) →
  can_return p (of_thread i tr) a.
Proof.
  intros Hs. remember (pool, s) as x eqn:Hx. remember (pool', s') as y eqn:Hy. revert pool s p Hx.
  induction Hs as [x|x tr1 z m tr2 y Hx1 Hrest IH]; intros pool s p -> Hp Ha.
  { injection Hy as -> ->. rewrite Ha in Hp. by injection Hp as <-. }
  inversion Hx1 as [j R c k pool0 s0 Hj]; subst. rewrite of_thread_app, of_thread_step.
  case_decide as Hji.
  - subst j. rewrite Hj in Hp. injection Hp as <-. eexists _, _. split; [done|].
    eapply IH; [done|done| |done]. apply list_lookup_insert_eq. by eapply lookup_lt_Some.
  - eapply IH; [done|done| |done]. by rewrite list_lookup_insert_ne.
Qed.

(** No run is longer than what its programs have left, and a pool can go on until
    every program has returned. *)
Lemma pool_bound {A} (x y : list (prog call A) * S) n tr ns :
  Forall2 (λ n p, at_most n p) ns x.1 → steps x n tr y → (n ≤ sum_list ns)%nat.
Proof.
  intros Hns Hs. revert ns Hns. induction Hs as [x|x tr1 z n tr2 y Hx Hrest IH]; intros ns Hns; [lia|].
  destruct Hx as [i R c k pool s Hi]. cbn [fst] in *.
  destruct (Forall2_lookup_r _ _ _ _ _ Hns Hi) as (b & Hb & Hp). destruct b as [|b]; [done|].
  assert (Hns' : Forall2 (λ n p, at_most n p) (<[i := b]> ns) (<[i := k (fst (do_call c s))]> pool))
    by (apply Forall2_insert; [done|apply Hp]).
  apply IH in Hns'.
  enough (sum_list ns = Datatypes.S (sum_list (<[i := b]> ns))) by lia.
  clear -Hb. revert i Hb. induction ns as [|m ns IH]; intros [|i]; cbn [lookup list_lookup]; try done.
  - by intros [= ->].
  - intros Hi. change (sum_list (<[Datatypes.S i := b]> (m :: ns))) with (m + sum_list (<[i := b]> ns))%nat.
    change (sum_list (m :: ns)) with (m + sum_list ns)%nat. rewrite (IH i Hi). lia.
Qed.

Lemma pool_progress {A} (pool : list (prog call A)) s :
  Forall (λ p, ∃ a, p = Ret a) pool ∨ ∃ tr y, step (pool, s) tr y.
Proof.
  destruct (decide (Forall (λ p, returned p = true) pool)) as [Hd|Hd].
  - left. eapply Forall_impl; [exact Hd|]. intros [a|]; [by exists a|done].
  - right. apply not_Forall_Exists, Exists_exists in Hd as (p & Hin & Hp); [|intros p; apply _].
    destruct p as [|R c k]; [by destruct Hp|]. apply list_elem_of_lookup in Hin as [i Hi].
    eexists _, _. by econstructor.
Qed.
End Promises.

(** What the calls of a program satisfy, the calls that serve them satisfy. *)
Lemma all_calls_expand_if {call0 call : Type → Type} (P0 : ∀ R, call0 R → Prop)
    (P : ∀ R, call R → Prop) (serve : ∀ R, call0 R → prog call R) {A}
    (p : prog call0 A) :
  (∀ R c, P0 R c → all_calls P (serve R c)) → all_calls P0 p → all_calls P (expand serve p).
Proof.
  intros Hs. induction p as [a|R c k IH]; [done|]. intros [Hc Hk].
  apply all_calls_bind; [by apply Hs|]. intros r. by apply IH.
Qed.

End Pool.
