(* ===== verification/Rely.v ===== *)
(** * Rely and guarantee

    Threads of a pool that talk to each other through the state: what one may conclude
    from what it reads depends on what the others do.  [promises] is the judgement for
    one thread: under an invariant [J] of the state, and as long as every step of the
    others satisfies [G], its own calls are made only when [may] allows them, keep [J],
    satisfy [G], and its result satisfies [Q].  Threads that all promise can be run
    together: [pool_promises] and its consequences. *)

From Stdlib Require Import ZArith Lia.
From S2P Require Import Prelude Pool.
Import Pool.

Module Rely.

Section Rely.
Context {call : Type → Type} {S O : Type} {HC : Handler call S} {OC : Observer call O}.
Context (J : S → Prop) (G : S → S → Prop).

(** What stays true whatever the others do. *)
Definition stable (F : S → Prop) : Prop := ∀ s s', J s → G s s' → F s → F s'.

(** ** One thread *)

(** A thread that knows [F].  After a call it knows a new fact, which may depend on the
    state and the answer. *)
Fixpoint promises (may : ∀ R, call R → S → Prop) (F : S → Prop) {A} (p : prog call A)
    (Q : A → S → Prop) : Prop :=
  match p with
  | Ret a => ∀ s, J s → F s → Q a s
  | @Call _ _ R c k => ∀ s, J s → F s →
      may R c s ∧ J (exec (do_call c) s) ∧ G s (exec (do_call c) s) ∧
      ∃ F', stable F' ∧ F' (exec (do_call c) s) ∧ promises may F' (k (fst (do_call c s))) Q
  end.

Lemma promises_strengthen may (F F' : S → Prop) {A} (p : prog call A) Q :
  (∀ s, J s → F s → F' s) → promises may F' p Q → promises may F p Q.
Proof. intros HF. destruct p; cbn; intros Hp s HJ Hs; apply Hp; auto. Qed.

Lemma promises_pure may (P : Prop) {A} (p : prog call A) Q :
  (P → promises may (λ _, True) p Q) → promises may (λ _, P) p Q.
Proof. intros Hp. destruct p; cbn in *; intros s HJ HP; by apply Hp. Qed.

Lemma promises_weaken may F {A} (p : prog call A) (Q Q' : A → S → Prop) :
  (∀ a s, J s → Q a s → Q' a s) → promises may F p Q → promises may F p Q'.
Proof.
  intros HQ. revert F. induction p as [a|R c k IH]; intros F Hp s HJ Hs.
  { by apply HQ, Hp. }
  destruct (Hp s HJ Hs) as (Hm & HJ' & HG & F' & Hst & HF' & Hk).
  split_and!; [done..|]. exists F'. split_and!; [done..|]. by apply IH.
Qed.

(** The rule of sequence: what the first program ensures is what the second knows. *)
Lemma promises_bind may F {A B} (p : prog call A) (f : A → prog call B) (mid : A → S → Prop) Q :
  promises may F p mid → (∀ a, promises may (mid a) (f a) Q) → promises may F (p ≫= f) Q.
Proof.
  intros Hp Hf. revert F Hp. induction p as [a|R c k IH]; intros F Hp.
  { by eapply promises_strengthen. }
  change (Call c k ≫= f) with (Call c (λ r, k r ≫= f)). intros s HJ Hs.
  destruct (Hp s HJ Hs) as (Hm & HJ' & HG & F' & Hst & HF' & Hk).
  split_and!; [done..|]. exists F'. split_and!; [done..|]. by apply IH.
Qed.

(** A call after which the thread knows [F' r], of its answer [r]. *)
Lemma promises_request may F {R} (c : call R) (F' : R → S → Prop) :
  (∀ r, stable (F' r)) →
  (∀ s, J s → F s → may R c s ∧ J (exec (do_call c) s) ∧ G s (exec (do_call c) s) ∧
     F' (fst (do_call c s)) (exec (do_call c) s)) →
  promises may F (request c) F'.
Proof.
  intros Hst Hc s HJ Hs. destruct (Hc s HJ Hs) as (Hm & HJ' & HG & HF').
  split_and!; [done..|]. exists (F' (fst (do_call c s))). split_and!; [done..|].
  by intros ? _ ?.
Qed.

Lemma promises_expand {call0} may (F : S → Prop) (serve : ∀ R, call0 R → prog call R) {A}
    (p : prog call0 A) :
  (∀ R c, promises may F (serve R c) (λ _, F)) → promises may F (expand serve p) (λ _, F).
Proof.
  intros Hs. induction p as [a|R c k IH]; [by intros s _ ?|].
  eapply promises_bind; [apply Hs|apply IH].
Qed.

Lemma stable_True : stable (λ _, True).
Proof. done. Qed.

Lemma stable_const (P : Prop) (F : S → Prop) : stable F → stable (λ s, P → F s).
Proof. intros HF s s' HJ HG Hs HP. eapply HF; eauto. Qed.

(** ** A pool of threads *)

Section Threads.
Context {A : Type} (may : nat → ∀ R, call R → S → Prop) (Q : nat → A → S → Prop).

(** What is left of a thread promises, from something that is true and stays so. *)
Definition live (i : nat) (p : prog call A) (s : S) : Prop :=
  ∃ F, stable F ∧ F s ∧ promises (may i) F p (Q i).

Definition all_live (pool : list (prog call A)) (s : S) : Prop :=
  J s ∧ ∀ i p, pool !! i = Some p → live i p s.

Lemma all_live_intro pool s (F : nat → S → Prop) :
  J s → (∀ i, stable (F i)) → (∀ i, F i s) →
  (∀ i p, pool !! i = Some p → promises (may i) (F i) p (Q i)) → all_live pool s.
Proof. intros HJ HF Hs Hp. split; [done|]. intros i p Hi. exists (F i). split_and!; auto. Qed.

Lemma step_live pool s tr pool' s' :
  step (pool, s) tr (pool', s') → all_live pool s → all_live pool' s'.
Proof.
  intros Hstep [HJ Hl]. inversion Hstep as [i R c k pool0 s0 Hi]; subst.
  destruct (Hl _ _ Hi) as (F & HF & Hs & Hp).
  destruct (Hp s HJ Hs) as (_ & HJ' & HG & F' & HF' & Hs' & Hk).
  split; [done|]. intros j p Hj. destruct (decide (j = i)) as [->|Hne].
  - rewrite list_lookup_insert_eq in Hj by (by eapply lookup_lt_Some).
    injection Hj as <-. by exists F'.
  - rewrite list_lookup_insert_ne in Hj by done.
    destruct (Hl _ _ Hj) as (Fj & HFj & Hsj & Hpj). exists Fj.
    split; [exact HFj|]. split; [|exact Hpj]. by apply (HFj s).
Qed.

(** Threads that promise go on promising, and what is allowed of each call holds of the
    whole history: an invariant of what was seen and of the state. *)
Lemma pool_promises (H : list (nat * O) → S → Prop) pool s n tr pool' s' :
  (∀ i R (c : call R) tr s, J s → may i R c s → H tr s →
     H (tr ++ (pair i <$> shows c (fst (do_call c s)))) (exec (do_call c) s)) →
  steps (pool, s) n tr (pool', s') → all_live pool s → H [] s →
  all_live pool' s' ∧ H tr s'.
Proof.
  intros Hstep Hs Hl HH. change tr with ([] ++ tr). revert HH. generalize (@nil (nat * O)) as tr0.
  remember (pool, s) as x eqn:Hx. remember (pool', s') as y eqn:Hy. revert pool s Hx Hl.
  induction Hs as [x|x tr1 [pool1 s1] n tr2 y Hx1 Hrest IH]; intros pool s -> Hl tr0 HH.
  { injection Hy as -> ->. by rewrite app_nil_r. }
  rewrite app_assoc. apply (IH Hy pool1 s1 eq_refl); [by eapply step_live|].
  inversion Hx1 as [i R c k pool0 s0 Hi]; subst. destruct Hl as [HJ Hl].
  destruct (Hl _ _ Hi) as (F & HF & HsF & Hp). destruct (Hp s HJ HsF) as (Hm & _).
  by apply Hstep.
Qed.

Lemma pool_live pool s n tr pool' s' :
  steps (pool, s) n tr (pool', s') → all_live pool s → all_live pool' s'.
Proof. intros Hs Hl. by eapply (pool_promises (λ _ _, True)). Qed.

(** A thread that has returned has kept its promise, and one about to call may. *)
Lemma live_returned pool s i a : all_live pool s → pool !! i = Some (Ret a) → Q i a s.
Proof. intros [HJ Hl] Hi. destruct (Hl _ _ Hi) as (F & _ & Hs & Hp). by apply Hp. Qed.

Lemma live_next pool s i R (c : call R) k :
  all_live pool s → pool !! i = Some (Call c k) → may i R c s.
Proof. intros [HJ Hl] Hi. destruct (Hl _ _ Hi) as (F & _ & Hs & Hp). by apply (Hp s HJ Hs). Qed.
End Threads.
End Rely.

End Rely.
