(* ===== verification/Waiting.v ===== *)
(** * Calls that wait

    In the pools of [Pool] every call answers at once.  A mutex that is taken, or an
    answer that has not come, makes its caller wait: [ready] says in which states a call
    can be made, and a run of [wsteps] makes each call in such a state.  What is proved
    of every run of a pool holds of these; whether a thread can go on is now a question. *)

From Stdlib Require Import Lia.
From S2P Require Import Prelude Pool.
Import Pool.

Module Waiting.

Class Waits (call : Type → Type) (S : Type) := ready : ∀ {R}, call R → S → Prop.

Section Waiting.
Context {call : Type → Type} {S O : Type}.
Context {HC : Handler call S} {OC : Observer call O} {WC : Waits call S}.

Inductive wstep {A} : list (prog call A) * S → list (nat * O) → list (prog call A) * S → Prop :=
  | wstep_call i R (c : call R) k pool s :
      pool !! i = Some (Call c k) → ready c s →
      wstep (pool, s) (pair i <$> shows c (fst (do_call c s)))
            (<[i := k (fst (do_call c s))]> pool, exec (do_call c) s).

Inductive wsteps {A} : list (prog call A) * S → nat → list (nat * O) → list (prog call A) * S → Prop :=
  | wsteps_nil x : wsteps x 0 [] x
  | wsteps_cons x tr1 y n tr2 z :
      wstep x tr1 y → wsteps y n tr2 z → wsteps x (Datatypes.S n) (tr1 ++ tr2) z.

(** Runs that wait are runs. *)
Lemma wsteps_steps {A} (x y : list (prog call A) * S) n tr : wsteps x n tr y → steps x n tr y.
Proof.
  induction 1 as [|x tr1 y n tr2 z Hx _ IH]; [constructor|]. econstructor; [|exact IH].
  destruct Hx as [i R c k pool s Hi _]. by constructor.
Qed.

(** The thread that makes a step, and what it makes of its program. *)
Lemma wstep_thread {A} (pool pool' : list (prog call A)) s s' tr :
  wstep (pool, s) tr (pool', s') →
  ∃ i p, pool !! i = Some p ∧
    match p with
    | Ret _ => False
    | Call c k => ready c s ∧ pool' = <[i := k (fst (do_call c s))]> pool ∧ s' = exec (do_call c) s
    end.
Proof. inversion 1 as [i R c k ? ? Hi Hr]; subst. by exists i, (Call c k). Qed.

(** A property of the number of steps and of what they reach, by rule induction. *)
Lemma wsteps_invariant {A} (I : nat → list (prog call A) → S → Prop) :
  (∀ n pool s tr pool' s', I n pool s → wstep (pool, s) tr (pool', s') → I (Datatypes.S n) pool' s') →
  ∀ pool s n tr pool' s', wsteps (pool, s) n tr (pool', s') → I 0%nat pool s → I n pool' s'.
Proof.
  intros Hstep pool s n tr pool' s' Hs.
  enough (Hgen : ∀ n0, I n0 pool s → I (n0 + n)%nat pool' s') by exact (Hgen 0%nat).
  remember (pool, s) as x eqn:Hx. remember (pool', s') as y eqn:Hy. revert pool s Hx.
  induction Hs as [x|x tr1 [pool1 s1] n tr2 y Hx1 Hrest IH]; intros pool s -> n0 Hn.
  { injection Hy as -> ->. by rewrite Nat.add_0_r. }
  rewrite Nat.add_succ_r, <- Nat.add_succ_l. eapply IH; [done..|]. by eapply Hstep.
Qed.

(** Whether a thread can make its next call. *)
Definition can_go {A} (x : list (prog call A) * S) (i : nat) : Prop :=
  ∃ R (c : call R) k, x.1 !! i = Some (Call c k) ∧ ready c x.2.

(** A run of one thread alone, of calls that satisfy [P]. *)
Inductive solo {A} (P : ∀ R, call R → Prop) (i : nat) :
    list (prog call A) * S → list (prog call A) * S → Prop :=
  | solo_nil x : solo P i x x
  | solo_cons R (c : call R) k pool s y :
      pool !! i = Some (Call c k) → P R c → ready c s →
      solo P i (<[i := k (fst (do_call c s))]> pool, exec (do_call c) s) y →
      solo P i (pool, s) y.

Lemma solo_others {A} P i (x y : list (prog call A) * S) j : solo P i x y → j ≠ i → y.1 !! j = x.1 !! j.
Proof.
  intros Hs Hne. induction Hs as [|R c k pool s y Hi HP Hr Hs IH]; [done|].
  rewrite IH. cbn. by rewrite list_lookup_insert_ne.
Qed.

(** A schedule names the thread of each step; it fails at a thread that cannot go on. *)
Context `{∀ R (c : call R) s, Decision (ready c s)}.

Fixpoint wscheduled {A} (sched : list nat) (pool : list (prog call A)) (s : S)
    : option (list (prog call A) * S) :=
  match sched with
  | [] => Some (pool, s)
  | i :: sched' =>
    match pool !! i with
    | Some (Call c k) =>
      if decide (ready c s) then
        let '(r, s') := do_call c s in wscheduled sched' (<[i := k r]> pool) s'
      else None
    | _ => None
    end
  end.

Lemma wscheduled_steps {A} sched (pool : list (prog call A)) s y :
  wscheduled sched pool s = Some y → ∃ tr, wsteps (pool, s) (length sched) tr y.
Proof.
  revert pool s. induction sched as [|i sched IH]; intros pool s.
  { intros [= <-]. eexists. constructor. }
  cbn. destruct (pool !! i) as [[a|R c k]|] eqn:Hi; [done| |done].
  case_decide as Hr; [|done]. destruct (do_call c s) as [r s'] eqn:Hc. intros Hy.
  destruct (IH _ _ Hy) as [tr Hs]. eexists. eapply wsteps_cons; [by eapply wstep_call|].
  unfold exec. by rewrite Hc.
Qed.
End Waiting.

End Waiting.
