(* ===== verification/Calls.v ===== *)
(** * The operator's calls

    net/http runs every request in a goroutine of its own, so what two handlers do
    to the deduplication map and to the cluster interleaves.  The map is locked for
    one [Acquire] ([Locked] has it access by access), the API server serves one request at a time: these calls are the
    atomic steps of the pools of [Pool], on the state [st W] of [Server]. *)

From Stdlib Require Import ZArith Lia.
From S2P Require Import Prelude GoLib Json Kube Dedupe Server Pool.
Import GoTime Kube Dedupe Server Pool.

Module Calls.

(** The calls of a handler that touch shared state, with the types of their results. *)
Inductive call : Type → Type :=
  | CAcquire (fp : string) (now : Time) : call bool
  | CGetHPA (k : NamespacedName) : call (error + HPA)
  | CPatchHPA (k : NamespacedName) (base obj : HPA) : call (option error)
  | CGetConfigMap (k : NamespacedName) : call (error + ConfigMap)
  | CCreateConfigMap (k : NamespacedName) (m : ConfigMap) : call (option error)
  | CPatchConfigMap (k : NamespacedName) (base obj : ConfigMap) : call (option error)
  | CStatusPatch (g : GroupVersionKind) (k : NamespacedName) (patch : string) : call (option error)
  | CLogInfo (msg : string) : call unit
  | CLogV1 (msg : string) : call unit
  | CLogError (e : error) (msg : string) : call unit.

#[export] Instance call_handler {W} {KC : KubeClient W} {KL : Logger W} : Handler call (st W) :=
  λ R c, match c in call R return M (st W) R with
  | CAcquire fp now => in_dedupe (Acquire fp now)
  | CGetHPA k => in_world (GetHPA k)
  | CPatchHPA k base obj => in_world (PatchHPA k base obj)
  | CGetConfigMap k => in_world (GetConfigMap k)
  | CCreateConfigMap k m => in_world (CreateConfigMap k m)
  | CPatchConfigMap k base obj => in_world (PatchConfigMap k base obj)
  | CStatusPatch g k patch => in_world (StatusPatch g k patch)
  | CLogInfo msg => in_world (LogInfo msg)
  | CLogV1 msg => in_world (LogV1 msg)
  | CLogError e msg => in_world (LogError e msg)
  end.

(** What is observed: the deduplication's calls and answers. *)
#[export] Instance call_observer : Observer call (string * Time * bool) :=
  λ R c, match c in call R return R → list (string * Time * bool) with
  | CAcquire fp now => λ b, [(fp, now, b)]
  | _ => λ _, []
  end.

Section Facts.
Context {W : Type} {KC : KubeClient W} {KL : Logger W}.

(** A call is one to the deduplication or an operation of the client or the logger. *)
Lemma call_cases {R} (c : call R) :
  (∃ fp now, ∀ s : st W, exec (do_call c) s = exec (in_dedupe (Acquire fp now)) s) ∨
  (∃ m, client_op R m ∧ ∀ r, shows c r = [] ∧ ∀ s : st W, do_call c s = in_world m s).
Proof.
  destruct c; [left; by eexists _, _|right; eexists; split; [constructor|done]..].
Qed.

(** The deduplication of a run of a pool is the run of its calls. *)
Lemma pool_acquires {A} (x y : list (prog call A) * st W) n tr :
  steps x n tr y →
  fst (acquires tr.*2.*1 (st_dedupe x.2)) = tr.*2.*2 ∧
  st_dedupe y.2 = exec (acquires tr.*2.*1) (st_dedupe x.2).
Proof.
  induction 1 as [x|x tr1 z n tr2 y Hx Hrest [IH1 IH2]]; [done|].
  destruct Hx as [i R c k pool s Hi]. cbn [snd] in IH1, IH2 |- *.
  destruct c as [fp now| | | | | | | | |].
  2-10: cbn [do_call call_handler shows call_observer] in *; by rewrite exec_in_world in IH1, IH2.
  cbn [do_call call_handler shows call_observer] in *.
  rewrite run_in_dedupe in *. rewrite exec_in_dedupe in IH1, IH2.
  cbn [fst snd st_dedupe app fmap list_fmap] in *. rewrite exec_acquires_cons, acquires_cons.
  cbn [fst]. by rewrite IH1, IH2.
Qed.

(** The state of the cluster. *)
Context {KV : ClusterView W}.
Definition cluster_of (s : st W) : cluster := view (st_world s).
End Facts.

End Calls.
