(* ===== verification/Lifecycle.v ===== *)
(** * Running an HTTP server until a context is cancelled

    [obs.Serve] (pkg/obs/obs.go) and [Server.Start] (operator/internal/server/
    server.go) are the same small concurrent program: a goroutine runs
    [ListenAndServe] and sends its error on a channel of capacity one, the caller
    selects between that channel and the cancellation of its context, and shuts
    the server down with a bounded context in the second case.  It is a step
    relation here, so that every interleaving of the two is covered. *)

From stdpp Require Import relations.
From S2P Require Import Prelude GoLib.
Import GoTime.

Module Lifecycle.

(** [http.ErrServerClosed], which [ListenAndServe] returns after a [Shutdown] and,
    by its documentation, never before one. *)
Definition ErrServerClosed : error := Error "http: Server closed".

(** The caller: at the select, in [Shutdown], or returned with a result. *)
Inductive caller := Selecting | ShuttingDown | Returned (r : option error).

(** The goroutine: not started, in [ListenAndServe], at the send, finished. *)
Inductive worker := Starting | Listening | Sending (e : error) | Finished.

Record state := mkState {
  main : caller;
  srv : worker;
  errCh : list error;
  ctx_done : bool;
  shutdown_called : bool;
  logged : list string;
}.

(** [errCh := make(chan error, 1)]. *)
Definition errCh_capacity : nat := 1.

Definition initial : state := mkState Selecting Starting [] false false [].

(** [if errors.Is(err, http.ErrServerClosed) { return nil }; return err]. *)
Definition select_result (e : error) : option error :=
  if bool_decide (e = ErrServerClosed) then None else Some e.

Section Steps.
Context (listening_msg shutting_msg : string).

Inductive step : state → state → Prop :=
  | step_start m ch d sd lg :
      step (mkState m Starting ch d sd lg)
           (mkState m Listening ch d sd (lg ++ [listening_msg]))
  (** [net.Listen] or [Serve] fails; the first can do so while [Shutdown] is called. *)
  | step_listen_fails m e ch d sd lg :
      e ≠ ErrServerClosed →
      step (mkState m Listening ch d sd lg) (mkState m (Sending e) ch d sd lg)
  | step_listen_closed m ch d lg :
      step (mkState m Listening ch d true lg) (mkState m (Sending ErrServerClosed) ch d true lg)
  | step_send m e ch d sd lg :
      length ch < errCh_capacity →
      step (mkState m (Sending e) ch d sd lg) (mkState m Finished (ch ++ [e]) d sd lg)
  | step_cancel m s ch sd lg :
      step (mkState m s ch false sd lg) (mkState m s ch true sd lg)
  | step_select_done s ch sd lg :
      step (mkState Selecting s ch true sd lg)
           (mkState ShuttingDown s ch true true (lg ++ [shutting_msg]))
  | step_select_err s e ch d sd lg :
      step (mkState Selecting s (e :: ch) d sd lg)
           (mkState (Returned (select_result e)) s ch d sd lg)
  (** [Shutdown] drains the server, or gives up when its ten seconds are over. *)
  | step_shutdown r s ch d lg :
      step (mkState ShuttingDown s ch d true lg) (mkState (Returned r) s ch d true lg).

Definition reachable (s : state) : Prop := rtc step initial s.

(** The relation between the parts that every step keeps. *)
Record inv (s : state) : Prop := {
  (** a server is shut down only by a caller that saw its context done *)
  inv_shutdown : shutdown_called s = true → ctx_done s = true ∧ main s ≠ Selecting;
  inv_shutting : main s = ShuttingDown → shutdown_called s = true;
  (** the channel is empty until the goroutine has sent, and it sends once *)
  inv_empty : (match srv s with Finished => False | _ => True end) → errCh s = [];
  inv_room : length (errCh s) ≤ errCh_capacity;
  (** before a shutdown no error in flight is [ErrServerClosed] *)
  inv_sending : ∀ e, srv s = Sending e → e = ErrServerClosed → shutdown_called s = true;
  inv_chan : ∀ e, e ∈ errCh s → e = ErrServerClosed → shutdown_called s = true;
  (** a nil result comes after cancellation *)
  inv_nil : main s = Returned None → ctx_done s = true;
}.

Lemma inv_initial : inv initial.
Proof. split; cbn; try done; try lia. set_solver. Qed.

Lemma inv_step s s' : step s s' → inv s → inv s'.
Proof.
  destruct 1; intros [H1 H2 H3 H4 H5 H6 H7]; cbn in *; split; cbn in *; try done;
    try (intros; simplify_eq; eauto; fail).
  - rewrite length_app. cbn. unfold errCh_capacity in *. lia.
  - intros e' [Hin| ->%list_elem_of_singleton]%elem_of_app; eauto.
  - intros Hsd. split; [done|]. by apply H1.
  - intros Hsd. split; [by apply H1|done].
  - intros Hs. by apply H3 in Hs.
  - lia.
  - intros e' Hin. apply H6. by right.
  - unfold select_result. case_bool_decide as He; [|done]. intros _.
    apply H1. by apply (H6 e); [left|].
  - intros _. split; [by apply H1|done].
  - intros _. by apply H1.
Qed.

Lemma reachable_inv s : reachable s → inv s.
Proof.
  intros Hr. unfold reachable in Hr.
  assert (Hgen : ∀ a, rtc step a s → inv a → inv s).
  { induction 1; eauto using inv_step. }
  eauto using inv_initial.
Qed.

(** ** Progress *)

(** The goroutine is never stuck at its send: the channel has room for it. *)
Lemma sender_not_blocked s e : inv s → srv s = Sending e → length (errCh s) < errCh_capacity.
Proof. intros Hi Hs. rewrite (inv_empty _ Hi) by by rewrite Hs. cbn. unfold errCh_capacity. lia. Qed.

(** Once the caller is in [Shutdown] or has returned from it, the goroutine runs to
    its end without any help of the caller. *)
Lemma worker_finishes s :
  inv s → shutdown_called s = true →
  ∃ s', rtc step s s' ∧ srv s' = Finished ∧ main s' = main s.
Proof.
  destruct s as [m w ch d sd lg]. cbn. intros Hi ->.
  assert (Hsend : ∀ e lg', (match w with Finished => False | _ => True end) →
    ∃ s', rtc step (mkState m (Sending e) ch d true lg') s' ∧ srv s' = Finished ∧ main s' = m).
  { intros e lg' Hw. eexists. split; [apply rtc_once, step_send|done].
    pose proof (inv_empty _ Hi) as He. cbn in He. rewrite He by done. cbn. unfold errCh_capacity. lia. }
  destruct w as [| |e|].
  - destruct (Hsend ErrServerClosed (lg ++ [listening_msg]) I) as (s' & ? & ?). exists s'.
    split; [|done]. eapply rtc_l; [apply step_start|]. eapply rtc_l; [apply step_listen_closed|done].
  - destruct (Hsend ErrServerClosed lg I) as (s' & ? & ?). exists s'. split; [|done].
    eapply rtc_l; [apply step_listen_closed|done].
  - by apply Hsend.
  - eexists. by split; [apply rtc_refl|].
Qed.

(** After cancellation the caller can return, with any result [Shutdown] has. *)
Lemma caller_returns s r :
  inv s → ctx_done s = true → main s = Selecting ∨ main s = ShuttingDown →
  ∃ s', rtc step s s' ∧ main s' = Returned r ∧ shutdown_called s' = true.
Proof.
  destruct s as [m w ch d sd lg]. cbn. intros Hi -> [->| ->].
  - eexists. split; [|split].
    + eapply rtc_l; [apply step_select_done|]. apply rtc_once, (step_shutdown r).
    + done.
    + done.
  - pose proof (inv_shutting _ Hi eq_refl) as Hsd. cbn in Hsd. subst.
    eexists. split; [apply rtc_once, (step_shutdown r)|done].
Qed.
End Steps.

(** pkg/obs/obs.go, [Serve]. *)
Definition Serve_step : relation state := step "http server listening" "http server shutting down".

(** operator/internal/server/server.go, the end of [Start]. *)
Definition Start_step : relation state := step "webhook listening" "webhook shutting down".

(** [ReadHeaderTimeout] of both servers and the bound on [Shutdown]. *)
Definition ReadHeaderTimeout : Duration := (5 * Second)%Z.
Definition ShutdownTimeout : Duration := (10 * Second)%Z.

(** ** Properties *)

(** The claims about either server, given its step relation. *)
Definition serves_cleanly (R : relation state) : Prop := ∀ s, rtc R initial s →
  (* results *)
  (main s = Returned None → ctx_done s = true) ∧
  (∀ e, main s = Returned (Some e) → ctx_done s = true ∨ e ≠ ErrServerClosed) ∧
  (* no goroutine is left behind at the channel *)
  (∀ e, srv s = Sending e → length (errCh s) < errCh_capacity) ∧
  (* cancellation leads to a return and to the end of the goroutine *)
  (ctx_done s = true → main s = Selecting ∨ main s = ShuttingDown →
     ∀ r, ∃ s', rtc R s s' ∧ main s' = Returned r ∧ srv s' = Finished).

Lemma step_serves_cleanly lm sm : serves_cleanly (step lm sm).
Proof.
  intros s Hr. pose proof (reachable_inv _ _ _ Hr) as Hi. split; [apply Hi|]. split; [|split].
  - intros e He. destruct (ctx_done s) eqn:Hd; [by left|right]. revert e He.
    assert (Hgen : ∀ a b, rtc (step lm sm) a b →
              (∀ e, main a = Returned (Some e) → ctx_done a = true ∨ e ≠ ErrServerClosed) →
              inv a → ∀ e, main b = Returned (Some e) → ctx_done b = true ∨ e ≠ ErrServerClosed).
    { induction 1 as [|a b c Hab Hbc IH]; [done|]. intros Ha Hia. apply IH; [|by eapply inv_step].
      destruct Hab; cbn in *; intros e' He'; try by auto.
      - unfold select_result in He'. case_bool_decide; [done|]. simplify_eq. by right.
      - left. by apply (inv_shutdown _ Hia). }
    intros e He. destruct (Hgen initial s Hr) with (e := e) as [?|?]; try done; [|congruence].
    apply inv_initial.
  - intros e He. by eapply sender_not_blocked.
  - intros Hd Hm r. destruct (caller_returns lm sm s r Hi Hd Hm) as (s1 & H1 & Hm1 & Hsd).
    assert (Hi1 : inv s1) by (apply (reachable_inv lm sm); unfold reachable; by transitivity s).
    destruct (worker_finishes lm sm s1 Hi1 Hsd) as (s2 & H2 & Hf & Hm2).
    exists s2. split; [by etransitivity|]. split; congruence.
Qed.

(** (C30) [Serve] and [Start] on every interleaving of caller, goroutine and
    cancellation.  They return nil only after the context was cancelled; an error
    returned before that is one [ListenAndServe] failed with, never
    [ErrServerClosed]; the goroutine never blocks on the error channel, so none is
    leaked whichever branch the select takes; and from every state reached after a
    cancellation the caller can return and the goroutine can finish. *)
Theorem servers_terminate_cleanly : serves_cleanly Serve_step ∧ serves_cleanly Start_step.
Proof. split; apply step_serves_cleanly. Qed.

End Lifecycle.
