(* ===== verification/Obs.v ===== *)
(** * pkg/obs: health flags, the probe routes, and HTTP RED metrics

    Models [Health] and [Mux] of pkg/obs/obs.go, and [HTTPMetrics], [Wrap] and
    [statusRecorder] of pkg/obs/redmetrics.go.  The Prometheus collectors are
    modelled by what the program asks of them: one counter and one list of
    observations per label set. *)

From Stdlib Require Import ZArith Lia.
From S2P Require Import Prelude GoLib GoText Http Mux.
Import GoTime Http Mux.

Module Obs.
Local Open Scope Z_scope.

(** ** Health (obs.go) *)

Record Health := mkHealth { ready : bool; live : bool }.

Definition NewHealth : Health := mkHealth false true.

Definition Ready (h : Health) : Health := mkHealth true (live h).
Definition NotReady (h : Health) : Health := mkHealth false (live h).
Definition Down (h : Health) : Health := mkHealth (ready h) false.

(** A handler that answers [body] when its flag is set and 503 when not. *)
Definition flag_handler (flag : Health → bool) (body : string) (h : Health) : list rw_op :=
  if flag h then [WriteHeader StatusOK; Write body] else [WriteHeader StatusServiceUnavailable].

Definition healthz_handler : Health → list rw_op := flag_handler live "ok".
Definition readyz_handler : Health → list rw_op := flag_handler ready "ready".

(** The routes of [Mux]; [metrics] is the promhttp handler. *)
Definition obs_routes {H} (metrics healthz readyz : H) : list (string * H) :=
  [ ("/metrics", metrics); ("/healthz", healthz); ("/readyz", readyz) ].

(** The handlers read the flags when the request is served. *)
Definition obs_Mux (metrics : Health → list rw_op) : option (mux (Health → list rw_op)) :=
  register_all (obs_routes metrics healthz_handler readyz_handler) NewServeMux.

(** ** statusRecorder (redmetrics.go) *)

Record statusRecorder (R : Type) := mkRecorder { inner : R; code : Z; rec_wroteHeader : bool }.
Arguments mkRecorder {R}.
Arguments inner {R}.
Arguments code {R}.
Arguments rec_wroteHeader {R}.

Definition recorder_WriteHeader `{ResponseWriter R} (c : Z) (r : statusRecorder R)
    : statusRecorder R :=
  mkRecorder (rw_WriteHeader c (inner r))
    (if rec_wroteHeader r then code r else c) true.

(** The embedded writer answers every other call. *)
#[export] Instance recorder_writer `{ResponseWriter R} : ResponseWriter (statusRecorder R) := {
  rw_SetHeader k v r := mkRecorder (rw_SetHeader k v (inner r)) (code r) (rec_wroteHeader r);
  rw_DelHeader k r := mkRecorder (rw_DelHeader k (inner r)) (code r) (rec_wroteHeader r);
  rw_WriteHeader := recorder_WriteHeader;
  rw_Write b r := mkRecorder (rw_Write b (inner r)) (code r) (rec_wroteHeader r);
}.

(** [&statusRecorder{ResponseWriter: w, code: http.StatusOK}]. *)
Definition new_recorder {R} (w : R) : statusRecorder R := mkRecorder w StatusOK false.

(** ** HTTPMetrics *)

(** handler, method, code *)
Definition labels : Type := string * string * string.
#[export] Instance labels_eq_dec : EqDecision labels := _.
#[export] Instance labels_countable : Countable labels := _.

Record HTTPMetrics := mkMetrics {
  requests : gmap labels nat;
  duration : gmap labels (list Duration);
}.

(** Both vectors without a child. *)
Definition new_metrics : HTTPMetrics := mkMetrics ∅ ∅.

Definition count (m : HTTPMetrics) (l : labels) : nat := default 0%nat (requests m !! l).
Definition observations (m : HTTPMetrics) (l : labels) : list Duration := default [] (duration m !! l).

Definition Inc (l : labels) (m : HTTPMetrics) : HTTPMetrics :=
  mkMetrics (<[l := S (count m l)]> (requests m)) (duration m).

Definition Observe (l : labels) (d : Duration) (m : HTTPMetrics) : HTTPMetrics :=
  mkMetrics (requests m) (<[l := observations m l ++ [d]]> (duration m)).

(** [strconv.Itoa]. *)
Definition Itoa (z : Z) : string := FormatInt z.

(** The clock of the process. *)
Class Clock (W : Type) := Now : W → Time.

(** [m.Wrap(handler, next)]: [next] runs on the recorder; the calls it makes reach
    the caller's writer; then the request is counted and timed. *)
Definition Wrap {W} `{Clock W} (handler method : string) (next : M W (list rw_op))
    : M (HTTPMetrics * W) (list rw_op) := λ s,
  let '(m, w) := s in
  let start := Now w in
  let '(ops, w') := next w in
  let rw := rw_run ops (new_recorder new_response) in
  let l := (handler, method, Itoa (code rw)) in
  (ops, (Observe l (Sub (Now w') start) (Inc l m), w')).

(** ** Registries of collectors

    A registry refuses a collector that clashes with one it holds; what clashes is for
    the Prometheus library to say. *)

Inductive Collector :=
  | GoCollector
  | ProcessCollector (Namespace : string)
  | CounterVec (Namespace Name : string) (label_names : list string)
  | HistogramVec (Namespace Name : string) (label_names : list string).

#[export] Instance collector_eq_dec : EqDecision Collector.
Proof. solve_decision. Defined.

Section Registries.
Context (clashes : Collector → Collector → bool).

(** [r.MustRegister(cs...)]: [None] is its panic. *)
Fixpoint MustRegister (cs reg : list Collector) : option (list Collector) :=
  match cs with
  | [] => Some reg
  | c :: cs' => if existsb (clashes c) reg then None else MustRegister cs' (reg ++ [c])
  end.

Definition Registry (service : string) : option (list Collector) :=
  MustRegister [GoCollector; ProcessCollector service] [].

Definition http_collectors (namespace : string) : list Collector :=
  let label_names := ["handler"; "method"; "code"] in
  [ CounterVec namespace "http_requests_total" label_names;
    HistogramVec namespace "http_request_duration_seconds" label_names ].

Definition NewHTTPMetrics (reg : list Collector) (namespace : string)
    : option (HTTPMetrics * list Collector) :=
  reg' ← MustRegister (http_collectors namespace) reg; Some (new_metrics, reg').

(** A service's registry takes its HTTP metrics when its four collectors do not clash;
    building them a second time on the same registry panics when a collector clashes
    with itself. *)
Lemma metrics_register service :
  (∀ c1 c2, clashes c1 c2 = bool_decide (c1 = c2)) →
  ∃ reg, Registry service = Some reg ∧
  ∃ m reg', NewHTTPMetrics reg service = Some (m, reg') ∧ NewHTTPMetrics reg' service = None.
Proof.
  intros Hc. exists [GoCollector; ProcessCollector service].
  split; [cbn; by rewrite Hc|].
  exists new_metrics, ([GoCollector; ProcessCollector service] ++ http_collectors service).
  unfold NewHTTPMetrics. split.
  - cbn. rewrite !Hc. by rewrite !bool_decide_eq_false_2 by discriminate.
  - cbn. rewrite !Hc. repeat rewrite bool_decide_eq_false_2 by discriminate.
    by rewrite bool_decide_eq_true_2.
Qed.
End Registries.

(** ** The recorder against the server's writer *)

(** The code of the first [WriteHeader], the default when there is none. *)
Fixpoint first_code (dflt : Z) (ops : list rw_op) : Z :=
  match ops with
  | [] => dflt
  | WriteHeader c :: _ => c
  | _ :: ops' => first_code dflt ops'
  end.

(** The calls on which "the first WriteHeader" is what the client sees: it is not
    an informational code, and if a body byte is written before it, it is 200. *)
Fixpoint header_first (ops : list rw_op) : bool :=
  match ops with
  | [] => true
  | WriteHeader c :: _ => negb (is_informational c)
  | Write _ :: ops' => first_code StatusOK ops' =? StatusOK
  | _ :: ops' => header_first ops'
  end.

Lemma recorder_inner `{ResponseWriter R} ops (r : statusRecorder R) :
  inner (rw_run ops r) = rw_run ops (inner r).
Proof.
  revert r. induction ops as [|op ops IH]; intros r; [done|].
  change (inner (rw_run ops (rw_do r op)) = rw_run ops (rw_do (inner r) op)).
  rewrite IH. by destruct op.
Qed.

Lemma recorder_code `{ResponseWriter R} ops (r : statusRecorder R) :
  code (rw_run ops r) = if rec_wroteHeader r then code r else first_code (code r) ops.
Proof.
  revert r. induction ops as [|op ops IH]; intros r; [by destruct (rec_wroteHeader r)|].
  change (code (rw_run ops (rw_do r op)) =
          if rec_wroteHeader r then code r else first_code (code r) (op :: ops)).
  rewrite IH. by destruct op; cbn; destruct (rec_wroteHeader r).
Qed.

Lemma final_not_informational ops : is_informational (final_status ops) = false.
Proof.
  induction ops as [|[k v|k|c|b] ops IH]; cbn [final_status]; try done.
  by destruct (is_informational c) eqn:E.
Qed.

Lemma recorded_iff ops : first_code StatusOK ops = final_status ops ↔ header_first ops = true.
Proof.
  induction ops as [|[k v|k|c|b] ops IH]; cbn; try done.
  - pose proof (final_not_informational ops) as Hf.
    destruct (is_informational c) eqn:Hc; cbn; [|done]. split; [|done].
    intros Heq. rewrite <- Heq in Hf. congruence.
  - by rewrite Z.eqb_eq.
Qed.

(** The recorded code of a handler that writes its header first. *)
Lemma recorded_status ops :
  header_first ops = true →
  code (rw_run ops (new_recorder new_response)) = status (serve ops).
Proof. intros Hh. rewrite recorder_code, serve_status. by apply recorded_iff. Qed.

(** ** Properties *)

(** (C35) The status recorder.  Wrapping a writer in a [statusRecorder] changes
    nothing of what the client receives; and the recorded code is the status the
    client receives exactly when the handler's first [WriteHeader] is not an
    informational one and is not preceded by a body write (of a status other than
    200).  [Write] is not intercepted, so outside these cases the metric and the
    wire disagree. *)
Theorem statusRecorder_faithful ops :
  finishRequest (inner (rw_run ops (new_recorder new_response))) = serve ops ∧
  (code (rw_run ops (new_recorder new_response)) = status (serve ops) ↔ header_first ops = true).
Proof.
  rewrite recorder_inner, recorder_code, serve_status. split; [done|]. apply recorded_iff.
Qed.

(** One request, one count.  A wrapped handler makes the same calls and leaves
    the same world as the bare one; exactly one counter moves, by one, and exactly
    one observation is added, under the handler's name, the request's method and,
    for a handler that writes its header first, the status sent to the client. *)
Theorem Wrap_counts_once {W} `{Clock W} handler method (next : M W (list rw_op)) m w :
  let '(ops, (m', w')) := Wrap handler method next (m, w) in
  (ops, w') = next w ∧
  ∃ l d, (∀ l', count m' l' = if decide (l' = l) then S (count m l') else count m l') ∧
    (∀ l', observations m' l' =
       if decide (l' = l) then observations m l' ++ [d] else observations m l') ∧
    l.1 = (handler, method) ∧
    (header_first ops = true → l.2 = Itoa (status (serve ops))).
Proof.
  unfold Wrap. destruct (next w) as [ops w'] eqn:Hn. split; [done|].
  set (rw := rw_run ops (new_recorder new_response)).
  exists (handler, method, Itoa (code rw)), (Sub (Now w') (Now w)).
  split; [|split; [|split]].
  - intros l'. unfold count, Observe, Inc. cbn. destruct (decide (l' = _)) as [->|Hne].
    + by rewrite lookup_insert_eq.
    + by rewrite lookup_insert_ne.
  - intros l'. unfold observations, Observe, Inc. cbn. destruct (decide (l' = _)) as [->|Hne].
    + by rewrite lookup_insert_eq.
    + by rewrite lookup_insert_ne.
  - done.
  - intros Hh. cbn. f_equal. by apply recorded_status.
Qed.

(** The probe routes register without a clash and answer by the flags at the
    time of the request, whatever its method: /healthz is 200 exactly while live,
    /readyz exactly while ready, 503 otherwise; unknown paths are 404. *)
Theorem obs_Mux_probes metrics :
  ∃ m, obs_Mux metrics = Some m ∧ ∀ method path h,
    let answer := match findHandler method path m with
                  | Found f => status (serve (f h))
                  | MethodNotAllowed => StatusMethodNotAllowed
                  | NotFound => StatusNotFound
                  end in
    (request_segments path = ["healthz"] → answer = if live h then 200 else 503) ∧
    (request_segments path = ["readyz"] → answer = if ready h then 200 else 503) ∧
    (request_segments path ∉ [["metrics"]; ["healthz"]; ["readyz"]] → answer = 404).
Proof.
  exists (any_method [("metrics", metrics); ("healthz", healthz_handler); ("readyz", readyz_handler)]).
  split; [reflexivity|]. intros method path h. rewrite any_method_routed. cbn [route_of].
  generalize (request_segments path) as segs. intros segs. cbn zeta.
  split; [|split].
  - intros ->. by destruct h as [[] []].
  - intros ->. by destruct h as [[] []].
  - rewrite !not_elem_of_cons. intros (? & ? & ? & _). by rewrite !bool_decide_eq_false_2.
Qed.

End Obs.
