(* ===== verification/MetricsPool.v ===== *)
(** * Request metrics under concurrency

    net/http runs every request in a goroutine of its own, under [HTTPMetrics.Wrap].
    Here the middleware wraps any program of calls: run alone it is [Obs.Wrap]; in a
    pool, under every interleaving, no request is lost from the counters and none is
    counted twice or under another label than its own answer's. *)

From Stdlib Require Import ZArith Lia.
From S2P Require Import Prelude GoLib Http Obs Pool.
Import GoInt GoTime Http Obs Pool.

Module MetricsPool.
Local Open Scope Z_scope.

(** The calls of a handler and those of the middleware. *)
Inductive mcall (C : Type → Type) : Type → Type :=
  | MCall R (c : C R) : mcall C R
  | MNow : mcall C Time
  | MInc (l : labels) : mcall C unit
  | MObserve (l : labels) (d : Duration) : mcall C unit.
Arguments MCall {C R}.
Arguments MNow {C}.
Arguments MInc {C}.
Arguments MObserve {C}.

(** What is observed: the counters moved. *)
#[export] Instance mcall_observer C : Observer (mcall C) labels :=
  λ R c, match c in mcall _ R return R → list labels with
  | MInc l => λ _, [l]
  | _ => λ _, []
  end.

Section Wrapped.
Context {C : Type → Type} {S : Type} {HS : Handler C S} {CS : Clock S}.

#[export] Instance mcall_handler : Handler (mcall C) (HTTPMetrics * S) :=
  λ R c, match c in mcall _ R return M (HTTPMetrics * S) R with
  | MCall c => λ ms, let '(r, s) := do_call c ms.2 in (r, (ms.1, s))
  | MNow => gets (λ ms, Now ms.2)
  | MInc l => modify (λ ms, (Inc l ms.1, ms.2))
  | MObserve l d => modify (λ ms, (Observe l d ms.1, ms.2))
  end.

Definition recorded (ops : list rw_op) : string := Itoa (code (rw_run ops (new_recorder new_response))).

Definition Wrap_prog (handler method : string) (next : prog C (list rw_op))
    : prog (mcall C) (list rw_op) :=
  start ← request MNow;
  ops ← expand (λ R c, request (MCall c)) next;
  let l := (handler, method, recorded ops) in
  _ ← request (MInc l);
  now ← request MNow;
  _ ← request (MObserve l (Sub now start));
  mret ops.

Lemma next_alone {A} (next : prog C A) m s :
  run (expand (λ R c, request (MCall c)) next) (m, s) = let '(a, s') := run next s in (a, (m, s')).
Proof.
  rewrite run_expand. revert s. induction next as [a|R c k IH]; intros s; [done|].
  cbn [run]. rewrite !bind_run. unfold do_call at 1 2. rewrite run_request. cbn [do_call mcall_handler fst snd].
  destruct (do_call c s) as [r s1]. cbn [fst snd]. apply IH.
Qed.

(** The program is a handler that shows one counter at its end. *)
Lemma next_can_show {A} (next : prog C A) l :
  can_show (expand (λ R c, request (MCall c)) next) l → l = [].
Proof.
  revert l. induction next as [a|R c k IH]; intros l; [done|]. cbn.
  intros [->|(r & l' & -> & H)]; [done|]. by apply IH in H.
Qed.

Lemma Wrap_can_show handler method next l :
  can_show (Wrap_prog handler method next) l → l = [] ∨ ∃ c, l = [(handler, method, c)].
Proof.
  cbn. intros [->|(start & l1 & -> & H)]; [by left|]. cbn.
  apply can_show_bind in H as [H%next_can_show|(ops & l2 & l3 & -> & H1 & H)]; [by left|].
  apply can_return_show, next_can_show in H1. subst l2. cbn in H.
  destruct H as [->|(u & l4 & -> & H)]; [by left|]. right. exists (recorded ops).
  destruct H as [->|(now & l5 & -> & [->|(u2 & l6 & -> & ->)])]; done.
Qed.

Lemma Wrap_can_return handler method next l ops :
  can_return (Wrap_prog handler method next) l ops → l = [(handler, method, recorded ops)].
Proof.
  cbn. intros (start & l1 & -> & H). cbn.
  apply can_return_bind in H as (ops' & l2 & l3 & -> & H1 & H).
  apply can_return_show, next_can_show in H1. subst l2.
  by destruct H as (u & l4 & -> & now & l5 & -> & u2 & l6 & -> & -> & ->).
Qed.

(** The counter of a label over a run is what it was and the times it was moved. *)
Definition moved (l : labels) (tr : list (nat * labels)) : nat := length (filter (λ e, e.2 = l) tr).

Lemma moved_app l tr1 tr2 : moved l (tr1 ++ tr2) = (moved l tr1 + moved l tr2)%nat.
Proof. unfold moved. by rewrite filter_app, length_app. Qed.

Lemma moved_one l i l' : moved l [(i, l')] = if decide (l' = l) then 1%nat else 0%nat.
Proof. unfold moved. rewrite filter_cons. cbn [snd]. by case_decide. Qed.

Lemma count_Inc l l' m : count (Inc l' m) l = ((if decide (l' = l) then 1 else 0) + count m l)%nat.
Proof.
  unfold count, Inc. cbn. case_decide as Hl.
  - subst. by rewrite lookup_insert_eq.
  - by rewrite lookup_insert_ne.
Qed.

Lemma steps_count {A} (x y : list (prog (mcall C) A) * (HTTPMetrics * S)) n tr l :
  steps x n tr y → count y.2.1 l = (count x.2.1 l + moved l tr)%nat.
Proof.
  induction 1 as [x|x tr1 z n tr2 y Hx Hrest IH]; [cbn; lia|].
  rewrite moved_app, IH. destruct Hx as [i R c k pool [m s] Hi]. cbn [fst snd].
  destruct c as [R c| |l'|l' d]; unfold exec; cbn [shows mcall_observer fmap list_fmap do_call mcall_handler gets modify fst snd].
  - by destruct (do_call c s).
  - done.
  - rewrite count_Inc, moved_one. lia.
  - done.
Qed.
End Wrapped.

(** ** Properties *)

(** The middleware run alone is [Wrap]. *)
Theorem Wrap_alone {C S} `{Handler C S, Clock S} handler method (next : prog C (list rw_op)) m (s : S) :
  run (Wrap_prog handler method next) (m, s) = Wrap handler method (run next) (m, s).
Proof.
  unfold Wrap_prog, Wrap. rewrite run_bind, run_request. cbn [do_call mcall_handler gets fst snd].
  rewrite run_bind, next_alone. destruct (run next s) as [ops s']. cbn [fst snd].
  by rewrite run_bind, run_request, run_bind, run_request, run_bind, run_request.
Qed.

(** (C34) The counters are exact.  Whatever wrapped requests run concurrently, whatever
    their handlers do and however all their calls interleave: the counter of every
    label set has grown by exactly the requests that moved it; a request moves at most
    one counter, of its own handler name and method; and once it is answered it has
    moved exactly one, under the status its client received, if its handler writes a
    header before the body or none. *)
Theorem counters_exact {C S} `{Handler C S, Clock S}
    (reqs : list (string * string * prog C (list rw_op))) m m' (s s' : S) n tr pool :
  steps ((λ r, Wrap_prog r.1.1 r.1.2 r.2) <$> reqs, (m, s)) n tr (pool, (m', s')) →
  (∀ l, count m' l = (count m l + moved l tr)%nat) ∧
  ∀ i handler method next, reqs !! i = Some (handler, method, next) →
    (of_thread i tr = [] ∨ ∃ c, of_thread i tr = [(handler, method, c)]) ∧
    ∀ ops, pool !! i = Some (Ret ops) → header_first ops = true →
      of_thread i tr = [(handler, method, Itoa (Http.status (serve ops)))].
Proof.
  intros Hs. split; [intros l; exact (steps_count _ _ _ _ l Hs)|].
  intros i handler method next Hi.
  assert (Hp : ((λ r, Wrap_prog r.1.1 r.1.2 r.2) <$> reqs) !! i = Some (Wrap_prog handler method next))
    by (by rewrite list_lookup_fmap, Hi).
  split; [eapply Wrap_can_show, pool_thread; [exact Hs|exact Hp]|].
  intros ops Hret Hhf. rewrite (Wrap_can_return _ _ _ _ _ (pool_returned _ _ _ _ _ _ _ _ _ Hs Hp Hret)).
  unfold recorded. by rewrite recorded_status.
Qed.

(** ** Two requests at once, one answered 200 and one 402 *)

Inductive tick : Type → Type := Tick : tick unit.
#[local] Instance tick_handler : Handler tick Z := λ R c,
  match c in tick R return M Z R with Tick => modify (λ now, now + 1) end.
#[local] Instance tick_clock : Clock Z := λ now, now.

Definition two_requests : list (string * string * prog tick (list rw_op)) :=
  [ ("post_orders", "POST", _ ← request Tick; mret [Write "ok"]);
    ("post_orders", "POST", _ ← request Tick; mret (http_Error "declined" StatusPaymentRequired)) ].

Definition wrapped : list (prog (mcall tick) (list rw_op)) :=
  (λ r, Wrap_prog r.1.1 r.1.2 r.2) <$> two_requests.

Definition both : list nat := [0; 1; 1; 0; 0; 1; 1; 0; 0; 1]%nat.

Lemma counters_exact_witness :
  let m' := (scheduled both wrapped (new_metrics, 0)).2.1 in
  count m' ("post_orders", "POST", "200") = 1%nat ∧
  count m' ("post_orders", "POST", "402") = 1%nat ∧
  of_thread 1 (seen both wrapped (new_metrics, 0)) = [("post_orders", "POST", "402")].
Proof.
  intros m'. destruct (scheduled_steps both wrapped (new_metrics, 0)) as [n Hs].
  rewrite (surjective_pairing (scheduled _ _ _)), (surjective_pairing (snd (scheduled _ _ _))) in Hs.
  destruct (counters_exact two_requests _ _ _ _ n _ _ Hs) as [Hcount Hreqs].
  split; [unfold m'; rewrite Hcount; vm_compute; reflexivity|].
  split; [unfold m'; rewrite Hcount; vm_compute; reflexivity|].
  destruct (Hreqs 1%nat _ _ _ eq_refl) as [_ Hans].
  etransitivity; [apply (Hans (http_Error "declined" StatusPaymentRequired)); vm_compute; reflexivity|].
  vm_compute. reflexivity.
Defined.

End MetricsPool.
