(* ===== verification/Trace.v ===== *)
(** * pkg/obs: logging level and tracing set-up

    Models [Logger] of pkg/obs/obs.go and pkg/obs/trace.go.  The OpenTelemetry SDK
    is not part of the repository: [resource.New] and [otlptrace.New] are
    parameters, and a tracer provider is the list of options it is built from.  The
    process-wide tracer provider and propagator are the state. *)

From Stdlib Require Import ZArith Lia.
From Stdlib Require Import Floats.SpecFloat.
From S2P Require Import Prelude GoLib.
Import GoTime Env.

Module Trace.

(** ** Logger (obs.go) *)

Inductive Level := LevelDebug | LevelInfo.

(** The level and the attributes of the logger every line carries. *)
Definition LoggerOf (e : env) (service : string) : Level * list (string * string) :=
  let level := if bool_decide (Getenv e "LOG_LEVEL" = "debug") then LevelDebug else LevelInfo in
  (level, [("service", service)]).

(** ** stripScheme *)

Definition schemes : list string := ["http://"; "https://"; "grpc://"].

(** [len(ep) > len(p) && ep[:len(p)] == p]. *)
Definition has_scheme (ep p : string) : bool :=
  bool_decide (String.length p < String.length ep)%nat &&
  bool_decide (String.substring 0 (String.length p) ep = p).

(** [ep[len(p):]]. *)
Definition after (ep p : string) : string :=
  String.substring (String.length p) (String.length ep - String.length p) ep.

Fixpoint strip_first (ps : list string) (ep : string) : string :=
  match ps with
  | [] => ep
  | p :: ps' => if has_scheme ep p then after ep p else strip_first ps' ep
  end.

Definition stripScheme (ep : string) : string := strip_first schemes ep.

(** ** samplingRatio

    [r <= 0] and [r > 1] are [SFleb r zero] and [SFltb one r].  A [float64] is a [spec_float] of IEEE 754 binary64; comparisons with NaN are
    false.  [fmt.Sscanf(v, "%f", &r)] is a parameter: [None] is its error. *)

Definition float64 : Type := spec_float.
Definition zero : float64 := S754_zero false.
(** 1.0: the mantissa 2^52 with exponent -52. *)
Definition one : float64 := S754_finite false 4503599627370496 (-52).

Definition samplingRatio (Sscanf_f : string → option float64) (e : env) : float64 :=
  let v := Getenv e "OTEL_TRACES_SAMPLER_ARG" in
  if bool_decide (v = "") then one
  else match Sscanf_f v with
       | None => one
       | Some r =>
         if SFleb r zero then one else
         if SFltb one r then one else r
       end.

(** ** InitTracing *)

Inductive propagator := TraceContext | Baggage.

Inductive sampler := TraceIDRatioBased (r : float64) | ParentBased (root : sampler).

Section Init.
(** [res] and [exp]: what the SDK makes of a resource and an exporter. *)
Context {res exp : Type}.

Inductive tp_option :=
  | WithBatcher (e : exp) (timeout : Duration)
  | WithResource (r : res)
  | WithSampler (s : sampler).

(** [sdktrace.NewTracerProvider(opts...)]. *)
Definition TracerProvider : Type := list tp_option.

(** The globals of package otel: [None] until they are set. *)
Record otel := mkOtel {
  propagators : option (list propagator);
  provider : option TracerProvider;
}.

Definition SetTextMapPropagator (ps : list propagator) : M otel unit :=
  modify (λ g, mkOtel (Some ps) (provider g)).
Definition SetTracerProvider (tp : TracerProvider) : M otel unit :=
  modify (λ g, mkOtel (propagators g) (Some tp)).

Context (Sscanf_f : string → option float64).
(** [resource.New] with the service's name and version. *)
Context (resource_New : string → string → error + res).
(** [otlptrace.New] with a client for an endpoint, under a deadline. *)
Context (otlptrace_New : option Time → string → error + exp).

(** The result is the provider whose [Shutdown] the caller defers. *)
Definition InitTracing (e : env) (now : Time) (ctx : option Time) (service version : string)
    : M otel (error + TracerProvider) :=
  match resource_New service version with
  | inl err => mret (inl (wrapf "otel resource" err))
  | inr r =>
    _ ← SetTextMapPropagator [TraceContext; Baggage];
    let endpoint := Getenv e "OTEL_EXPORTER_OTLP_ENDPOINT" in
    if bool_decide (endpoint = "") then
      let tp := [WithResource r] in
      _ ← SetTracerProvider tp;
      mret (inr tp)
    else
      let startCtx := WithTimeout now ctx (5 * Second)%Z in
      match otlptrace_New startCtx (stripScheme endpoint) with
      | inl err => mret (inl (wrapf "otel exporter" err))
      | inr x =>
        let tp := [ WithBatcher x (2 * Second)%Z;
                    WithResource r;
                    WithSampler (ParentBased (TraceIDRatioBased (samplingRatio Sscanf_f e))) ] in
        _ ← SetTracerProvider tp;
        mret (inr tp)
      end
  end.
End Init.
Arguments tp_option : clear implicits.
Arguments TracerProvider : clear implicits.
Arguments otel : clear implicits.

(** ** Lemmas *)

Lemma string_length_app (s t : string) :
  String.length (s +:+ t) = (String.length s + String.length t)%nat.
Proof. induction s as [|c s IH]; [done|]. exact (f_equal S IH). Qed.

Lemma substring_all s : String.substring 0 (String.length s) s = s.
Proof. induction s as [|c s IH]; [done|]. exact (f_equal (String c) IH). Qed.

Lemma substring_app_l s t : String.substring 0 (String.length s) (s +:+ t) = s.
Proof. induction s as [|c s IH]; [by destruct t|]. exact (f_equal (String c) IH). Qed.

Lemma substring_app_r s t : String.substring (String.length s) (String.length t) (s +:+ t) = t.
Proof. induction s as [|c s IH]; [apply substring_all|]. exact IH. Qed.

Lemma substring_split s n :
  (n ≤ String.length s)%nat → s = String.substring 0 n s +:+ String.substring n (String.length s - n) s.
Proof.
  revert n. induction s as [|c s IH]; intros [|n] Hn; [done|cbn in Hn; lia| |].
  - symmetry. exact (substring_all (String c s)).
  - cbn in Hn. exact (f_equal (String c) (IH n ltac:(lia))).
Qed.

Lemma has_scheme_iff ep p :
  has_scheme ep p = true ↔ ∃ host, host ≠ "" ∧ ep = p +:+ host.
Proof.
  unfold has_scheme. rewrite andb_true_iff, !bool_decide_eq_true. split.
  - intros [Hlen Hp]. exists (after ep p). split.
    + intros He. apply (f_equal String.length) in He. unfold after in He.
      pose proof (substring_split ep (String.length p) ltac:(lia)) as Hs.
      apply (f_equal String.length) in Hs. rewrite string_length_app, He, Hp in Hs. cbn in Hs. lia.
    + pose proof (substring_split ep (String.length p) ltac:(lia)) as Hs. rewrite Hp in Hs. exact Hs.
  - intros (host & Hne & ->). rewrite string_length_app. split.
    + destruct host; [done|cbn; lia].
    + apply substring_app_l.
Qed.

Lemma after_app p host : after (p +:+ host) p = host.
Proof.
  unfold after. rewrite string_length_app.
  replace (_ + _ - _)%nat with (String.length host) by lia. apply substring_app_r.
Qed.

(** No scheme is a prefix of another: at most one of them matches. *)
Lemma schemes_disjoint p q h1 h2 :
  p ∈ schemes → q ∈ schemes → p +:+ h1 = q +:+ h2 → p = q.
Proof.
  assert (Hin : ∀ r, r ∈ schemes → r = "http://" ∨ r = "https://" ∨ r = "grpc://").
  { intros r. unfold schemes. rewrite !elem_of_cons, elem_of_nil. tauto. }
  intros [->|[->| ->]]%Hin [->|[->| ->]]%Hin Heq; try reflexivity;
    apply (f_equal (String.substring 0 5)) in Heq; vm_compute in Heq; discriminate Heq.
Qed.

Lemma strip_first_found ps p host :
  p ∈ ps → host ≠ "" →
  (∀ q h, q ∈ ps → p +:+ host = q +:+ h → p = q) → strip_first ps (p +:+ host) = host.
Proof.
  intros Hin Hne Hd. induction ps as [|q ps IH]; [by apply elem_of_nil in Hin|]. cbn.
  destruct (has_scheme (p +:+ host) q) eqn:Hq.
  - apply has_scheme_iff in Hq as (h & _ & Heq).
    assert (p = q) as <- by (apply (Hd q h); [left|done]). apply after_app.
  - apply elem_of_cons in Hin as [->|Hin].
    + assert (has_scheme (q +:+ host) q = true) by (apply has_scheme_iff; eauto). congruence.
    + apply IH; [done|]. intros q' h Hq'. apply Hd. by right.
Qed.

Lemma strip_first_none ps ep :
  (∀ p host, p ∈ ps → host ≠ "" → ep ≠ p +:+ host) → strip_first ps ep = ep.
Proof.
  induction ps as [|p ps IH]; intros Hno; [done|]. cbn.
  destruct (has_scheme ep p) eqn:Hp.
  - apply has_scheme_iff in Hp as (h & Hne & Heq). exfalso. apply (Hno p h); [left|done|done].
  - apply IH. intros q h Hq. apply Hno. by right.
Qed.

(** ** Properties *)

(** Endpoints are normalised.  A scheme of the three is cut from in front of a
    non-empty rest, exactly once and whichever of the three it is; every other
    endpoint, a bare scheme included, is left as it is. *)
Theorem stripScheme_spec :
  (∀ p host, p ∈ schemes → host ≠ "" → stripScheme (p +:+ host) = host) ∧
  (∀ ep, (∀ p host, p ∈ schemes → host ≠ "" → ep ≠ p +:+ host) → stripScheme ep = ep).
Proof.
  split.
  - intros p host Hp Hne. apply strip_first_found; [done|done|].
    intros q h Hq Heq. by eapply schemes_disjoint.
  - intros ep Hno. by apply strip_first_none.
Qed.

#[export] Instance spec_float_eq_dec : EqDecision spec_float.
Proof. solve_decision. Defined.

(** A ratio a sampler can use: more than zero, at most one. *)
Definition in_unit (r : float64) : Prop := SFltb zero r = true ∧ SFleb r one = true.

Lemma SFcompare_swap x y : SFcompare y x = CompOpp <$> SFcompare x y.
Proof.
  destruct x as [[]|[]| |[] m e], y as [[]|[]| |[] m' e']; cbn; try reflexivity;
    rewrite (Z.compare_antisym e e'); destruct (Z.compare e e'); cbn; try reflexivity;
    rewrite (Pos.compare_cont_antisym m m' Eq); by destruct (Pos.compare_cont Eq m m').
Qed.

Lemma SFcompare_nan x y : SFcompare x y = None → x = S754_nan ∨ y = S754_nan.
Proof.
  destruct x as [[]|[]| |[] m e], y as [[]|[]| |[] m' e']; cbn; auto; try discriminate;
    destruct (Z.compare e e'); discriminate.
Qed.

(** Away from NaN the two comparisons are each other's negation. *)
Lemma SFltb_leb x y :
  x ≠ S754_nan → y ≠ S754_nan → SFltb x y = negb (SFleb y x).
Proof.
  intros Hx Hy. unfold SFltb, SFleb. rewrite (SFcompare_swap x y).
  destruct (SFcompare x y) as [[]|] eqn:E; cbn; try reflexivity.
  by apply SFcompare_nan in E as [?|?].
Qed.

Lemma in_unit_not_nan r : in_unit r → r ≠ S754_nan.
Proof. intros [H _] ->. discriminate H. Qed.

Lemma one_not_nan : one ≠ S754_nan.
Proof. discriminate. Qed.

Lemma zero_not_nan : zero ≠ S754_nan.
Proof. discriminate. Qed.

Lemma in_unit_one : in_unit one.
Proof. split; reflexivity. Qed.

(** The two guards of [samplingRatio] on a number. *)
Lemma in_unit_guards r :
  r ≠ S754_nan → (in_unit r ↔ SFleb r zero = false ∧ SFltb one r = false).
Proof.
  intros Hr. unfold in_unit.
  rewrite (SFltb_leb zero r), (SFltb_leb one r) by auto using one_not_nan, zero_not_nan.
  destruct (SFleb r zero), (SFleb r one); naive_solver.
Qed.

Lemma clamp_number r :
  r ≠ S754_nan → in_unit (if SFleb r zero then one else if SFltb one r then one else r).
Proof.
  intros Hr. destruct (SFleb r zero) eqn:Hz; [exact in_unit_one|].
  destruct (SFltb one r) eqn:Ho; [exact in_unit_one|]. by apply in_unit_guards.
Qed.

Lemma clamp_id r : in_unit r → (if SFleb r zero then one else if SFltb one r then one else r) = r.
Proof.
  intros Hu. pose proof (in_unit_not_nan r Hu) as Hr.
  apply (in_unit_guards r Hr) in Hu as [-> ->]. reflexivity.
Qed.

(** (C40) The sampling ratio.  Unset, unparsable and non-positive settings give 1, and
    every result is more than 0 and at most 1 or NaN; it is NaN exactly when the
    setting was read as NaN, which both guards let through. *)
Theorem samplingRatio_range scan e :
  (in_unit (samplingRatio scan e) ∨ samplingRatio scan e = S754_nan) ∧
  (samplingRatio scan e = S754_nan ↔
     Getenv e "OTEL_TRACES_SAMPLER_ARG" ≠ "" ∧
     scan (Getenv e "OTEL_TRACES_SAMPLER_ARG") = Some S754_nan) ∧
  (∀ r, Getenv e "OTEL_TRACES_SAMPLER_ARG" ≠ "" →
     scan (Getenv e "OTEL_TRACES_SAMPLER_ARG") = Some r → in_unit r → samplingRatio scan e = r).
Proof.
  unfold samplingRatio. generalize (Getenv e "OTEL_TRACES_SAMPLER_ARG") as v. intros v.
  case_bool_decide as Hv.
  { split; [left; exact in_unit_one|]. split; [|by intros r ?].
    split; [intros H; by destruct one_not_nan|by intros [? _]]. }
  destruct (scan v) as [r|].
  2:{ split; [left; exact in_unit_one|]. split; [|by intros r _ ?].
      split; [intros H; by destruct one_not_nan|by intros [_ ?]]. }
  split; [|split].
  - destruct (decide (r = S754_nan)) as [->|Hr]; [by right|left]. by apply clamp_number.
  - split; [|by intros [_ [= ->]]]. intros Hn. split; [done|].
    destruct (decide (r = S754_nan)) as [->|Hr]; [done|].
    pose proof (in_unit_not_nan _ (clamp_number r Hr)). congruence.
  - intros r' _ [= <-]. apply clamp_id.
Qed.

(** (C27) Tracing set-up on every branch.  A resource error changes no global; an
    exporter error leaves the propagator set and the provider as it was; otherwise
    the provider returned is the one installed.  Without an endpoint no exporter is
    made, whatever [otlptrace.New] would do; with one it is asked for the endpoint
    without its scheme under a deadline of at most five seconds. *)
Theorem InitTracing_branches {res exp} scan resource_New otlptrace_New e now ctx service version
    (g : otel res exp) :
  let out := InitTracing scan resource_New otlptrace_New e now ctx service version g in
  let endpoint := Getenv e "OTEL_EXPORTER_OTLP_ENDPOINT" in
  match resource_New service version with
  | inl err => out = (inl (wrapf "otel resource" err), g)
  | inr r =>
    propagators (snd out) = Some [TraceContext; Baggage] ∧
    match fst out with
    | inr tp => provider (snd out) = Some tp ∧ WithResource r ∈ tp ∧
                (endpoint = "" ↔ ∀ x d, WithBatcher x d ∉ tp)
    | inl err => provider (snd out) = provider g ∧ endpoint ≠ "" ∧
        ∃ cause dl, err = wrapf "otel exporter" cause ∧ (dl ≤ now + 5 * Second)%Z ∧
          otlptrace_New (Some dl) (stripScheme endpoint) = inl cause
    end
  end.
Proof.
  cbn zeta. unfold InitTracing. destruct (resource_New service version) as [err|r]; [done|].
  rewrite bind_run. case_bool_decide as He; [|destruct (otlptrace_New _ _) as [err|x] eqn:Hx].
  - rewrite bind_run. cbn. split; [done|]. split; [done|]. split; [left|].
    split; [|done]. intros _ x d. by rewrite list_elem_of_singleton.
  - cbn. split; [done|]. split; [done|]. split; [done|].
    destruct (WithTimeout now ctx (5 * Second)%Z) as [dl|] eqn:Hdl; [|by destruct ctx].
    exists err, dl. split; [done|]. split; [by apply (WithTimeout_bound now ctx (5 * Second)%Z)|done].
  - rewrite bind_run. cbn. split; [done|]. split; [done|]. split; [right; left|].
    split; [done|]. intros Hno. exfalso. apply (Hno x (2 * Second)%Z). left.
Qed.

End Trace.
