(* ===== verification/Rpc.v ===== *)
(** * The generated gRPC packages

    Models gen/go/inventory/v1 and gen/go/payments/v1: the messages and their
    nil-safe getters, the open enumerations and their name maps, the client stubs,
    the unimplemented servers, the unary handlers and the service descriptors.

    google.golang.org/grpc is not part of the repository: a connection is the
    parameter [ClientConn], an interceptor an argument of the handlers.  The
    protobuf runtime's reflection plumbing is not modelled. *)

From Stdlib Require Import ZArith.
From S2P Require Import Prelude GoLib.
Import GoTime.

(** ** Messages of inventory.v1 (inventory.pb.go)

    A pointer to a message that may be nil is an [option]. *)

Module Inventoryv1.
(** An open enumeration: any int32 can arrive. *)
Definition ReserveResponse_Status : Type := Z.
Definition ReserveResponse_STATUS_UNSPECIFIED : ReserveResponse_Status := 0%Z.
Definition ReserveResponse_STATUS_OK : ReserveResponse_Status := 1%Z.
Definition ReserveResponse_STATUS_OUT_OF_STOCK : ReserveResponse_Status := 2%Z.

Definition ReserveResponse_Status_name : gmap Z string :=
  list_to_map [(0%Z, "STATUS_UNSPECIFIED"); (1%Z, "STATUS_OK"); (2%Z, "STATUS_OUT_OF_STOCK")].
Definition ReserveResponse_Status_value : gmap string Z :=
  list_to_map [("STATUS_UNSPECIFIED", 0%Z); ("STATUS_OK", 1%Z); ("STATUS_OUT_OF_STOCK", 2%Z)].

Record LineItem := mkLineItem { Sku : string; Quantity : Z }.
Record ReserveRequest := mkReserveRequest { OrderId : string; Items : list (option LineItem) }.
Record ReserveResponse := mkReserveResponse {
  ReservationId : string; Status : ReserveResponse_Status }.
Record ReleaseRequest := mkReleaseRequest { rel_ReservationId : string }.
Record ReleaseResponse := mkReleaseResponse { Released : bool }.

(** What [new] allocates and [Reset] leaves. *)
Definition ReserveRequest_Reset : ReserveRequest := mkReserveRequest "" [].
Definition ReserveResponse_Reset : ReserveResponse :=
  mkReserveResponse "" ReserveResponse_STATUS_UNSPECIFIED.
Definition ReleaseRequest_Reset : ReleaseRequest := mkReleaseRequest "".
Definition ReleaseResponse_Reset : ReleaseResponse := mkReleaseResponse false.
Definition LineItem_Reset : LineItem := mkLineItem "" 0.

Definition GetOrderId (x : option ReserveRequest) : string :=
  match x with Some m => OrderId m | None => "" end.
Definition GetItems (x : option ReserveRequest) : list (option LineItem) :=
  match x with Some m => Items m | None => [] end.
Definition GetReservationId (x : option ReserveResponse) : string :=
  match x with Some m => ReservationId m | None => "" end.
Definition GetStatus (x : option ReserveResponse) : ReserveResponse_Status :=
  match x with Some m => Status m | None => ReserveResponse_STATUS_UNSPECIFIED end.
Definition rel_GetReservationId (x : option ReleaseRequest) : string :=
  match x with Some m => rel_ReservationId m | None => "" end.
Definition GetReleased (x : option ReleaseResponse) : bool :=
  match x with Some m => Released m | None => false end.
Definition GetSku (x : option LineItem) : string :=
  match x with Some m => Sku m | None => "" end.
Definition GetQuantity (x : option LineItem) : Z :=
  match x with Some m => Quantity m | None => 0 end.
End Inventoryv1.

(** ** Messages of payments.v1 (payments.pb.go) *)

Module Paymentsv1.
Definition ChargeResponse_Status : Type := Z.
Definition ChargeResponse_STATUS_UNSPECIFIED : ChargeResponse_Status := 0%Z.
Definition ChargeResponse_STATUS_AUTHORIZED : ChargeResponse_Status := 1%Z.
Definition ChargeResponse_STATUS_DECLINED : ChargeResponse_Status := 2%Z.

Definition ChargeResponse_Status_name : gmap Z string :=
  list_to_map [(0%Z, "STATUS_UNSPECIFIED"); (1%Z, "STATUS_AUTHORIZED"); (2%Z, "STATUS_DECLINED")].
Definition ChargeResponse_Status_value : gmap string Z :=
  list_to_map [("STATUS_UNSPECIFIED", 0%Z); ("STATUS_AUTHORIZED", 1%Z); ("STATUS_DECLINED", 2%Z)].

Record ChargeRequest := mkChargeRequest {
  OrderId : string; CustomerId : string; AmountMinor : Z; Currency : string }.
Record ChargeResponse := mkChargeResponse {
  PaymentId : string; Status : ChargeResponse_Status; DeclineReason : string }.

Definition ChargeRequest_Reset : ChargeRequest := mkChargeRequest "" "" 0 "".
Definition ChargeResponse_Reset : ChargeResponse :=
  mkChargeResponse "" ChargeResponse_STATUS_UNSPECIFIED "".

Definition GetOrderId (x : option ChargeRequest) : string :=
  match x with Some m => OrderId m | None => "" end.
Definition GetCustomerId (x : option ChargeRequest) : string :=
  match x with Some m => CustomerId m | None => "" end.
Definition GetAmountMinor (x : option ChargeRequest) : Z :=
  match x with Some m => AmountMinor m | None => 0 end.
Definition GetCurrency (x : option ChargeRequest) : string :=
  match x with Some m => Currency m | None => "" end.
Definition GetPaymentId (x : option ChargeResponse) : string :=
  match x with Some m => PaymentId m | None => "" end.
Definition GetStatus (x : option ChargeResponse) : ChargeResponse_Status :=
  match x with Some m => Status m | None => ChargeResponse_STATUS_UNSPECIFIED end.
Definition GetDeclineReason (x : option ChargeResponse) : string :=
  match x with Some m => DeclineReason m | None => "" end.
End Paymentsv1.

(** ** Calls *)

Module Rpc.
Import Inventoryv1 Paymentsv1.

(** A [context.Context]: its deadline and the trace it belongs to. *)
Record Context := mkContext { ctx_Deadline : option Time; ctx_Trace : option string }.

Definition Background : Context := mkContext None None.

Definition ctx_WithTimeout (now : Time) (c : Context) (d : Duration) : Context :=
  mkContext (WithTimeout now (ctx_Deadline c) d) (ctx_Trace c).

(** Go's pair of a pointer and an error. *)
Definition result (A : Type) : Type := option A * option error.

(** The methods of both services, with their message types. *)
Inductive rpc : Type → Type → Type :=
  | Reserve : rpc ReserveRequest ReserveResponse
  | Release : rpc ReleaseRequest ReleaseResponse
  | Charge : rpc ChargeRequest ChargeResponse.

Definition FullMethodName {Req Resp} (m : rpc Req Resp) : string :=
  match m with
  | Reserve => "/inventory.v1.InventoryService/Reserve"
  | Release => "/inventory.v1.InventoryService/Release"
  | Charge => "/payments.v1.PaymentsService/Charge"
  end.

(** [grpc.ClientConnInterface]: [Invoke] fills a response and reports an error. *)
Class ClientConn (W : Type) :=
  Invoke : ∀ {Req Resp : Type}, rpc Req Resp → Context → option Req → M W (option error * Resp).

(** *** Client stubs *)

Section Stubs.
Context {W : Type} {CC : ClientConn W}.

(** [out := new(Resp); err := c.cc.Invoke(ctx, name, in, out)]. *)
Definition stub {Req Resp} (m : rpc Req Resp) (ctx : Context) (inp : option Req)
    : M W (result Resp) :=
  r ← Invoke m ctx inp;
  match fst r with
  | Some e => mret (None, Some e)
  | None => mret (Some (snd r), None)
  end.

Definition inventoryServiceClient_Reserve := stub Reserve.
Definition inventoryServiceClient_Release := stub Release.
Definition paymentsServiceClient_Charge := stub Charge.
End Stubs.

(** The client interfaces. *)
Record InventoryServiceClient (W : Type) := mkInventoryServiceClient {
  inv_Reserve : Context → option ReserveRequest → M W (result ReserveResponse);
  inv_Release : Context → option ReleaseRequest → M W (result ReleaseResponse);
}.
Arguments mkInventoryServiceClient {W}.
Arguments inv_Reserve {W}.
Arguments inv_Release {W}.

Record PaymentsServiceClient (W : Type) := mkPaymentsServiceClient {
  pay_Charge : Context → option ChargeRequest → M W (result ChargeResponse);
}.
Arguments mkPaymentsServiceClient {W}.
Arguments pay_Charge {W}.

Definition NewInventoryServiceClient `{ClientConn W} : InventoryServiceClient W :=
  mkInventoryServiceClient inventoryServiceClient_Reserve inventoryServiceClient_Release.
Definition NewPaymentsServiceClient `{ClientConn W} : PaymentsServiceClient W :=
  mkPaymentsServiceClient paymentsServiceClient_Charge.

(** *** Servers *)

Record InventoryServiceServer (W : Type) := mkInventoryServiceServer {
  srv_Reserve : Context → option ReserveRequest → M W (result ReserveResponse);
  srv_Release : Context → option ReleaseRequest → M W (result ReleaseResponse);
}.
Arguments mkInventoryServiceServer {W}.
Arguments srv_Reserve {W}.
Arguments srv_Release {W}.

Record PaymentsServiceServer (W : Type) := mkPaymentsServiceServer {
  srv_Charge : Context → option ChargeRequest → M W (result ChargeResponse);
}.
Arguments mkPaymentsServiceServer {W}.
Arguments srv_Charge {W}.

(** [status.Errorf(codes.Unimplemented, "method %s not implemented")]. *)
Definition unimplemented {W Req Resp} (name : string) : Context → option Req → M W (result Resp) :=
  λ _ _, mret (None, Some (Error ("rpc error: code = Unimplemented desc = method " +:+ name +:+
                                   " not implemented"))).

Definition UnimplementedInventoryServiceServer {W} : InventoryServiceServer W :=
  mkInventoryServiceServer (unimplemented "Reserve") (unimplemented "Release").
Definition UnimplementedPaymentsServiceServer {W} : PaymentsServiceServer W :=
  mkPaymentsServiceServer (unimplemented "Charge").

Section Handlers.
Context {W : Type}.

(** [grpc.UnaryServerInterceptor], for one method. *)
Definition UnaryServerInterceptor (Req Resp : Type) : Type :=
  Context → option Req → string → (Context → option Req → M W (result Resp)) → M W (result Resp).

(** The body of every generated [_Service_Method_Handler]: [dec] is the outcome of
    decoding the request. *)
Definition unary_handler {Req Resp} (m : rpc Req Resp)
    (method : Context → option Req → M W (result Resp)) (ctx : Context) (dec : error + Req)
    (interceptor : option (UnaryServerInterceptor Req Resp)) : M W (result Resp) :=
  match dec with
  | inl err => mret (None, Some err)
  | inr req =>
    match interceptor with
    | None => method ctx (Some req)
    | Some i => i ctx (Some req) (FullMethodName m) method
    end
  end.

Definition _InventoryService_Reserve_Handler (srv : InventoryServiceServer W) :=
  unary_handler Reserve (srv_Reserve srv).
Definition _InventoryService_Release_Handler (srv : InventoryServiceServer W) :=
  unary_handler Release (srv_Release srv).
Definition _PaymentsService_Charge_Handler (srv : PaymentsServiceServer W) :=
  unary_handler Charge (srv_Charge srv).

(** A [grpc.MethodDesc] with its message types. *)
Record MethodDesc := mkMethodDesc {
  MethodName : string;
  md_Req : Type;
  md_Resp : Type;
  md_rpc : rpc md_Req md_Resp;
  md_Handler : Context → error + md_Req → option (UnaryServerInterceptor md_Req md_Resp) →
               M W (result md_Resp);
}.

Record ServiceDesc := mkServiceDesc { ServiceName : string; Methods : list MethodDesc }.

(** [RegisterService] pairs a descriptor with the server; here the descriptor is
    built for it. *)
Definition InventoryService_ServiceDesc (srv : InventoryServiceServer W) : ServiceDesc :=
  mkServiceDesc "inventory.v1.InventoryService"
    [ mkMethodDesc "Reserve" _ _ Reserve (_InventoryService_Reserve_Handler srv);
      mkMethodDesc "Release" _ _ Release (_InventoryService_Release_Handler srv) ].
Definition PaymentsService_ServiceDesc (srv : PaymentsServiceServer W) : ServiceDesc :=
  mkServiceDesc "payments.v1.PaymentsService"
    [ mkMethodDesc "Charge" _ _ Charge (_PaymentsService_Charge_Handler srv) ].
End Handlers.
Arguments UnaryServerInterceptor : clear implicits.
Arguments MethodDesc : clear implicits.
Arguments ServiceDesc : clear implicits.

(** ** Properties *)

Lemma stub_result `{ClientConn W} {Req Resp} (m : rpc Req Resp) ctx inp w :
  stub m ctx inp w =
    (match fst (fst (Invoke m ctx inp w)) with
     | Some e => (None, Some e)
     | None => (Some (snd (fst (Invoke m ctx inp w))), None)
     end, snd (Invoke m ctx inp w)).
Proof. unfold stub. rewrite bind_run. by destruct (fst (fst _)). Qed.

(** A result that is a message or an error, never both and never neither. *)
Definition one_of {A} (r : result A) : Prop :=
  match r with (Some _, None) | (None, Some _) => True | _ => False end.

(** Stubs.  Over any connection each generated client method makes one call,
    under its own full method name, and returns either a message or an error: the
    message a failed call may have filled in part is dropped, and a call without an
    error never yields a nil message. *)
Theorem stubs_return_one `{ClientConn W} :
  (∀ ctx inp w, one_of (fst (inv_Reserve NewInventoryServiceClient ctx inp w)) ∧
     exec (inv_Reserve NewInventoryServiceClient ctx inp) w = exec (Invoke Reserve ctx inp) w) ∧
  (∀ ctx inp w, one_of (fst (inv_Release NewInventoryServiceClient ctx inp w)) ∧
     exec (inv_Release NewInventoryServiceClient ctx inp) w = exec (Invoke Release ctx inp) w) ∧
  (∀ ctx inp w, one_of (fst (pay_Charge NewPaymentsServiceClient ctx inp w)) ∧
     exec (pay_Charge NewPaymentsServiceClient ctx inp) w = exec (Invoke Charge ctx inp) w).
Proof.
  unfold exec. cbn.
  repeat split; unfold inventoryServiceClient_Reserve, inventoryServiceClient_Release,
    paymentsServiceClient_Charge; rewrite stub_result; cbn; by repeat case_match.
Qed.

(** The full name a descriptor's entry is routed under. *)
Definition routed_name {W} (sd : ServiceDesc W) (md : MethodDesc W) : string :=
  "/" +:+ ServiceName sd +:+ "/" +:+ MethodName md.

(** The handler of a server of a service is reached by the client's name for it. *)
Definition routable {W} (sd : ServiceDesc W) : Prop :=
  (∀ md, md ∈ Methods sd → routed_name sd md = FullMethodName (md_rpc md)) ∧
  NoDup (MethodName <$> Methods sd).

(** Client and server agree on names, and decoding errors stay on the server
    side.  Each descriptor routes its methods under the full name the client stub
    calls, without duplicates; and a handler whose request does not decode answers
    the decoding error without running the method or an interceptor, while one
    whose request decodes runs the method on it, through the interceptor when there
    is one, which is told the method's full name. *)
Theorem services_routable {W} (inv : InventoryServiceServer W) (pay : PaymentsServiceServer W) :
  routable (InventoryService_ServiceDesc inv) ∧ routable (PaymentsService_ServiceDesc pay) ∧
  ∀ Req Resp (m : rpc Req Resp) (method : Context → option Req → M W (result Resp)) ctx icpt w,
    (∀ err, unary_handler m method ctx (inl err) icpt w = ((None, Some err), w)) ∧
    (∀ req, unary_handler m method ctx (inr req) None w = method ctx (Some req) w) ∧
    (∀ req, unary_handler m method ctx (inr req)
              (Some (λ c r name h, if bool_decide (name = FullMethodName m) then h c r
                                   else mret (None, None))) w = method ctx (Some req) w).
Proof.
  split; [|split].
  - split; [|by apply (bool_decide_unpack _)].
    intros md. unfold InventoryService_ServiceDesc. cbn. rewrite !elem_of_cons, elem_of_nil.
    by intros [->|[->|[]]].
  - split; [|by apply (bool_decide_unpack _)].
    intros md. unfold PaymentsService_ServiceDesc. cbn. rewrite !elem_of_cons, elem_of_nil.
    by intros [->|[]].
  - intros Req Resp m method ctx icpt w. split; [done|]. split; [done|].
    intros req. cbn. by rewrite bool_decide_eq_true_2.
Qed.

(** The enumerations' two maps are inverse to each other, and the zero value,
    which a nil message's getter answers, is neither the success of a reservation
    nor of a charge. *)
Theorem enums_inverse :
  (∀ n s, ReserveResponse_Status_name !! n = Some s ↔ ReserveResponse_Status_value !! s = Some n) ∧
  (∀ n s, ChargeResponse_Status_name !! n = Some s ↔ ChargeResponse_Status_value !! s = Some n) ∧
  Inventoryv1.GetStatus None ≠ ReserveResponse_STATUS_OK ∧
  Paymentsv1.GetStatus None ≠ ChargeResponse_STATUS_AUTHORIZED.
Proof.
  split; [|split; [|done]].
  - intros n s. unfold ReserveResponse_Status_name, ReserveResponse_Status_value.
    rewrite <- !elem_of_list_to_map by (apply (bool_decide_unpack _); done).
    rewrite !elem_of_cons, !elem_of_nil. naive_solver.
  - intros n s. unfold ChargeResponse_Status_name, ChargeResponse_Status_value.
    rewrite <- !elem_of_list_to_map by (apply (bool_decide_unpack _); done).
    rewrite !elem_of_cons, !elem_of_nil. naive_solver.
Qed.

End Rpc.
