(* ===== verification/Inventory.v ===== *)
(** * inventory-svc: reservations

    Models the server of services/inventory-svc/main.go.  Each handler has one
    critical section, so an execution with any number of concurrent calls is the
    sequence of their critical sections: a list of [call]s.  The identifier that
    [uuid.NewString] returned is an argument of [server_Reserve]. *)

From Stdlib Require Import ZArith Lia.
From S2P Require Import Prelude GoLib Rpc.
Import Inventoryv1 Rpc.

Module Inventory.

Abbreviation items := (list (option LineItem)).

(** reservation_id -> items *)
Record server := mkServer { store : gmap string items }.

(** [&server{store: make(map[string][]*inventoryv1.LineItem)}]. *)
Definition new_server : server := mkServer ∅.

Definition server_Reserve (id : string) (_ : Context) (req : option ReserveRequest)
    : M server (result ReserveResponse) :=
  _ ← modify (λ s, mkServer (<[id := GetItems req]> (store s)));
  mret (Some (mkReserveResponse id ReserveResponse_STATUS_OK), None).

Definition server_Release (_ : Context) (req : option ReleaseRequest)
    : M server (result ReleaseResponse) :=
  ok ← gets (λ s, bool_decide (is_Some (store s !! rel_GetReservationId req)));
  _ ← modify (λ s, mkServer (delete (rel_GetReservationId req) (store s)));
  mret (Some (mkReleaseResponse ok), None).

(** ** Executions *)

Inductive call :=
  | CReserve (id : string) (req : option ReserveRequest)
  | CRelease (req : option ReleaseRequest).

(** What a call answers: the id reserved, or whether something was released. *)
Inductive answer := AReserved (r : result ReserveResponse) | AReleased (r : result ReleaseResponse).

Definition do_call (c : call) : M server answer :=
  match c with
  | CReserve id req => r ← server_Reserve id Background req; mret (AReserved r)
  | CRelease req => r ← server_Release Background req; mret (AReleased r)
  end.

Fixpoint run_calls (cs : list call) : M server (list answer) :=
  match cs with
  | [] => mret []
  | c :: cs' => a ← do_call c; l ← run_calls cs'; mret (a :: l)
  end.

(** ** Specification *)

(** What a call says about one reservation: nothing, or whether it is held after. *)
Definition says (id : string) (c : call) : option (option items) :=
  match c with
  | CReserve id' req => if bool_decide (id = id') then Some (Some (GetItems req)) else None
  | CRelease req => if bool_decide (id = rel_GetReservationId req) then Some None else None
  end.

(** A reservation is held when the last call about it made it. *)
Definition held (id : string) (cs : list call) : option items := mjoin (last (omap (says id) cs)).

Definition reserved (cs : list call) : list string :=
  omap (λ c, match c with CReserve id _ => Some id | CRelease _ => None end) cs.

(** The answers that released something. *)
Definition released (a : answer) : bool :=
  match a with AReleased (r, _) => GetReleased r | AReserved _ => false end.
Definition releases (l : list answer) : nat := length (filter (λ a, released a = true) l).

(** ** Lemmas *)

Lemma server_Reserve_run id ctx req s :
  server_Reserve id ctx req s =
    ((Some (mkReserveResponse id ReserveResponse_STATUS_OK), None),
     mkServer (<[id := GetItems req]> (store s))).
Proof. done. Qed.

Lemma server_Release_run ctx req s :
  server_Release ctx req s =
    ((Some (mkReleaseResponse (bool_decide (is_Some (store s !! rel_GetReservationId req)))), None),
     mkServer (delete (rel_GetReservationId req) (store s))).
Proof. done. Qed.

Lemma do_call_run c s :
  do_call c s =
    match c with
    | CReserve id req =>
      (AReserved (Some (mkReserveResponse id ReserveResponse_STATUS_OK), None),
       mkServer (<[id := GetItems req]> (store s)))
    | CRelease req =>
      (AReleased (Some (mkReleaseResponse (bool_decide (is_Some (store s !! rel_GetReservationId req)))), None),
       mkServer (delete (rel_GetReservationId req) (store s)))
    end.
Proof. by destruct c. Qed.

Lemma run_calls_cons c cs s :
  run_calls (c :: cs) s =
    (fst (do_call c s) :: fst (run_calls cs (exec (do_call c) s)),
     exec (run_calls cs) (exec (do_call c) s)).
Proof. unfold exec. cbn. by rewrite !bind_run. Qed.

Lemma exec_run_calls_app cs1 cs2 s :
  exec (run_calls (cs1 ++ cs2)) s = exec (run_calls cs2) (exec (run_calls cs1) s).
Proof.
  revert s. induction cs1 as [|c cs1 IH]; intros s; [done|].
  unfold exec at 1 3. cbn [app]. rewrite !run_calls_cons. cbn [snd]. apply IH.
Qed.

(** One call changes what is stored under [id] exactly as it says. *)
Lemma do_call_lookup c s id :
  store (exec (do_call c) s) !! id = default (store s !! id) (says id c).
Proof.
  unfold exec. rewrite do_call_run. destruct c as [id' req|req]; cbn; case_bool_decide as Hid.
  - subst. by rewrite lookup_insert_eq.
  - by rewrite lookup_insert_ne.
  - subst. by rewrite lookup_delete_eq.
  - by rewrite lookup_delete_ne.
Qed.

Lemma run_calls_lookup cs id :
  store (exec (run_calls cs) new_server) !! id = held id cs.
Proof.
  unfold held. induction cs as [|c cs IH] using rev_ind; [done|].
  rewrite exec_run_calls_app, omap_app.
  unfold exec at 1. rewrite run_calls_cons. cbn [snd run_calls].
  change (exec (mret []) ?s) with s. rewrite do_call_lookup, IH. cbn.
  destruct (says id c) as [o|]; cbn; [by rewrite last_snoc|by rewrite app_nil_r].
Qed.

Lemma releases_cons a l : releases (a :: l) = ((if released a then 1 else 0) + releases l)%nat.
Proof. unfold releases. rewrite filter_cons. by destruct (released a). Qed.

(** From any state the fresh reservations are accounted for. *)
Lemma run_calls_conserved cs s :
  NoDup (reserved cs) → (∀ id, id ∈ reserved cs → store s !! id = None) →
  (size (store (exec (run_calls cs) s)) + releases (fst (run_calls cs s)) =
   size (store s) + length (reserved cs))%nat.
Proof.
  revert s. induction cs as [|c cs IH]; intros s Hnd Hfresh; [done|].
  unfold exec at 1. rewrite run_calls_cons. cbn [fst snd]. rewrite releases_cons.
  unfold exec. rewrite do_call_run. destruct c as [id req|req]; cbn [fst snd released].
  - apply NoDup_cons in Hnd as [Hid Hnd]. fold (reserved cs) in Hid, Hnd.
    specialize (IH (mkServer (<[id:=GetItems req]> (store s))) Hnd). unfold exec in IH.
    cbn [store] in IH. rewrite map_size_insert_None in IH by (apply Hfresh; left).
    change (reserved (CReserve id req :: cs)) with (id :: reserved cs). cbn [length].
    rewrite Nat.add_0_l, IH; [lia|]. intros id' Hid'. rewrite lookup_insert_ne by set_solver.
    apply Hfresh. by right.
  - change (reserved (CRelease req :: cs)) with (reserved cs) in *.
    specialize (IH (mkServer (delete (rel_GetReservationId req) (store s))) Hnd). unfold exec in IH.
    cbn [store] in IH. rewrite map_size_delete in IH. unfold GetReleased.
    assert (Hd : ∀ id, id ∈ reserved cs →
              delete (rel_GetReservationId req) (store s) !! id = None).
    { intros id Hid. apply lookup_delete_None. right. by apply Hfresh. }
    specialize (IH Hd). cbn [Released].
    destruct (store s !! rel_GetReservationId req) eqn:Hlk; cbn [Released].
    + rewrite bool_decide_eq_true_2 by eauto.
      assert (size (store s) ≠ 0%nat).
      { intros Hz. apply map_size_empty_inv in Hz. rewrite Hz in Hlk. done. }
      lia.
    + rewrite bool_decide_eq_false_2 by (by intros [? ?]). unfold id in IH. lia.
Qed.

(** ** Properties *)

(** (C29) The store is the set of outstanding reservations.  After any interleaving of
    calls a reservation is stored, with the items it was made with, exactly when the
    last call about it made it; and a release then answers whether it was. *)
Theorem store_is_outstanding cs :
  let s := exec (run_calls cs) new_server in
  (∀ id, store s !! id = held id cs) ∧
  ∀ ctx req, GetReleased (fst (fst (server_Release ctx req s))) =
             bool_decide (is_Some (held (rel_GetReservationId req) cs)).
Proof.
  cbn zeta. split; [intros id; apply run_calls_lookup|].
  intros ctx req. by rewrite <- run_calls_lookup.
Qed.

(** Reserve then release.  A reservation just made can be released once: the
    first release of the identifier answered finds it and restores what was stored
    under every other identifier, the second finds nothing. *)
Theorem Reserve_Release_roundtrip id ctx req s :
  let '(r, s1) := server_Reserve id ctx req s in
  let rel := Some (mkReleaseRequest (GetReservationId (fst r))) in
  let '(r1, s2) := server_Release ctx rel s1 in
  let '(r2, s3) := server_Release ctx rel s2 in
  GetStatus (fst r) = ReserveResponse_STATUS_OK ∧ snd r = None ∧
  GetReleased (fst r1) = true ∧ GetReleased (fst r2) = false ∧
  store s2 = delete id (store s) ∧ store s3 = store s2.
Proof.
  rewrite server_Reserve_run. cbn [fst GetReservationId ReservationId].
  rewrite !server_Release_run. cbn [rel_GetReservationId rel_ReservationId store].
  rewrite lookup_insert_eq, lookup_delete_eq, delete_insert_eq, delete_delete_eq.
  by rewrite bool_decide_eq_true_2 by eauto.
Qed.

(** Nothing is lost and nothing is reclaimed.  When no identifier is drawn
    twice, the reservations made are at any time the ones still stored plus the
    ones a release was told it removed: without releases the store only grows. *)
Theorem reservations_conserved cs :
  NoDup (reserved cs) →
  (size (store (exec (run_calls cs) new_server)) + releases (fst (run_calls cs new_server)) =
   length (reserved cs))%nat.
Proof. intros Hnd. by rewrite run_calls_conserved. Qed.

Lemma reservations_conserved_witness :
  let rel id := CRelease (Some (mkReleaseRequest id)) in
  let cs := [CReserve "a" None; rel "b"; CReserve "b" (Some (mkReserveRequest "o" [])); rel "a"; rel "a"] in
  NoDup (reserved cs) ∧
  (size (store (exec (run_calls cs) new_server)) + releases (fst (run_calls cs new_server)) = 2)%nat.
Proof.
  intros rel cs. assert (Hnd : NoDup (reserved cs)) by (apply (bool_decide_unpack _); vm_compute; exact I).
  split; [exact Hnd|]. exact (reservations_conserved cs Hnd).
Defined.

End Inventory.
