(* ===== verification/Payments.v ===== *)
(** * payments-svc: Charge

    Models the server of services/payments-svc/main.go.  The inventory client is the
    interface of [Rpc]; [time.Sleep] is the class [Timer]; what [rand.IntN(15)] and
    [uuid.NewString] returned are the arguments [rnd] and [pid]. *)

From Stdlib Require Import ZArith Lia.
From S2P Require Import Prelude GoLib Rpc.
Import GoTime Inventoryv1 Paymentsv1 Rpc.

Module Payments.
Local Open Scope Z_scope.

Section Server.
Context {W : Type} {TW : Timer W}.

Record server := mkServer { inv : InventoryServiceClient W }.

(** [time.Duration(5+rand.IntN(15)) * time.Millisecond]. *)
Definition bank_latency (rnd : Z) : Duration := (5 + rnd) * Millisecond.

Definition reserve_request (req : option ChargeRequest) : ReserveRequest :=
  mkReserveRequest (Paymentsv1.GetOrderId req) [Some (mkLineItem "DEFAULT" 1)].

Definition Charge (s : server) (rnd : Z) (pid : string) (ctx : Context)
    (req : option ChargeRequest) : M W (result ChargeResponse) :=
  _ ← Sleep (bank_latency rnd);
  r ← inv_Reserve (inv s) ctx (Some (reserve_request req));
  let '(resv, err) := r in
  if bool_decide (err ≠ None) ||
     negb (Inventoryv1.GetStatus resv =? ReserveResponse_STATUS_OK) then
    mret (Some (mkChargeResponse pid ChargeResponse_STATUS_DECLINED "inventory unavailable"), None)
  else
    mret (Some (mkChargeResponse pid ChargeResponse_STATUS_AUTHORIZED ""), None).

(** A reservation that went through. *)
Definition reserved_ok (r : result ReserveResponse) : bool :=
  bool_decide (snd r = None) && (Inventoryv1.GetStatus (fst r) =? ReserveResponse_STATUS_OK).

Definition charge_response (pid : string) (r : result ReserveResponse) : ChargeResponse :=
  if reserved_ok r then mkChargeResponse pid ChargeResponse_STATUS_AUTHORIZED ""
  else mkChargeResponse pid ChargeResponse_STATUS_DECLINED "inventory unavailable".

(** What [Charge] does, as one equation on the two calls it makes. *)
Lemma Charge_run s rnd pid ctx req w :
  let w1 := exec (Sleep (bank_latency rnd)) w in
  let r := inv_Reserve (inv s) ctx (Some (reserve_request req)) w1 in
  Charge s rnd pid ctx req w = ((Some (charge_response pid (fst r)), None), snd r).
Proof.
  cbn zeta. unfold Charge, exec, charge_response, reserved_ok. rewrite !bind_run.
  destruct (inv_Reserve _ _ _ _) as [[resv err] w2]. cbn [fst snd].
  destruct err as [e|]; cbn; [done|]. by destruct (_ =? _).
Qed.
End Server.
Arguments server : clear implicits.

(** ** Runs against a recording inventory *)

Inductive event :=
  | Slept (d : Duration)
  | Called (ctx : Context) (req : option ReserveRequest)
  | CalledRelease (req : option ReleaseRequest).

Module Recording.
#[export] Instance log_timer : Timer (list event) := λ d, modify (λ l, l ++ [Slept d]).

(** A client that notes each call and answers every reservation with [out]. *)
Definition client (out : result ReserveResponse) : InventoryServiceClient (list event) :=
  mkInventoryServiceClient
    (λ ctx req, _ ← modify (λ l, l ++ [Called ctx req]); mret out)
    (λ _ req, _ ← modify (λ l, l ++ [CalledRelease req]); mret (None, None)).
End Recording.
Import Recording.

(** ** Properties *)

(** (C20) Charge answers every request, by the reservation alone.  Whatever client
    it runs on, it returns no error and a non-nil response that is AUTHORIZED when
    the reservation came back without an error and with STATUS_OK, and DECLINED with
    a reason otherwise: an unreachable inventory, a nil response and any other
    status all decline.  It carries the payment id drawn for it.  Neither amount,
    customer nor currency matter: requests for the same order have the same run. *)
Theorem Charge_outcome {W} `{Timer W} (s : server W) rnd pid ctx req w :
  let r := fst (inv_Reserve (inv s) ctx (Some (reserve_request req))
                  (exec (Sleep (bank_latency rnd)) w)) in
  let '((resp, err), w') := Charge s rnd pid ctx req w in
  err = None ∧ Paymentsv1.GetPaymentId resp = pid ∧
  (Paymentsv1.GetStatus resp = ChargeResponse_STATUS_AUTHORIZED ↔
     snd r = None ∧ ∃ m, fst r = Some m ∧ Inventoryv1.Status m = ReserveResponse_STATUS_OK) ∧
  (Paymentsv1.GetStatus resp ≠ ChargeResponse_STATUS_AUTHORIZED →
     Paymentsv1.GetStatus resp = ChargeResponse_STATUS_DECLINED ∧
     GetDeclineReason resp = "inventory unavailable") ∧
  ∀ req', Paymentsv1.GetOrderId req' = Paymentsv1.GetOrderId req →
    Charge s rnd pid ctx req' w = ((resp, err), w').
Proof.
  cbn zeta. rewrite Charge_run. cbn zeta.
  set (r := inv_Reserve _ _ _ _). split; [done|]. split; [|split; [|split]].
  - cbn. unfold charge_response. by destruct (reserved_ok _).
  - unfold charge_response, reserved_ok. destruct (fst r) as [resv err]. cbn [fst snd].
    destruct err as [e|]; cbn; [by split; [|intros [? _]]|].
    destruct resv as [m|]; cbn; [|by split; [|intros (_ & ? & ? & _)]].
    destruct (Z.eqb_spec (Inventoryv1.Status m) ReserveResponse_STATUS_OK); cbn; naive_solver.
  - unfold charge_response. by destruct (reserved_ok _).
  - intros req' Heq. rewrite Charge_run. cbn zeta. unfold reserve_request. rewrite Heq. done.
Qed.

(** One attempt.  Charge sleeps once, from 5 to 19 milliseconds, and then makes
    one reservation of one DEFAULT item under the order's id and the caller's
    context; it does not try again when the reservation fails and never releases
    anything, whatever the inventory answers. *)
Theorem Charge_one_attempt out rnd pid ctx req log :
  0 ≤ rnd < 15 →
  ∃ d, 5 * Millisecond ≤ d ≤ 19 * Millisecond ∧
    exec (Charge (mkServer (client out)) rnd pid ctx req) log =
    log ++ [ Slept d;
             Called ctx (Some (mkReserveRequest (Paymentsv1.GetOrderId req)
                                 [Some (mkLineItem "DEFAULT" 1)])) ].
Proof.
  intros Hr. exists (bank_latency rnd). split; [unfold bank_latency, Millisecond; lia|].
  unfold exec. rewrite Charge_run. cbn. rewrite bind_run. cbn. by rewrite <- app_assoc.
Qed.

Lemma Charge_one_attempt_witness :
  let out := (None, Some (Error "unavailable")) in
  let run := Charge (mkServer (client out)) 14 "pay-1" Background
               (Some (mkChargeRequest "order-1" "c" 100 "EUR")) in
  0 ≤ 14 < 15 ∧ Paymentsv1.GetStatus (fst (fst (run []))) = ChargeResponse_STATUS_DECLINED ∧
  ∃ d, 5 * Millisecond ≤ d ≤ 19 * Millisecond ∧ exec run [] =
    [Slept d; Called Background (Some (mkReserveRequest "order-1" [Some (mkLineItem "DEFAULT" 1)]))].
Proof.
  intros out run. split; [lia|]. split; [reflexivity|].
  apply (Charge_one_attempt out 14 "pay-1" Background
           (Some (mkChargeRequest "order-1" "c" 100 "EUR")) []). lia.
Defined.

End Payments.
