(* ===== verification/Orders.v ===== *)
(** * orders-svc: creating an order

    Models the types, [handleCreate] and the routes of services/orders-svc/main.go.
    The handler runs in a world [W] with a clock, the flag the circuit-break watcher
    sets, the payments client and JetStream's [PublishMsg].  What [uuid.NewString]
    returned is the argument [orderID].  The propagator's [Inject] is a parameter. *)

From Stdlib Require Import ZArith Lia.
From S2P Require Import Prelude GoLib GoText Rfc3339 Http Mux Json JsonCodec JsonStruct JsonValid Obs Rpc.
Import GoInt GoTime Rfc3339 Http Mux Json JsonCodec JsonStruct JsonValid Obs Paymentsv1 Rpc.

(** JetStream's publishing side, and the flag [publishingPaused]. *)
Abbreviation Header := (gmap string (list string)).
Record Msg := mkMsg { m_Subject : string; m_Data : string; m_Header : Header }.

Class JetStream (W : Type) := PublishMsg : Context → Msg → M W (option error).
Class PauseFlag (W : Type) := publishingPaused : W → bool.

Module Orders.
Local Open Scope Z_scope.

(** ** Types *)

Record orderRequest := mkOrderRequest {
  CustomerID : string;
  CustomerEmail : string;
  o_AmountMinor : Z;
  o_Currency : string;
  SKU : string;
  Quantity : Z;
}.

Definition zero_orderRequest : orderRequest := mkOrderRequest "" "" 0 "" "" 0.

(** The struct's JSON tags. *)
Definition order_fields : list (string * setter orderRequest) :=
  [ ("customer_id", string_field (λ v r,
       mkOrderRequest v (CustomerEmail r) (o_AmountMinor r) (o_Currency r) (SKU r) (Quantity r)));
    ("customer_email", string_field (λ v r,
       mkOrderRequest (CustomerID r) v (o_AmountMinor r) (o_Currency r) (SKU r) (Quantity r)));
    ("amount_minor", int64_field (λ v r,
       mkOrderRequest (CustomerID r) (CustomerEmail r) v (o_Currency r) (SKU r) (Quantity r)));
    ("currency", string_field (λ v r,
       mkOrderRequest (CustomerID r) (CustomerEmail r) (o_AmountMinor r) v (SKU r) (Quantity r)));
    ("sku", string_field (λ v r,
       mkOrderRequest (CustomerID r) (CustomerEmail r) (o_AmountMinor r) (o_Currency r) v (Quantity r)));
    ("quantity", int32_field (λ v r,
       mkOrderRequest (CustomerID r) (CustomerEmail r) (o_AmountMinor r) (o_Currency r) (SKU r) v)) ].

Definition decode_order : string → option orderRequest := Decode order_fields zero_orderRequest.

Record orderEvent := mkOrderEvent {
  e_OrderID : string;
  e_CustomerID : string;
  e_CustomerEmail : string;
  e_AmountMinor : Z;
  e_Currency : string;
  e_CreatedAt : Time;
}.

(** ** The handler *)

Section Handler.
Context {W : Type} {CW : Clock W} {WW : WallClock W} {FW : PauseFlag W} {JW : JetStream W}.
(** The propagator of the process. *)
Context (Inject : Context → Header → Header).

Record app := mkApp { pay : PaymentsServiceClient W; subject : string }.

(** The document [json.Marshal] makes of an event: none when its time has no text. *)
Definition event_json (e : orderEvent) : option json :=
  created_at ← FormatTime (e_CreatedAt e);
  Some (JObj [ ("order_id", JStr (e_OrderID e));
               ("customer_id", JStr (e_CustomerID e));
               ("customer_email", JStr (e_CustomerEmail e));
               ("amount_minor", JNum (FormatInt (e_AmountMinor e)));
               ("currency", JStr (e_Currency e));
               ("created_at", JStr created_at) ]).

(** [payload, _ := json.Marshal(evt)]: no bytes when it fails. *)
Definition event_data (e : orderEvent) : string :=
  match event_json e with Some j => Marshal j | None => "" end.

(** The answer's document: a Go map, so with its keys sorted. *)
Definition created_json (orderID payment_id : string) : json :=
  JObj [ ("order_id", JStr orderID); ("payment_id", JStr payment_id); ("status", JStr "created") ].

Definition charge_request (orderID : string) (req : orderRequest) : ChargeRequest :=
  mkChargeRequest orderID (CustomerID req) (o_AmountMinor req) (o_Currency req).

Definition event_of (orderID : string) (req : orderRequest) (created : Time) : orderEvent :=
  mkOrderEvent orderID (CustomerID req) (CustomerEmail req) (o_AmountMinor req)
    (o_Currency req) created.

Definition event_msg (a : app) (ctx : Context) (evt : orderEvent) : Msg :=
  mkMsg (subject a) (event_data evt) (Inject ctx ∅).

(** The publishing of [handleCreate]; its error is dropped. *)
Definition publish (a : app) (ctx : Context) (orderID : string) (req : orderRequest) : M W unit :=
  created ← gets UTCNow;
  _ ← PublishMsg ctx (event_msg a ctx (event_of orderID req created));
  mret ().

Definition handleCreate (a : app) (r_ctx : Context) (orderID body : string) : M W (list rw_op) :=
  match decode_order body with
  | None => mret (http_Error "invalid json" StatusBadRequest)
  | Some req =>
    now ← gets Now;
    let ctx := ctx_WithTimeout now r_ctx (5 * Second) in
    r ← pay_Charge (pay a) ctx (Some (charge_request orderID req));
    let '(resp, err) := r in
    match err with
    | Some _ => mret (http_Error "payments unavailable" StatusBadGateway)
    | None =>
      if negb (Paymentsv1.GetStatus resp =? ChargeResponse_STATUS_AUTHORIZED) then
        mret (http_Error ("declined: " +:+ GetDeclineReason resp) StatusPaymentRequired)
      else
        paused ← gets publishingPaused;
        _ ← (if paused : bool then mret () else publish a ctx orderID req);
        mret [ SetHeader "Content-Type" "application/json";
               Write (of_bytes (render (created_json orderID (GetPaymentId resp)) ++ [10%N])) ]
    end
  end.

(** ** The routes of main *)

(** [fmt.Fprintln(w, "reliability-lab orders-svc")]. *)
Definition root_handler : list rw_op :=
  [Write ("reliability-lab orders-svc" +:+ of_bytes [10%N])].

(** The patterns in the order [main] registers them, [obs.Mux]'s first. *)
Definition orders_routes {H} (metrics healthz readyz create root : H) : list (string * H) :=
  obs_routes metrics healthz readyz ++ [("POST /orders", create); ("GET /", root)].
End Handler.
Arguments app : clear implicits.

(** ** What a decoded request is like *)

(** Its strings are valid UTF-8 and its numbers fit their types. *)
Definition wf_request (req : orderRequest) : Prop :=
  valid_utf8 (CustomerID req) ∧ valid_utf8 (CustomerEmail req) ∧ is_int64 (o_AmountMinor req) ∧
  valid_utf8 (o_Currency req) ∧ valid_utf8 (SKU req) ∧ is_int32 (Quantity req).

Lemma decode_order_wf body req : decode_order body = Some req → wf_request req.
Proof.
  apply Decode_invariant.
  - split_and!; first [by apply ascii_text_utf8|by split].
  - repeat (apply Forall_cons; split; [
      first [apply string_field_keeps|apply int_field_keeps]; intros v r Hv (? & ? & ? & ? & ? & ?);
      by split_and!|]). by apply Forall_nil.
Qed.

(** ** What each case of a charge means for the order *)

Inductive outcome :=
  | BadRequest
  | Unavailable
  | Declined (reason : string)
  | Created (payment_id : string).

Definition authorized (r : result ChargeResponse) : bool :=
  bool_decide (snd r = None) && (Paymentsv1.GetStatus (fst r) =? ChargeResponse_STATUS_AUTHORIZED).

Definition outcome_of (decoded : option orderRequest) (r : result ChargeResponse) : outcome :=
  match decoded, snd r with
  | None, _ => BadRequest
  | Some _, Some _ => Unavailable
  | Some _, None => if authorized r then Created (GetPaymentId (fst r))
                    else Declined (GetDeclineReason (fst r))
  end.

(** The calls the handler makes on its writer. *)
Definition answer (orderID : string) (o : outcome) : list rw_op :=
  match o with
  | BadRequest => http_Error "invalid json" StatusBadRequest
  | Unavailable => http_Error "payments unavailable" StatusBadGateway
  | Declined reason => http_Error ("declined: " +:+ reason) StatusPaymentRequired
  | Created pid => [ SetHeader "Content-Type" "application/json";
                     Write (of_bytes (render (created_json orderID pid) ++ [10%N])) ]
  end.

Definition outcome_status (o : outcome) : Z :=
  match o with BadRequest => 400 | Unavailable => 502 | Declined _ => 402 | Created _ => 200 end.

Lemma answer_status orderID o : status (serve (answer orderID o)) = outcome_status o.
Proof. rewrite serve_status. by destruct o. Qed.

Lemma answer_header_first orderID o : header_first (answer orderID o) = true.
Proof. by destruct o. Qed.

Section Facts.
Context {W : Type} {CW : Clock W} {WW : WallClock W} {FW : PauseFlag W} {JW : JetStream W}.
Context (Inject : Context → Header → Header).

(** The charge of a request, and the world after it. *)
Definition charge_of (a : app W) r_ctx orderID req (w : W) : result ChargeResponse * W :=
  pay_Charge (pay a) (ctx_WithTimeout (Now w) r_ctx (5 * Second))
    (Some (charge_request orderID req)) w.

Lemma publish_run a ctx orderID req (w : W) :
  publish Inject a ctx orderID req w =
    ((), exec (PublishMsg ctx (event_msg Inject a ctx (event_of orderID req (UTCNow w)))) w).
Proof. unfold publish, exec. by rewrite !bind_run. Qed.

Lemma handleCreate_run a r_ctx orderID body (w : W) :
  handleCreate Inject a r_ctx orderID body w =
  match decode_order body with
  | None => (answer orderID BadRequest, w)
  | Some req =>
    let ctx := ctx_WithTimeout (Now w) r_ctx (5 * Second) in
    let '(r, w1) := charge_of a r_ctx orderID req w in
    (answer orderID (outcome_of (Some req) r),
     if authorized r && negb (publishingPaused w1)
     then exec (PublishMsg ctx (event_msg Inject a ctx (event_of orderID req (UTCNow w1)))) w1
     else w1)
  end.
Proof.
  unfold handleCreate, charge_of. destruct (decode_order body) as [req|]; [|done].
  rewrite bind_run. cbn [gets fst snd]. rewrite bind_run.
  destruct (pay_Charge _ _ _ _) as [[resp err] w1]. cbn [fst snd].
  unfold outcome_of, authorized. cbn [fst snd].
  destruct err as [e|]; [done|]. cbn [bool_decide].
  rewrite bool_decide_eq_true_2 by done. cbn [andb].
  destruct (_ =? _); [|done]. cbn [negb andb]. rewrite bind_run. cbn [gets fst snd].
  destruct (publishingPaused w1); cbn [negb]; rewrite bind_run; [done|]. by rewrite publish_run.
Qed.

(** The outcome of an order in a world. *)
Definition order_outcome (a : app W) r_ctx orderID body (w : W) : outcome :=
  match decode_order body with
  | None => BadRequest
  | Some req => outcome_of (Some req) (fst (charge_of a r_ctx orderID req w))
  end.

Lemma handleCreate_ops a r_ctx orderID body (w : W) :
  fst (handleCreate Inject a r_ctx orderID body w) =
  answer orderID (order_outcome a r_ctx orderID body w).
Proof.
  rewrite handleCreate_run. unfold order_outcome. destruct (decode_order body); [|done].
  cbn zeta. by destruct (charge_of _ _ _ _ _).
Qed.
End Facts.

Lemma wf_created orderID pid : valid_utf8 orderID → valid_utf8 pid → wf (created_json orderID pid).
Proof.
  intros Hid Hpid.
  repeat split; try done; by apply ascii_text_utf8.
Qed.

(** ** Runs that note the calls made *)

Module Recording.
Inductive event :=
  | Charged (ctx : Context) (req : option ChargeRequest)
  | Published (ctx : Context) (m : Msg).

Record world := mkWorld { log : list event; clock : Time; wall : Time; paused : bool }.

#[export] Instance world_clock : Clock world := clock.
#[export] Instance world_wall : WallClock world := wall.
#[export] Instance world_flag : PauseFlag world := paused.

(** The payments service answers [out] after [took], and in the meantime the
    watcher has left the flag at [flag]. *)
Definition client (out : result ChargeResponse) (took : Duration) (flag : bool)
    : PaymentsServiceClient world :=
  mkPaymentsServiceClient (λ ctx req w,
    (out, mkWorld (log w ++ [Charged ctx req]) (clock w + took) (wall w + took) flag)).

(** JetStream answers [pub]. *)
Definition jetstream (pub : option error) : JetStream world := λ ctx m w,
  (pub, mkWorld (log w ++ [Published ctx m]) (clock w) (wall w) (paused w)).
End Recording.
Import Recording.

(** ** Properties *)

(** (C24) The answer to an order.  In every world the handler's answer is decided by
    the decoding and the charge alone: 400 when the body does not decode, 502 when
    the charge failed, 402 with the reason when it came back without an
    authorization (a nil response included), and otherwise 200 with a JSON document
    of the order and payment ids; no other status is possible, and the order is not
    affected by the pause flag or by the fate of its event. *)
Theorem handleCreate_answer {W} `{Clock W, WallClock W, PauseFlag W, JetStream W} Inject
    (a : app W) r_ctx orderID body w :
  let ops := fst (handleCreate Inject a r_ctx orderID body w) in
  let o := order_outcome a r_ctx orderID body w in
  ops = answer orderID o ∧ status (serve ops) = outcome_status o ∧
  (∀ pid, o = Created pid → valid_utf8 orderID → valid_utf8 pid →
     fst <$> parse_prefix (Http.body (serve ops)) = Some (created_json orderID pid)).
Proof.
  cbn zeta. rewrite handleCreate_ops. split; [done|]. split; [apply answer_status|].
  intros pid -> Hid Hpid.
  assert (Hbody : Http.body (serve (answer orderID (Created pid))) =
                  of_bytes (render (created_json orderID pid) ++ [10%N])) by done.
  rewrite Hbody, parse_prefix_Encode; [done|by apply wf_created|apply flat_nesting].
Qed.

(** (C12) Calls made for an order.  A request that decodes makes one charge, for the
    customer, amount and currency it named, under a deadline at most five seconds
    away; the event is published once, under the same context, exactly when the
    charge was authorized and the pause flag, read after the charge, is down; it
    carries the order and customer of the charge and the wall-clock time after it.  Nothing is called for a body
    that does not decode, and SKU and quantity are used nowhere. *)
Theorem handleCreate_calls Inject subj out took flag pub r_ctx orderID body w :
  let run body := handleCreate (JW := jetstream pub) Inject
                    (mkApp (client out took flag) subj) r_ctx orderID body in
  log (exec (run body) w) = log w ++
    match decode_order body with
    | None => []
    | Some req =>
      let ctx := ctx_WithTimeout (clock w) r_ctx (5 * Second) in
      Charged ctx (Some (mkChargeRequest orderID (CustomerID req) (o_AmountMinor req) (o_Currency req))) ::
      (if authorized out && negb flag
       then [Published ctx (mkMsg subj
               (event_data (mkOrderEvent orderID (CustomerID req) (CustomerEmail req)
                  (o_AmountMinor req) (o_Currency req) (wall w + took))) (Inject ctx ∅))]
       else [])
    end ∧
  (∀ t, ctx_Deadline (ctx_WithTimeout (clock w) r_ctx (5 * Second)) = Some t →
     t ≤ clock w + 5 * Second) ∧
  (∀ body' req sku q, decode_order body = Some req →
     decode_order body' = Some (mkOrderRequest (CustomerID req) (CustomerEmail req)
                                  (o_AmountMinor req) (o_Currency req) sku q) →
     run body' w = run body w).
Proof.
  cbn zeta. split; [|split].
  - unfold exec. rewrite handleCreate_run. destruct (decode_order body) as [req|]; [|by rewrite app_nil_r].
    cbn zeta. unfold charge_of. cbn. destruct (authorized out), flag; cbn; try done.
    by rewrite <- app_assoc.
  - intros t Ht. by apply WithTimeout_bound in Ht.
  - intros body' req sku q Hb Hb'. by rewrite !handleCreate_run, Hb, Hb'.
Qed.

(** A charge protobuf can marshal: proto3 refuses strings that are not UTF-8. *)
Definition wf_charge (m : ChargeRequest) : Prop :=
  valid_utf8 (GetOrderId (Some m)) ∧ valid_utf8 (GetCustomerId (Some m)) ∧
  is_int64 (GetAmountMinor (Some m)) ∧ valid_utf8 (GetCurrency (Some m)).

(** (C21) Every charge is well typed.  Whatever bytes a client posts, a charge that the
    handler makes of them has strings that are valid UTF-8 and an amount that is an
    int64: malformed text is replaced and numbers out of range are refused before
    anything is called. *)
Theorem charges_well_typed Inject subj out took flag pub r_ctx orderID body now utc p ctx m :
  valid_utf8 orderID →
  Charged ctx (Some m) ∈ log (exec (handleCreate (JW := jetstream pub) Inject
    (mkApp (client out took flag) subj) r_ctx orderID body) (mkWorld [] now utc p)) →
  wf_charge m.
Proof.
  intros Hid Hin. unfold exec in Hin. rewrite handleCreate_run in Hin.
  destruct (decode_order body) as [req|] eqn:Hreq; [|by apply elem_of_nil in Hin].
  apply decode_order_wf in Hreq as (H1 & H2 & H3 & H4 & _).
  assert (Hm : m = charge_request orderID req); [|by subst m].
  cbn in Hin. destruct (authorized out && negb flag); cbn in Hin;
    set_solver.
Qed.

Lemma charges_well_typed_witness :
  let body := "{" +:+ of_bytes [34%N] +:+ "amount_minor" +:+ of_bytes [34%N] +:+ ":7}" in
  let w := mkWorld [] 0 0 false in
  ∃ ctx m,
    Charged ctx (Some m) ∈ log (exec (handleCreate (JW := jetstream None) (λ _ h, h)
      (mkApp (client (None, None) 1 false) "s") Background "o-1" body) w) ∧
    GetAmountMinor (Some m) = 7 ∧ wf_charge m.
Proof.
  intros body w. eexists _, _.
  assert (Hin : Charged _ (Some _) ∈ log (exec (handleCreate (JW := jetstream None) (λ _ h, h)
      (mkApp (client (None, None) 1 false) "s") Background "o-1" body) w)) by (vm_compute; left).
  split; [exact Hin|]. split; [reflexivity|].
  refine (charges_well_typed _ _ _ _ _ _ _ _ _ _ _ _ _ _ _ Hin). by apply ascii_text_utf8.
Defined.

(** The metric is the answer.  Under the RED middleware of [main] each order
    moves one counter, the one of its handler name, its method and the status the
    client received, which is one of 200, 400, 402 and 502. *)
Theorem orders_metric_is_status {W} `{Clock W, WallClock W, PauseFlag W, JetStream W} Inject
    (a : app W) r_ctx orderID body method m w :
  let '(ops, (m', _)) :=
    Wrap "post_orders" method (handleCreate Inject a r_ctx orderID body) (m, w) in
  let code := status (serve ops) in
  code ∈ [200; 400; 402; 502] ∧
  ∀ l, count m' l =
    if decide (l = ("post_orders", method, Itoa code)) then S (count m l) else count m l.
Proof.
  unfold Wrap. pose proof (handleCreate_ops Inject a r_ctx orderID body w) as Hops.
  destruct (handleCreate _ _ _ _ _ _) as [ops w']. cbn [fst] in Hops. subst ops. cbn zeta.
  rewrite recorded_status by apply answer_header_first. rewrite answer_status.
  split; [destruct (order_outcome _ _ _ _ _); set_solver|].
  intros l. unfold count, Observe, Inc. cbn. destruct (decide (l = _)) as [->|Hne].
  - by rewrite lookup_insert_eq.
  - by rewrite lookup_insert_ne.
Qed.

(** The routes of [main] clash.  [obs.Mux] has registered its three paths for
    every method; "GET /" names fewer methods but more paths, so registering it is
    refused: [http.ServeMux] panics, whatever the handlers are, and the process
    does not get as far as serving.  Without that last route the rest registers. *)
Theorem orders_routes_clash {H} (metrics healthz readyz create root : H) :
  register_all (orders_routes metrics healthz readyz create root) NewServeMux = None ∧
  ∃ m, register_all (obs_routes metrics healthz readyz ++ [("POST /orders", create)]) NewServeMux
       = Some m ∧ Handle "GET /" root m = None.
Proof. split; [reflexivity|]. eexists. split; reflexivity. Qed.

End Orders.
