(* ===== verification/CbWatch.v ===== *)
(** * orders-svc: the circuit-break flag watcher

    Models services/orders-svc/cbwatch.go.  A run of the watcher is determined by
    what its selects receive and by what the file holds each time it is read, so the
    loop consumes a list of [event]s, each read with the contents found; [None] is a
    read that fails.  The results of fsnotify's [NewWatcher] and [Add] are arguments. *)

From Stdlib Require Import ZArith NArith Lia.
From S2P Require Import Prelude GoLib GoText.
Import GoTime.

Module CbWatch.

(** ** State: the flag handed to the handler, and the log *)

Inductive log_line :=
  | FlagChanged (publish_enabled paused : bool)
  | FsnotifyError (e : error).

Record wst := mkWst { paused : bool; logged : list log_line }.

Definition log_line_out (l : log_line) : M wst unit :=
  modify (λ s, mkWst (paused s) (logged s ++ [l])).

(** [paused.Store] and [paused.Swap]. *)
Definition Store (b : bool) : M wst unit := modify (λ s, mkWst b (logged s)).
Definition Swap (b : bool) : M wst bool := λ s, (paused s, mkWst b (logged s)).

(** ** read *)

Definition enabled_text (b : string) : bool := EqualFold (TrimSpace b) "true".

Definition read (file : option string) : M wst unit :=
  match file with
  | None => Store false
  | Some b =>
    let enabled := enabled_text b in
    prev ← Swap (negb enabled);
    if bool_decide (prev ≠ negb enabled) then log_line_out (FlagChanged enabled (negb enabled))
    else mret ()
  end.

(** ** The loop *)

(** The period of the ticker. *)
Definition tick_period : Duration := (30 * Second)%Z.

(** One pass of the select: the channel that was ready. *)
Inductive event :=
  | CtxDone
  | Tick (file : option string)
  | FsEvent (file : option string)
  | EventsClosed
  | WatchError (e : error)
  | ErrorsClosed.

(** One pass: [true] when the function returns (with nil). *)
Definition select_once (ev : event) : M wst bool :=
  match ev with
  | CtxDone | EventsClosed | ErrorsClosed => mret true
  | Tick file | FsEvent file => _ ← read file; mret false
  | WatchError e => _ ← log_line_out (FsnotifyError e); mret false
  end.

(** [false] while the loop is waiting for its next event. *)
Fixpoint loop (evs : list event) : M wst bool :=
  match evs with
  | [] => mret false
  | ev :: evs' => done ← select_once ev; if done : bool then mret true else loop evs'
  end.

(** [filepath.Dir] on a clean path with a directory: the text before the last slash. *)
Fixpoint to_slash (l : list N) : list N :=
  match l with
  | [] => []
  | b :: l' => if (b =? 47)%N then l' else to_slash l'
  end.
Definition Dir (path : string) : string := of_bytes (reverse (to_slash (reverse (bytes path)))).

(** How a call of [watchCircuitBreak] stands: still in its loop, or returned. *)
Inductive status := Watching | Returned (r : option error).

Section Watch.
Context (NewWatcher : option error) (Add : string → option error).

Definition watchCircuitBreak (flagFile : string) (first : option string) (evs : list event)
    : M wst status :=
  let dir := Dir flagFile in
  _ ← read first;
  match NewWatcher with
  | Some e => mret (Returned (Some e))
  | None =>
    match Add dir with
    | Some e => mret (Returned (Some e))
    | None => done ← loop evs; mret (if done : bool then Returned None else Watching)
    end
  end.
End Watch.

(** ** Specification *)

(** What a file says: missing means enabled. *)
Definition says_paused (file : option string) : bool :=
  match file with None => false | Some b => negb (enabled_text b) end.

(** The reads of a run, up to the event that ends it. *)
Fixpoint reads (evs : list event) : list (option string) :=
  match evs with
  | [] => []
  | (CtxDone | EventsClosed | ErrorsClosed) :: _ => []
  | (Tick f | FsEvent f) :: evs' => f :: reads evs'
  | WatchError _ :: evs' => reads evs'
  end.

Definition ends (ev : event) : bool :=
  match ev with CtxDone | EventsClosed | ErrorsClosed => true | _ => false end.

(** The changes a list of reads makes to the flag, as the log shows them: a file
    that went missing changes it silently. *)
Fixpoint changes (was : bool) (files : list (option string)) : list log_line :=
  match files with
  | [] => []
  | f :: fs =>
    (match f with
     | Some b => if bool_decide (was ≠ says_paused f)
                 then [FlagChanged (enabled_text b) (says_paused f)] else []
     | None => []
     end) ++ changes (says_paused f) fs
  end.

(** ** Lemmas *)

Lemma read_run file s :
  exec (read file) s = mkWst (says_paused file) (logged s ++ changes (paused s) [file]).
Proof.
  destruct file as [b|]; unfold exec, read; cbn; [|by rewrite app_nil_r].
  rewrite bind_run. cbn. case_bool_decide; cbn; [done|]. by rewrite !app_nil_r.
Qed.

Lemma loop_cons ev evs s :
  loop (ev :: evs) s =
    if ends ev then (true, s) else loop evs (exec (select_once ev) s).
Proof. unfold exec. cbn. rewrite bind_run. destruct ev; cbn; rewrite ?bind_run; reflexivity. Qed.

Lemma exec_loop_cons ev evs s :
  exec (loop (ev :: evs)) s = if ends ev then s else exec (loop evs) (exec (select_once ev) s).
Proof. unfold exec at 1. rewrite loop_cons. by destruct (ends ev). Qed.

(** Both events that read the file do nothing else. *)
Lemma select_reads ev file s :
  ev = Tick file ∨ ev = FsEvent file → exec (select_once ev) s = exec (read file) s.
Proof. intros [->| ->]; unfold exec; cbn; by rewrite bind_run. Qed.

(** The flag after the loop is what the last read said. *)
Lemma loop_paused evs s :
  paused (exec (loop evs) s) = default (paused s) (last (says_paused <$> reads evs)).
Proof.
  revert s. induction evs as [|ev evs IH]; intros s; [done|]. rewrite exec_loop_cons.
  destruct ev as [|file|file| |e|]; cbn [ends reads]; try done; rewrite IH; [..|done];
    rewrite (select_reads _ file), read_run by auto;
    cbn [fmap list_fmap paused]; rewrite last_cons; by destruct (last _).
Qed.

Lemma loop_done evs s : fst (loop evs s) = existsb ends evs.
Proof.
  revert s. induction evs as [|ev evs IH]; intros s; [done|].
  rewrite loop_cons. cbn [existsb]. destruct (ends ev); [done|]. apply IH.
Qed.

(** The lines of a log that report flag changes. *)
Definition flag_lines (l : list log_line) : list log_line :=
  filter (λ x, match x with FlagChanged _ _ => true | _ => false end = true) l.

Lemma changes_app was fs1 fs2 :
  changes was (fs1 ++ fs2) = changes was fs1 ++ changes (default was (last (says_paused <$> fs1))) fs2.
Proof.
  revert was. induction fs1 as [|f fs1 IH]; intros was; [done|].
  cbn [app changes fmap list_fmap]. rewrite IH, last_cons, <- app_assoc. by destruct (last _).
Qed.

Lemma flag_lines_changes was fs : flag_lines (changes was fs) = changes was fs.
Proof.
  revert was. induction fs as [|[b|] fs IH]; intros was; [done| |].
  - cbn [changes]. unfold flag_lines in *. rewrite filter_app, IH. by case_bool_decide.
  - apply IH.
Qed.

Lemma flag_lines_app l1 l2 : flag_lines (l1 ++ l2) = flag_lines l1 ++ flag_lines l2.
Proof. apply filter_app. Qed.

Lemma loop_log evs s :
  flag_lines (logged (exec (loop evs) s)) =
  flag_lines (logged s) ++ changes (paused s) (reads evs).
Proof.
  revert s. induction evs as [|ev evs IH]; intros s; [by rewrite app_nil_r|].
  rewrite exec_loop_cons.
  destruct ev as [|file|file| |e|]; cbn [ends reads]; try by rewrite app_nil_r.
  3:{ rewrite IH.
      change (exec (select_once (WatchError e)) s) with
        (mkWst (paused s) (logged s ++ [FsnotifyError e])). cbn [logged paused].
      rewrite flag_lines_app. change (flag_lines [FsnotifyError e]) with (@nil log_line).
      by rewrite app_nil_r. }
  all: rewrite IH, (select_reads _ file), read_run by auto; cbn [paused logged];
    rewrite flag_lines_app, flag_lines_changes, <- app_assoc; cbn [changes];
    by rewrite app_nil_r.
Qed.

Section Run.
Context (NewWatcher : option error) (Add : string → option error).

(** Setting up the watch went well. *)
Definition set_up (flagFile : string) : Prop := NewWatcher = None ∧ Add (Dir flagFile) = None.

Lemma watch_run flagFile first evs s :
  watchCircuitBreak NewWatcher Add flagFile first evs s =
    let s1 := exec (read first) s in
    match NewWatcher, Add (Dir flagFile) with
    | Some e, _ | None, Some e => (Returned (Some e), s1)
    | None, None => (if existsb ends evs then Returned None else Watching, exec (loop evs) s1)
    end.
Proof.
  unfold watchCircuitBreak. rewrite bind_run. fold (exec (read first) s). cbn zeta.
  destruct NewWatcher; [done|]. destruct (Add _); [done|].
  rewrite bind_run, loop_done. by destruct (existsb ends evs).
Qed.
End Run.

(** ** Properties *)

(** (C17) The flag follows the file.  Whatever the flag was, once the watch is set up
    and after any events, it is up exactly when the last read of the file found it
    and its text is not "true"; a file that is missing or cannot be read lifts it.
    Each read that finds the file and changes the flag is logged once, with the new
    values; reads that change nothing and the loss of the file are not logged. *)
Theorem watcher_follows_file NewWatcher Add flagFile first evs s :
  set_up NewWatcher Add flagFile →
  let s' := exec (watchCircuitBreak NewWatcher Add flagFile first evs) s in
  paused s' = default (says_paused first) (last (says_paused <$> reads evs)) ∧
  flag_lines (logged s') = flag_lines (logged s) ++ changes (paused s) (first :: reads evs).
Proof.
  intros [HN HA]. unfold exec. cbn zeta. rewrite watch_run, HN, HA. cbn zeta. cbn [snd].
  rewrite loop_paused, loop_log, read_run. cbn [paused logged].
  split; [done|]. rewrite flag_lines_app, flag_lines_changes, <- app_assoc. cbn [changes].
  by rewrite app_nil_r.
Qed.

(** The brake is engaged by the operator, lifted by deleting the key. *)
Lemma watcher_follows_file_witness :
  let evs := [Tick (Some "true"); FsEvent (Some "false"); WatchError (Error "x"); FsEvent None] in
  let s := mkWst false [] in
  let run evs := exec (watchCircuitBreak None (λ _, None) "/etc/orders-flags/publish_enabled"
                         (Some "true") evs) s in
  paused (run (take 2 evs)) = true ∧ paused (run evs) = false ∧
  flag_lines (logged (run evs)) = [FlagChanged false true].
Proof.
  intros evs s run.
  assert (Hset : set_up None (λ _, None) "/etc/orders-flags/publish_enabled") by (split; reflexivity).
  pose proof (watcher_follows_file None (λ _, None) _ (Some "true") (take 2 evs) s Hset) as [H1 _].
  pose proof (watcher_follows_file None (λ _, None) _ (Some "true") evs s Hset) as [H2 H3].
  split; [|split].
  - unfold run. rewrite H1. vm_compute. reflexivity.
  - unfold run. rewrite H2. vm_compute. reflexivity.
  - unfold run. rewrite H3. vm_compute. reflexivity.
Defined.

(** How the watcher ends.  It returns without an error exactly when the watch is
    set up and its context is done or a channel of the watch is closed; it returns
    an error only when setting up failed, and then the flag stays at what the first
    read found, whatever happens to the file later. *)
Theorem watcher_ends NewWatcher Add flagFile first evs s :
  let r := fst (watchCircuitBreak NewWatcher Add flagFile first evs s) in
  (r = Returned None ↔ set_up NewWatcher Add flagFile ∧ existsb ends evs = true) ∧
  (r = Watching ↔ set_up NewWatcher Add flagFile ∧ existsb ends evs = false) ∧
  (∀ e, r = Returned (Some e) → ∀ evs',
     paused (exec (watchCircuitBreak NewWatcher Add flagFile first evs') s) = says_paused first).
Proof.
  cbn zeta. unfold set_up, exec. setoid_rewrite watch_run. cbn zeta.
  destruct NewWatcher as [e1|]; [|destruct (Add (Dir flagFile)) as [e2|]]; cbn [fst snd].
  - split; [naive_solver|]. split; [naive_solver|]. intros _ _ _. by rewrite read_run.
  - split; [naive_solver|]. split; [naive_solver|]. intros _ _ _. by rewrite read_run.
  - destruct (existsb ends evs); naive_solver.
Qed.

(** *** Case and white space *)

Lemma lower_letter b c : (97 ≤ c ≤ 122)%N → lower b = c → b = c ∨ b = (c - 32)%N.
Proof. unfold lower. intros Hc. destruct (_ && _) eqn:E; bool_to_prop; [|by left]. lia. Qed.

(** A text that is [word] in some case, for a word whose ends are letters that no
    white space starts or ends with. *)
Definition folds_to (word v : string) : Prop := lower <$> bytes v = bytes word.

Lemma folds_ends word v w2 :
  word = "true" ∨ word = "false" → folds_to word v →
  strip_any spaces (bytes v ++ w2) = None ∧
  strip_any (reverse <$> spaces) (reverse (bytes v)) = None.
Proof.
  assert (Hends : ∀ l a z m, l = a :: m ++ [z] →
    (a = 116 ∨ a = 84 ∨ a = 102 ∨ a = 70)%N → (z = 101 ∨ z = 69)%N →
    strip_any spaces (l ++ w2) = None ∧ strip_any (reverse <$> spaces) (reverse l) = None).
  { intros l a z m -> Ha Hz. rewrite reverse_cons, reverse_app. split.
    - destruct Ha as [->|[->|[->| ->]]]; reflexivity.
    - destruct Hz as [->| ->]; reflexivity. }
  unfold folds_to. intros [->| ->] Hv.
  - destruct (bytes v) as [|a [|b [|c [|d [|]]]]]; try discriminate Hv.
    injection Hv as Ha Hb Hc Hd. apply (Hends _ a d [b; c]); [done| |].
    + apply lower_letter in Ha; lia.
    + apply lower_letter in Hd; lia.
  - destruct (bytes v) as [|a [|b [|c [|d [|e [|]]]]]]; try discriminate Hv.
    injection Hv as Ha Hb Hc Hd He. apply (Hends _ a e [b; c; d]); [done| |].
    + apply lower_letter in Ha; lia.
    + apply lower_letter in He; lia.
Qed.

Lemma enabled_text_padded word w1 w2 v :
  word = "true" ∨ word = "false" → folds_to word v →
  Forall ascii_space w1 → Forall ascii_space w2 →
  enabled_text (of_bytes (w1 ++ bytes v ++ w2)) = bool_decide (word = "true").
Proof.
  intros Hw Hv H1 H2. destruct (folds_ends word v w2 Hw Hv) as [Hl Hr].
  unfold enabled_text, TrimSpace. rewrite bytes_of_bytes.
  - rewrite (TrimSpace_pad w1 w2 v H1 H2 Hl Hr), of_bytes_bytes. unfold EqualFold. rewrite Hv.
    by destruct Hw as [->| ->].
  - assert (Hsp : ∀ w, Forall ascii_space w → Forall byte w).
    { intros w Hw'. eapply Forall_impl; [exact Hw'|]. intros b Hb. unfold ascii_space in Hb.
      repeat (apply elem_of_cons in Hb as [->|Hb]; [done|]). by apply elem_of_nil in Hb. }
    apply Forall_app. split; [by apply Hsp|]. apply Forall_app. split; [apply bytes_byte|by apply Hsp].
Qed.

(** Which texts enable publishing.  "true" in any case enables it and "false" in
    any case pauses it, with any white space or line ends around the word, as an
    editor or a YAML block leaves them; the value the operator writes pauses. *)
Theorem enabled_texts w1 w2 v :
  Forall ascii_space w1 → Forall ascii_space w2 →
  (folds_to "true" v → says_paused (Some (of_bytes (w1 ++ bytes v ++ w2))) = false) ∧
  (folds_to "false" v → says_paused (Some (of_bytes (w1 ++ bytes v ++ w2))) = true).
Proof.
  intros H1 H2. cbn [says_paused]. split; intros Hv.
  - by rewrite (enabled_text_padded "true") by auto.
  - by rewrite (enabled_text_padded "false") by auto.
Qed.

Lemma enabled_texts_witness :
  says_paused (Some (of_bytes ([32; 9] ++ bytes "TRUE" ++ [13; 10])%N)) = false.
Proof.
  apply (enabled_texts [32; 9]%N [13; 10]%N "TRUE").
  - apply (bool_decide_unpack _). vm_compute. exact I.
  - apply (bool_decide_unpack _). vm_compute. exact I.
  - vm_compute. reflexivity.
Defined.

End CbWatch.
