(* ===== verification/OrdersPool.v ===== *)
(** * orders-svc: orders and the watcher, interleaved

    The handlers of concurrent requests and the goroutine of the circuit-break watcher
    share one variable, [app.publishingPaused].  Here both are programs of calls in the
    sense of [Pool]: run alone they are [Orders.handleCreate] and
    [CbWatch.watchCircuitBreak]; in a pool, under every interleaving, an order is
    charged at most once and publishes at most once, after its own charge and its own
    read of the flag, and once the flag is up only orders that had read it before can
    still publish. *)

From Stdlib Require Import ZArith Lia.
From S2P Require Import Prelude GoLib GoText Rfc3339 Http Json JsonCodec Obs Rpc Orders CbWatch Pool.
Import GoInt GoTime Rfc3339 Http Json JsonCodec Obs Paymentsv1 Rpc Orders CbWatch Pool.

Module OrdersPool.
Local Open Scope Z_scope.

(** ** Calls

    An RPC is one call: what became of it at the other service, and its answer. *)

Inductive call : Type → Type :=
  | CNow : call Time
  | CCharge (ctx : Context) (req : option ChargeRequest) : call (result ChargeResponse)
  | CLoad : call bool
  | CUTCNow : call Time
  | CPublish (ctx : Context) (m : Msg) : call (option error)
  | CStore (b : bool) : call unit
  | CSwap (b : bool) : call bool
  | CLog (l : log_line) : call unit.

(** What is observed of a run: charges, reads and writes of the flag, events. *)
Inductive obs :=
  | Charged (req : option ChargeRequest) (r : result ChargeResponse)
  | Loaded (b : bool)
  | Published (m : Msg)
  | Stored (b : bool).

#[export] Instance call_observer : Observer call obs :=
  λ R c, match c in call R return R → list obs with
  | CNow | CUTCNow => λ _, []
  | CCharge _ req => λ r, [Charged req r]
  | CLoad => λ b, [Loaded b]
  | CPublish _ m => λ _, [Published m]
  | CStore b => λ _, [Stored b]
  | CSwap b => λ _, [Stored b]
  | CLog _ => λ _, []
  end.

(** ** Programs *)

Section Programs.
Context {W : Type} {CW : Clock W} {WW : WallClock W} {JW : JetStream W}.
Context (Inject : Context → Header → Header) (a : app W).

(** The flag is a variable of the process: nothing outside it reads or writes it. *)
Definition call_handler : Handler call (W * wst) :=
  λ R c, match c in call R return M (W * wst) R with
  | CNow => gets (λ s, Now s.1)
  | CCharge ctx req => λ s, let '(r, w) := pay_Charge (pay a) ctx req s.1 in (r, (w, s.2))
  | CLoad => gets (λ s, paused s.2)
  | CUTCNow => gets (λ s, UTCNow s.1)
  | CPublish ctx m => λ s, let '(e, w) := PublishMsg ctx m s.1 in (e, (w, s.2))
  | CStore b => λ s, let '(_, f) := Store b s.2 in ((), (s.1, f))
  | CSwap b => λ s, let '(prev, f) := Swap b s.2 in (prev, (s.1, f))
  | CLog l => λ s, let '(_, f) := log_line_out l s.2 in ((), (s.1, f))
  end.

Definition publish_prog (ctx : Context) (orderID : string) (req : orderRequest) : prog call unit :=
  created ← request CUTCNow;
  _ ← request (CPublish ctx (event_msg Inject a ctx (event_of orderID req created)));
  mret ().

Definition handleCreate_prog (r_ctx : Context) (orderID body : string) : prog call (list rw_op) :=
  match decode_order body with
  | None => mret (http_Error "invalid json" StatusBadRequest)
  | Some req =>
    now ← request CNow;
    let ctx := ctx_WithTimeout now r_ctx (5 * Second) in
    r ← request (CCharge ctx (Some (charge_request orderID req)));
    let '(resp, err) := r in
    match err with
    | Some _ => mret (http_Error "payments unavailable" StatusBadGateway)
    | None =>
      if negb (Paymentsv1.GetStatus resp =? ChargeResponse_STATUS_AUTHORIZED) then
        mret (http_Error ("declined: " +:+ GetDeclineReason resp) StatusPaymentRequired)
      else
        is_paused ← request CLoad;
        _ ← (if is_paused : bool then mret () else publish_prog ctx orderID req);
        mret [ SetHeader "Content-Type" "application/json";
               Write (of_bytes (render (created_json orderID (GetPaymentId resp)) ++ [10%N])) ]
    end
  end.

Definition read_prog (file : option string) : prog call unit :=
  match file with
  | None => request (CStore false)
  | Some b =>
    let enabled := enabled_text b in
    prev ← request (CSwap (negb enabled));
    if bool_decide (prev ≠ negb enabled) then request (CLog (FlagChanged enabled (negb enabled)))
    else mret ()
  end.

Definition select_prog (ev : event) : prog call bool :=
  match ev with
  | CtxDone | EventsClosed | ErrorsClosed => mret true
  | Tick file | FsEvent file => _ ← read_prog file; mret false
  | WatchError e => _ ← request (CLog (FsnotifyError e)); mret false
  end.

Fixpoint loop_prog (evs : list event) : prog call bool :=
  match evs with
  | [] => mret false
  | ev :: evs' => finished ← select_prog ev; if finished : bool then mret true else loop_prog evs'
  end.

Definition watch_prog (NewWatcher : option error) (Add : string → option error)
    (flagFile : string) (first : option string) (evs : list event) : prog call status :=
  let dir := Dir flagFile in
  _ ← read_prog first;
  match NewWatcher with
  | Some e => mret (Returned (Some e))
  | None =>
    match Add dir with
    | Some e => mret (Returned (Some e))
    | None => finished ← loop_prog evs; mret (if finished : bool then Returned None else Watching)
    end
  end.

(** ** The process: requests with their identifiers, and the watcher *)

Record order := mkOrder { o_ctx : Context; o_id : string; o_body : string }.

Definition order_prog (o : order) : prog call (list rw_op + status) :=
  ops ← handleCreate_prog (o_ctx o) (o_id o) (o_body o); mret (inl ops).

Definition threads (orders : list order) (watch : prog call status) : list (prog call (list rw_op + status)) :=
  (order_prog <$> orders) ++ [st ← watch; mret (inr st)].
End Programs.

(** ** Run alone *)

Section Alone.
Context {W : Type} {CW : Clock W} {WW : WallClock W} {JW : JetStream W}.
Context (Inject : Context → Header → Header) (a : app W).

(** The world of [Orders] when the flag is the watcher's. *)
#[local] Instance with_flag_clock : Clock (W * wst) := λ s, Now s.1.
#[local] Instance with_flag_wall : WallClock (W * wst) := λ s, UTCNow s.1.
#[local] Instance with_flag_paused : PauseFlag (W * wst) := λ s, paused s.2.
#[local] Instance with_flag_js : JetStream (W * wst) := λ ctx m s,
  let '(e, w) := PublishMsg ctx m s.1 in (e, (w, s.2)).

Definition app_with_flag : app (W * wst) :=
  mkApp (mkPaymentsServiceClient (λ ctx req s,
    let '(r, w) := pay_Charge (pay a) ctx req s.1 in (r, (w, s.2)))) (subject a).

(** A run of the watcher on its own state. *)
Definition on_flag {A} (m : M wst A) : M (W * wst) A := λ s,
  let '(x, f) := m s.2 in (x, (s.1, f)).

Lemma handleCreate_run_alone r_ctx orderID body (s : W * wst) :
  run (HC := call_handler a) (handleCreate_prog Inject a r_ctx orderID body) s =
  handleCreate Inject app_with_flag r_ctx orderID body s.
Proof.
  unfold handleCreate_prog, handleCreate. destruct (decode_order body) as [req|]; [|done].
  rewrite run_bind, bind_run, run_request. cbn [do_call call_handler gets fst snd].
  rewrite run_bind, bind_run, run_request. cbn [do_call call_handler pay app_with_flag pay_Charge].
  change (Now (W := W * wst) s) with (Now s.1).
  destruct (pay_Charge (pay a) _ _ _) as [[resp [e|]] w]; [done|]. cbn [fst snd].
  destruct (negb _); [done|].
  rewrite run_bind, bind_run, run_request. cbn [do_call call_handler gets fst snd].
  change (publishingPaused (w, s.2)) with (paused s.2). destruct (paused s.2); [done|].
  rewrite run_bind, bind_run. unfold publish_prog, publish.
  rewrite run_bind, bind_run, run_request. cbn [do_call call_handler gets fst snd].
  rewrite run_bind, bind_run, run_request. cbn [do_call call_handler].
  unfold event_msg. change (UTCNow (w, s.2)) with (UTCNow w).
  change (subject app_with_flag) with (subject a).
  unfold PublishMsg at 2, with_flag_js. cbn [fst snd]. by destruct (PublishMsg _ _ w).
Qed.

Lemma on_flag_bind {A B} (m : M wst A) (f : A → M wst B) s :
  on_flag (m ≫= f) s = on_flag (f (fst (on_flag m s))) (snd (on_flag m s)).
Proof. unfold on_flag. rewrite bind_run. by destruct (m s.2). Qed.

Lemma read_run_alone file (s : W * wst) :
  run (HC := call_handler a) (read_prog file) s = on_flag (read file) s.
Proof.
  destruct file as [b|]; [|by destruct s]. unfold read_prog, read.
  rewrite run_bind, on_flag_bind, run_request. cbn.
  by case_bool_decide.
Qed.

Lemma loop_run_alone evs (s : W * wst) :
  run (HC := call_handler a) (loop_prog evs) s = on_flag (loop evs) s.
Proof.
  assert (Hsel : ∀ ev s, run (HC := call_handler a) (select_prog ev) s = on_flag (select_once ev) s).
  { intros ev s0. destruct ev as [|file|file| |e|]; try by destruct s0.
    all: unfold select_prog, select_once; rewrite run_bind, on_flag_bind, read_run_alone;
      by destruct (on_flag _ s0) as [[] []]. }
  revert s. induction evs as [|ev evs IH]; intros s; [by destruct s|].
  cbn [loop_prog loop]. rewrite run_bind, on_flag_bind, Hsel.
  destruct (fst _); [|apply IH]. by destruct (snd _).
Qed.

Lemma watch_run_alone NewWatcher Add flagFile first evs (s : W * wst) :
  run (HC := call_handler a) (watch_prog NewWatcher Add flagFile first evs) s =
  on_flag (watchCircuitBreak NewWatcher Add flagFile first evs) s.
Proof.
  unfold watch_prog, watchCircuitBreak. rewrite run_bind, on_flag_bind, read_run_alone.
  destruct (snd _) as [w f]. destruct NewWatcher; [done|]. destruct (Add _); [done|].
  rewrite run_bind, on_flag_bind, loop_run_alone. by destruct (snd _).
Qed.
End Alone.

(** ** What an order can show *)

(** The texts of the answers are never computed below. *)
#[local] Arguments http_Error : simpl never.
#[local] Arguments of_bytes : simpl never.
#[local] Arguments render : simpl never.
#[local] Arguments Orders.created_json : simpl never.
#[local] Arguments ctx_WithTimeout : simpl never.
#[local] Arguments Orders.charge_request : simpl never.
#[local] Arguments Orders.event_msg : simpl never.
#[local] Arguments Z.mul : simpl never.

Section Pools.
Context {W : Type} {CW : Clock W} {WW : WallClock W} {JW : JetStream W}.
Context (Inject : Context → Header → Header) (a : app W).
#[local] Instance process : Handler call (W * wst) := call_handler a.

(** The charge of the order; if it was authorized, one read of the flag; if that found
    it down, the order's event. *)
Definition full_trace (o : order) (req : orderRequest) (r : result ChargeResponse) (b : bool)
    (ctx : Context) (created : Time) : list obs :=
  Charged (Some (charge_request (o_id o) req)) r ::
  if authorized r then
    Loaded b :: if b then [] else [Published (event_msg Inject a ctx (event_of (o_id o) req created))]
  else [].

(** What an order has shown at any time. *)
Definition order_shows (o : order) (l : list obs) : Prop :=
  match decode_order (o_body o) with
  | None => l = []
  | Some req => ∃ r b ctx created, l `prefix_of` full_trace o req r b ctx created
  end.

Lemma order_can_show o l : can_show (order_prog Inject a o) l → order_shows o l.
Proof.
  unfold order_prog, handleCreate_prog, order_shows.
  destruct (decode_order (o_body o)) as [req|]; [|done]. cbn.
  pose (r0 := (None, None) : result ChargeResponse).
  assert (Hnil : ∃ r b ctx created, [] `prefix_of` full_trace o req r b ctx created)
    by (exists r0, true, Background, 0; apply prefix_nil).
  intros [->|(now & l1 & -> & H1)]; [done|]. cbn in H1.
  destruct H1 as [->|([resp err] & l2 & -> & H2)]; [done|]. cbn in H2. cbn [Datatypes.app shows call_observer].
  set (r := (resp, err)). unfold full_trace.
  assert (Hone : ∀ b ctx created, [Charged (Some (charge_request (o_id o) req)) r] `prefix_of`
            full_trace o req r b ctx created) by (intros; apply prefix_cons, prefix_nil).
  destruct err as [e|]; [cbn in H2; subst l2; exists r, true, Background, 0; exact (Hone true Background 0)|].
  destruct (Paymentsv1.GetStatus resp =? _) eqn:Est; cbn in H2;
    [|subst l2; exists r, true, Background, 0; exact (Hone true Background 0)].
  assert (Hauth : authorized r = true) by (unfold authorized, r; cbn; by rewrite Est).
  destruct H2 as [->|(b & l3 & -> & H3)]; [exists r, true, Background, 0; exact (Hone true Background 0)|].
  exists r, b. rewrite Hauth. cbn in H3. destruct b.
  { cbn in H3. subst l3. exists Background, 0. done. }
  cbn in H3. destruct H3 as [->|(created & l4 & -> & H4)].
  { exists Background, 0. do 2 apply prefix_cons. apply prefix_nil. }
  destruct H4 as [->|(e & l5 & -> & H5)].
  { exists Background, 0. do 2 apply prefix_cons. apply prefix_nil. }
  cbn in H5. subst l5. by eexists _, _.
Qed.

Lemma thread_of_order (orders : list order) watch i o :
  orders !! i = Some o → threads Inject a orders watch !! i = Some (order_prog Inject a o).
Proof.
  intros Hi. unfold threads. rewrite lookup_app_l by (rewrite length_fmap; by eapply lookup_lt_Some).
  by rewrite list_lookup_fmap, Hi.
Qed.

(** What the thread of an order has shown in a run of the process. *)
Lemma thread_shows (orders : list order) watch (s s' : W * wst) n tr pool i o :
  steps (threads Inject a orders watch, s) n tr (pool, s') → orders !! i = Some o →
  order_shows o (of_thread i tr).
Proof.
  intros Hs Hi. apply order_can_show. eapply pool_thread; [exact Hs|by apply thread_of_order].
Qed.

(** What an order has shown when it is answered. *)
Definition order_answered (o : order) (l : list obs) (ops : list rw_op) : Prop :=
  match decode_order (o_body o) with
  | None => l = [] ∧ ops = answer (o_id o) BadRequest
  | Some req => ∃ r b ctx created,
      l = full_trace o req r b ctx created ∧ ops = answer (o_id o) (outcome_of (Some req) r)
  end.

Lemma order_can_return o l x :
  can_return (order_prog Inject a o) l x → ∃ ops, x = inl ops ∧ order_answered o l ops.
Proof.
  unfold order_prog, handleCreate_prog, order_answered.
  destruct (decode_order (o_body o)) as [req|]; [|cbn; intros [-> ->]; by eexists].
  cbn. intros (now & l1 & -> & [resp err] & l2 & -> & H2). cbn [Datatypes.app shows call_observer].
  unfold full_trace, outcome_of. cbn in H2. cbn [snd fst].
  destruct err as [e|].
  { destruct H2 as [-> ->]. eexists. split; [done|]. by exists (resp, Some e), true, Background, 0. }
  assert (Hauth : authorized (resp, None) = (Paymentsv1.GetStatus resp =? ChargeResponse_STATUS_AUTHORIZED))
    by done.
  destruct (Paymentsv1.GetStatus resp =? ChargeResponse_STATUS_AUTHORIZED) eqn:Est; cbn in H2.
  - destruct H2 as (b & l3 & -> & H3). destruct b; cbn in H3.
    + destruct H3 as [-> ->]. eexists. split; [done|]. exists (resp, None), true, Background, 0.
      cbn [fst snd]. by rewrite Hauth.
    + destruct H3 as (created & l4 & -> & e & l5 & -> & -> & ->). eexists. split; [done|].
      eexists (resp, None), false, _, created. cbn [fst snd]. by rewrite Hauth.
  - destruct H2 as [-> ->]. eexists. split; [done|]. exists (resp, None), true, Background, 0.
    cbn [fst snd]. by rewrite Hauth.
Qed.

(** An order that has published has read the flag as down. *)
Lemma published_loaded o l m : order_shows o l → Published m ∈ l → Loaded false ∈ l.
Proof.
  unfold order_shows. destruct (decode_order _) as [req|]; [|by intros -> ?%elem_of_nil].
  intros (r & b & ctx & created & [l' Hl]) Hm. unfold full_trace in Hl.
  destruct l as [|e1 l]; [by apply elem_of_nil in Hm|]. injection Hl as <- Hl.
  apply elem_of_cons in Hm as [[=]|Hm]. right.
  destruct (authorized r); [|by destruct l; [apply elem_of_nil in Hm|]].
  destruct l as [|e2 l]; [by apply elem_of_nil in Hm|]. injection Hl as <- Hl.
  apply elem_of_cons in Hm as [[=]|Hm].
  destruct b; [by destruct l; [apply elem_of_nil in Hm|]|]. left.
Qed.

(** While the flag is up and nobody stores it down, nobody reads it down. *)
Lemma flag_stays {A} (x y : list (prog call A) * (W * wst)) n tr :
  steps x n tr y → paused x.2.2 = true → (∀ j, (j, Stored false) ∉ tr) →
  paused y.2.2 = true ∧ ∀ j, (j, Loaded false) ∉ tr.
Proof.
  induction 1 as [x|x tr1 z n tr2 y Hx Hrest IH]; intros Hp Hno.
  { split; [done|]. intros j. apply not_elem_of_nil. }
  destruct Hx as [i R c k pool [w f] Hi]. cbn [snd] in *.
  assert (Hstep : paused (exec (do_call c) (w, f)).2 = true ∧
            Loaded false ∉ shows c (fst (do_call c (w, f)))).
  { assert (Hc : Stored false ∉ shows c (fst (do_call c (w, f)))).
    { intros Hin. apply (Hno i), elem_of_app. left. apply list_elem_of_fmap. by eexists. }
    destruct f as [up lg]. cbn in Hp. subst up.
    destruct c; unfold exec, do_call, process in *; cbn in *.
    1,4,8: split; [done|apply not_elem_of_nil].
    - destruct (pay_Charge _ _ _ _). split; [done|]. by intros [=]%list_elem_of_singleton.
    - split; [done|]. by intros [=]%list_elem_of_singleton.
    - destruct (PublishMsg _ _ _). split; [done|]. by intros [=]%list_elem_of_singleton.
    - destruct b; [|by destruct Hc; left]. split; [done|]. by intros [=]%list_elem_of_singleton.
    - destruct b; [|by destruct Hc; left]. split; [done|]. by intros [=]%list_elem_of_singleton. }
  destruct Hstep as [Hup Hl]. destruct IH as [IH1 IH2]; [done| |].
  { intros j Hin. apply (Hno j), elem_of_app. by right. }
  split; [done|]. intros j [Hin|Hin]%elem_of_app; [|by apply (IH2 j)].
  apply list_elem_of_fmap in Hin as (ob & [= _ <-] & Hob). done.
Qed.

(** ** Properties *)

(** Run alone, the programs are the code: the handler's answers and leaves the same
    state as [handleCreate], the watcher's as [watchCircuitBreak], on every input and
    from every state of the process. *)
Theorem programs_alone :
  (∀ r_ctx orderID body (s : W * wst),
     run (handleCreate_prog Inject a r_ctx orderID body) s =
     handleCreate (CW := with_flag_clock) (WW := with_flag_wall) (FW := with_flag_paused)
       (JW := with_flag_js) Inject (app_with_flag a) r_ctx orderID body s) ∧
  (∀ NewWatcher Add flagFile first evs (s : W * wst),
     run (watch_prog NewWatcher Add flagFile first evs) s =
     on_flag (watchCircuitBreak NewWatcher Add flagFile first evs) s).
Proof. split; intros; [apply handleCreate_run_alone|apply watch_run_alone]. Qed.

(** (C25) An order among others.  Whatever requests run at the same time, whatever the
    watcher does and however the calls interleave: each order charges at most once,
    and only for what its own body says; it publishes at most once, its own event,
    only after its own charge was authorized and its own read found the flag down;
    and when it is answered, it has done all of that, and the answer is the one its
    own charge calls for. *)
Theorem orders_interleaved (orders : list order) watch (s s' : W * wst) n tr pool i o :
  steps (threads Inject a orders watch, s) n tr (pool, s') → orders !! i = Some o →
  order_shows o (of_thread i tr) ∧
  ∀ x, pool !! i = Some (Ret x) → ∃ ops, x = inl ops ∧ order_answered o (of_thread i tr) ops.
Proof.
  intros Hs Hi. split; [by eapply thread_shows|]. intros x Hx.
  apply order_can_return. eapply pool_returned; [exact Hs|by apply thread_of_order|exact Hx].
Qed.

(** (C10) The brake stops publishing, but for orders in flight.  From any moment at which
    the flag is up until the watcher stores it down again, the flag stays up, and the
    only orders whose events are published at all are those that had read the flag
    as down before that moment: an order that reads it later publishes nothing. *)
Theorem paused_in_flight (orders : list order) watch (s s1 s2 : W * wst) n1 tr1 pool1 n2 tr2 pool2 :
  steps (threads Inject a orders watch, s) n1 tr1 (pool1, s1) →
  paused s1.2 = true →
  steps (pool1, s1) n2 tr2 (pool2, s2) →
  (∀ j, (j, Stored false) ∉ tr2) →
  paused s2.2 = true ∧
  ∀ i o m, orders !! i = Some o → (i, Published m) ∈ tr1 ++ tr2 → (i, Loaded false) ∈ tr1.
Proof.
  intros H1 Hup H2 Hno. destruct (flag_stays _ _ _ _ H2 Hup Hno) as [Hup2 Hload].
  split; [done|]. intros i o m Hi Hm.
  assert (Hin : (i, Loaded false) ∈ tr1 ++ tr2).
  { pose proof (thread_shows _ _ _ _ _ _ _ _ _ (steps_app _ _ _ _ _ _ _ H1 H2) Hi) as Hsh.
    apply elem_of_thread in Hm. apply elem_of_thread. by eapply published_loaded. }
  apply elem_of_app in Hin as [Hin|Hin]; [done|]. by destruct (Hload i).
Qed.

End Pools.

(** ** A concrete process

    Two orders whose payments are authorized, and a watcher whose file says "false":
    the first order has read the flag when the watcher raises it, the second has not. *)

Definition shop : app Recording.world :=
  mkApp (Recording.client (Some (mkChargeResponse "p" ChargeResponse_STATUS_AUTHORIZED ""), None) Second false)
    "orders.events.created".

#[local] Instance shop_clock : Clock Recording.world := Recording.world_clock.
#[local] Instance shop_wall : WallClock Recording.world := Recording.world_wall.
#[local] Instance shop_js : JetStream Recording.world := Recording.jetstream None.
#[local] Instance shop_process : Handler call (Recording.world * wst) := call_handler shop.

Definition two_orders : list order :=
  [mkOrder Background "o-1" "{}"; mkOrder Background "o-2" "{}"].

Definition shop_threads : list (prog call (list rw_op + status)) :=
  threads (λ _ h, h) shop two_orders
    (watch_prog None (λ _, None) "/etc/orders-flags/publish_enabled" (Some "false") []).

Definition shop_start : Recording.world * wst := (Recording.mkWorld [] 0 0 false, mkWst false []).

(** Order 1 until its read, the watcher, and then the rest. *)
Definition until_pause : list nat := [0; 0; 0; 2]%nat.
Definition after_pause : list nat := [1; 1; 1; 0; 0; 2]%nat.

Definition at_pause := scheduled until_pause shop_threads shop_start.
Definition at_end := scheduled after_pause at_pause.1 at_pause.2.

Lemma shop_runs :
  ∃ n1 n2,
    steps (shop_threads, shop_start) n1 (seen until_pause shop_threads shop_start) (at_pause.1, at_pause.2) ∧
    steps (at_pause.1, at_pause.2) n2 (seen after_pause at_pause.1 at_pause.2) (at_end.1, at_end.2).
Proof.
  destruct (scheduled_steps until_pause shop_threads shop_start) as [n1 H1].
  destruct (scheduled_steps after_pause at_pause.1 at_pause.2) as [n2 H2].
  exists n1, n2. by rewrite <- !surjective_pairing in *.
Qed.

Definition published (tr : list (nat * obs)) : list nat :=
  omap (λ e, match e.2 with Published _ => Some e.1 | _ => None end) tr.

(** Whether a run stores the flag down. *)
Definition stores_down (tr : list (nat * obs)) : bool :=
  existsb (λ e, match e.2 with Stored b => negb b | _ => false end) tr.

Lemma no_stored_down tr : stores_down tr = false → ∀ j, (j, Stored false) ∉ tr.
Proof.
  intros Hno j Hin. apply not_true_iff_false in Hno. apply Hno, existsb_exists.
  exists (j, Stored false). split; [by apply list_elem_of_In|done].
Qed.

(** The event of the order in flight is published after the pause, and no other. *)
Lemma paused_in_flight_witness :
  published (seen until_pause shop_threads shop_start) = [] ∧
  published (seen after_pause at_pause.1 at_pause.2) = [0%nat] ∧
  paused at_end.2.2 = true ∧
  ∀ i o m, two_orders !! i = Some o →
    (i, Published m) ∈ seen until_pause shop_threads shop_start ++ seen after_pause at_pause.1 at_pause.2 →
    (i, Loaded false) ∈ seen until_pause shop_threads shop_start.
Proof.
  split; [vm_compute; reflexivity|]. split; [vm_compute; reflexivity|].
  destruct shop_runs as (n1 & n2 & H1 & H2).
  refine (paused_in_flight _ _ two_orders _ shop_start at_pause.2 at_end.2 n1 _ _ n2 _ _ H1 _ H2 _).
  - vm_compute. reflexivity.
  - apply no_stored_down. vm_compute. reflexivity.
Defined.

Lemma orders_interleaved_witness :
  ∃ n tr ops, steps (shop_threads, shop_start) n tr (at_end.1, at_end.2) ∧
    at_end.1 !! 1%nat = Some (Ret (inl ops)) ∧
    order_answered (λ _ h, h) shop (mkOrder Background "o-2" "{}") (of_thread 1 tr) ops ∧
    Http.status (serve ops) = 200.
Proof.
  destruct shop_runs as (n1 & n2 & H1 & H2). pose proof (steps_app _ _ _ _ _ _ _ H1 H2) as Hs.
  destruct (orders_interleaved (λ _ h, h) shop two_orders _ _ _ _ _ _ 1%nat
              (mkOrder Background "o-2" "{}") Hs eq_refl) as [_ Hans].
  eassert (Hret : at_end.1 !! 1%nat = Some (Ret (inl _))) by (vm_compute; reflexivity).
  destruct (Hans _ Hret) as (ops & [= <-] & Ho).
  eexists _, _, _. split; [exact Hs|]. split; [exact Hret|]. split; [exact Ho|]. vm_compute. reflexivity.
Defined.

End OrdersPool.
