(* ===== verification/Checkout.v ===== *)
(** * The checkout: concurrent orders through three services

    Each order runs [Orders.handleCreate] in orders-svc, which calls [Payments.Charge]
    in payments-svc, which calls [Inventory.server_Reserve] in inventory-svc; the
    calls of [OrdersPool]'s programs are here served by the programs of the next
    service, over a network that can lose a request or a response.  A caller whose
    response is lost goes on when the callee is done.  The theorems hold for every
    number of orders, every interleaving and every loss. *)

From Stdlib Require Import ZArith Lia.
From S2P Require Import Prelude GoLib GoText Rfc3339 Http Json JsonCodec Obs Rpc Inventory Payments Orders CbWatch Pool OrdersPool.
Import GoInt GoTime Rfc3339 Http Json JsonCodec Obs Inventoryv1 Paymentsv1 Rpc CbWatch Pool.

Module Checkout.
Local Open Scope Z_scope.

(** What becomes of an RPC. *)
Inductive delivery :=
  | Delivered
  | LostRequest (e : error)
  | LostResponse (e : error).

(** ** The state: the inventory, the network's decisions to come, and the rest *)

Record cloud (W : Type) := mkCloud {
  k_inv : Inventory.server;
  k_net : list delivery;
  k_rest : W;
}.
Arguments mkCloud {W}.
Arguments k_inv {W}.
Arguments k_net {W}.
Arguments k_rest {W}.

(** ** Calls *)

Inductive call : Type → Type :=
  | CNow : call Time
  | CLoad : call bool
  | CUTCNow : call Time
  | CPublish (ctx : Context) (m : Msg) : call (option error)
  | CStore (b : bool) : call unit
  | CSwap (b : bool) : call bool
  | CLog (l : log_line) : call unit
  | CNet : call delivery
  | CSleep (d : Duration) : call unit
  | CReserve (id : string) (ctx : Context) (req : option ReserveRequest) : call (result ReserveResponse).

Inductive obs :=
  | Reserved (id : string) (its : Inventory.items)
  | Loaded (b : bool)
  | Published (m : Msg)
  | Stored (b : bool).

#[export] Instance call_observer : Observer call obs :=
  λ R c, match c in call R return R → list obs with
  | CReserve id _ req => λ _, [Reserved id (GetItems req)]
  | CLoad => λ b, [Loaded b]
  | CPublish _ m => λ _, [Published m]
  | CStore b => λ _, [Stored b]
  | CSwap b => λ _, [Stored b]
  | _ => λ _, []
  end.

Section Cloud.
Context {W : Type} {CW : Clock W} {WW : WallClock W} {JW : JetStream W} {TW : Timer W}.

(** What the parts of the code do to the state. *)
Definition on_inv {A} (m : M Inventory.server A) : M (cloud W) A := λ k,
  let '(x, s) := m (k_inv k) in (x, mkCloud s (k_net k) (k_rest k)).
Definition on_rest {A} (m : M W A) : M (cloud W) A := λ k,
  let '(x, w) := m (k_rest k) in (x, mkCloud (k_inv k) (k_net k) w).
(** The network's next decision: it delivers when none is left. *)
Definition next_delivery : M (cloud W) delivery := λ k,
  match k_net k with
  | [] => (Delivered, k)
  | d :: l => (d, mkCloud (k_inv k) l (k_rest k))
  end.

#[export] Instance cloud_clock : Clock (cloud W) := λ k, Now (k_rest k).
#[export] Instance cloud_wall : WallClock (cloud W) := λ k, UTCNow (k_rest k).
#[export] Instance cloud_js : JetStream (cloud W) := λ ctx m, on_rest (PublishMsg ctx m).
#[export] Instance cloud_timer : Timer (cloud W) := λ d, on_rest (Sleep d).

#[export] Instance cloud_handler : Handler call (cloud W * wst) :=
  λ R c, match c in call R return M (cloud W * wst) R with
  | CNow => gets (λ s, Now s.1)
  | CLoad => gets (λ s, paused s.2)
  | CUTCNow => gets (λ s, UTCNow s.1)
  | CPublish ctx m => λ s, let '(e, k) := PublishMsg ctx m s.1 in (e, (k, s.2))
  | CStore b => OrdersPool.on_flag (Store b)
  | CSwap b => OrdersPool.on_flag (Swap b)
  | CLog l => OrdersPool.on_flag (log_line_out l)
  | CNet => λ s, let '(d, k) := next_delivery s.1 in (d, (k, s.2))
  | CSleep d => λ s, let '(_, k) := Sleep d s.1 in ((), (k, s.2))
  | CReserve id ctx req => λ s,
      let '(r, k) := on_inv (Inventory.server_Reserve id ctx req) s.1 in (r, (k, s.2))
  end.

(** ** Programs *)

(** An order with what is drawn for it on its way: the bank's latency and the
    identifiers of its payment and its reservation. *)
Record order := mkOrder {
  c_order : OrdersPool.order;
  c_rnd : Z;
  c_pid : string;
  c_rid : string;
}.

Definition rpc_prog {A} (body : prog call (result A)) : prog call (result A) :=
  d ← request CNet;
  match d with
  | Delivered => body
  | LostRequest e => mret (None, Some e)
  | LostResponse e => _ ← body; mret (None, Some e)
  end.

(** [Payments.Charge], as a program over its two calls: payments-svc's pause for the
    bank and its reservation. *)
Definition Charge_prog {call'} (sleep : Duration → prog call' unit)
    (reserve : Context → option ReserveRequest → prog call' (result ReserveResponse))
    (o : order) (req : option ChargeRequest) (ctx : Context) : prog call' (result ChargeResponse) :=
  _ ← sleep (Payments.bank_latency (c_rnd o));
  r ← reserve ctx (Some (Payments.reserve_request req));
  let '(resv, err) := r in
  if bool_decide (err ≠ None) ||
     negb (Inventoryv1.GetStatus resv =? ReserveResponse_STATUS_OK) then
    mret (Some (mkChargeResponse (c_pid o) ChargeResponse_STATUS_DECLINED "inventory unavailable"), None)
  else
    mret (Some (mkChargeResponse (c_pid o) ChargeResponse_STATUS_AUTHORIZED ""), None).

(** The calls of orders-svc, with the charge served by [charge] and the rest by [own]. *)
Definition serve_call {call'} (own : ∀ R, call R → prog call' R)
    (charge : Context → option ChargeRequest → prog call' (result ChargeResponse))
    : ∀ R, OrdersPool.call R → prog call' R :=
  λ R c, match c in OrdersPool.call R return prog call' R with
  | OrdersPool.CNow => own _ CNow
  | OrdersPool.CCharge ctx req => charge ctx req
  | OrdersPool.CLoad => own _ CLoad
  | OrdersPool.CUTCNow => own _ CUTCNow
  | OrdersPool.CPublish ctx m => own _ (CPublish ctx m)
  | OrdersPool.CStore b => own _ (CStore b)
  | OrdersPool.CSwap b => own _ (CSwap b)
  | OrdersPool.CLog l => own _ (CLog l)
  end.

(** The charge of an order, with its reservation over the network. *)
Definition charge_prog (o : order) (req : option ChargeRequest) (ctx : Context)
    : prog call (result ChargeResponse) :=
  Charge_prog (λ d, request (CSleep d)) (λ ctx req, rpc_prog (request (CReserve (c_rid o) ctx req)))
    o req ctx.

(** ** The code the programs stand for *)

Definition rpc {A} (m : M (cloud W) (result A)) : M (cloud W) (result A) :=
  d ← next_delivery;
  match d with
  | Delivered => m
  | LostRequest e => mret (None, Some e)
  | LostResponse e => _ ← m; mret (None, Some e)
  end.

Definition inventory_client (rid : string) : InventoryServiceClient (cloud W) :=
  mkInventoryServiceClient (λ ctx req, rpc (on_inv (Inventory.server_Reserve rid ctx req)))
    (λ ctx req, rpc (on_inv (Inventory.server_Release ctx req))).

Definition payments_client (o : order) : PaymentsServiceClient (cloud W) :=
  mkPaymentsServiceClient (λ ctx req,
    rpc (Payments.Charge (Payments.mkServer (inventory_client (c_rid o))) (c_rnd o) (c_pid o) ctx req)).

Definition app_of (subj : string) (o : order) : Orders.app (cloud W) :=
  Orders.mkApp (payments_client o) subj.

Context (Inject : Context → Header → Header) (subj : string).

Definition handle_prog (o : order) : prog call (list rw_op) :=
  expand (serve_call (@request call) (λ ctx req, rpc_prog (charge_prog o req ctx)))
    (OrdersPool.handleCreate_prog Inject (app_of subj o) (OrdersPool.o_ctx (c_order o))
       (OrdersPool.o_id (c_order o)) (OrdersPool.o_body (c_order o))).

Definition watcher_prog (watch : prog OrdersPool.call status) : prog call status :=
  expand (serve_call (@request call) (λ _ _, mret (None, None))) watch.

Definition threads (orders : list order) (watch : prog OrdersPool.call status)
    : list (prog call (list rw_op + status)) :=
  ((λ o, ops ← handle_prog o; mret (inl ops)) <$> orders) ++ [st ← watcher_prog watch; mret (inr st)].

(** ** Run alone *)

(** Two runs on the state without the flag, one after the other. *)
Lemma rpc_alone {A} (p : prog call (result A)) (m : M (cloud W) (result A)) k f :
  (∀ k f, run p (k, f) = let '(r, k') := m k in (r, (k', f))) →
  run (rpc_prog p) (k, f) = let '(r, k') := rpc m k in (r, (k', f)).
Proof.
  intros Hp. unfold rpc_prog, rpc. rewrite run_bind, bind_run, run_request.
  cbn [do_call cloud_handler fst snd].
  destruct (next_delivery k) as [[|e|e] k1]; cbn [fst snd]; [apply Hp|done|].
  rewrite run_bind, bind_run, Hp. by destruct (m k1).
Qed.

Lemma Charge_alone o ctx req k f :
  run (charge_prog o req ctx) (k, f) =
  let '(r, k') := Payments.Charge (Payments.mkServer (inventory_client (c_rid o)))
                    (c_rnd o) (c_pid o) ctx req k in (r, (k', f)).
Proof.
  unfold charge_prog, Charge_prog, Payments.Charge. rewrite run_bind, !bind_run, run_request.
  cbn [do_call cloud_handler fst snd Payments.inv inventory_client inv_Reserve].
  destruct (Sleep _ k) as [[] k1]. cbn [fst snd].
  rewrite run_bind, (rpc_alone _ (on_inv (Inventory.server_Reserve (c_rid o) ctx
    (Some (Payments.reserve_request req))))).
  - destruct (rpc _ k1) as [[resv err] k2]. cbn [fst snd]. by destruct (_ || _).
  - intros k0 f0. rewrite run_request. cbn [do_call cloud_handler]. by destruct (on_inv _ _).
Qed.

(** ** What an order can show *)

Definition default_items : Inventory.items := [Some (mkLineItem "DEFAULT" 1)].
Definition reservation (o : order) : obs := Reserved (c_rid o) default_items.

(** An RPC that reports no error ran its callee and brought back its answer. *)
Lemma rpc_can_return {A} (body : prog call (result A)) l r :
  can_return (rpc_prog body) l r →
  l = [] ∧ snd r ≠ None ∨ (∃ r', can_return body l r' ∧ (snd r = None → r = r')).
Proof.
  unfold rpc_prog. intros (d & l1 & l2 & -> & (d' & l' & -> & [-> ->]) & H)%can_return_bind.
  cbn [Datatypes.app shows call_observer]. destruct d' as [|e|e].
  - right. by exists r.
  - left. destruct H as [-> ->]. done.
  - right. apply can_return_bind in H as (r' & m1 & m2 & -> & H1 & [-> ->]).
    exists r'. rewrite app_nil_r. done.
Qed.

Lemma rpc_can_show {A} (body : prog call (result A)) l :
  can_show (rpc_prog body) l → l = [] ∨ can_show body l ∨ ∃ r, can_return body l r.
Proof.
  unfold rpc_prog. intros [[->|(d & l' & -> & ->)]|(d & l1 & l2 & -> & (d' & l' & -> & [-> ->]) & H)]%can_show_bind;
    [by left|by left|].
  cbn [Datatypes.app shows call_observer]. destruct d' as [|e|e]; [by right; left|by left|].
  apply can_show_bind in H as [H|(r & m1 & m2 & -> & H1 & H2)]; [by right; left|].
  change (m2 = []) in H2. subst m2. right; right. exists r. by rewrite app_nil_r.
Qed.

(** The reservation inside a charge. *)
Lemma reserve_can_return o ctx req l r :
  can_return (rpc_prog (request (CReserve (c_rid o) ctx (Some (Payments.reserve_request req))))) l r →
  (l = [] ∨ l = [reservation o]) ∧ (snd r = None → l = [reservation o]).
Proof.
  intros [[-> Herr]|(r' & (r0 & l0 & -> & [-> ->]) & Heq)]%rpc_can_return.
  - split; [by left|]. intros H. by destruct Herr.
  - split; [by right|done].
Qed.

Lemma Charge_can_return o req ctx l r :
  can_return (charge_prog o req ctx) l r →
  (l = [] ∨ l = [reservation o]) ∧ (Orders.authorized r = true → l = [reservation o]).
Proof.
  unfold charge_prog, Charge_prog.
  intros ([] & l1 & l2 & -> & (u & l' & -> & [-> _]) & H)%can_return_bind.
  cbn [Datatypes.app shows call_observer].
  apply can_return_bind in H as ([resv err] & m1 & m2 & -> & [Hl Herr]%reserve_can_return & H).
  cbn [snd] in Herr. destruct err as [e|].
  - destruct H as [-> ->]. rewrite app_nil_r. split; [done|]. by intros [=].
  - cbn [bool_decide] in H. destruct (_ || _); destruct H as [-> ->]; rewrite app_nil_r; (split; [done|]);
      intros _; by apply Herr.
Qed.

Lemma Charge_can_show o req ctx l :
  can_show (charge_prog o req ctx) l → l = [] ∨ l = [reservation o].
Proof.
  unfold charge_prog, Charge_prog.
  intros [[->|(u & l' & -> & ->)]|([] & l1 & l2 & -> & (u & l' & -> & [-> _]) & H)]%can_show_bind;
    [by left|by left|].
  cbn [Datatypes.app shows call_observer].
  apply can_show_bind in H as [H|([resv err] & m1 & m2 & -> & [Hl _]%reserve_can_return & H)].
  - apply rpc_can_show in H as [->|[[->|(r & l' & -> & ->)]|(r & r' & l' & -> & [-> _])]]; auto.
  - destruct (_ || _); cbn in H; rewrite H, app_nil_r; done.
Qed.

(** What an order has shown of itself: nothing, or its reservation, and after that its
    read of the flag and, if that found it down, its event. *)
Definition order_shows (o : order) (l : list obs) : Prop :=
  ∃ b m, l `prefix_of` reservation o :: Loaded b :: if b : bool then [] else [Published m].

Lemma charge_rpc_shows o ctx req l :
  can_show (rpc_prog (charge_prog o req ctx)) l → l = [] ∨ l = [reservation o].
Proof.
  intros [->|[H|[r H]]]%rpc_can_show; [by left|by apply Charge_can_show in H|].
  by apply Charge_can_return in H as [H _].
Qed.

Lemma charge_rpc_returns o ctx req l r :
  can_return (rpc_prog (charge_prog o req ctx)) l r →
  (l = [] ∨ l = [reservation o]) ∧ (Orders.authorized r = true → l = [reservation o]).
Proof.
  intros [[-> Herr]|(r' & [Hl Ha]%Charge_can_return & Heq)]%rpc_can_return.
  - split; [by left|]. unfold Orders.authorized. intros [Hs _]%andb_true_iff.
    by apply bool_decide_eq_true in Hs.
  - split; [done|]. intros Hauth. apply Ha. rewrite <- Heq; [done|].
    unfold Orders.authorized in Hauth. apply andb_true_iff in Hauth as [Hs _].
    by apply bool_decide_eq_true in Hs.
Qed.

(** The texts of the answers are never computed below. *)
#[local] Arguments http_Error : simpl never.
#[local] Arguments of_bytes : simpl never.
#[local] Arguments render : simpl never.
#[local] Arguments Orders.created_json : simpl never.
#[local] Arguments ctx_WithTimeout : simpl never.
#[local] Arguments Orders.charge_request : simpl never.
#[local] Arguments Orders.event_msg : simpl never.
#[local] Arguments Z.mul : simpl never.

(** The handler over any charge that makes at most its order's reservation, and that
    one for sure when it authorizes. *)
Section Handler.
Context (charge : Context → option ChargeRequest → prog call (result ChargeResponse)) (o : order).
Hypothesis charge_shows : ∀ ctx req l, can_show (charge ctx req) l → l = [] ∨ l = [reservation o].
Hypothesis charge_returns : ∀ ctx req l r, can_return (charge ctx req) l r →
  (l = [] ∨ l = [reservation o]) ∧ (Orders.authorized r = true → l = [reservation o]).

Let handler r_ctx orderID body :=
  expand (serve_call (@request call) charge) (OrdersPool.handleCreate_prog Inject (app_of subj o) r_ctx orderID body).

Lemma shows_start l : l = [] ∨ l = [reservation o] → order_shows o l.
Proof.
  intros [->| ->]; exists true, (mkMsg "" "" ∅); [apply prefix_nil|].
  apply prefix_cons, prefix_nil.
Qed.

Lemma handler_can_show r_ctx orderID body l :
  can_show (handler r_ctx orderID body) l → order_shows o l.
Proof.
  unfold handler, OrdersPool.handleCreate_prog.
  destruct (Orders.decode_order body) as [req|]; [|intros ->; apply shows_start; by left].
  cbn. intros [->|(now & l0 & -> & H)]; [apply shows_start; by left|].
  apply can_show_bind in H as [H|([resp err] & l1 & l2 & -> & [Hl Ha]%charge_returns & H)];
    [apply charge_shows in H; by apply shows_start|].
  destruct err as [e|]; [cbn in H; subst l2; rewrite app_nil_r; by apply shows_start|].
  assert (Hauth : Orders.authorized (resp, None) =
            (Paymentsv1.GetStatus resp =? ChargeResponse_STATUS_AUTHORIZED)) by done.
  cbn in H. destruct (Paymentsv1.GetStatus resp =? _); cbn in H;
    [|subst l2; rewrite app_nil_r; by apply shows_start].
  rewrite (Ha Hauth). cbn [Datatypes.app].
  destruct H as [->|(b & l3 & -> & H)]; [apply shows_start; by right|]. destruct b; cbn in H.
  { subst l3. by exists true, (mkMsg "" "" ∅). }
  destruct H as [->|(created & l4 & -> & [->|(e & l5 & -> & ->)])].
  1,2: exists false, (mkMsg "" "" ∅); do 2 apply prefix_cons; apply prefix_nil.
  by eexists false, _.
Qed.

Lemma handler_can_return r_ctx orderID body l ops :
  can_return (handler r_ctx orderID body) l ops →
  ∃ r, ops = Orders.answer orderID (Orders.outcome_of (Orders.decode_order body) r) ∧
    (Orders.decode_order body ≠ None → Orders.authorized r = true → reservation o ∈ l).
Proof.
  unfold handler, OrdersPool.handleCreate_prog.
  destruct (Orders.decode_order body) as [req|]; [|intros [-> ->]; by exists (None, None)].
  cbn. intros (now & l0 & -> & H).
  apply can_return_bind in H as ([resp err] & l1 & l2 & -> & [Hl Ha]%charge_returns & H).
  exists (resp, err). split.
  - destruct err as [e|]; [by destruct H as [_ ->]|].
    assert (Hauth : Orders.authorized (resp, None) =
              (Paymentsv1.GetStatus resp =? ChargeResponse_STATUS_AUTHORIZED)) by done.
    cbn in H. unfold Orders.outcome_of. cbn [snd]. rewrite Hauth. destruct (Paymentsv1.GetStatus resp =? _); cbn in H; [|by destruct H as [_ ->]].
    destruct H as (b & l3 & -> & H). destruct b; cbn in H; [by destruct H as [_ ->]|].
    by destruct H as (created & l4 & -> & e & l5 & -> & _ & ->).
  - intros _ Hauth. rewrite (Ha Hauth). cbn. left.
Qed.
End Handler.

(** ** The inventory's store over a run *)

Definition reserved_ids (tr : list (nat * obs)) : list string :=
  omap (λ e, match e.2 with Reserved id _ => Some id | _ => None end) tr.

(** Everything reserved is one DEFAULT item. *)
Definition default_only (R : Type) (c : call R) : Prop :=
  match c with CReserve _ _ req => GetItems req = default_items | _ => True end.

Lemma threads_default orders watch : Forall (all_calls default_only) (threads orders watch).
Proof.
  apply Forall_app. split.
  - apply Forall_fmap, Forall_forall. intros o _. apply all_calls_bind; [|done].
    apply all_calls_expand. intros R c. destruct c; try (split; done).
    cbn. split; [done|]. intros [|e|e]; repeat first [done|split; [done|]|intros ?|case_match|progress cbn].
  - apply Forall_singleton. apply all_calls_bind; [|done]. apply all_calls_expand.
    intros R c. by destruct c; try (split; done).
Qed.

Lemma step_store {R} (c : call R) (s : cloud W * wst) id :
  default_only R c →
  Inventory.store (k_inv (exec (do_call c) s).1) !! id =
    if decide (id ∈ reserved_ids (pair 0%nat <$> shows c (fst (do_call c s)))) then Some default_items
    else Inventory.store (k_inv s.1) !! id.
Proof.
  destruct s as [[inv net w] f].
  assert (Hnone : ∀ x : option Inventory.items, x = if decide (id ∈ []) then Some default_items else x)
    by (intros x; by rewrite decide_False by apply not_elem_of_nil).
  destruct c; intros Hd; unfold exec, default_only in *; cbn in *; try apply Hnone.
  - unfold PublishMsg, cloud_js, on_rest. cbn. destruct (PublishMsg _ _ _). apply Hnone.
  - unfold next_delivery. cbn. destruct net; apply Hnone.
  - unfold Sleep, cloud_timer, on_rest. cbn. destruct (Sleep _ _). apply Hnone.
  - unfold on_inv. rewrite Inventory.server_Reserve_run. cbn in *. rewrite Hd.
    destruct (decide (id = id0)) as [->|Hne].
    + rewrite lookup_insert_eq, decide_True; [done|by left].
    + rewrite lookup_insert_ne by done. rewrite decide_False; [done|]. by intros ?%list_elem_of_singleton.
Qed.

Lemma reserved_ids_app tr1 tr2 : reserved_ids (tr1 ++ tr2) = reserved_ids tr1 ++ reserved_ids tr2.
Proof. apply omap_app. Qed.

(** Threads do not matter to what was reserved. *)
Lemma reserved_ids_thread i j l : reserved_ids (pair i <$> l) = reserved_ids (pair j <$> l).
Proof.
  unfold reserved_ids. induction l as [|e l IH]; [done|]. cbn. by destruct e; rewrite IH.
Qed.

Lemma steps_store {A} (x y : list (prog call A) * (cloud W * wst)) n tr id :
  Forall (all_calls default_only) x.1 → steps x n tr y →
  Inventory.store (k_inv y.2.1) !! id =
    if decide (id ∈ reserved_ids tr) then Some default_items else Inventory.store (k_inv x.2.1) !! id.
Proof.
  intros Hall Hs. induction Hs as [x|x tr1 z n tr2 y Hx Hrest IH].
  { by rewrite decide_False by apply not_elem_of_nil. }
  destruct Hx as [i R c k pool s Hi]. cbn [fst snd] in *.
  rewrite Forall_lookup in Hall. destruct (Hall _ _ Hi) as [Hc Hk].
  rewrite IH by (apply Forall_insert; [by apply Forall_lookup|apply Hk]).
  rewrite step_store by done. rewrite reserved_ids_app, (reserved_ids_thread i 0).
  repeat case_decide; set_solver.
Qed.

Lemma checkout_thread (orders : list order) watch i o :
  orders !! i = Some o →
  threads orders watch !! i = Some (ops ← handle_prog o; mret (inl ops)).
Proof.
  intros Hi. unfold threads. rewrite lookup_app_l by (rewrite length_fmap; by eapply lookup_lt_Some).
  by rewrite list_lookup_fmap, Hi.
Qed.

(** ** Properties *)

(** The composition is the code.  Run alone, an order's program is [handleCreate]
    over a payments client that runs [Payments.Charge] over an inventory client that
    runs [server_Reserve], both behind the network. *)
Lemma checkout_alone o (s : cloud W * wst) :
  run (handle_prog o) s =
  Orders.handleCreate (CW := OrdersPool.with_flag_clock) (WW := OrdersPool.with_flag_wall)
    (FW := OrdersPool.with_flag_paused) (JW := OrdersPool.with_flag_js) Inject
    (OrdersPool.app_with_flag (app_of subj o)) (OrdersPool.o_ctx (c_order o))
    (OrdersPool.o_id (c_order o)) (OrdersPool.o_body (c_order o)) s.
Proof.
  unfold handle_prog. rewrite run_expand, <- OrdersPool.handleCreate_run_alone.
  apply run_ext. intros R c [k f].
  destruct c; try (unfold do_call at 1; cbn [serve_call]; rewrite run_request; reflexivity).
  unfold do_call. cbn [serve_call OrdersPool.call_handler fst snd].
  apply rpc_alone. intros. apply Charge_alone.
Qed.

(** Every confirmed order has its reservation.  However many orders run at once,
    however their calls interleave in the three services and whatever the network
    loses: an order reserves at most once and publishes only after its reservation; an
    order answered 200 has its own reservation, of one DEFAULT item, in the store; and
    the store holds what it held before and the reservations made, nothing else. *)
Theorem confirmed_orders_reserved (orders : list order) watch (s s' : cloud W * wst) n tr pool :
  steps (threads orders watch, s) n tr (pool, s') →
  (∀ id, Inventory.store (k_inv s'.1) !! id =
     if decide (id ∈ reserved_ids tr) then Some default_items
     else Inventory.store (k_inv s.1) !! id) ∧
  ∀ i o, orders !! i = Some o →
    order_shows o (of_thread i tr) ∧
    ∀ ops, pool !! i = Some (Ret (inl ops)) → Http.status (Http.serve ops) = 200 →
      Inventory.store (k_inv s'.1) !! c_rid o = Some default_items.
Proof.
  intros Hs. assert (Hstore : ∀ id, Inventory.store (k_inv s'.1) !! id =
     if decide (id ∈ reserved_ids tr) then Some default_items
     else Inventory.store (k_inv s.1) !! id).
  { intros id. by apply (steps_store (threads orders watch, s) (pool, s') n tr id); [apply threads_default|]. }
  split; [exact Hstore|]. intros i o Hi.
  pose proof (checkout_thread orders watch i o Hi) as Hp. split.
  - pose proof (pool_thread _ _ _ _ _ _ _ _ Hs Hp) as Hsh.
    eapply handler_can_show, can_show_wrap, Hsh; [apply charge_rpc_shows|apply charge_rpc_returns].
  - intros ops Hret Hst.
    pose proof (pool_returned _ _ _ _ _ _ _ _ _ Hs Hp Hret) as Hr.
    apply can_return_wrap in Hr as (ops' & [= <-] & H).
    eapply handler_can_return in H as (r & -> & Hres); [|apply charge_rpc_returns].
    rewrite Orders.answer_status in Hst. rewrite Hstore, decide_True; [done|].
    assert (Hin : reservation o ∈ of_thread i tr).
    { apply Hres.
      - intros Hnone. by rewrite Hnone in Hst.
      - unfold Orders.outcome_of in Hst. destruct (Orders.decode_order _); [|done].
        destruct (snd r); [done|]. by destruct (Orders.authorized r). }
    apply elem_of_thread in Hin. unfold reserved_ids. apply list_elem_of_omap.
    by exists (i, reservation o).
Qed.
End Cloud.

(** ** A concrete checkout

    Two orders at once; the response to the first one's reservation is lost. *)

#[local] Instance shop_clock : Clock Orders.Recording.world := Orders.Recording.world_clock.
#[local] Instance shop_wall : WallClock Orders.Recording.world := Orders.Recording.world_wall.
#[local] Instance shop_js : JetStream Orders.Recording.world := Orders.Recording.jetstream None.
#[local] Instance shop_timer : Timer Orders.Recording.world := λ d,
  modify (λ w, Orders.Recording.mkWorld (Orders.Recording.log w) (Orders.Recording.clock w + d)
    (Orders.Recording.wall w + d) (Orders.Recording.paused w)).

Definition two_orders : list order :=
  [ mkOrder (OrdersPool.mkOrder Background "o-1" "{}") 0 "p-1" "r-1";
    mkOrder (OrdersPool.mkOrder Background "o-2" "{}") 7 "p-2" "r-2" ].

Definition shop_threads : list (prog call (list rw_op + status)) :=
  threads (λ _ h, h) "orders.events.created" two_orders (mret Watching).

Definition shop_start : cloud Orders.Recording.world * wst :=
  (mkCloud Inventory.new_server [Delivered; LostResponse (Error "deadline exceeded")]
     (Orders.Recording.mkWorld [] 0 0 false), mkWst false []).

Definition shop_schedule : list nat :=
  [0; 0; 0; 0; 1; 1; 0; 1; 1; 1; 1; 1; 1]%nat.

Definition shop_end := scheduled shop_schedule shop_threads shop_start.

Definition status_of (i : nat) : option Z :=
  match shop_end.1 !! i with
  | Some (Ret (inl ops)) => Some (Http.status (Http.serve ops))
  | _ => None
  end.

(** A reservation whose answer is lost stays: the first order is declined with 402,
    the second confirmed, and both have a reservation, which nothing releases. *)
Theorem lost_response_leaks :
  status_of 0 = Some 402 ∧ status_of 1 = Some 200 ∧
  Inventory.store (k_inv shop_end.2.1) !! "r-1" = Some default_items ∧
  Inventory.store (k_inv shop_end.2.1) !! "r-2" = Some default_items.
Proof. split_and!; vm_compute; reflexivity. Qed.

Lemma confirmed_orders_reserved_witness :
  Inventory.store (k_inv shop_end.2.1) !! "r-2" = Some default_items ∧
  Inventory.store (k_inv shop_end.2.1) !! "r-3" = None.
Proof.
  destruct (scheduled_steps shop_schedule shop_threads shop_start) as [n Hs].
  rewrite (surjective_pairing (scheduled _ _ _)) in Hs.
  destruct (confirmed_orders_reserved (λ _ h, h) "orders.events.created" two_orders (mret Watching)
    shop_start _ n _ _ Hs) as [Hstore Horders].
  split.
  - destruct (Horders 1%nat _ eq_refl) as [_ Hans].
    eassert (Hret : shop_end.1 !! 1%nat = Some (Ret (inl _))) by (vm_compute; reflexivity).
    apply (Hans _ Hret). vm_compute. reflexivity.
  - fold shop_end in Hstore. rewrite (Hstore "r-3"). vm_compute. reflexivity.
Defined.

End Checkout.
