(* ===== verification/Detached.v ===== *)
(** * The checkout with callees that outlive their callers

    [Checkout] lets a caller wait until its callee is done.  In the real services it
    does not: [handleCreate] gives a charge five seconds, and when they are over it
    answers 502 and returns while [Charge], and the [Reserve] it asked for, may still be
    running.  Here each order has three threads, one in each service, that only meet on
    the wire: a caller sends a request and later looks for the answer, and a callee that
    finds a request serves it and leaves its answer there, whether or not anybody still
    waits.  A look that comes too early is the caller's deadline, a callee that looked
    too early is a request that never arrived.  The theorems hold for every number of
    orders, every interleaving and every error the network reports, and also for callers
    that give up without a deadline; [Deadlines] makes these wait. *)

From Stdlib Require Import ZArith Lia.
From S2P Require Import Prelude GoLib GoText Rfc3339 Http Json JsonCodec Obs Rpc Inventory Payments Orders CbWatch Pool Rely OrdersPool Checkout.
Import GoInt GoTime Rfc3339 Http Json JsonCodec Obs Inventoryv1 Paymentsv1 CbWatch Pool Rely Checkout Rpc.

Module Detached.
Local Open Scope Z_scope.

(** ** The wire

    The calls of one method, by the number of the order they belong to: what was sent,
    and what was answered. *)

Record channel (Req Resp : Type) := mkChannel {
  sent : gmap nat (Context * option Req);
  answered : gmap nat (result Resp);
}.
Arguments mkChannel {Req Resp}.
Arguments sent {Req Resp}.
Arguments answered {Req Resp}.

Record wires := mkWires {
  reserves : channel ReserveRequest ReserveResponse;
  releases : channel ReleaseRequest ReleaseResponse;
  charges : channel ChargeRequest ChargeResponse;
}.

Definition no_wires : wires := mkWires (mkChannel ∅ ∅) (mkChannel ∅ ∅) (mkChannel ∅ ∅).

Definition on_channel {Req Resp A} (m : rpc Req Resp) : M (channel Req Resp) A → M wires A :=
  match m in rpc Req Resp return M (channel Req Resp) A → M wires A with
  | Reserve => λ f w, let '(x, c) := f (reserves w) in (x, mkWires c (releases w) (charges w))
  | Release => λ f w, let '(x, c) := f (releases w) in (x, mkWires (reserves w) c (charges w))
  | Charge => λ f w, let '(x, c) := f (charges w) in (x, mkWires (reserves w) (releases w) c)
  end.

Definition channel_of {Req Resp} (m : rpc Req Resp) (w : wires) : channel Req Resp :=
  fst (on_channel m Prelude.get w).

(** What a call reports when its context's deadline passes. *)
Definition DeadlineExceeded : error :=
  Error "rpc error: code = DeadlineExceeded desc = context deadline exceeded".

(** ** Calls: a process's own, and its dealings with the wire *)

Inductive call : Type → Type :=
  | Own {R} (c : Checkout.call R) : call R
  | Send {Req Resp} (m : rpc Req Resp) (i : nat) (ctx : Context) (req : option Req) : call unit
  | Take {Req Resp} (m : rpc Req Resp) (i : nat) : call (option (Context * option Req))
  | Reply {Req Resp} (m : rpc Req Resp) (i : nat) (r : result Resp) : call unit
  | Await {Req Resp} (m : rpc Req Resp) (i : nat) (ctx : Context) : call (result Resp).

#[export] Instance call_observer : Observer call Checkout.obs :=
  λ R c, match c in call R return R → list Checkout.obs with
  | Own c => shows c
  | _ => λ _, []
  end.

Section Detached.
Context {W : Type} {CW : Clock W} {WW : WallClock W} {JW : JetStream W} {TW : Timer W}.

Definition state : Type := (cloud W * wst) * wires.

Definition on_cloud {A} (m : M (cloud W * wst) A) : M state A := λ s,
  let '(x, c) := m s.1 in (x, (c, s.2)).
Definition on_wires {A} (m : M wires A) : M state A := λ s,
  let '(x, w) := m s.2 in (x, (s.1, w)).

(** The answer a caller gets: the network's error if it has one, else what is on the
    wire, else nothing came in time. *)
Definition look {Resp} (d : delivery) (r : option (result Resp)) : result Resp :=
  match d, r with
  | Delivered, Some r => r
  | Delivered, None => (None, Some DeadlineExceeded)
  | (LostRequest e | LostResponse e), _ => (None, Some e)
  end.

#[export] Instance detached_handler : Handler call state :=
  λ R c, match c in call R return M state R with
  | Own c => on_cloud (do_call c)
  | Send m i ctx req =>
      on_wires (on_channel m (modify (λ c, mkChannel (<[i := (ctx, req)]> (sent c)) (answered c))))
  | Take m i => on_wires (on_channel m (gets (λ c, sent c !! i)))
  | Reply m i r => on_wires (on_channel m (modify (λ c, mkChannel (sent c) (<[i := r]> (answered c)))))
  | Await m i _ =>
      d ← on_cloud (do_call CNet);
      r ← on_wires (on_channel m (gets (λ c, answered c !! i)));
      mret (look d r)
  end.

(** ** Programs *)

Definition own {R} (c : Checkout.call R) : prog call R := request (Own c).

(** One side of an RPC and the other. *)
Definition invoke {Req Resp} (m : rpc Req Resp) (i : nat) (ctx : Context) (req : option Req)
    : prog call (result Resp) :=
  _ ← request (Send m i ctx req);
  request (Await m i ctx).

Definition serve {Req Resp} (m : rpc Req Resp) (i : nat)
    (method : Context → option Req → prog call (result Resp)) : prog call unit :=
  got ← request (Take m i);
  match got with
  | None => mret ()
  | Some (ctx, req) => r ← method ctx req; request (Reply m i r)
  end.

Context (Inject : Context → Header → Header) (subj : string).

(** What the three services do for an order. *)
Definition orders_prog (i : nat) (o : order) : prog call (list rw_op) :=
  expand (serve_call (@own) (invoke Charge i))
    (OrdersPool.handleCreate_prog Inject (app_of (W := W) subj o) (OrdersPool.o_ctx (c_order o))
       (OrdersPool.o_id (c_order o)) (OrdersPool.o_body (c_order o))).

Definition payments_prog (i : nat) (o : order) : prog call unit :=
  serve Charge i (λ ctx req, Charge_prog (λ d, own (CSleep d)) (invoke Reserve i) o req ctx).

Definition inventory_prog (i : nat) (o : order) : prog call unit :=
  serve Reserve i (λ ctx req, own (CReserve (c_rid o) ctx req)).

Definition watcher_prog (watch : prog OrdersPool.call status) : prog call status :=
  expand (serve_call (@own) (λ _ _, mret (None, None))) watch.

(** All threads; the handlers of orders come first, and they alone have an answer. *)
Definition threads (orders : list order) (watch : prog OrdersPool.call status)
    : list (prog call (option (list rw_op))) :=
  imap (λ i o, ops ← orders_prog i o; mret (Some ops)) orders ++
  imap (λ i o, _ ← payments_prog i o; mret None) orders ++
  imap (λ i o, _ ← inventory_prog i o; mret None) orders ++
  [_ ← watcher_prog watch; mret None].

(** ** The reservation of an order, and what the wire says about it *)

Definition reserved (o : order) (s : state) : Prop :=
  Inventory.store (k_inv s.1.1) !! c_rid o = Some default_items.

Context (orders : list order).

(** An answer that vouches for the reservation: one with no error to [Reserve], an
    authorization to [Charge]. *)
Definition vouches {Req Resp} (m : rpc Req Resp) : result Resp → bool :=
  match m in rpc Req Resp return result Resp → bool with
  | Reserve => λ r, bool_decide (snd r = None)
  | Release => λ _, false
  | Charge => Orders.authorized
  end.

(** A request that asks for no more than the one DEFAULT item. *)
Definition modest {Req Resp} (m : rpc Req Resp) : option Req → Prop :=
  match m in rpc Req _ return option Req → Prop with
  | Reserve => λ req, GetItems req = default_items
  | _ => λ _, True
  end.

(** What is on the wire for an order: requests that ask for the one DEFAULT item, and
    answers that vouch for its reservation only when that is in the store. *)
Record wire_ok (i : nat) (o : order) (s : state) : Prop := {
  ok_items : ∀ Req Resp (m : rpc Req Resp) x,
    sent (channel_of m s.2) !! i = Some x → modest m x.2;
  ok_answers : ∀ Req Resp (m : rpc Req Resp) r,
    answered (channel_of m s.2) !! i = Some r → vouches m r = true → reserved o s;
}.

Definition wires_ok (s : state) : Prop := ∀ i o, orders !! i = Some o → wire_ok i o s.

(** Nobody takes a reservation back. *)
Definition reservations_stay (s s' : state) : Prop := ∀ o, reserved o s → reserved o s'.

(** What the threads may do: reserve one DEFAULT item for one of the orders, and publish
    for an order only when its reservation is in the store. *)
Definition fit (i : nat) R (c : Checkout.call R) (s : state) : Prop :=
  match c with
  | CReserve id _ req => GetItems req = default_items ∧ id ∈ c_rid <$> orders
  | CPublish _ _ => ∀ o, orders !! i = Some o → reserved o s
  | _ => True
  end.

Definition may (i : nat) R (c : call R) (s : state) : Prop :=
  match c with @Own T c => fit i T c s | _ => True end.

#[local] Abbreviation promising i := (promises wires_ok reservations_stay (may i)).
#[local] Abbreviation lasting := (stable wires_ok reservations_stay).

Lemma reserved_stays o : lasting (reserved o).
Proof. intros s s' _ HG. apply HG. Qed.

Lemma own_reserved {R} (c : Checkout.call R) (s : state) o :
  default_only R c → reserved o s → reserved o (exec (do_call (Own c)) s).
Proof.
  intros Hd Hs. unfold reserved, exec in *. cbn. unfold on_cloud.
  pose proof (step_store c s.1 (c_rid o) Hd) as Hst. unfold exec in Hst.
  destruct (do_call c s.1) as [x k]. cbn in *. rewrite Hst, Hs. by case_decide.
Qed.

(** A process's own calls leave the wire alone. *)
Lemma own_ok {R} (c : Checkout.call R) (s : state) :
  default_only R c → wires_ok s →
  wires_ok (exec (do_call (Own c)) s) ∧ reservations_stay s (exec (do_call (Own c)) s).
Proof.
  intros Hd HJ. split; [|intros o; by apply own_reserved]. intros i o Hi.
  assert (Hw : (exec (do_call (Own c)) s).2 = s.2).
  { unfold exec. cbn. unfold on_cloud. by destruct (do_call c s.1). }
  destruct (HJ i o Hi) as [H1 H2].
  split; rewrite Hw; [exact H1|]. intros; apply own_reserved; eauto.
Qed.

Lemma fit_default i {R} (c : Checkout.call R) s : fit i R c s → default_only R c.
Proof. destruct c; cbn; try done. by intros [? _]. Qed.

Lemma own_promises i F {R} (c : Checkout.call R) (F' : R → state → Prop) :
  (∀ s, F s → fit i R c s) → (∀ r, lasting (F' r)) →
  (∀ s, wires_ok s → F s → F' (fst (do_call (Own c) s)) (exec (do_call (Own c)) s)) →
  promising i F (own c) F'.
Proof.
  intros Hfit Hst HF'. apply promises_request; [done|]. intros s HJ Hs.
  pose proof (Hfit s Hs) as Hc. destruct (own_ok c s (fit_default _ _ _ Hc) HJ) as [HJ' HG].
  split_and!; [done..|by apply HF'].
Qed.

(** Calls after which a thread knows what it knew. *)
Lemma own_keeps i F {R} (c : Checkout.call R) :
  lasting F → (∀ s, F s → fit i R c s) → promising i F (own c) (λ _, F).
Proof.
  intros HF Hfit. apply own_promises; [done..|]. intros s HJ Hs.
  apply (HF s); [done| |done]. by apply own_ok; [eapply fit_default, Hfit|].
Qed.

(** Dealings with the wire leave the store alone. *)
Lemma wire_reserved {A} (f : M wires A) (s : state) o : reserved o (exec (on_wires f) s) ↔ reserved o s.
Proof. unfold exec, on_wires, reserved. by destruct (f s.2). Qed.

Lemma send_ok {Req Resp} (m : rpc Req Resp) i ctx req (s : state) :
  modest m req → wires_ok s → wires_ok (exec (do_call (Send m i ctx req)) s).
Proof.
  intros Hreq HJ j o Hj. destruct (HJ j o Hj) as [Hi Ha]. split.
  - intros Req' Resp' m' x Hx. specialize (Hi _ _ m' x). destruct m, m'; cbn in *; auto.
    destruct (decide (i = j)) as [->|Hne].
    + rewrite lookup_insert_eq in Hx. by injection Hx as <-.
    + rewrite lookup_insert_ne in Hx by done. by apply Hi.
  - intros Req' Resp' m' r Hr Hv. apply (wire_reserved _ s). apply (Ha _ _ m' r); [|done].
    by destruct m, m'.
Qed.

Lemma reply_ok {Req Resp} (m : rpc Req Resp) i r (s : state) :
  (∀ o, orders !! i = Some o → vouches m r = true → reserved o s) →
  wires_ok s → wires_ok (exec (do_call (Reply m i r)) s).
Proof.
  intros Hr HJ j o Hj. destruct (HJ j o Hj) as [Hi Ha]. split.
  - intros Req' Resp' m' x Hx. apply Hi. by destruct m, m'.
  - intros Req' Resp' m' r' Hr' Hv. apply (wire_reserved _ s).
    specialize (Ha _ _ m' r'). destruct (decide (i = j)) as [->|Hne].
    + destruct m, m'; cbn in Hr'; try (by apply Ha);
        rewrite lookup_insert_eq in Hr'; injection Hr' as <-; by apply Hr.
    + apply Ha; [|done]. destruct m, m'; cbn in Hr'; try done; by rewrite lookup_insert_ne in Hr'.
Qed.

(** What a caller gets, it finds on the wire unless it is an error. *)
Lemma look_vouches {Req Resp} (m : rpc Req Resp) d r :
  vouches m (look d r) = true → r = Some (look d r).
Proof. by destruct d, r, m. Qed.

Lemma await_run {Req Resp} (m : rpc Req Resp) i ctx (s : state) :
  do_call (Await m i ctx) s =
  (look (fst (do_call CNet s.1)) (answered (channel_of m s.2) !! i), exec (do_call (Own CNet)) s).
Proof.
  destruct s as [c []]. unfold exec. cbn [do_call detached_handler]. rewrite !bind_run.
  unfold on_cloud. cbn. destruct (next_delivery c.1). by destruct m.
Qed.

(** ** What the threads promise *)

Lemma invoke_promises j i o {Req Resp} (m : rpc Req Resp) ctx req :
  orders !! i = Some o → modest m req →
  promising j (λ _, True) (invoke m i ctx req) (λ r s, vouches m r = true → reserved o s).
Proof.
  intros Ho Hreq. apply (promises_bind _ _ _ _ _ _ (λ _ _, True)).
  - apply promises_request; [intros; apply stable_True|]. intros s HJ _.
    split_and!; [done|by apply send_ok| |done]. intros o' Hs. by apply wire_reserved.
  - intros _. apply promises_request; [intros r; apply stable_const, reserved_stays|].
    intros s HJ _. destruct (own_ok CNet s I HJ) as [HJ' HG].
    assert (Hx : exec (do_call (Await m i ctx)) s = exec (do_call (Own CNet)) s)
      by (unfold exec at 1; by rewrite await_run).
    rewrite Hx, await_run. split_and!; [done..|]. intros Hv. apply HG. apply look_vouches in Hv as Hr. by apply (ok_answers _ _ _ (HJ i o Ho) _ _ m _ Hr).
Qed.

Lemma serve_promises j i o {Req Resp} (m : rpc Req Resp) method :
  orders !! i = Some o →
  (∀ ctx req, modest m req →
     promising j (λ _, True) (method ctx req) (λ r s, vouches m r = true → reserved o s)) →
  promising j (λ _, True) (serve m i method) (λ _ _, True).
Proof.
  intros Ho Hm. apply (promises_bind _ _ _ _ _ _ (λ got _, ∀ x, got = Some x → modest m x.2)).
  - apply promises_request; [by intros r s s' _ _ Hr|]. intros s HJ _.
    assert (Hs : do_call (Take m i) s = (sent (channel_of m s.2) !! i, s)).
    { destruct s as [c w]. cbn. unfold on_wires. destruct m; by destruct w. }
    unfold exec. rewrite Hs. split_and!; [done..|by intros o'|].
    intros x. apply (ok_items _ _ _ (HJ i o Ho)).
  - intros [[ctx req]|]; [|by intros s]. apply promises_pure. intros Hreq. cbn beta iota.
    eapply promises_bind; [by apply Hm, (Hreq (ctx, req))|]. intros r.
    apply promises_request; [done|]. intros s HJ Hr. split_and!; [done| |by intros o'; apply wire_reserved|done].
    apply reply_ok; [|done]. intros o' Ho'. rewrite Ho' in Ho. by injection Ho as ->.
Qed.

(** An answer, with what it must know of the reservation. *)
Lemma answer_promises j F o orderID oc :
  (∀ s, F s → Orders.outcome_status oc = 200 → reserved o s) →
  promising j F (Ret (Orders.answer orderID oc))
    (λ ops s, Http.status (Http.serve ops) = 200 → reserved o s).
Proof. intros HF s _ Hs. rewrite Orders.answer_status. by apply HF. Qed.

Lemma orders_promises i o :
  orders !! i = Some o →
  promising i (λ _, True) (orders_prog i o)
    (λ ops s, Http.status (Http.serve ops) = 200 → reserved o s).
Proof.
  intros Ho. unfold orders_prog, OrdersPool.handleCreate_prog.
  set (id := OrdersPool.o_id (c_order o)).
  destruct (Orders.decode_order _) as [req|]; [|by apply (answer_promises _ _ _ id Orders.BadRequest)].
  rewrite expand_request. eapply promises_bind; [by apply own_keeps|]. intros now. cbn zeta.
  rewrite expand_request. eapply promises_bind; [by apply invoke_promises|]. intros [resp err].
  destruct err as [e|]; [by apply (answer_promises _ _ _ id Orders.Unavailable)|].
  destruct (Paymentsv1.GetStatus resp =? ChargeResponse_STATUS_AUTHORIZED) eqn:Est; cbn [negb];
    [|by apply (answer_promises _ _ _ id (Orders.Declined (GetDeclineReason resp)))].
  apply (promises_strengthen _ _ _ _ (reserved o)); [intros s _ Hs; apply Hs; cbn; by rewrite Est|].
  pose proof (reserved_stays o) as Hst.
  rewrite expand_request. eapply promises_bind; [by apply own_keeps|]. intros paused.
  destruct paused.
  - by apply (answer_promises _ _ _ id (Orders.Created (GetPaymentId resp))).
  - apply (promises_bind _ _ _ _ (own CUTCNow) _ (λ _, reserved o)); [by apply own_keeps|]. intros created.
    apply (promises_bind _ _ _ _ (own (CPublish _ _)) _ (λ _, reserved o)).
    + apply own_keeps; [done..|]. intros s Hs o' Ho'. rewrite Ho in Ho'. by injection Ho' as <-.
    + intros _. by apply (answer_promises _ _ _ id (Orders.Created (GetPaymentId resp))).
Qed.

Lemma payments_promises j i o :
  orders !! i = Some o → promising j (λ _, True) (payments_prog i o) (λ _ _, True).
Proof.
  intros Ho. apply (serve_promises j i o); [done|]. intros ctx req _. unfold Charge_prog.
  apply (promises_bind _ _ _ _ (own (CSleep _)) _ (λ _ _, True)); [by apply own_keeps|]. intros _.
  eapply promises_bind; [by apply (invoke_promises j i o)|]. intros [resv err].
  destruct (_ || _) eqn:Eok; intros s _ Hs Hv; [done|]. apply Hs. cbn.
  apply orb_false_iff in Eok as [Herr _]. apply bool_decide_eq_false in Herr. apply bool_decide_eq_true.
  by destruct err; [destruct Herr|].
Qed.

Lemma inventory_promises j i o :
  orders !! i = Some o → promising j (λ _, True) (inventory_prog i o) (λ _ _, True).
Proof.
  intros Ho. apply (serve_promises j i o); [done|]. intros ctx req Hreq.
  apply own_promises; [|intros r; apply stable_const, reserved_stays|].
  { intros s _. split; [done|]. apply list_elem_of_fmap. exists o. split; [done|].
    by eapply list_elem_of_lookup_2. }
  intros s HJ _ _. unfold reserved, exec. cbn. unfold on_cloud. cbn. unfold on_inv.
  rewrite Inventory.server_Reserve_run. cbn. rewrite lookup_insert_eq. by rewrite Hreq.
Qed.

Lemma watcher_promises j watch :
  orders !! j = None → promising j (λ _, True) (watcher_prog watch) (λ _ _, True).
Proof.
  intros Hj. apply promises_expand. intros R c. destruct c; try (by apply own_keeps); [by intros s|].
  apply own_keeps; [done|]. intros s _ o Ho. by rewrite Hj in Ho.
Qed.

(** ** What can be on a thread's record *)

(** The thread of an order's reservation makes that one, if any. *)
Lemma inventory_can_show i o l :
  can_show (inventory_prog i o) l → ∃ its, l `prefix_of` [Reserved (c_rid o) its].
Proof.
  unfold inventory_prog, serve. cbn. intros [->|(got & l1 & -> & H)]; [exists []; apply prefix_nil|].
  destruct got as [[ctx req]|]; cbn in H; [|subst l1; exists []; apply prefix_nil].
  exists (GetItems req). destruct H as [->|(r & l2 & -> & [->|([] & l3 & -> & ->)])];
    [apply prefix_nil|done..].
Qed.

(** ** Where the threads are *)

Lemma thread_lookup watch i p :
  threads orders watch !! i = Some p →
  (∃ o, orders !! i = Some o ∧ p = (ops ← orders_prog i o; mret (Some ops))) ∨
  orders !! i = None ∧
    ((∃ j o, orders !! j = Some o ∧ i = (length orders + j)%nat ∧ p = (_ ← payments_prog j o; mret None)) ∨
     (∃ j o, orders !! j = Some o ∧ i = (length orders + length orders + j)%nat ∧
        p = (_ ← inventory_prog j o; mret None)) ∨
     p = (_ ← watcher_prog watch; mret None)).
Proof.
  unfold threads. rewrite lookup_app_Some, list_lookup_imap_Some.
  intros [(o & Ho & ->)|[Hi H]]; [left; eauto|right]. rewrite length_imap in *.
  split; [by apply lookup_ge_None|]. apply lookup_app_Some in H as [H|[Hi2 H]].
  { rewrite list_lookup_imap_Some in H. destruct H as (o & Ho & ->). left.
    exists (i - length orders)%nat, o. split_and!; [done|lia|done]. }
  right. rewrite length_imap in *. apply lookup_app_Some in H as [H|[Hi3 H]].
  { rewrite list_lookup_imap_Some in H. destruct H as (o & Ho & ->). left.
    exists (i - length orders - length orders)%nat, o. split_and!; [done|lia|done]. }
  right. apply list_lookup_singleton_Some in H as [_ <-]. done.
Qed.

Lemma order_thread watch i o :
  orders !! i = Some o → threads orders watch !! i = Some (ops ← orders_prog i o; mret (Some ops)).
Proof.
  intros Hi. unfold threads. rewrite lookup_app_l by (rewrite length_imap; by eapply lookup_lt_Some).
  by rewrite list_lookup_imap, Hi.
Qed.

Lemma payments_thread watch i o :
  orders !! i = Some o →
  threads orders watch !! (length orders + i)%nat = Some (_ ← payments_prog i o; mret None).
Proof.
  intros Hi. pose proof (lookup_lt_Some _ _ _ Hi). unfold threads.
  rewrite lookup_app_r, lookup_app_l by (rewrite !length_imap; lia).
  rewrite !length_imap, list_lookup_imap.
  replace (length orders + i - length orders)%nat with i by lia. by rewrite Hi.
Qed.

Lemma inventory_thread watch i o :
  orders !! i = Some o →
  threads orders watch !! (length orders + length orders + i)%nat =
    Some (_ ← inventory_prog i o; mret None).
Proof.
  intros Hi. pose proof (lookup_lt_Some _ _ _ Hi). unfold threads.
  rewrite lookup_app_r, lookup_app_r, lookup_app_l by (rewrite !length_imap; lia).
  rewrite !length_imap, list_lookup_imap.
  replace (length orders + length orders + i - length orders - length orders)%nat with i by lia.
  by rewrite Hi.
Qed.

(** The promise of each thread: of an order's, that a 200 comes with its reservation. *)
Definition kept (i : nat) (a : option (list rw_op)) (s : state) : Prop :=
  ∀ o ops, orders !! i = Some o → a = Some ops → Http.status (Http.serve ops) = 200 → reserved o s.

Lemma threads_live watch (s : state) :
  s.2 = no_wires → all_live wires_ok reservations_stay may kept (threads orders watch) s.
Proof.
  intros Hs. apply (all_live_intro _ _ _ _ _ _ (λ _ _, True)); [|done..|].
  { intros i o _. split; intros Req Resp m x H; rewrite Hs in H; by destruct m. }
  intros i p [(o & Ho & ->)|[Hi H]]%thread_lookup.
  - eapply promises_bind; [by apply orders_promises|]. intros ops s' _ Hk o' ops' Ho' [= <-].
    rewrite Ho in Ho'. by injection Ho' as <-.
  - assert (Hnone : ∀ q : prog call unit, promising i (λ _, True) q (λ _ _, True) →
              promising i (λ _, True) (_ ← q; mret None) (kept i)).
    { intros q Hq. eapply promises_bind; [exact Hq|]. intros _ s' _ _ o ops _ [=]. }
    destruct H as [(j & o & Ho & _ & ->)|[(j & o & Ho & _ & ->)| ->]].
    + apply Hnone. by eapply payments_promises.
    + apply Hnone. by eapply inventory_promises.
    + eapply promises_bind; [by apply watcher_promises|]. intros _ s' _ _ o ops _ [=].
Qed.

(** ** How many calls the threads make *)

Lemma serve_calls n {Req Resp} (m : rpc Req Resp) i method :
  (∀ ctx req, at_most n (method ctx req)) → at_most (2 + n) (serve m i method).
Proof.
  intros Hn. change (2 + n)%nat with (S (S n)). intros [[ctx req]|]; [|done].
  apply (at_most_weaken (n + 1)); [|lia]. apply at_most_bind; [apply Hn|]. by intros r r'.
Qed.

Lemma payments_calls i o : at_most 5 (payments_prog i o).
Proof. apply (serve_calls 3). intros ctx req. cbn. intros _ _ [resv err]. by destruct (_ || _). Qed.

Lemma inventory_calls i o : at_most 3 (inventory_prog i o).
Proof. apply (serve_calls 1). by intros ctx req r. Qed.

Lemma orders_calls i o : at_most 6 (orders_prog i o).
Proof.
  unfold orders_prog, OrdersPool.handleCreate_prog. destruct (Orders.decode_order _); [|done].
  cbn. intros now _ [resp [e|]]; [done|]. destruct (negb _); [done|]. intros []; [done|].
  by intros created.
Qed.

Lemma watcher_calls m watch : at_most m watch → at_most m (watcher_prog watch).
Proof.
  unfold watcher_prog. revert m. induction watch as [x|R x k IH]; intros m; [done|].
  destruct m as [|m]; [done|]. intros Hk.
  destruct x; try (intros v; by apply IH). apply (at_most_weaken m); [by apply IH|lia].
Qed.

Lemma wrap_calls n {A B} (p : prog call A) (f : A → B) : at_most n p → at_most n (a ← p; mret (f a)).
Proof. intros Hp. apply (at_most_weaken (n + 0)); [by apply at_most_bind|lia]. Qed.

Lemma threads_calls watch m :
  at_most m watch →
  Forall2 (λ n p, at_most n p)
    (replicate (length orders) 6 ++ replicate (length orders) 5 ++ replicate (length orders) 3 ++ [m])%nat
    (threads orders watch).
Proof.
  assert (Himap : ∀ n (f : nat → order → prog call (option (list rw_op))),
    (∀ i o, at_most n (f i o)) → Forall2 (λ n p, at_most n p) (replicate (length orders) n) (imap f orders)).
  { intros n f Hf. apply Forall2_replicate_l; [apply length_imap|]. apply Forall_lookup. intros i p.
    rewrite list_lookup_imap_Some. intros (o & _ & ->). apply Hf. }
  intros Hm. unfold threads. repeat apply Forall2_app.
  - apply Himap. intros i o. apply wrap_calls, orders_calls.
  - apply Himap. intros i o. apply wrap_calls, payments_calls.
  - apply Himap. intros i o. apply wrap_calls, inventory_calls.
  - apply Forall2_cons. split; [|by apply Forall2_nil]. by apply wrap_calls, watcher_calls.
Qed.

(** ** The account of the store *)

(** What was seen accounts for the store. *)
Definition accounts (s0 : state) (tr : list (nat * Checkout.obs)) (s : state) : Prop :=
  (∀ id, Inventory.store (k_inv s.1.1) !! id =
     if decide (id ∈ reserved_ids tr) then Some default_items
     else Inventory.store (k_inv s0.1.1) !! id) ∧
  reserved_ids tr ⊆ c_rid <$> orders.

Lemma own_accounts s0 i {R} (c : Checkout.call R) tr s :
  fit i R c s → accounts s0 tr s →
  accounts s0 (tr ++ (pair i <$> shows c (fst (do_call c s.1)))) (exec (do_call (Own c)) s).
Proof.
  intros Hfit [Hst Hids]. unfold accounts. rewrite reserved_ids_app, (reserved_ids_thread i 0).
  assert (Hc : exec (do_call (Own c)) s = (exec (do_call c) s.1, s.2)).
  { unfold exec. cbn. unfold on_cloud. by destruct (do_call c s.1). }
  rewrite Hc. split.
  - intros id. cbn [fst]. rewrite step_store by (by eapply fit_default).
    rewrite Hst. repeat case_decide; set_solver.
  - apply list_subseteq_app_iff_l. split; [done|].
    destruct c; try (intros x Hx; by apply not_elem_of_nil in Hx). cbn.
    destruct Hfit as [_ Hid]. by intros x ->%list_elem_of_singleton.
Qed.

Lemma step_accounts s0 i R (c : call R) tr s :
  may i R c s → accounts s0 tr s →
  accounts s0 (tr ++ (pair i <$> shows c (fst (do_call c s)))) (exec (do_call c) s).
Proof.
  assert (Hquiet : ∀ {A} (f : M wires A), accounts s0 tr s → accounts s0 (tr ++ []) (exec (on_wires f) s)).
  { intros A f Hacc. unfold exec, on_wires. rewrite app_nil_r. by destruct (f s.2). }
  destruct c as [T c|Req Resp m j ctx req|Req Resp m j|Req Resp m j r|Req Resp m j ctx]; intros Hm Hacc;
    [|by apply Hquiet..|].
  - pose proof (own_accounts s0 i c tr s Hm Hacc) as H. cbn. unfold on_cloud at 1.
    by destruct (do_call c s.1).
  - pose proof (own_accounts s0 i CNet tr s I Hacc) as H. unfold exec at 1. by rewrite await_run.
Qed.

(** ** Three threads of a pool, at work for one order *)

Section Three.
Context (a b c : nat) (Hab : a ≠ b) (Hac : a ≠ c) (Hbc : b ≠ c).

Definition trio : Type :=
  prog call (option (list rw_op)) * prog call (option (list rw_op)) * prog call (option (list rw_op)).

Definition has (pool : list (prog call (option (list rw_op)))) (t : trio) : Prop :=
  let '(p, q, r) := t in pool !! a = Some p ∧ pool !! b = Some q ∧ pool !! c = Some r.

(** The three can go from one point to another, wherever the rest of the pool is. *)
Definition goes (x y : trio * state) : Prop :=
  ∀ pool, has pool x.1 → ∃ pool', reaches (pool, x.2) (pool', y.2) ∧ has pool' y.1.

Lemma goes_refl x : goes x x.
Proof. intros pool Hx. exists pool. split; [apply reaches_refl|done]. Qed.

Lemma goes_trans x y z : goes x y → goes y z → goes x z.
Proof.
  intros H1 H2 pool Hx. destruct (H1 pool Hx) as (p1 & Hr1 & Hy). destruct (H2 p1 Hy) as (p2 & Hr2 & Hz).
  exists p2. split; [by eapply reaches_trans|done].
Qed.

Lemma goes_a {A} (p : prog call A) f q r s :
  goes ((p ≫= f, q, r), s) ((f (fst (run p s)), q, r), exec (run p) s).
Proof.
  intros pool (Ha & Hb & Hc). eexists. split; [by apply (reaches_run p f)|].
  split_and!; [|by rewrite list_lookup_insert_ne..].
  apply list_lookup_insert_eq. by eapply lookup_lt_Some.
Qed.

Lemma goes_b {A} p (q : prog call A) f r s :
  goes ((p, q ≫= f, r), s) ((p, f (fst (run q s)), r), exec (run q) s).
Proof.
  intros pool (Ha & Hb & Hc). eexists. split; [by apply (reaches_run q f)|].
  split_and!; [by rewrite list_lookup_insert_ne| |by rewrite list_lookup_insert_ne].
  apply list_lookup_insert_eq. by eapply lookup_lt_Some.
Qed.

Lemma goes_c {A} p q (r : prog call A) f s :
  goes ((p, q, r ≫= f), s) ((p, q, f (fst (run r s))), exec (run r) s).
Proof.
  intros pool (Ha & Hb & Hc). eexists. split; [by apply (reaches_run r f)|].
  split_and!; [by rewrite list_lookup_insert_ne..|].
  apply list_lookup_insert_eq. by eapply lookup_lt_Some.
Qed.

(** One call of one of them. *)
Lemma call_a {R} (x : call R) k q r s v s' y :
  do_call x s = (v, s') → goes ((k v, q, r), s') y → goes ((Call x k, q, r), s) y.
Proof.
  intros Hx. eapply goes_trans. pose proof (goes_a (request x) k q r s) as H.
  unfold exec in H. by rewrite run_request, Hx in H.
Qed.

Lemma call_b {R} p (x : call R) k r s v s' y :
  do_call x s = (v, s') → goes ((p, k v, r), s') y → goes ((p, Call x k, r), s) y.
Proof.
  intros Hx. eapply goes_trans. pose proof (goes_b p (request x) k r s) as H.
  unfold exec in H. by rewrite run_request, Hx in H.
Qed.

Lemma call_c {R} p q (x : call R) k s v s' y :
  do_call x s = (v, s') → goes ((p, q, k v), s') y → goes ((p, q, Call x k), s) y.
Proof.
  intros Hx. eapply goes_trans. pose proof (goes_c p q (request x) k s) as H.
  unfold exec in H. by rewrite run_request, Hx in H.
Qed.

(** The three stretches of a charge's callees. *)
#[local] Ltac charge_asks Hsent Hsleep :=
  eapply (call_b _ (Take Charge _)); [cbn; by rewrite Hsent|]; cbn;
  eapply call_b; [cbn; unfold on_cloud; cbn; by rewrite Hsleep|]; cbn;
  eapply call_b; [done|].
#[local] Ltac inventory_serves :=
  eapply (call_c _ _ (Take Reserve _)); [cbn; by rewrite lookup_insert_eq|]; cbn;
  eapply call_c; [done|]; cbn; eapply call_c; [done|].
#[local] Ltac charge_answers :=
  eapply call_b; [rewrite await_run; cbn; by rewrite ?lookup_insert_eq|]; cbn;
  eapply call_b; [done|]; cbn.
#[local] Ltac answer_left :=
  rewrite ?bind_run; cbn; unfold on_inv; rewrite ?Inventory.server_Reserve_run; cbn;
  by rewrite lookup_insert_eq.

(** The callees of a charge do what [Checkout]'s do, and leave their answer. *)
Lemma callees_go i o ctx req p (s : cloud W * wst) w :
  sent (charges w) !! i = Some (ctx, req) →
  ∃ q r w', answered (charges w') !! i = Some (fst (run (charge_prog o req ctx) s)) ∧
  goes ((p, _ ← payments_prog i o; mret None, _ ← inventory_prog i o; mret None), (s, w))
    ((p, q, r), (exec (run (charge_prog o req ctx)) s, w')).
Proof.
  destruct s as [[inv net rest] f], w as [rs rl cs]. cbn [charges]. intros Hsent.
  enough (Hg : ∃ y, goes ((p, _ ← payments_prog i o; mret None, _ ← inventory_prog i o; mret None),
            ((mkCloud inv net rest, f), mkWires rs rl cs)) y ∧ fst (fst (fst y)) = p ∧
            fst (snd y) = exec (run (charge_prog o req ctx)) (mkCloud inv net rest, f) ∧
            answered (charges (snd (snd y))) !! i = Some (fst (run (charge_prog o req ctx) (mkCloud inv net rest, f)))).
  { destruct Hg as ([[[p' q] r] [s' w']] & Hg & Hp & Hs' & Hw'). cbn [fst snd] in *. subst.
    by exists q, r, w'. }
  destruct (Sleep (Payments.bank_latency (c_rnd o)) rest) as [u rest'] eqn:Hsl.
  assert (Hrest : ∀ net, Sleep (Payments.bank_latency (c_rnd o)) (mkCloud inv net rest) =
            (u, mkCloud inv net rest')).
  { intros l. unfold Sleep at 1, cloud_timer, on_rest. cbn. by rewrite Hsl. }
  unfold exec. rewrite Charge_alone, Payments.Charge_run.
  cbn [Payments.inv inventory_client inv_Reserve]. unfold exec. rewrite Hrest. cbn [snd]. unfold Checkout.rpc.
  destruct net as [|[|e|e] net].
  - eexists. split; [charge_asks Hsent Hrest; inventory_serves; charge_answers; apply goes_refl|answer_left].
  - eexists. split; [charge_asks Hsent Hrest; inventory_serves; charge_answers; apply goes_refl|answer_left].
  - eexists. split; [charge_asks Hsent Hrest; charge_answers; apply goes_refl|answer_left].
  - eexists. split; [charge_asks Hsent Hrest; inventory_serves; charge_answers; apply goes_refl|answer_left].
Qed.

(** The network's decisions as the callers take them: the reservation is looked for
    before the charge is. *)
Definition as_looked (l : list delivery) : list delivery :=
  match l with
  | [] | LostRequest _ :: _ => l
  | d :: [] => [Delivered; d]
  | d :: d' :: l' => d' :: d :: l'
  end.

Definition with_net (l : list delivery) (s : cloud W * wst) : cloud W * wst :=
  (mkCloud (k_inv s.1) l (k_rest s.1), s.2).

(** A charge takes the network's next decision and leaves the others; with none left,
    its reservation is delivered. *)
Lemma charge_net o ctx req inv d rest (f : wst) : ∃ r inv' rest',
  (∀ l, run (charge_prog o req ctx) (mkCloud inv (d :: l) rest, f) = (r, (mkCloud inv' l rest', f))) ∧
  (d = Delivered → run (charge_prog o req ctx) (mkCloud inv [] rest, f) = (r, (mkCloud inv' [] rest', f))).
Proof.
  destruct (Sleep (Payments.bank_latency (c_rnd o)) rest) as [u rest1] eqn:Hsl.
  assert (Hrest : ∀ l, Sleep (Payments.bank_latency (c_rnd o)) (mkCloud inv l rest) =
            (u, mkCloud inv l rest1)).
  { intros l. unfold Sleep at 1, cloud_timer, on_rest. cbn. by rewrite Hsl. }
  set (inv1 := Inventory.mkServer (<[c_rid o := default_items]> (Inventory.store inv))).
  exists (Some (Payments.charge_response (c_pid o)
    (look d (Some (Some (mkReserveResponse (c_rid o) ReserveResponse_STATUS_OK), None)))), None).
  destruct d as [|e|e];
    [exists inv1, rest1|exists inv, rest1|exists inv1, rest1];
    (split; [intros l|intros [=]]);
    rewrite Charge_alone, Payments.Charge_run; cbn [Payments.inv inventory_client inv_Reserve];
    unfold exec; rewrite Hrest; reflexivity.
Qed.

Lemma rpc_prog_run {A} (p : prog Checkout.call (result A)) (s : cloud W * wst) :
  run (rpc_prog p) s =
  let '(d, k) := next_delivery s.1 in
  match d with
  | LostRequest e => ((None, Some e), (k, s.2))
  | _ => (look d (Some (fst (run p (k, s.2)))), exec (run p) (k, s.2))
  end.
Proof.
  unfold rpc_prog. rewrite run_bind, run_request. cbn. destruct (next_delivery s.1) as [[|e|e] k]; cbn.
  - unfold exec. by rewrite <- surjective_pairing.
  - done.
  - by rewrite run_bind.
Qed.

(** The caller of a charge, when its callees have run. *)
Lemma caller_goes i o ctx req K (s s1 : cloud W * wst) r w :
  run (charge_prog o req ctx) s = (r, s1) →
  ∃ q' r' w', goes
    ((invoke Charge i ctx req ≫= K, _ ← payments_prog i o; mret None, _ ← inventory_prog i o; mret None),
     (s, w))
    ((K (look (fst (next_delivery s1.1)) (Some r)), q', r'), ((snd (next_delivery s1.1), s1.2), w')).
Proof.
  intros Hr. destruct w as [rs rl cs].
  set (w1 := mkWires rs rl (mkChannel (<[i := (ctx, req)]> (sent cs)) (answered cs))).
  destruct (callees_go i o ctx req (Call (Await Charge i ctx) K) s w1) as (q' & r' & w' & Hans & Hg);
    [apply lookup_insert_eq|].
  unfold exec in Hg. rewrite Hr in Hans, Hg. exists q', r', w'.
  eapply call_a; [reflexivity|]. eapply goes_trans; [exact Hg|].
  assert (Hw' : answered (channel_of Charge w') !! i = Some r) by (destruct w'; exact Hans).
  eapply call_a; [rewrite await_run; cbn [fst snd]; by rewrite Hw'|].
  unfold exec. cbn. unfold on_cloud. cbn. destruct (next_delivery s1.1). apply goes_refl.
Qed.

(** A whole charge. *)
Lemma charge_goes i o ctx req K (s : cloud W * wst) w :
  ∃ q r w', goes
    ((invoke Charge i ctx req ≫= K, _ ← payments_prog i o; mret None, _ ← inventory_prog i o; mret None),
     (with_net (as_looked (k_net s.1)) s, w))
    ((K (fst (run (rpc_prog (charge_prog o req ctx)) s)), q, r),
     (exec (run (rpc_prog (charge_prog o req ctx))) s, w')).
Proof.
  destruct s as [[inv net rest] f]. unfold with_net, exec. cbn [fst snd k_inv k_net k_rest].
  rewrite rpc_prog_run. unfold next_delivery, exec. cbn [fst snd k_net k_inv k_rest].
  pose proof (λ s s1 r, caller_goes i o ctx req K s s1 r w) as Hcaller.
  destruct net as [|d net].
  { destruct (charge_net o ctx req inv Delivered rest f) as (r & inv' & rest' & _ & Hr).
    specialize (Hr eq_refl). rewrite Hr. apply (Hcaller _ _ _ Hr). }
  assert (Hother : ∀ d, (∀ e, d ≠ LostRequest e) → ∀ l, as_looked (d :: l) = match l with
            [] => [Delivered; d] | d' :: l' => d' :: d :: l' end)
    by (intros [|e|e] He [|d' l]; try done; by destruct (He e)).
  assert (Hreach : ∀ d, (∀ e, d ≠ LostRequest e) → ∃ r inv' rest',
      run (charge_prog o req ctx) (mkCloud inv (as_looked (d :: net)) rest, f) =
        (r, (mkCloud inv' (d :: tail net) rest', f)) ∧
      run (charge_prog o req ctx) (mkCloud inv net rest, f) = (r, (mkCloud inv' (tail net) rest', f))).
  { intros d0 Hd. rewrite Hother by done. destruct net as [|d' net].
    - destruct (charge_net o ctx req inv Delivered rest f) as (r & inv' & rest' & Hl & Hr).
      exists r, inv', rest'. by split; [apply Hl|apply Hr].
    - destruct (charge_net o ctx req inv d' rest f) as (r & inv' & rest' & Hl & _).
      exists r, inv', rest'. by split. }
  destruct d as [|e|e].
  - destruct (Hreach Delivered) as (r & inv' & rest' & H1 & H2); [done|].
    rewrite H2. apply (Hcaller _ _ _ H1).
  - do 3 eexists. eapply call_a; [reflexivity|].
    eapply call_a; [by rewrite await_run|]. apply goes_refl.
  - destruct (Hreach (LostResponse e)) as (r & inv' & rest' & H1 & H2); [done|].
    rewrite H2. apply (Hcaller _ _ _ H1).
Qed.
(** ** Programs that make no charge *)

Definition no_charge R (c : OrdersPool.call R) : Prop :=
  match c with OrdersPool.CCharge _ _ => False | _ => True end.

Lemma quiet_run charge charge' {A} (p : prog OrdersPool.call A) (s : cloud W * wst) w :
  all_calls no_charge p →
  run (expand (serve_call (@own) charge) p) (s, w) =
  let '(x, s') := run (expand (serve_call (@request Checkout.call) charge') p) s in (x, (s', w)).
Proof.
  revert s. induction p as [x|R x k IH]; intros s; [done|]. intros [Hx Hk].
  assert (Hown : ∀ T (x : Checkout.call T) (k : T → prog call A) (k' : T → prog Checkout.call A),
    (∀ v s, run (k v) (s, w) = let '(y, s') := run (k' v) s in (y, (s', w))) →
    run (own x ≫= k) (s, w) = let '(y, s') := run (request x ≫= k') s in (y, (s', w))).
  { intros T y k1 k2 Hk12. unfold own. rewrite !run_bind, !run_request. cbn. unfold on_cloud. cbn.
    destruct (do_call y s). apply Hk12. }
  cbn [expand]. destruct x; try done; apply Hown; intros v s'; by apply IH.
Qed.

(** The handler of a decoded order: the time, one charge, and no other. *)
Lemma handler_shape o req :
  Orders.decode_order (OrdersPool.o_body (c_order o)) = Some req →
  ∃ ctx K,
    OrdersPool.handleCreate_prog Inject (app_of (W := W) subj o) (OrdersPool.o_ctx (c_order o))
      (OrdersPool.o_id (c_order o)) (OrdersPool.o_body (c_order o)) =
    (now ← request OrdersPool.CNow;
     r ← request (OrdersPool.CCharge (ctx now) (Some (Orders.charge_request (OrdersPool.o_id (c_order o)) req)));
     K now r) ∧
    ∀ now r, all_calls no_charge (K now r).
Proof.
  intros Hreq. unfold OrdersPool.handleCreate_prog. rewrite Hreq.
  eexists (λ now, ctx_WithTimeout now _ (5 * Second)), (λ now r, _).
  split; [reflexivity|]. intros now [resp [e|]]; [done|]. cbn beta iota.
  destruct (negb _); [done|]. split; [done|]. intros [|]; [done|].
  split; [done|]. intros created. by split.
Qed.

(** An order's handler with its callees. *)
Lemma handler_goes i o req q r (s : cloud W * wst) w :
  Orders.decode_order (OrdersPool.o_body (c_order o)) = Some req →
  q = (_ ← payments_prog i o; mret None) → r = (_ ← inventory_prog i o; mret None) →
  ∃ q' r' w', goes
    ((ops ← orders_prog i o; mret (Some ops), q, r), (with_net (as_looked (k_net s.1)) s, w))
    ((Ret (Some (fst (run (Checkout.handle_prog Inject subj o) s))), q', r'),
     (exec (run (Checkout.handle_prog Inject subj o)) s, w')).
Proof.
  intros Hreq -> ->. destruct (handler_shape o req Hreq) as (ctx & K & Heq & HK).
  unfold orders_prog, handle_prog. rewrite Heq, !expand_request. clear Heq. unfold exec.
  rewrite run_bind. cbn [serve_call]. rewrite run_request. 
  assert (Hnow : do_call CNow s = (Now s.1, s)) by done. rewrite Hnow. cbn [fst snd].
  rewrite expand_request, run_bind. cbn [serve_call].
  set (req' := Some _). 
  destruct (charge_goes i o (ctx (Now s.1)) req'
    (λ r, ops ← expand (serve_call (@own) (invoke Charge i)) (K (Now s.1) r); mret (Some ops)) s w)
    as (q' & r' & w' & Hg).
  exists q', r', w'. eapply (call_a (Own CNow)); [reflexivity|].
  eapply goes_trans; [exact Hg|]. clear Hg.
  unfold exec. destruct (run (rpc_prog _) s) as [r s1]. cbn [fst snd].
  pose proof (goes_a (expand (serve_call (@own) (invoke Charge i)) (K (Now s.1) r))
    (λ ops, mret (Some ops)) q' r' (s1, w')) as Hg.
  unfold exec in Hg. rewrite (quiet_run _ (λ ctx req, rpc_prog (charge_prog o req ctx))) in Hg by apply HK.
  by destruct (run _ s1).
Qed.
End Three.

(** ** Properties *)

(** (C11) Every confirmed order has its reservation, though callees run on.  However many
    orders run at once, however the steps of their handlers in the three services
    interleave, whichever callers give up before their callees are done and whatever
    errors the network reports: an order answered 200 has its own reservation, of one
    DEFAULT item, in the store; an order about to publish has it too; each order makes
    one reservation at most; and the store holds what it held before and reservations
    of these orders, nothing else. *)
Theorem detached_orders_reserved watch (s s' : state) n tr pool :
  steps (threads orders watch, s) n tr (pool, s') → s.2 = no_wires →
  (∀ id, Inventory.store (k_inv s'.1.1) !! id =
     if decide (id ∈ reserved_ids tr) then Some default_items
     else Inventory.store (k_inv s.1.1) !! id) ∧
  reserved_ids tr ⊆ c_rid <$> orders ∧
  ∀ i o, orders !! i = Some o →
    (∃ its, of_thread (length orders + length orders + i) tr `prefix_of` [Reserved (c_rid o) its]) ∧
    (∀ ctx m k, pool !! i = Some (Call (Own (CPublish ctx m)) k) →
       Inventory.store (k_inv s'.1.1) !! c_rid o = Some default_items) ∧
    (∀ ops, pool !! i = Some (Ret (Some ops)) → Http.status (Http.serve ops) = 200 →
       Inventory.store (k_inv s'.1.1) !! c_rid o = Some default_items).
Proof.
  intros Hs Hw. pose proof (threads_live watch s Hw) as Hl.
  destruct (pool_promises _ _ may kept (accounts s) _ _ _ _ _ _
    (λ i R c tr s _, step_accounts _ i R c tr s) Hs Hl) as [Hl' [Hst Hids]].
  { split; [|by intros x ?%not_elem_of_nil]. intros id. by rewrite decide_False by apply not_elem_of_nil. }
  split; [exact Hst|]. split; [exact Hids|]. intros i o Hi. split_and!.
  - eapply inventory_can_show, can_show_wrap, pool_thread; [exact Hs|by apply inventory_thread].
  - intros ctx m k Hk. by apply (live_next _ _ _ _ _ _ _ _ _ _ Hl' Hk).
  - intros ops Hret. by apply (live_returned _ _ _ _ _ _ _ _ Hl' Hret).
Qed.

(** The threads serve orders as the code composes them: the model of the wire loses
    nothing that the code can do.  Beside any other orders, the three threads of an order
    can run so that it is answered as [handleCreate] answers over a client that runs
    [Payments.Charge] over a client that runs [server_Reserve], and the inventory, the
    world and the flag are left as that leaves them.  The threads start from the network's
    decisions [l], which are those of [s] in the order in which the callers look. *)
Theorem detached_serves watch i o (s : cloud W * wst) w :
  orders !! i = Some o →
  let direct := Orders.handleCreate (CW := OrdersPool.with_flag_clock) (WW := OrdersPool.with_flag_wall)
    (FW := OrdersPool.with_flag_paused) (JW := OrdersPool.with_flag_js) Inject
    (OrdersPool.app_with_flag (app_of subj o)) (OrdersPool.o_ctx (c_order o))
    (OrdersPool.o_id (c_order o)) (OrdersPool.o_body (c_order o)) s in
  ∃ l pool w', (l = k_net s.1 ∨ l = as_looked (k_net s.1)) ∧
    reaches (threads orders watch, (with_net l s, w)) (pool, (snd direct, w')) ∧
    pool !! i = Some (Ret (Some (fst direct))).
Proof.
  intros Hi. cbn zeta. rewrite <- checkout_alone. pose proof (lookup_lt_Some _ _ _ Hi) as Hlt.
  destruct (Orders.decode_order (OrdersPool.o_body (c_order o))) as [req|] eqn:Hreq.
  - destruct (handler_goes i (length orders + i) (length orders + length orders + i)
      ltac:(lia) ltac:(lia) ltac:(lia) i o req _ _ s w Hreq eq_refl eq_refl) as (q & r & w' & Hg).
    destruct (Hg (threads orders watch)) as (pool & Hr & Hpool & _).
    { split_and!; [by apply order_thread|by apply payments_thread|by apply inventory_thread]. }
    exists (as_looked (k_net s.1)), pool, w'. by split; [right|].
  - pose proof (order_thread watch i o Hi) as Hthread.
    unfold orders_prog, handle_prog, OrdersPool.handleCreate_prog in *. rewrite Hreq in *.
    exists (k_net s.1), (threads orders watch), w. split; [by left|]. split; [|exact Hthread].
    destruct s as [[inv net rest] f]. apply reaches_refl.
Qed.
End Detached.

(** ** Concrete runs *)

#[local] Existing Instances Checkout.shop_clock Checkout.shop_wall Checkout.shop_js Checkout.shop_timer.

Definition shop : list order := [mkOrder (OrdersPool.mkOrder Background "o-1" "{}") 0 "p-1" "r-1"].

Definition shop_threads : list (prog call (option (list rw_op))) :=
  threads (λ _ h, h) "orders.events.created" shop (mret Watching).

Definition shop_state (net : list delivery) : state :=
  ((mkCloud Inventory.new_server net (Orders.Recording.mkWorld [] 0 0 false), mkWst false []), no_wires).
Definition shop_start : state := shop_state [].

Definition status_of {S} (x : list (prog call (option (list rw_op))) * S) : option Z :=
  match x.1 !! 0%nat with
  | Some (Ret (Some ops)) => Some (Http.status (Http.serve ops))
  | _ => None
  end.

(** The deadline passes while the inventory has the request: the order is answered, then
    the inventory serves, and the charge is told of the deadline too. *)
Definition given_up :=
  scheduled [0; 0; 1; 1; 1; 0]%nat shop_threads (shop_state [Delivered; LostResponse DeadlineExceeded]).
Definition ran_on := scheduled [2; 2; 2; 1; 1]%nat given_up.1 given_up.2.

(** The deadline passes when the charge has its reservation but has not answered yet. *)
Definition unheard := scheduled [0; 0; 1; 1; 1; 2; 2; 2; 1; 0; 1]%nat shop_threads shop_start.

(** What outlives an order.  An order can be answered 502 before anything is reserved
    for it, and be reserved afterwards; and an order can be answered 502 with its charge
    authorized.  Nobody is told and nothing is taken back. *)
Theorem late_reservation :
  status_of given_up = Some 502 ∧ Inventory.store (k_inv given_up.2.1.1) !! "r-1" = None ∧
  status_of ran_on = Some 502 ∧
  Inventory.store (k_inv ran_on.2.1.1) !! "r-1" = Some default_items ∧
  Orders.authorized <$> answered (charges ran_on.2.2) !! 0%nat = Some false ∧
  status_of unheard = Some 502 ∧
  Inventory.store (k_inv unheard.2.1.1) !! "r-1" = Some default_items ∧
  Orders.authorized <$> answered (charges unheard.2.2) !! 0%nat = Some true.
Proof. split_and!; vm_compute; reflexivity. Qed.

(** Callees that are served in time. *)
Definition prompt : list nat := [0; 0; 1; 1; 1; 2; 2; 2; 1; 1; 0; 0; 0; 0]%nat.
Definition in_time := scheduled prompt shop_threads shop_start.

Lemma in_time_steps :
  ∃ n, steps (shop_threads, shop_start) n (seen prompt shop_threads shop_start) (in_time.1, in_time.2).
Proof. rewrite <- surjective_pairing. apply scheduled_steps. Qed.

Lemma detached_orders_reserved_witness :
  status_of in_time = Some 200 ∧
  Inventory.store (k_inv in_time.2.1.1) !! "r-1" = Some default_items ∧
  Inventory.store (k_inv in_time.2.1.1) !! "r-2" = None.
Proof.
  destruct in_time_steps as [n Hs].
  destruct (detached_orders_reserved (λ _ h, h) "orders.events.created" shop (mret Watching)
    shop_start in_time.2 n _ in_time.1 Hs eq_refl) as (Hst & Hids & Horders).
  split; [vm_compute; reflexivity|]. split.
  - destruct (Horders 0%nat _ eq_refl) as (_ & _ & Hans).
    eassert (Hret : in_time.1 !! 0%nat = Some (Ret (Some _))) by (vm_compute; reflexivity).
    apply (Hans _ Hret). vm_compute. reflexivity.
  - rewrite (Hst "r-2"). vm_compute. reflexivity.
Defined.

Lemma detached_serves_witness :
  let s := (mkCloud Inventory.new_server [Delivered; LostResponse (Error "unavailable")]
    (Orders.Recording.mkWorld [] 0 0 false), mkWst false []) in
  ∃ l pool s', reaches (shop_threads, (with_net l s, no_wires)) (pool, s') ∧
    (Http.status ∘ Http.serve <$>
      match pool !! 0%nat with Some (Ret (Some ops)) => Some ops | _ => None end) = Some 402 ∧
    Inventory.store (k_inv s'.1.1) !! "r-1" = Some default_items.
Proof.
  intros s.
  destruct (detached_serves (λ _ h, h) "orders.events.created" shop (mret Watching) 0%nat _ s no_wires eq_refl)
    as (l & pool & w' & _ & Hr & Hp).
  exists l, pool. eexists. split; [exact Hr|]. rewrite Hp. split; vm_compute; reflexivity.
Defined.

End Detached.
