(* ===== verification/Deadlines.v ===== *)
(** * No order waits for ever

    In [Detached] a look at the wire that comes too early ends with DeadlineExceeded.
    Here a caller has to wait until there is something to look at: the answer, an error
    of the network, or the deadline of its own context; a call without a deadline can
    hang.  The five seconds [handleCreate] gives a charge (services/orders-svc/main.go),
    which reach payments-svc and its reservation with the context, are what keeps every
    thread of every order going. *)

From Stdlib Require Import ZArith Lia.
From S2P Require Import Prelude GoLib GoText Rfc3339 Http Json JsonCodec Obs Rpc Inventory Payments Orders CbWatch Pool Rely Waiting OrdersPool Checkout Detached.
Import GoTime Rfc3339 Http Obs Inventoryv1 Paymentsv1 CbWatch Pool Rely Waiting Checkout Rpc Detached.

Module Deadlines.
Local Open Scope Z_scope.

(** A clock that what the services do to the world never turns back. *)
Class ForwardClock (W : Type) `{Clock W, JetStream W, Timer W} : Prop := {
  publish_forward ctx m (w : W) : Now w ≤ Now (exec (PublishMsg ctx m) w);
  sleep_forward d (w : W) : Now w ≤ Now (exec (Sleep d) w);
}.

Section Deadlines.
Context {W : Type} {CW : Clock W} {WW : WallClock W} {JW : JetStream W} {TW : Timer W} {FC : ForwardClock W}.

(** When a call can be made: only a look at the wire can have to wait. *)
#[export] Instance call_waits : Waits call (state (W := W)) := λ R c s,
  match c with
  | Await m i ctx =>
      fst (next_delivery s.1.1) ≠ Delivered ∨ is_Some (answered (channel_of m s.2) !! i) ∨
      is_Some (ctx_Deadline ctx)
  | _ => True
  end.

Definition now_of (s : state (W := W)) : Time := Now s.1.1.

(** A context whose deadline is at most five seconds off. *)
Definition timely (ctx : Context) (s : state) : Prop :=
  ∃ d, ctx_Deadline ctx = Some d ∧ d ≤ now_of s + 5 * Second.

(** Every request on the wire carries one, and every look is made under one. *)
Definition wires_timely (s : state) : Prop :=
  ∀ Req Resp (m : rpc Req Resp) i x, sent (channel_of m s.2) !! i = Some x → timely x.1 s.

Definition clock_forward (s s' : state) : Prop := now_of s ≤ now_of s'.

Definition in_due_time (_ : nat) R (c : call R) (s : state) : Prop :=
  match c with Await _ _ ctx => timely ctx s | _ => True end.

#[local] Abbreviation timing i := (promises wires_timely clock_forward (in_due_time i)).
#[local] Abbreviation lasting := (stable wires_timely clock_forward).

Lemma timely_stays ctx : lasting (timely ctx).
Proof. intros s s' _ HG (d & Hd & Hle). exists d. split; [done|]. unfold clock_forward in HG. lia. Qed.

(** ** What the calls do to the clock and the wire *)

Lemma own_forward {R} (c : Checkout.call R) (s : state) :
  clock_forward s (exec (do_call (Own c)) s) ∧ (exec (do_call (Own c)) s).2 = s.2.
Proof.
  destruct s as [[k f] w]. unfold clock_forward, now_of, exec. cbn. unfold on_cloud. cbn [fst snd].
  destruct c; cbn; try (split; [lia|done]).
  - pose proof (publish_forward ctx m (k_rest k)) as H. unfold exec in H.
    unfold PublishMsg at 1 2, cloud_js, on_rest. destruct (PublishMsg ctx m (k_rest k)). by split; [exact H|].
  - unfold next_delivery. destruct (k_net k); (split; [apply Z.le_refl|done]).
  - pose proof (sleep_forward d (k_rest k)) as H. unfold exec in H.
    unfold Sleep at 1 2, cloud_timer, on_rest. destruct (Sleep d (k_rest k)). by split; [exact H|].
  - unfold on_inv. destruct (Inventory.server_Reserve _ _ _ _). split; [apply Z.le_refl|done].
Qed.

Lemma wire_forward {A} (f : M wires A) (s : state) : clock_forward s (exec (on_wires f) s).
Proof. unfold clock_forward, now_of, exec, on_wires. by destruct (f s.2). Qed.

Lemma wires_timely_same (s s' : state) : s'.2 = s.2 → clock_forward s s' → wires_timely s → wires_timely s'.
Proof.
  intros Heq HG HJ Req Resp m i x Hx. rewrite Heq in Hx. apply (timely_stays x.1 s); [done..|].
  by eapply HJ.
Qed.

Lemma own_timely {R} (c : Checkout.call R) (s : state) :
  wires_timely s → wires_timely (exec (do_call (Own c)) s) ∧ clock_forward s (exec (do_call (Own c)) s).
Proof.
  intros HJ. destruct (own_forward c s) as [HG Hw]. split; [|done]. by eapply wires_timely_same.
Qed.

(** ** What the threads promise *)

Lemma own_timing i F {R} (c : Checkout.call R) : lasting F → timing i F (own c) (λ _, F).
Proof.
  intros HF. apply promises_request; [done|]. intros s HJ Hs.
  destruct (own_timely c s HJ) as [HJ' HG]. split_and!; [done..|]. by apply (HF s).
Qed.

Lemma own_then i {R} (c : Checkout.call R) : timing i (λ _, True) (own c) (λ _ _, True).
Proof. by apply own_timing. Qed.

Lemma invoke_timing i j {Req Resp} (m : rpc Req Resp) ctx req :
  timing i (timely ctx) (invoke m j ctx req) (λ _ _, True).
Proof.
  apply (promises_bind _ _ _ _ _ _ (λ _, timely ctx)).
  - apply promises_request; [intros; apply timely_stays|]. intros s HJ Hs.
    set (s' := exec (do_call (Send m j ctx req)) s).
    assert (HG : clock_forward s s') by apply wire_forward.
    split_and!; [done| |exact HG|by apply (timely_stays ctx s)].
    intros Req' Resp' m' j' x Hx. apply (timely_stays x.1 s); [done..|].
    specialize (HJ _ _ m' j' x). destruct m, m'; cbn in *; auto;
      (destruct (decide (j = j')) as [->|Hne];
       [rewrite lookup_insert_eq in Hx; by injection Hx as <-|rewrite lookup_insert_ne in Hx by done; auto]).
  - intros _. apply promises_request; [done|]. intros s HJ Hs.
    assert (Hx : exec (do_call (Await m j ctx)) s = exec (do_call (Own CNet)) s)
      by (unfold exec at 1; by rewrite await_run).
    rewrite Hx. destruct (own_timely CNet s HJ) as [HJ' HG]. by split_and!.
Qed.

Lemma serve_timing i j {Req Resp} (m : rpc Req Resp) method :
  (∀ ctx req, timing i (timely ctx) (method ctx req) (λ _ _, True)) →
  timing i (λ _, True) (serve m j method) (λ _ _, True).
Proof.
  intros Hm. apply (promises_bind _ _ _ _ _ _ (λ got s, ∀ x, got = Some x → timely x.1 s)).
  - apply promises_request.
    { intros got s s' HJ HG Hgot x Hx. apply (timely_stays x.1 s); [done..|by apply Hgot]. }
    intros s HJ _.
    assert (Hs : do_call (Take m j) s = (sent (channel_of m s.2) !! j, s)).
    { destruct s as [c w]. cbn. unfold on_wires. destruct m; by destruct w. }
    unfold exec. rewrite Hs. split_and!; [done..|unfold clock_forward; cbn; lia|].
    intros x. apply HJ.
  - intros [[ctx req]|]; [|by intros s]. cbn beta iota.
    eapply promises_strengthen; [intros s _ Hgot; by apply (Hgot (ctx, req))|].
    eapply promises_bind; [apply Hm|]. intros r. apply promises_request; [done|].
    intros s HJ _. set (s' := exec (do_call (Reply m j r)) s).
    assert (HG : clock_forward s s') by apply wire_forward. split_and!; [done| |done|done].
    intros Req' Resp' m' j' x Hx. apply (timely_stays x.1 s); [done..|].
    apply (HJ _ _ m' j' x). by destruct m, m'.
Qed.

Lemma payments_timing i j o : timing i (λ _, True) (payments_prog j o) (λ _ _, True).
Proof.
  apply serve_timing. intros ctx req. unfold Charge_prog.
  eapply promises_bind; [apply own_timing, timely_stays|]. intros []. cbn beta.
  eapply promises_bind; [apply invoke_timing|]. intros [resv err]. by destruct (_ || _); intros s.
Qed.

Lemma inventory_timing i j o : timing i (λ _, True) (inventory_prog j o) (λ _ _, True).
Proof.
  apply serve_timing. intros ctx req.
  apply (promises_strengthen _ _ _ _ (λ _, True)); [done|apply own_then].
Qed.

Lemma watcher_timing i watch : timing i (λ _, True) (watcher_prog watch) (λ _ _, True).
Proof.
  apply promises_expand. intros R c. destruct c; try apply own_then. by intros s.
Qed.

Context (Inject : Context → Header → Header) (subj : string).

Lemma orders_timing i j o : timing i (λ _, True) (orders_prog (W := W) Inject subj j o) (λ _ _, True).
Proof.
  unfold orders_prog, OrdersPool.handleCreate_prog. destruct (Orders.decode_order _) as [req|]; [|by intros s].
  rewrite expand_request. apply (promises_bind _ _ _ _ (own CNow) _ (λ now s, now ≤ now_of s)).
  { apply promises_request; [intros now s s' _ HG Hle; unfold clock_forward in HG; lia|].
    intros s HJ _. destruct (own_timely CNow s HJ) as [HJ' HG]. by split_and!. }
  intros now. cbn zeta. set (ctx := ctx_WithTimeout _ _ _). rewrite expand_request.
  apply (promises_strengthen _ _ _ _ (timely ctx)).
  { intros s _ Hle. assert (Hd : is_Some (ctx_Deadline ctx)) by (unfold ctx; cbn; by destruct (ctx_Deadline _)).
    destruct Hd as [d Hd]. exists d. split; [done|]. apply WithTimeout_bound in Hd. lia. }
  eapply promises_bind; [apply invoke_timing|]. intros [resp [e|]]; [by intros s|].
  destruct (negb _); [by intros s|]. rewrite expand_request.
  eapply promises_bind; [apply own_then|]. intros [|]; [by intros s|].
  apply (promises_bind _ _ _ _ (own CUTCNow) _ (λ _ _, True)); [apply own_then|]. intros created.
  apply (promises_bind _ _ _ _ (own (CPublish _ _)) _ (λ _ _, True)); [apply own_then|]. by intros e s.
Qed.

Lemma threads_timing (orders : list order) watch (s : state (W := W)) :
  s.2 = no_wires →
  all_live wires_timely clock_forward in_due_time (λ _ _ _, True)
    (threads (W := W) Inject subj orders watch) s.
Proof.
  intros Hs. apply (all_live_intro _ _ _ _ _ _ (λ _ _, True)); [|done..|].
  { intros Req Resp m i x H. rewrite Hs in H. by destruct m. }
  assert (Hwrap : ∀ i A (q : prog call A) (f : A → option (list rw_op)),
    timing i (λ _, True) q (λ _ _, True) → timing i (λ _, True) (a ← q; mret (f a)) (λ _ _, True)).
  { intros i A q f Hq. eapply promises_bind; [exact Hq|]. by intros a s'. }
  intros i p [(o & _ & ->)|[_ H]]%thread_lookup; [apply Hwrap, orders_timing|].
  destruct H as [(j & o & _ & _ & ->)|[(j & o & _ & _ & ->)| ->]]; apply Hwrap.
  - apply payments_timing.
  - apply inventory_timing.
  - apply watcher_timing.
Qed.

(** ** Property *)

(** (C23) No order waits for ever.  However many orders run at once, however their threads
    in the three services interleave, and whatever requests and answers are lost without
    a word: every run ends; until it does, each thread that has not returned can make
    its next call, without the help of any other; and a caller that looks for an answer
    does so under a deadline at most five seconds off, so that it waits no longer. *)
Theorem detached_answers orders watch m (s s' : state (W := W)) n tr pool :
  at_most m watch → s.2 = no_wires →
  wsteps (threads (W := W) Inject subj orders watch, s) n tr (pool, s') →
  (n ≤ 14 * length orders + m)%nat ∧
  (∀ i p, pool !! i = Some p → returned p = true ∨ can_go (pool, s') i) ∧
  ∀ i Req Resp (mt : rpc Req Resp) j ctx k, pool !! i = Some (Call (Await mt j ctx) k) →
    ∃ d, ctx_Deadline ctx = Some d ∧ d ≤ now_of s' + 5 * Second.
Proof.
  intros Hm Hw Hs%wsteps_steps.
  pose proof (pool_live _ _ _ _ _ _ _ _ _ _ Hs (threads_timing orders watch s Hw)) as Hl.
  assert (Htime : ∀ i Req Resp (mt : rpc Req Resp) j ctx k,
    pool !! i = Some (Call (Await mt j ctx) k) → timely ctx s').
  { intros i Req Resp mt j ctx k Hi. exact (live_next _ _ _ _ _ _ _ _ _ _ Hl Hi). }
  split; [|split; [|exact Htime]].
  - etrans; [eapply pool_bound; [|exact Hs]; apply (threads_calls Inject subj orders watch m Hm)|].
    rewrite !sum_list_with_app, !sum_list_replicate. cbn. lia.
  - intros i p Hi. destruct p as [a|R c k]; [by left|right]. exists R, c, k. split; [exact Hi|].
    destruct c; try done. right. right. destruct (Htime _ _ _ _ _ _ _ Hi) as (d & -> & _). by exists d.
Qed.
End Deadlines.

(** ** A concrete run

    payments-svc never gets the charge of the one order of the shop: when [handleCreate]
    looks for the answer, five seconds are what it waits at most, and it answers 502. *)

#[local] Existing Instances Checkout.shop_clock Checkout.shop_wall Checkout.shop_js.

(** [time.Sleep] returns at once when its duration is negative. *)
#[local] Instance forward_timer : Timer Orders.Recording.world := λ d,
  modify (λ w, Orders.Recording.mkWorld (Orders.Recording.log w) (Orders.Recording.clock w + Z.max 0 d)
    (Orders.Recording.wall w + Z.max 0 d) (Orders.Recording.paused w)).

#[local] Instance shop_forward : ForwardClock Orders.Recording.world.
Proof.
  split; intros.
  - apply Z.le_refl.
  - change (Orders.Recording.clock w ≤ Orders.Recording.clock w + Z.max 0 d). lia.
Qed.

#[export] Instance ready_dec {W} `{Clock W, WallClock W, JetStream W, Timer W} R (c : call R)
    (s : state (W := W)) : Decision (ready c s).
Proof.
  destruct c as [T c|Req Resp m i ctx req|Req Resp m i|Req Resp m i r|Req Resp m i ctx];
    [left; exact I..|].
  unfold ready, call_waits. destruct (fst (next_delivery s.1.1)); [|by left; left..].
  destruct (answered _ !! i); [by left; right; left|].
  destruct (ctx_Deadline ctx); [by left; right; right|].
  right. intros [Hn|[[x Hx]|[x Hx]]]; [by apply Hn|discriminate Hx..].
Defined.

Definition shop_run (sched : list nat) : list (prog call (option (list rw_op))) * state :=
  default (shop_threads, shop_start) (wscheduled sched shop_threads shop_start).

Lemma shop_run_steps sched :
  match wscheduled sched shop_threads shop_start with Some _ => true | None => false end = true →
  ∃ tr, wsteps (shop_threads, shop_start) (length sched) tr ((shop_run sched).1, (shop_run sched).2).
Proof.
  unfold shop_run. destruct (wscheduled _ _ _) as [y|] eqn:Hy; [|done].
  intros _. rewrite <- surjective_pairing. by apply wscheduled_steps.
Qed.

Definition unanswered := shop_run [1; 0; 0]%nat.

Lemma detached_answers_witness :
  can_go unanswered 0 ∧
  (∀ i Req Resp (mt : rpc Req Resp) j ctx k, unanswered.1 !! i = Some (Call (Await mt j ctx) k) →
     ∃ d, ctx_Deadline ctx = Some d ∧ d ≤ 5 * Second) ∧
  status_of (shop_run [1; 0; 0; 0]%nat) = Some 502.
Proof.
  destruct (shop_run_steps [1; 0; 0]%nat) as [tr Hs]; [vm_compute; reflexivity|].
  assert (Hw : at_most 0 (mret Watching : prog OrdersPool.call status)) by done.
  destruct (detached_answers (λ _ h, h) "orders.events.created" shop (mret Watching) 0 shop_start _ _ _ _
              Hw eq_refl Hs) as (_ & Hgo & Htime).
  split; [|split; [|vm_compute; reflexivity]].
  - assert (H0 : match unanswered.1 !! 0%nat with Some p => negb (returned p) | None => false end = true)
      by (vm_compute; reflexivity).
    destruct (unanswered.1 !! 0%nat) as [p|] eqn:Hp; [|discriminate H0].
    destruct (Hgo 0%nat p Hp) as [Hret|Hcan]; [|exact Hcan]. rewrite Hret in H0. discriminate H0.
  - assert (Hnow : now_of unanswered.2 = 0) by (vm_compute; reflexivity).
    intros i Req Resp mt j ctx k Hi. destruct (Htime i Req Resp mt j ctx k Hi) as (d & Hd & Hle).
    exists d. split; [exact Hd|]. unfold unanswered in Hnow. rewrite Hnow in Hle. exact Hle.
Defined.

End Deadlines.
