(* ===== verification/EmailWorker.v ===== *)
(** * email-worker: consuming an order event

    Models [incoming] and [handler] of services/email-worker/main.go.  The handler
    acts through JetStream's message, the tracer, the logger and the clock: the
    class [Worker].  The propagator's [Extract] and the test
    [errors.Is(err, nats.ErrConnectionClosed)] are parameters. *)

From Stdlib Require Import ZArith Lia.
From S2P Require Import Prelude GoLib Json JsonStruct Rpc.
Import GoTime JsonStruct Rpc.

Module EmailWorker.

Record incoming := mkIncoming { OrderID : string; CustomerEmail : string }.

(** The struct's JSON tags. *)
Definition incoming_fields : list (string * setter incoming) :=
  [ ("order_id", string_field (λ v e, mkIncoming v (CustomerEmail e)));
    ("customer_email", string_field (λ v e, mkIncoming (OrderID e) v)) ].

Definition decode_event : string → option incoming := Unmarshal incoming_fields (mkIncoming "" "").

(** What the handler calls on its message, its span, its logger and the clock. *)
Class Worker (W : Type) := {
  w_Start : Context → string → M W unit;
  w_End : M W unit;
  w_RecordError : error → M W unit;
  w_SetAttribute : string → string → M W unit;
  w_LogError : string → error → M W unit;
  w_Term : M W (option error);
  w_Ack : M W (option error);
  w_Sleep : Duration → M W unit;
}.

(** The simulated sending of an email. *)
Definition send_time : Duration := (100 * Millisecond)%Z.

Section Handler.
Context {W : Type} {WW : Worker W}.
Context (Extract : gmap string (list string) → Context).
Context (is_connection_closed : error → bool).
(** The error [json.Unmarshal] reports for data it does not accept. *)
Context (decode_error : string → error).

(** The handler after its span is started. *)
Definition process (data : string) : M W unit :=
  match decode_event data with
  | None =>
    _ ← w_LogError "decode" (decode_error data);
    _ ← w_RecordError (decode_error data);
    _ ← w_Term;
    mret ()
  | Some evt =>
    _ ← w_SetAttribute "order.id" (OrderID evt);
    _ ← w_Sleep send_time;
    err ← w_Ack;
    match err with
    | Some e =>
      if is_connection_closed e then mret ()
      else
        _ ← w_LogError "ack" e;
        w_RecordError e
    | None => mret ()
    end
  end.

(** [defer span.End()] runs on every path. *)
Definition handler (headers : gmap string (list string)) (data : string) : M W unit :=
  let ctx := Extract headers in
  _ ← w_Start ctx "email-worker.process";
  _ ← process data;
  w_End.
End Handler.

(** ** Runs that note the calls made *)

Inductive action :=
  | Start (ctx : Context) (name : string)
  | End_
  | RecordError (e : error)
  | SetAttribute (k v : string)
  | LogErr (msg : string) (e : error)
  | Term
  | Ack
  | Slept (d : Duration).

#[export] Instance action_settle_dec (a : action) : Decision (a = Term ∨ a = Ack).
Proof. refine (match a with Term | Ack => left _ | _ => right _ end); naive_solver. Defined.

Module Recording.
Definition note (a : action) : M (list action) unit := modify (λ l, l ++ [a]).

(** The server answers [term] to a Term and [ack] to an Ack. *)
Definition recorder (term ack : option error) : Worker (list action) := {|
  w_Start ctx name := note (Start ctx name);
  w_End := note End_;
  w_RecordError e := note (RecordError e);
  w_SetAttribute k v := note (SetAttribute k v);
  w_LogError msg e := note (LogErr msg e);
  w_Term := _ ← note Term; mret term;
  w_Ack := _ ← note Ack; mret ack;
  w_Sleep d := note (Slept d);
|}.
End Recording.
Import Recording.

(** The calls that settle a message with the server. *)
Definition settles (l : list action) : list action := filter (λ a, a = Term ∨ a = Ack) l.

(** The calls between the start and the end of the span. *)
Definition body_of (decode_error : string → error) (closed : error → bool) (ack : option error)
    (data : string) : list action :=
  match decode_event data with
  | None => [LogErr "decode" (decode_error data); RecordError (decode_error data); Term]
  | Some evt =>
    [SetAttribute "order.id" (OrderID evt); Slept send_time; Ack] ++
    match ack with
    | Some e => if closed e then [] else [LogErr "ack" e; RecordError e]
    | None => []
    end
  end.

Lemma handler_run Extract closed derr term ack headers data log :
  exec (handler (WW := recorder term ack) Extract closed derr headers data) log =
  log ++ Start (Extract headers) "email-worker.process" :: body_of derr closed ack data ++ [End_].
Proof.
  unfold exec, handler, process, body_of. rewrite !bind_run. cbn [fst snd].
  destruct (decode_event data) as [evt|]; rewrite !bind_run; cbn; rewrite !bind_run; cbn;
    [destruct ack as [e|]; [destruct (closed e)|]|]; cbn; rewrite ?bind_run; cbn;
    by rewrite <- !app_assoc.
Qed.

(** ** Properties *)

(** (C31) Every message is settled once.  Handling a message makes, inside one span
    started in the producer's trace and always ended, exactly one call that settles
    it: Term at once when its data does not decode, so that it is not redelivered;
    otherwise Ack, after the hundred milliseconds of the send, so that a worker
    killed before has not acknowledged it.  A failed Ack is logged and recorded
    unless the connection was closed; the answer to Term never matters. *)
Theorem handler_settles_once Extract closed derr term ack headers data :
  let body := body_of derr closed ack data in
  (∀ log, exec (handler (WW := recorder term ack) Extract closed derr headers data) log =
          log ++ [Start (Extract headers) "email-worker.process"] ++ body ++ [End_]) ∧
  (decode_event data = None → settles body = [Term] ∧ ∀ d, Slept d ∉ body) ∧
  (∀ evt, decode_event data = Some evt →
     settles body = [Ack] ∧
     take 3 body = [SetAttribute "order.id" (OrderID evt); Slept send_time; Ack] ∧
     ∀ e, LogErr "ack" e ∈ body ↔ ack = Some e ∧ closed e = false).
Proof.
  cbn zeta. split; [intros log; apply handler_run|]. unfold body_of. split.
  - intros ->. split; [done|]. intros d. rewrite !elem_of_cons, elem_of_nil. naive_solver.
  - intros evt ->. destruct ack as [e0|]; [destruct (closed e0) eqn:Hc|]; cbn [app].
    + split; [done|]. split; [done|]. intros e. rewrite !elem_of_cons, elem_of_nil.
      split; [by intros [?|[?|[?|[]]]]|]. intros [[= ->] ?]. congruence.
    + split; [done|]. split; [done|]. intros e. rewrite !elem_of_cons, elem_of_nil.
      split; [|intros [[= ->] _]; auto]. intros [?|[?|[?|[[= ->]|[?|[]]]]]]; done.
    + split; [done|]. split; [done|]. intros e. rewrite !elem_of_cons, elem_of_nil.
      split; [by intros [?|[?|[?|[]]]]|by intros [? _]].
Qed.

End EmailWorker.
