(* ===== verification/Procs.v ===== *)
(** * The service processes: what their main functions do, in order

    Models the [main] functions of services/*/main.go as scripts of calls.  A script
    runs against [fails], which says of each external call that can fail whether it
    does.  [os.Exit] ends the process at once, without its deferred calls; a return
    of [main] and a panic run them, last first. *)

From Stdlib Require Import ZArith Lia.
From S2P Require Import Prelude GoLib Mux Obs Orders.
Import Env Mux Obs.

Module Procs.

(** [func envOr(k, def string) string], the same in every service. *)
Definition envOr (e : env) (k def : string) : string :=
  let v := Getenv e k in if bool_decide (v ≠ "") then v else def.

(** A call, with the arguments that matter. *)
Record action := mkAction { a_call : string; a_args : list string }.
#[export] Instance action_eq_dec : EqDecision action.
Proof. solve_decision. Defined.

(** What has been done, and what is deferred, last first. *)
Record proc := mkProc { trace : list action; deferred : list action }.

Definition start : proc := mkProc [] [].

(** A script goes on with a value, or the process has ended with an exit code. *)
Inductive flow (A : Type) := Going (a : A) | Exited (code : Z).
Arguments Going {A}.
Arguments Exited {A}.

Definition Script (A : Type) : Type := proc → flow A * proc.

#[export] Instance Script_ret : MRet Script := λ A a p, (Going a, p).
#[export] Instance Script_bind : MBind Script := λ A B f m p,
  match m p with
  | (Going a, p') => f a p'
  | (Exited c, p') => (Exited c, p')
  end.

Definition call (name : string) (args : list string) : Script unit := λ p,
  (Going (), mkProc (trace p ++ [mkAction name args]) (deferred p)).

Definition defer (name : string) : Script unit := λ p,
  (Going (), mkProc (trace p) (mkAction name [] :: deferred p)).

Definition os_Exit {A} (code : Z) : Script A := λ p, (Exited code, p).

(** The end of [main], and a panic in it: the deferred calls run. *)
Definition unwind (code : Z) : Script unit := λ p,
  (Exited code, mkProc (trace p ++ deferred p) []).
Definition return_main : Script unit := unwind 0.
Definition panic : Script unit := unwind 2.

Section Mains.
Context (e : env) (fails : string → option error).

(** [if err := call(args); err != nil { log.Error(msg); os.Exit(1) }]. *)
Definition must (name : string) (args : list string) (msg : string) : Script unit :=
  _ ← call name args;
  match fails name with
  | None => mret ()
  | Some _ => _ ← call "log.Error" [msg]; os_Exit 1
  end.

(** The common beginning: the signal context and tracing. *)
Definition begin (service : string) : Script unit :=
  _ ← call "signal.NotifyContext" [];
  _ ← defer "cancel";
  _ ← must "obs.InitTracing" [service; envOr e "APP_VERSION" "dev"] "init tracing";
  defer "shutdownTrace".

(** *** orders-svc *)

Definition context_Canceled : error := Error "context canceled".

Definition orders_main : Script unit :=
  let httpAddr := envOr e "LISTEN_ADDR_HTTP" ":8080" in
  let payAddr := envOr e "PAYMENTS_ADDR" "payments-svc:9000" in
  let natsURL := envOr e "NATS_URL" "nats://127.0.0.1:4222" in
  let subject := envOr e "NATS_SUBJECT" "orders.events.created" in
  _ ← begin "orders-svc";
  _ ← must "grpc.NewClient" [payAddr] "dial payments";
  _ ← defer "conn.Close";
  _ ← must "nats.Connect" [natsURL] "nats connect";
  _ ← defer "nc.Drain";
  _ ← must "jetstream.New" [] "jetstream";
  let flagFile := envOr e "CIRCUIT_BREAK_FLAG_FILE" "/etc/orders-flags/publish_enabled" in
  _ ← call "go watchCircuitBreak" [flagFile; subject];
  _ ← call "obs.NewHTTPMetrics" ["orders"];
  match register_all (Orders.orders_routes () () () () ()) NewServeMux with
  | None => panic
  | Some _ =>
    _ ← call "health.Ready" [];
    _ ← call "obs.Serve" [httpAddr];
    let err := fails "obs.Serve" in
    if bool_decide (err ≠ None ∧ err ≠ Some context_Canceled) then
      _ ← call "log.Error" ["http serve"];
      os_Exit 1
    else
      _ ← call "log.Info" ["shut down clean"];
      return_main
  end.

(** *** payments-svc *)

(** From [<-ctx.Done()] to the end of the gRPC services. *)
Definition grpc_shutdown : Script unit :=
  _ ← call "<-ctx.Done" [];
  _ ← call "log.Info" ["shutting down"];
  _ ← call "health.NotReady" [];
  _ ← call "gs.GracefulStop" [];
  return_main.

Definition payments_main : Script unit :=
  let grpcAddr := envOr e "LISTEN_ADDR_GRPC" ":9000" in
  let httpAddr := envOr e "LISTEN_ADDR_HTTP" ":8080" in
  let invAddr := envOr e "INVENTORY_ADDR" "inventory-svc:9000" in
  _ ← begin "payments-svc";
  _ ← must "grpc.NewClient" [invAddr] "dial inventory";
  _ ← defer "conn.Close";
  _ ← must "net.Listen" [grpcAddr] "listen";
  _ ← call "RegisterPaymentsServiceServer" [];
  _ ← call "go gs.Serve" [grpcAddr; invAddr];
  _ ← call "go obs.Serve" [httpAddr];
  grpc_shutdown.

(** *** inventory-svc *)

Definition inventory_main : Script unit :=
  let grpcAddr := envOr e "LISTEN_ADDR_GRPC" ":9000" in
  let httpAddr := envOr e "LISTEN_ADDR_HTTP" ":8080" in
  _ ← begin "inventory-svc";
  _ ← must "net.Listen" [grpcAddr] "listen";
  _ ← call "RegisterInventoryServiceServer" [];
  _ ← call "go gs.Serve" [grpcAddr];
  _ ← call "go obs.Serve" [httpAddr];
  grpc_shutdown.

(** *** email-worker *)

Definition email_main : Script unit :=
  let httpAddr := envOr e "LISTEN_ADDR_HTTP" ":8080" in
  let natsURL := envOr e "NATS_URL" "nats://127.0.0.1:4222" in
  let subject := envOr e "NATS_SUBJECT" "orders.events.created" in
  _ ← begin "email-worker";
  _ ← must "nats.Connect" [natsURL] "nats connect";
  _ ← defer "nc.Drain";
  _ ← must "jetstream.New" [] "jetstream";
  _ ← must "js.CreateOrUpdateStream" ["ORDER_EVENTS"; "orders.events.>"] "create stream";
  _ ← must "stream.CreateOrUpdateConsumer" ["email-worker"; subject] "create consumer";
  _ ← call "go obs.Serve" [httpAddr];
  _ ← call "health.Ready" [];
  _ ← call "log.Info" ["consuming"; subject];
  _ ← must "cons.Consume" [] "consume start";
  _ ← defer "consumeCtx.Stop";
  _ ← call "<-ctx.Done" [];
  _ ← call "log.Info" ["shutting down"];
  _ ← call "health.NotReady" [];
  return_main.
End Mains.

(** ** Lemmas *)

(** The calls a script that starts fresh has made, and its exit code. *)
Definition ran (s : Script unit) : list string := a_call <$> trace (snd (s start)).
Definition exit_code (s : Script unit) : option Z :=
  match fst (s start) with Exited c => Some c | Going _ => None end.

(** The external calls of each process that can fail, in order. *)
Definition orders_deps : list string :=
  ["obs.InitTracing"; "grpc.NewClient"; "nats.Connect"; "jetstream.New"].
Definition payments_deps : list string := ["obs.InitTracing"; "grpc.NewClient"; "net.Listen"].
Definition inventory_deps : list string := ["obs.InitTracing"; "net.Listen"].
Definition email_deps : list string :=
  [ "obs.InitTracing"; "nats.Connect"; "jetstream.New"; "js.CreateOrUpdateStream";
    "stream.CreateOrUpdateConsumer"; "cons.Consume" ].

(** Every call of a list succeeds. *)
Definition all_ok (fails : string → option error) (deps : list string) : bool :=
  forallb (λ d, bool_decide (fails d = None)) deps.

(** Cleanups are the deferred calls of any process. *)
Definition cleanups : list string := ["consumeCtx.Stop"; "nc.Drain"; "conn.Close"; "shutdownTrace"; "cancel"].

Definition cleaned (s : Script unit) : list string := filter (λ c, c ∈ cleanups) (ran s).

(** A process that goes all its way and ends with [code] after its cleanups when every
    call succeeds, and else exits with 1 at its first failure, without any. *)
Definition ends_with (code : Z) (s : Script unit) (ok : bool) (order : list string) : Prop :=
  if ok then exit_code s = Some code ∧ cleaned s = order
  else exit_code s = Some 1%Z ∧ cleaned s = [] ∧ last (ran s) = Some "log.Error".

(** Runs a script, splitting on each external call it reaches. *)
Ltac run_script :=
  repeat (
    cbv beta iota zeta delta
      [ orders_main payments_main inventory_main email_main grpc_shutdown begin must call defer
        os_Exit unwind return_main panic start
        mbind Script_bind mret Script_ret exit_code cleaned ran fst snd trace deferred
        ends_with all_ok orders_deps payments_deps inventory_deps email_deps forallb ];
    try match goal with
    | fails : string → option error |- context [match ?fails ?d with Some _ => _ | None => _ end] =>
      destruct (fails d) eqn:?
    end).

(** Splits a conjunction of closed computations and evaluates each. *)
Ltac computed := repeat split; vm_compute; reflexivity.

(** ** Properties *)

(** (C39) How the service processes end.  For any environment and any pattern of
    failures.  If a call that can fail does, each of the four processes exits with 1
    right after logging its first failure, and [os.Exit] skips every cleanup already
    deferred.  If none does, payments-svc, inventory-svc and email-worker run until their
    context is done, and return with 0 after their cleanups, in the reverse order of
    their set-up; orders-svc runs its cleanups too, but because it panics, and exits
    with 2. *)
Theorem processes_start_or_exit e fails :
  ends_with 0 (payments_main e fails) (all_ok fails payments_deps)
    ["conn.Close"; "shutdownTrace"; "cancel"] ∧
  ends_with 0 (inventory_main e fails) (all_ok fails inventory_deps)
    ["shutdownTrace"; "cancel"] ∧
  ends_with 0 (email_main e fails) (all_ok fails email_deps)
    ["consumeCtx.Stop"; "nc.Drain"; "shutdownTrace"; "cancel"] ∧
  ends_with 2 (orders_main e fails) (all_ok fails orders_deps)
    ["nc.Drain"; "conn.Close"; "shutdownTrace"; "cancel"].
Proof.
  split; [|split; [|split]]; [run_script; computed..|]. unfold orders_main.
  change (register_all (Orders.orders_routes () () () () ()) NewServeMux) with (@None (mux ())).
  run_script; computed.
Qed.

(** The first thing a gRPC service does when its context is done is to report
    itself not ready, and it drains its calls before it cleans up: the tail of a
    complete run is fixed. *)
Theorem grpc_services_drain e fails :
  (all_ok fails payments_deps = true →
     drop 7 (ran (payments_main e fails)) =
       ["<-ctx.Done"; "log.Info"; "health.NotReady"; "gs.GracefulStop"; "conn.Close"; "shutdownTrace"; "cancel"]) ∧
  (all_ok fails inventory_deps = true →
     drop 6 (ran (inventory_main e fails)) =
       ["<-ctx.Done"; "log.Info"; "health.NotReady"; "gs.GracefulStop"; "shutdownTrace"; "cancel"]).
Proof. split; run_script; intros Hok; first [discriminate Hok|computed]. Qed.

(** (C32) orders-svc never serves.  Whatever the environment and whatever fails, its
    [main] ends before [health.Ready] and [obs.Serve]: with 1 when a dependency is
    missing, and otherwise with the panic of the route that clashes, exit code 2. *)
Theorem orders_main_never_serves e fails :
  exit_code (orders_main e fails) = Some ((if all_ok fails orders_deps then 2 else 1)%Z) ∧
  ("obs.Serve" ∉ ran (orders_main e fails)) ∧ ("health.Ready" ∉ ran (orders_main e fails)).
Proof.
  assert (Hnot : ∀ (c : string) (l : list string), bool_decide (c ∈ l) = false → c ∉ l)
    by (intros c l Hb; exact (bool_decide_eq_false_1 _ Hb)).
  unfold orders_main.
  change (register_all (Orders.orders_routes () () () () ()) NewServeMux) with (@None (mux ())).
  run_script; (split; [vm_compute; reflexivity|]; split; apply Hnot; vm_compute; reflexivity).
Qed.

(** email-worker reports itself ready too early.  When everything but the start
    of the consumption succeeds, the process has called [health.Ready] and its
    probe server before it fails and exits with 1. *)
Theorem email_ready_before_consuming e fails :
  all_ok fails (take 5 email_deps) = true → fails "cons.Consume" ≠ None →
  exit_code (email_main e fails) = Some 1%Z ∧
  drop 6 (ran (email_main e fails)) =
    ["go obs.Serve"; "health.Ready"; "log.Info"; "cons.Consume"; "log.Error"].
Proof.
  cbv beta iota zeta delta [take email_deps].
  run_script; intros Hok Hc; first [discriminate Hok|by destruct Hc|computed].
Qed.

Lemma email_ready_before_consuming_witness :
  exit_code (email_main ∅ (λ c, if bool_decide (c = "cons.Consume") then Some (Error "no responders") else None))
  = Some 1%Z.
Proof.
  apply (email_ready_before_consuming ∅
    (λ c, if bool_decide (c = "cons.Consume") then Some (Error "no responders") else None)).
  - vm_compute. reflexivity.
  - vm_compute. discriminate.
Defined.

End Procs.
