(* ===== verification/GrpcProc.v ===== *)
(** * A gRPC service process: main, its server goroutine and its signals

    payments-svc and inventory-svc end their [main] the same way: one goroutine sets
    the ready flag and runs [gs.Serve], and calls [cancel] when that fails; main
    waits for the context, clears the flag, calls [gs.GracefulStop] and returns.
    These, the signals and the handlers that grpc runs for incoming calls interleave
    freely, so this is a step relation.  [GracefulStop] is documented to refuse new
    calls and to return when the pending ones have. *)

From stdpp Require Import relations.
From S2P Require Import Prelude GoLib.

Module GrpcProc.

(** main: at [<-ctx.Done()], past [health.NotReady()], in [gs.GracefulStop()],
    returned (with exit code 0). *)
Inductive main_pc := Waiting | Unready | Stopping | Exited.

(** The goroutine: not yet run, past [health.Ready()] and serving, at [cancel()]
    after a failure, finished. *)
Inductive serve_pc := Launched | Serving | Failing | Finished.

Record state := mkState {
  main : main_pc;
  serve : serve_pc;
  ready : bool;
  ctx_done : bool;
  stopped : bool;
  serve_failed : bool;
  pending : nat;
}.

Definition initial : state := mkState Waiting Launched false false false false 0.

Inductive step : state → state → Prop :=
  (** [log.Info; health.Ready()], then [gs.Serve]. *)
  | step_ready m r d st f n :
      step (mkState m Launched r d st f n) (mkState m Serving true d st f n)
  (** [gs.Serve] returns an error that is not [ErrServerStopped]. *)
  | step_serve_fails m r d f n :
      step (mkState m Serving r d false f n) (mkState m Failing r d false true n)
  (** [log.Error; cancel()]. *)
  | step_cancel m r d st f n :
      step (mkState m Failing r d st f n) (mkState m Finished r true st f n)
  (** [gs.Serve] returns after the server was stopped. *)
  | step_serve_stopped m r d f n :
      step (mkState m Serving r d true f n) (mkState m Finished r d true f n)
  (** SIGINT or SIGTERM. *)
  | step_signal m g r st f n :
      step (mkState m g r false st f n) (mkState m g r true st f n)
  (** [<-ctx.Done(); log.Info; health.NotReady()]. *)
  | step_unready g r st f n :
      step (mkState Waiting g r true st f n) (mkState Unready g false true st f n)
  (** [gs.GracefulStop()] begins. *)
  | step_stop g r d st f n :
      step (mkState Unready g r d st f n) (mkState Stopping g r d true f n)
  (** It ends when the calls in flight have, and main returns. *)
  | step_exit g r d st f :
      step (mkState Stopping g r d st f 0) (mkState Exited g r d st f 0)
  (** A call comes in, once the server serves and as long as it is not stopped, on a new
      connection or on an old one. *)
  | step_accept m g r d f n :
      g ≠ Launched → step (mkState m g r d false f n) (mkState m g r d false f (S n))
  (** A handler returns. *)
  | step_handled m g r d st f n :
      step (mkState m g r d st f (S n)) (mkState m g r d st f n).

(** The states of a run. *)
Definition reachable : state → Prop := rtc step initial.

(** main has started to shut down. *)
Definition shutting_down (s : state) : Prop := main s ≠ Waiting.

Record inv (s : state) : Prop := {
  inv_done : shutting_down s → ctx_done s = true;
  inv_ready : ready s = true → serve s ≠ Launched;
  inv_failed : serve_failed s = true → ctx_done s = true ∨ serve s = Failing;
  inv_stopped : stopped s = true → main s = Stopping ∨ main s = Exited;
  inv_exited : main s = Stopping ∨ main s = Exited → stopped s = true;
  inv_drained : main s = Exited → pending s = 0;
}.

Lemma grpc_inv_step s s' : step s s' → inv s → inv s'.
Proof.
  destruct 1; intros [H1 H2 H3 H4 H5 H6]; unfold shutting_down in *; split;
    unfold shutting_down; cbn in *; intuition congruence.
Qed.

Lemma grpc_reachable_inv s : reachable s → inv s.
Proof.
  assert (Hgen : ∀ a, rtc step a s → inv a → inv s) by (induction 1; eauto using grpc_inv_step).
  intros Hr. apply (Hgen initial); [done|]. split; unfold shutting_down; cbn; intuition congruence.
Qed.

(** Once the goroutine is past its [Ready], shutting down keeps the flag down. *)
Definition settled (s : state) : Prop := serve s ≠ Launched ∧ (shutting_down s → ready s = false).

Lemma settled_step s s' : step s s' → settled s → settled s'.
Proof.
  unfold settled, shutting_down. destruct 1; cbn; intros [H1 H2]; intuition congruence.
Qed.

Lemma settled_steps s s' : rtc step s s' → settled s → settled s'.
Proof. induction 1; eauto using settled_step. Qed.

(** From any state whose context is done, main can finish. *)
Lemma main_finishes s :
  ctx_done s = true → ∃ s', rtc step s s' ∧ main s' = Exited.
Proof.
  destruct s as [m g r d st f n]. cbn. intros ->.
  assert (Hdrain : ∀ g r st n, ∃ s', rtc step (mkState Stopping g r true st f n) s' ∧ main s' = Exited).
  { intros g' r' st' n'. induction n' as [|n' (s' & Hs & He)].
    - eexists. by split; [apply rtc_once, step_exit|].
    - exists s'. split; [|done]. eapply rtc_l; [apply step_handled|done]. }
  assert (Hstop : ∀ g r st n, ∃ s', rtc step (mkState Unready g r true st f n) s' ∧ main s' = Exited).
  { intros g' r' st' n'. destruct (Hdrain g' r' true n') as (s' & Hs & He). exists s'. split; [|done].
    eapply rtc_l; [apply step_stop|done]. }
  destruct m.
  - destruct (Hstop g false st n) as (s' & Hs & He). exists s'. split; [|done].
    eapply rtc_l; [apply step_unready|done].
  - apply Hstop.
  - apply Hdrain.
  - eexists. by split; [apply rtc_refl|].
Qed.

(** ** Properties *)

(** How a gRPC service process ends, on every interleaving.  It shuts down only
    after a signal or a failure of its server; a failure of the server leads to the
    context being done; and from then on the process can always finish, which it
    does through [GracefulStop], with every call handled and with exit code 0, even
    when the server failed. *)
Theorem grpc_process_ends s :
  reachable s →
  (shutting_down s → ctx_done s = true) ∧
  (main s = Exited → stopped s = true ∧ pending s = 0) ∧
  (serve_failed s = true → ∃ s', rtc step s s' ∧ ctx_done s' = true ∧ main s' = main s) ∧
  (ctx_done s = true → ∃ s', rtc step s s' ∧ main s' = Exited).
Proof.
  intros Hr. pose proof (grpc_reachable_inv s Hr) as [H1 H2 H3 H4 H5 H6].
  split; [done|]. split; [by auto|]. split; [|apply main_finishes].
  intros Hf. destruct (H3 Hf) as [Hd|Hs]; [by exists s; split; [apply rtc_refl|]|].
  destruct s as [m g r d st f n]. cbn in *. subst g.
  eexists. split; [apply rtc_once, step_cancel|done].
Qed.

Lemma grpc_process_ends_witness :
  let s := mkState Waiting Finished true true false true 2 in
  reachable s ∧ ∃ s', rtc step s s' ∧ main s' = Exited.
Proof.
  intros s.
  assert (Hr : reachable s).
  { unfold reachable. eapply rtc_l; [apply step_ready|].
    do 2 (eapply rtc_l; [by apply step_accept|]). eapply rtc_l; [apply step_serve_fails|].
    eapply rtc_l; [apply step_cancel|]. apply rtc_refl. }
  split; [exact Hr|]. destruct (grpc_process_ends s Hr) as (_ & _ & _ & Hend).
  apply Hend. reflexivity.
Defined.

(** (C37) Readiness in shutdown.  If the server goroutine has run its [Ready] before
    the shutdown begins, the process is not ready at any time after it; but the two
    are not ordered: a signal that arrives before the goroutine first runs leaves a
    process that is shutting down, has called [NotReady], and still reports ready. *)
Theorem grpc_readiness :
  (∀ s s', reachable s → main s = Waiting → serve s ≠ Launched → rtc step s s' →
     shutting_down s' → ready s' = false) ∧
  (∃ s, reachable s ∧ main s = Stopping ∧ stopped s = true ∧ ready s = true).
Proof.
  split.
  - intros s s' _ Hm Hs Hsteps Hsd.
    assert (Hset : settled s) by (split; [done|intros Hn; by destruct Hn]).
    by apply (settled_steps s s' Hsteps Hset).
  - eexists. split; [|split; [|split]].
    + unfold reachable. eapply rtc_l; [apply step_signal|]. eapply rtc_l; [apply step_unready|].
      eapply rtc_l; [apply step_stop|]. apply rtc_once, step_ready.
    + done.
    + done.
    + done.
Qed.

End GrpcProc.
