(* ===== verification/Manager.v ===== *)
(** * The operator's entry point

    Models operator/cmd/manager/main.go: its flags, the options it gives the
    controller-runtime manager, the registry of remedies and the webhook server it
    adds.  Parsing the command line, the manager and its clients are
    controller-runtime's; a call that can fail is looked up in [fails]. *)

From Stdlib Require Import ZArith Lia.
From S2P Require Import Prelude GoLib GoText Classifier Json Payload Kube Remedy Dedupe Server Procs.
Import GoTime Payload Classifier Kube Remedy Server Procs.

Module Manager.

(** The flags after parsing. *)
Record flags := mkFlags {
  webhookAddr : string;
  metricsAddr : string;
  probeAddr : string;
  leaderElect : bool;
}.

Definition default_flags : flags := mkFlags ":8088" ":8090" ":8091" false.

Definition operatorVersion : string := "dev".

(** The fields of [manager.Options] that main sets. *)
Record Options := mkOptions {
  HealthProbeBindAddress : string;
  LeaderElection : bool;
  LeaderElectionID : string;
}.

Definition manager_options (f : flags) : Options :=
  mkOptions (probeAddr f) (leaderElect f) "remediation-operator.reliability-lab".

Section Wiring.
Context {W : Type} {KC : KubeClient W} {KL : Logger W}.

(** The three registrations. *)
Definition manager_registry : Registry W :=
  Register CircuitBreak CircuitBreak_Apply
    (Register Classifier.ScaleUp (ScaleUp_Apply (mkScaleUp 0%Z))
      (Register Rollback Rollback_Apply NewRegistry)).

Definition manager_config (f : flags) : Config W :=
  mkConfig (webhookAddr f) operatorVersion 0%Z "" (Some manager_registry).

(** The webhook server. *)
Definition manager_server (f : flags) : Server W := New (manager_config f).
End Wiring.

Definition show_bool (b : bool) : string := if b then "true" else "false".

Section Main.
Context (fails : string → option error).

(** [main], with the flags already parsed. *)
Definition manager_main (f : flags) : Script unit :=
  let o := manager_options f in
  _ ← must fails "ctrl.GetConfigOrDie" [] "unable to get kubeconfig";
  _ ← must fails "ctrl.NewManager"
        [HealthProbeBindAddress o; show_bool (LeaderElection o); LeaderElectionID o]
        "unable to start manager";
  _ ← must fails "mgr.AddHealthzCheck" ["ping"] "add healthz";
  _ ← must fails "mgr.AddReadyzCheck" ["ping"] "add readyz";
  _ ← must fails "mgr.Add" [webhookAddr f; operatorVersion] "add webhook server runnable";
  _ ← call "log.Info" ["starting manager"; webhookAddr f; metricsAddr f; probeAddr f;
                       show_bool (leaderElect f); operatorVersion];
  _ ← call "mgr.Start" [];
  match fails "mgr.Start" with
  | None => return_main
  | Some _ => _ ← call "fmt.Fprintf(os.Stderr)" ["manager exited"]; os_Exit 1
  end.
End Main.

(** ** Properties *)

(** The remedy a kind stands for. *)
Definition remedy_of {W} `{KubeClient W, Logger W} (k : Kind) : option (Remedy W) :=
  match k with
  | NoRemedy => None
  | Rollback => Some Rollback_Apply
  | Classifier.ScaleUp => Some (ScaleUp_Apply (mkScaleUp 0%Z))
  | CircuitBreak => Some CircuitBreak_Apply
  end.

Lemma manager_lookup {W} `{KubeClient W, Logger W} (f : flags) k :
  Lookup k (registry (s_cfg (manager_server (W := W) f))) = remedy_of k.
Proof. by destruct k. Qed.

(** (C36) The operator as it is wired.  Its server has a cooldown of ten minutes and
    acts in the namespace reliability-lab; and whatever labels an alert carries, a
    decision to act finds its remedy registered, so that dispatching it runs that
    remedy and never fails for want of one; a decision not to act only logs. *)
Theorem manager_covers_classifier {UT : UnicodeTables} {W} {KC : KubeClient W} {KL : Logger W}
    (f : flags) :
  let cfg := s_cfg (manager_server (W := W) f) in
  Dedupe.cooldown (s_dedupe (manager_server (W := W) f)) = (10 * Minute)%Z ∧
  c_Namespace cfg = "reliability-lab" ∧
  (∀ k, Lookup k (registry cfg) = remedy_of k) ∧
  ∀ a (w : W),
    let d := Classify (a_Labels a) in
    match remedy_of (d_Kind d) with
    | None => d_Kind d = NoRemedy ∧ dispatch cfg a w = LogInfo "no remedy for alert" w
    | Some rem =>
      let '(err, w') := rem (mkInput "reliability-lab" d) w in
      dispatch cfg a w = match err with
                         | Some e => LogError e "remedy apply failed" w'
                         | None => ((), w')
                         end
    end.
Proof.
  cbn zeta. split; [done|]. split; [done|].
  split; [apply manager_lookup|]. intros a w. unfold dispatch, remedy_input, Registry_Apply.
  cbn [in_Decision]. rewrite manager_lookup. destruct (d_Kind (Classify (a_Labels a))) eqn:Hk; [done|..];
    rewrite bool_decide_eq_false_2 by done; cbn [remedy_of]; rewrite bind_run;
    change (c_Namespace (s_cfg (manager_server f))) with "reliability-lab";
    match goal with |- context [let '(_, _) := ?m in _] => destruct m as [[e|] w'] end; done.
Qed.

(** The metrics address is read and printed, and nothing else: two settings that
    differ only in it give the same manager options, the same server and, log lines
    apart, the same calls. *)
Theorem metrics_addr_unused fails m1 m2 wa pa le {W} `{KubeClient W, Logger W} :
  let f1 := mkFlags wa m1 pa le in let f2 := mkFlags wa m2 pa le in
  let calls f := filter (λ a, a_call a ≠ "log.Info") (trace (snd (manager_main fails f start))) in
  manager_options f1 = manager_options f2 ∧
  manager_server (W := W) f1 = manager_server (W := W) f2 ∧
  exit_code (manager_main fails f1) = exit_code (manager_main fails f2) ∧
  calls f1 = calls f2.
Proof.
  cbn zeta. split; [done|]. split; [done|].
  unfold manager_main. cbv zeta. run_script; (split; reflexivity).
Qed.

End Manager.
