(* ===== verification/Concurrent.v ===== *)
(** * Concurrent webhook requests

    The operator's handler as a program of calls, in the wiring of its main: run alone
    it is [Server.handleAlert]; run in a pool, under every interleaving, a fingerprint
    is acted on once per cooldown, the scale-up floor keeps its bounds, and an engaged
    brake stays engaged.  Reads may be those of a cache that lags. *)

From Stdlib Require Import ZArith Lia.
From S2P Require Import Prelude GoLib GoText Rfc3339 Json Payload Classifier Kube Remedy RemedyProps Dedupe Http Server Pool Calls.
From S2P Require Import Manager.
Import GoInt GoTime Json Payload Classifier Kube Remedy Dedupe Http Server Pool Calls Manager.

Module Concurrent.
Local Open Scope Z_scope.

(** ** The remedies *)

Section Programs.
Context {UT : UnicodeTables} {W : Type} {KC : KubeClient W}.

Definition rollback_prog (inp : Input) : prog call (option error) :=
  err ← request (CStatusPatch rolloutGVR (target_key inp) abort_patch);
  match err with
  | Some e =>
    mret (Some (wrapf ("patch rollout " +:+ key_String (target_key inp) +:+ " status.abort") e))
  | None =>
    _ ← request (CLogInfo "rollback aborted in-flight rollout");
    mret None
  end.

Definition scale_prog (s : ScaleUp) (inp : Input) : prog call (option error) :=
  let key := target_key inp in
  res ← request (CGetHPA key);
  match res with
  | inl e => mret (Some (wrapf ("get hpa " +:+ key_String key) e))
  | inr hpa =>
    let target := scale_target s hpa in
    if target <=? scale_current hpa then
      _ ← request (CLogInfo "scale-up no-op (already at or above target)");
      mret None
    else
      err ← request (CPatchHPA key hpa (mkHPA (Some target) (MaxReplicas hpa)));
      match err with
      | Some e => mret (Some (wrapf ("patch hpa " +:+ key_String key +:+ " minReplicas") e))
      | None =>
        _ ← request (CLogInfo "scale-up bumped HPA minReplicas");
        mret None
      end
  end.

Definition circuitbreak_prog (inp : Input) : prog call (option error) :=
  let key := target_key inp in
  res ← request (CGetConfigMap key);
  match res with
  | inl e =>
    if IsNotFound e then
      err ← request (CCreateConfigMap key (mkCM (Some {[ flagKey := flagValuePaused ]})));
      match err with
      | Some e' => mret (Some (wrapf ("create flags configmap " +:+ key_String key) e'))
      | None =>
        _ ← request (CLogInfo "circuit-break engaged (configmap created)");
        mret None
      end
    else mret (Some (wrapf ("get flags configmap " +:+ key_String key) e))
  | inr cm =>
    if bool_decide (default "" (data_map cm !! flagKey) = flagValuePaused) then
      _ ← request (CLogInfo "circuit-break already engaged (no-op)");
      mret None
    else
      err ← request (CPatchConfigMap key cm (paused_data cm));
      match err with
      | Some e => mret (Some (wrapf ("patch flags configmap " +:+ key_String key) e))
      | None =>
        _ ← request (CLogInfo "circuit-break engaged");
        mret None
      end
  end.

(** ** The handler *)

(** The remedy a decision of the manager's registry runs. *)
Definition remedy_prog (k : Kind) : option (Input → prog call (option error)) :=
  match k with
  | NoRemedy => None
  | Rollback => Some rollback_prog
  | Classifier.ScaleUp => Some (scale_prog (mkScaleUp 0))
  | CircuitBreak => Some circuitbreak_prog
  end.

Definition dispatch_prog (ns : string) (a : Alert) : prog call unit :=
  let d := Classify (a_Labels a) in
  match remedy_prog (d_Kind d) with
  | None => request (CLogInfo "no remedy for alert")
  | Some rem =>
    err ← rem (mkInput ns d);
    match err with
    | Some e => request (CLogError e "remedy apply failed")
    | None => mret ()
    end
  end.

Definition handle_one_prog (ns : string) (now : Time) (a : Alert) : prog call unit :=
  if negb (Firing a) then request (CLogV1 "resolved alert (no remedy)")
  else
    ok ← request (CAcquire (a_Fingerprint a) now);
    if ok : bool then
      _ ← request (CLogInfo "firing alert accepted for remedy dispatch");
      dispatch_prog ns a
    else request (CLogV1 "inside cooldown — skipping").

Definition handleAlert_prog (ns : string) (now : Time) (body : string) : prog call (list rw_op) :=
  match DecodePayload body with
  | None =>
    _ ← request (CLogError (Error "invalid payload") "decode AlertManager payload");
    mret (http_Error "bad payload" StatusBadRequest)
  | Some p =>
    _ ← each (p_Alerts p) (handle_one_prog ns now);
    mret [WriteHeader StatusAccepted]
  end.
End Programs.

(** ** Run alone *)

Section Alone.
Context {UT : UnicodeTables} {W : Type} {KC : KubeClient W} {KL : Logger W}.

Lemma in_world_bind {A B} (m : M W A) (f : A → M W B) (s : st W) :
  in_world (m ≫= f) s = (in_world m ≫= λ a, in_world (f a)) s.
Proof.
  rewrite bind_run. unfold in_world. rewrite bind_run. by destruct (m (st_world s)).
Qed.

Lemma in_world_ret {A} (a : A) (s : st W) : in_world (mret a) s = (a, s).
Proof. by destruct s. Qed.

Lemma run_then {R A} (c : call R) (k : R → prog call A) (m : M W R) (f : R → M W A) (s : st W) :
  do_call c = in_world m → (∀ r s, run (k r) s = in_world (f r) s) →
  run (request c ≫= k) s = in_world (m ≫= f) s.
Proof.
  intros Hc Hk. rewrite run_bind, run_request, in_world_bind, bind_run, Hk. by rewrite Hc.
Qed.

Ltac run_prog :=
  repeat first
    [ reflexivity
    | rewrite in_world_ret; reflexivity
    | rewrite run_request; reflexivity
    | apply run_then; [reflexivity|intros ? ?]
    | case_match ].

Lemma rollback_alone inp (s : st W) : run (rollback_prog inp) s = in_world (Rollback_Apply inp) s.
Proof. unfold rollback_prog, Rollback_Apply. run_prog. Qed.

Lemma scale_alone sc inp (s : st W) : run (scale_prog sc inp) s = in_world (ScaleUp_Apply sc inp) s.
Proof. unfold scale_prog, ScaleUp_Apply. run_prog. Qed.

Lemma circuitbreak_alone inp (s : st W) :
  run (circuitbreak_prog inp) s = in_world (CircuitBreak_Apply inp) s.
Proof. unfold circuitbreak_prog, CircuitBreak_Apply. run_prog. Qed.

Definition operator_ns : string := "reliability-lab".

Lemma dispatch_alone f a (s : st W) :
  run (dispatch_prog operator_ns a) s = in_world (dispatch (s_cfg (manager_server f)) a) s.
Proof.
  unfold dispatch_prog, dispatch, Registry_Apply, remedy_input. cbn [in_Decision].
  rewrite manager_lookup. destruct (d_Kind (Classify (a_Labels a))); cbn [remedy_prog remedy_of];
    [rewrite bool_decide_eq_true_2 by done; by rewrite run_request|..];
    rewrite bool_decide_eq_false_2 by done;
    rewrite run_bind, in_world_bind, bind_run;
    [rewrite rollback_alone|rewrite scale_alone|rewrite circuitbreak_alone];
    (change (c_Namespace (s_cfg (manager_server f))) with operator_ns;
     match goal with |- context [fst (?m s)] => destruct (fst (m s)) end; run_prog).
Qed.

Lemma handle_one_alone f now a (s : st W) :
  run (handle_one_prog operator_ns now a) s = handle_one (s_cfg (manager_server f)) now a s.
Proof.
  unfold handle_one_prog, handle_one. destruct (negb (Firing a)); [by rewrite run_request|].
  rewrite run_bind, bind_run, run_request. cbn [do_call call_handler].
  destruct (fst (in_dedupe _ s)); [|by rewrite run_request].
  rewrite run_bind, bind_run, run_request. apply dispatch_alone.
Qed.

Lemma in_world_then {A} (m : M W unit) (a : A) (s : st W) :
  (in_world m ≫= λ _, mret a) s = (a, exec (in_world m) s).
Proof. by rewrite bind_run. Qed.

End Alone.

(** ** Interleaved *)

(** The requests of a pool: the time and the body of each. *)
Definition requests `{UnicodeTables, KubeClient W} (reqs : list (Time * string)) : list (prog call (list rw_op)) :=
  (λ r, handleAlert_prog operator_ns r.1 r.2) <$> reqs.

Section Pools.
Context {UT : UnicodeTables} {W : Type} {KC : KubeClient W} {KL : Logger W} {KV : ClusterView W}.

(** *** Promises of the programs *)

(** The calls of a handler ask the deduplication at its time only. *)
Definition asks_at (now : Time) (R : Type) (c : call R) : Prop :=
  match c with CAcquire _ t => t = now | _ => True end.

Ltac calls_of :=
  repeat first
    [ done
    | apply all_calls_bind; [|intros ?]
    | split; [|intros ?]
    | progress cbn [all_calls request asks_at mret prog_ret]
    | case_match ].

Lemma dispatch_asks ns now a : all_calls (asks_at now) (dispatch_prog ns a).
Proof.
  unfold dispatch_prog, remedy_prog.
  destruct (d_Kind (Classify (a_Labels a)));
    unfold rollback_prog, scale_prog, circuitbreak_prog; calls_of.
Qed.

Lemma handleAlert_asks ns now body : all_calls (asks_at now) (handleAlert_prog ns now body).
Proof.
  unfold handleAlert_prog. destruct (DecodePayload body) as [p|]; [|calls_of].
  apply all_calls_bind; [|done]. apply all_calls_each. intros a _. unfold handle_one_prog.
  destruct (negb (Firing a)); [calls_of|].
  apply all_calls_bind; [calls_of|]. intros []; [|calls_of].
  apply all_calls_bind; [calls_of|]. intros _. apply dispatch_asks.
Qed.

(** An alert takes at most six calls. *)
Lemma handle_one_calls ns now a : at_most 6 (handle_one_prog ns now a).
Proof.
  unfold handle_one_prog, dispatch_prog, remedy_prog. destruct (negb (Firing a)); [cbn; auto|].
  destruct (d_Kind (Classify (a_Labels a)));
    unfold rollback_prog, scale_prog, circuitbreak_prog;
    repeat first [done|case_match|intros ?|progress cbn].
Qed.

(** The calls a request can make: one to log a body that does not decode. *)
Definition request_bound (body : string) : nat :=
  match DecodePayload body with Some p => length (p_Alerts p) * 6 | None => 1 end.

Lemma handleAlert_calls ns now body : at_most (request_bound body) (handleAlert_prog ns now body).
Proof.
  unfold handleAlert_prog, request_bound. destruct (DecodePayload body) as [p|]; [|cbn; auto].
  rewrite <- (Nat.add_0_r (_ * 6)). apply at_most_bind; [apply at_most_each, handle_one_calls|done].
Qed.

(** What a request is answered. *)
Definition answer_to (body : string) : list rw_op :=
  match DecodePayload body with
  | Some _ => [WriteHeader StatusAccepted]
  | None => http_Error "bad payload" StatusBadRequest
  end.

Lemma handleAlert_returns ns now body :
  returns (λ ops, ops = answer_to body) (handleAlert_prog ns now body).
Proof.
  unfold handleAlert_prog, answer_to. by destruct (DecodePayload body); apply returns_bind.
Qed.

(** *** What a call can do to the cluster *)

Context {KLaws : KubeLaws W} {KF : KubeFailures W} {KR : CachedReads W}.

Definition may_write {R} (c : call R) (c1 c2 : cluster) : Prop :=
  match c with
  | CPatchHPA k base obj => ∃ cur, hpas c1 !! k = Some cur ∧ c2 = with_hpa k (merge_hpa base obj cur) c1
  | CCreateConfigMap k m => configmaps c1 !! k = None ∧ c2 = with_cm k m c1
  | CPatchConfigMap k base obj =>
      ∃ cur, configmaps c1 !! k = Some cur ∧ c2 = with_cm k (merge_cm base obj cur) c1
  | CStatusPatch g k _ => ∃ j, c2 = with_status g k j c1
  | _ => False
  end.

Lemma do_call_effect {R} (c : call R) (s : st W) :
  cluster_of (exec (do_call c) s) = cluster_of s ∨
  may_write c (cluster_of s) (cluster_of (exec (do_call c) s)).
Proof.
  destruct c; unfold cluster_of; cbn [do_call call_handler may_write];
    rewrite ?exec_in_dedupe, ?exec_in_world; cbn [st_world]; set (w := st_world s).
  - by left.
  - left. apply GetHPA_view.
  - destruct (fst (PatchHPA k base obj w)) eqn:E; [by eapply PatchHPA_err|right; by apply PatchHPA_ok].
  - left. apply GetConfigMap_view.
  - destruct (fst (CreateConfigMap k m w)) eqn:E;
      [by eapply CreateConfigMap_err|right; by apply CreateConfigMap_ok].
  - destruct (fst (PatchConfigMap k base obj w)) eqn:E;
      [by eapply PatchConfigMap_err|right; by apply PatchConfigMap_ok].
  - destruct (fst (StatusPatch g k patch w)) eqn:E; [by eapply StatusPatch_err|].
    right. destruct (StatusPatch_ok _ _ _ _ E) as (old & doc & _ & _ & ->). by eexists.
  - left. apply LogInfo_view.
  - left. apply LogV1_view.
  - left. apply LogError_view.
Qed.

(** [I] holds of the cluster, and what it implies, [Rd], of every cluster that a read
    may show. *)
Definition holds (I Rd : cluster → Prop) (s : st W) : Prop :=
  I (cluster_of s) ∧ (∀ c, cached (st_world s) c → Rd c) ∧ ∀ c, I c → Rd c.

(** What can be read after a call could be read before, or is the cluster it left. *)
Lemma do_call_cached {R} (c : call R) (s : st W) cl :
  cached (st_world (exec (do_call c) s)) cl →
  cached (st_world s) cl ∨ cl = cluster_of (exec (do_call c) s).
Proof.
  destruct (call_cases (W := W) c) as [(fp & now & Hc)|(m & Hop & Hc)].
  - rewrite Hc, exec_in_dedupe. auto.
  - unfold exec. destruct (Hc (fst (do_call c s))) as [_ Hr]. rewrite (Hr s).
    change (snd (in_world m s)) with (exec (in_world m) s).
    unfold cluster_of. rewrite exec_in_world. cbn [st_world]. by apply cached_op.
Qed.

(** An invariant that no call of a program can break is kept by it. *)
Lemma keeps_request (I Rd : cluster → Prop) {R} (c : call R) :
  (∀ c1 c2, I c1 → may_write c c1 c2 → I c2) → keeps (holds I Rd) (request c).
Proof.
  intros Hw s (Hs & Hread & Himp). split; [|done].
  assert (HI : I (cluster_of (exec (do_call c) s))).
  { destruct (do_call_effect c s) as [->|Hm]; [done|by eapply Hw]. }
  split_and!; [done| |done]. intros cl [Hcl| ->]%do_call_cached; [by apply Hread|by apply Himp].
Qed.

(** The log line before a return. *)
Lemma keeps_log (I Rd : cluster → Prop) {A} msg (x : A) :
  keeps (holds I Rd) (_ ← request (CLogInfo msg); mret x).
Proof. apply keeps_bind; [by apply keeps_request|done]. Qed.

(** A read keeps every invariant and hands on what it read, from a cluster that could
    be read. *)
Lemma keeps_read {R A} (c : call R) (I Rd : cluster → Prop) (f : R → prog call A) :
  keeps (holds I Rd) (request c) →
  (∀ s, holds I Rd s → keeps (holds I Rd) (f (fst (do_call c s)))) →
  keeps (holds I Rd) (request c ≫= f).
Proof.
  intros Hc Hf s Hs. split; [by apply Hc|]. by apply Hf.
Qed.

Lemma keeps_get_hpa I Rd {A} k (f : error + HPA → prog call A) :
  (∀ e, keeps (holds I Rd) (f (inl e))) →
  (∀ c h, Rd c → hpas c !! k = Some h → keeps (holds I Rd) (f (inr h))) →
  keeps (holds I Rd) (request (CGetHPA k) ≫= f).
Proof.
  intros He Hh. apply keeps_read; [by apply keeps_request|]. intros s (_ & Hread & _).
  change (fst (do_call (CGetHPA k) s)) with (fst (in_world (GetHPA k) s)).
  pose proof (GetHPA_cached k (st_world s)) as Hok. unfold in_world.
  destruct (GetHPA k (st_world s)) as [[e|h] w']; [apply He|].
  destruct (Hok h eq_refl) as (c & Hc & Hlk). by apply (Hh c); [apply Hread|].
Qed.

Lemma keeps_get_configmap I Rd {A} k (f : error + ConfigMap → prog call A) :
  (∀ e, keeps (holds I Rd) (f (inl e))) →
  (∀ m, keeps (holds I Rd) (f (inr m))) →
  keeps (holds I Rd) (request (CGetConfigMap k) ≫= f).
Proof.
  intros He Hm. apply keeps_read; [by apply keeps_request|]. intros s _.
  destruct (fst (do_call (CGetConfigMap k) s)); [apply He|apply Hm].
Qed.

(** The remedy that an alert of a request calls for, with its input. *)
Definition calls_for (ns body : string) (a : Alert) (rem : prog call (option error)) : Prop :=
  ∃ p f, DecodePayload body = Some p ∧ a ∈ p_Alerts p ∧ Firing a = true ∧
    remedy_prog (d_Kind (Classify (a_Labels a))) = Some f ∧ rem = f (mkInput ns (Classify (a_Labels a))).

(** Keeping an invariant is a matter of the remedies called for: the rest only logs. *)
Lemma handleAlert_keeps I Rd ns now body :
  (∀ a rem, calls_for ns body a rem → keeps (holds I Rd) rem) →
  keeps (holds I Rd) (handleAlert_prog ns now body).
Proof.
  intros Hrem. unfold handleAlert_prog.
  destruct (DecodePayload body) as [p|] eqn:Hp; [|apply keeps_bind; [by apply keeps_request|done]].
  apply keeps_bind; [|done]. apply keeps_each. intros a Ha. unfold handle_one_prog.
  destruct (Firing a) eqn:Hf; cbn [negb]; [|by apply keeps_request].
  apply keeps_bind; [by apply keeps_request|]. intros []; [|by apply keeps_request].
  apply keeps_bind; [by apply keeps_request|]. intros _. unfold dispatch_prog.
  destruct (remedy_prog _) as [f|] eqn:Hk; [|by apply keeps_request].
  apply keeps_bind; [|intros [e|]; [by apply keeps_request|done]].
  apply (Hrem a). by exists p, f.
Qed.

(** *** The scale-up floor *)

(** An HPA against what it was at the start. *)
Definition floor_ok (h0 h : HPA) : Prop :=
  MaxReplicas h = MaxReplicas h0 ∧
  scale_current h0 ≤ scale_current h ≤ Z.max (scale_current h0) (MaxReplicas h0).

Definition floors_ok (c0 c : cluster) : Prop :=
  ∀ key, option_Forall2 floor_ok (hpas c0 !! key) (hpas c !! key).

Lemma floors_ok_refl c : floors_ok c c.
Proof.
  intros key. destruct (hpas c !! key); constructor. split; [done|]. lia.
Qed.

Lemma floors_ok_same_hpas c0 c1 c2 : hpas c2 = hpas c1 → floors_ok c0 c1 → floors_ok c0 c2.
Proof. intros Heq H key. rewrite Heq. apply H. Qed.

(** A patch built on a read of any earlier moment keeps the floor within bounds. *)
Lemma patch_floor c0 c1 c2 k h0 h t :
  floor_ok h0 h → hpas c0 !! k = Some h0 → scale_current h < t ≤ MaxReplicas h → floors_ok c0 c1 →
  may_write (CPatchHPA k h (mkHPA (Some t) (MaxReplicas h))) c1 c2 → floors_ok c0 c2.
Proof.
  intros [Hm Hb] Hk Ht H1 (cur & Hcur & ->) key. cbn [with_hpa hpas].
  destruct (decide (key = k)) as [->|Hne]; [|rewrite lookup_insert_ne by done; apply H1].
  rewrite lookup_insert_eq, Hk. specialize (H1 k). rewrite Hk, Hcur in H1.
  inversion H1 as [? ? [Hmc Hbc]|]; subst. constructor.
  unfold floor_ok, merge_hpa. cbn [MinReplicas MaxReplicas].
  rewrite merge_field_same. split; [exact Hmc|].
  unfold scale_current, merge_field in *. cbn [MinReplicas MaxReplicas]. case_bool_decide; [done|].
  change (default 0 (Some t)) with t. lia.
Qed.

Lemma scale_target_le sc h : scale_target sc h ≤ MaxReplicas h.
Proof. unfold scale_target. cbv zeta. case_match; bool_to_prop; lia. Qed.

Lemma scale_floors c0 sc inp : keeps (holds (floors_ok c0) (floors_ok c0)) (scale_prog sc inp).
Proof.
  unfold scale_prog. apply keeps_get_hpa; [done|]. intros c h Hc Hh.
  destruct (Z.leb_spec (scale_target sc h) (scale_current h)); [apply keeps_log|].
  pose proof (Hc (target_key inp)) as Hk. rewrite Hh in Hk.
  inversion Hk as [h0 ? Hok Hk0|]; subst. apply keeps_bind; [|intros [e|]; [done|apply keeps_log]].
  apply keeps_request. intros c1 c2 Hc1. eapply patch_floor; [done|done| |done].
  split; [done|apply scale_target_le].
Qed.

Lemma rollback_floors c0 inp : keeps (holds (floors_ok c0) (floors_ok c0)) (rollback_prog inp).
Proof.
  unfold rollback_prog. apply keeps_bind; [|intros [e|]; [done|apply keeps_log]].
  apply keeps_request. intros c1 c2 Hc1 [j ->]. by eapply floors_ok_same_hpas.
Qed.

(** The circuit break leaves HPAs alone, the other two configmaps. *)
Lemma circuitbreak_floors c0 inp : keeps (holds (floors_ok c0) (floors_ok c0)) (circuitbreak_prog inp).
Proof.
  unfold circuitbreak_prog. apply keeps_get_configmap.
  - intros e. destruct (IsNotFound e); [|done].
    apply keeps_bind; [|intros [e'|]; [done|apply keeps_log]]. apply keeps_request.
    intros c1 c2 Hc1 [_ ->]. by eapply floors_ok_same_hpas.
  - intros m. case_bool_decide; [apply keeps_log|].
    apply keeps_bind; [|intros [e'|]; [done|apply keeps_log]]. apply keeps_request.
    intros c1 c2 Hc1 (cur & _ & ->). by eapply floors_ok_same_hpas.
Qed.

(** *** The brake *)

Lemma engaged_other key c1 c2 :
  configmaps c2 = configmaps c1 → engaged key c1 → engaged key c2.
Proof. unfold engaged. by intros ->. Qed.

Lemma circuitbreak_engaged key inp : keeps (holds (engaged key) (λ _, True)) (circuitbreak_prog inp).
Proof.
  unfold circuitbreak_prog. apply keeps_get_configmap.
  - intros e. destruct (IsNotFound e); [|done].
    apply keeps_bind; [|intros [e'|]; [done|apply keeps_log]]. apply keeps_request.
    intros c1 c2 (m & Hm & Hf) [Hnone ->]. unfold engaged. cbn.
    destruct (decide (target_key inp = key)) as [Heq|Hne]; [congruence|].
    exists m. by rewrite lookup_insert_ne.
  - intros cm. case_bool_decide as Hflag; [apply keeps_log|].
    apply keeps_bind; [|intros [e'|]; [done|apply keeps_log]]. apply keeps_request.
    intros c1 c2 (m & Hm & Hf) (cur & Hcur & ->). unfold engaged. cbn.
    destruct (decide (target_key inp = key)) as [->|Hne].
    + rewrite lookup_insert_eq. eexists. split; [done|].
      rewrite merge_paused by (intros Heq; by rewrite Heq in Hflag). apply lookup_insert_eq.
    + exists m. by rewrite lookup_insert_ne.
Qed.

Lemma scale_engaged key sc inp : keeps (holds (engaged key) (λ _, True)) (scale_prog sc inp).
Proof.
  unfold scale_prog. apply keeps_get_hpa; [done|]. intros c h _ _. case_match; [apply keeps_log|].
  apply keeps_bind; [|intros [e|]; [done|apply keeps_log]].
  apply keeps_request. intros c1 c2 Hc1 (cur & _ & ->). by eapply engaged_other.
Qed.

Lemma rollback_engaged key inp : keeps (holds (engaged key) (λ _, True)) (rollback_prog inp).
Proof.
  unfold rollback_prog. apply keeps_bind; [|intros [e|]; [done|apply keeps_log]].
  apply keeps_request. intros c1 c2 Hc1 [j ->]. by eapply engaged_other.
Qed.

Lemma requests_keep I Rd reqs :
  (∀ r a rem, r ∈ reqs → calls_for operator_ns r.2 a rem → keeps (holds I Rd) rem) →
  Forall (keeps (holds I Rd)) (requests reqs).
Proof.
  intros Hrem. apply Forall_fmap, Forall_forall. intros r Hr.
  apply handleAlert_keeps. intros a rem. by apply Hrem.
Qed.

(** Invariants that the remedies keep for every input. *)
Lemma requests_keep_all I Rd reqs :
  (∀ inp, keeps (holds I Rd) (rollback_prog inp)) →
  (∀ inp, keeps (holds I Rd) (scale_prog (mkScaleUp 0) inp)) →
  (∀ inp, keeps (holds I Rd) (circuitbreak_prog inp)) →
  Forall (keeps (holds I Rd)) (requests reqs).
Proof.
  intros Hr Hs Hc. apply requests_keep. intros r a rem _ (p & f & _ & _ & _ & Hk & ->).
  destruct (d_Kind (Classify (a_Labels a))); cbn in Hk; simplify_eq; auto.
Qed.

(** ** Properties *)

(** Run alone, the program of calls is the handler: whatever the flags of the
    operator, the request and the state, it gives the same answer and leaves the same
    deduplication map and the same world. *)
Theorem handleAlert_alone (f : flags) now body (s : st W) :
  run (handleAlert_prog operator_ns now body) s = handleAlert (s_cfg (manager_server f)) now body s.
Proof.
  unfold handleAlert_prog, handleAlert. destruct (DecodePayload body) as [p|]; rewrite run_bind, bind_run.
  - rewrite (run_each _ _ (handle_one (s_cfg (manager_server f)) now)) by (intros; apply handle_one_alone).
    done.
  - by rewrite run_request.
Qed.

(** (C4) One remedy per fingerprint and cooldown, whatever the interleaving.  Let any
    number of requests run concurrently, call by call, from any state, with times less
    than a cooldown apart: of all the calls that ask the deduplication for a non-empty
    fingerprint, at most one in the whole run is granted. *)
Theorem concurrent_grants reqs (s : st W) n tr pool s' :
  wf_cooldown (cooldown (st_dedupe s)) →
  (∀ r1 r2, r1 ∈ reqs → r2 ∈ reqs → r1.1 - r2.1 < cooldown (st_dedupe s)) →
  steps (requests reqs, s) n tr (pool, s') →
  ∀ i j th1 th2 fp t1 t2,
    tr !! i = Some (th1, (fp, t1, true)) → tr !! j = Some (th2, (fp, t2, true)) → fp = "" ∨ i = j.
Proof.
  intros Hcd Hnear Hs i j th1 th2 fp t1 t2 Hi Hj. destruct (pool_acquires _ _ _ _ Hs) as [Hans _].
  cbn [snd] in Hans.
  assert (Htimes : Forall (λ e, ∃ r, r ∈ reqs ∧ e.2.1.2 = r.1) tr).
  { eapply Forall_impl.
    - eapply (pool_calls (λ R c, ∃ r, r ∈ reqs ∧ asks_at r.1 R c)); [|exact Hs].
      apply Forall_fmap, Forall_forall. intros r Hr.
      eapply all_calls_weaken; [|apply handleAlert_asks]. intros R c Hc. by exists r.
    - intros e (R & c & b & (r & Hr & Hask) & He). exists r. split; [done|].
      destruct c; [|by apply elem_of_nil in He..]. apply list_elem_of_singleton in He. by rewrite He. }
  rewrite Forall_forall in Htimes.
  apply (Acquire_once_under_interleaving (st_dedupe s) tr.*2.*1) with (t1 := t1) (t2 := t2); [done|..].
  - intros c1 c2 (e1' & -> & (e1 & -> & H1)%list_elem_of_fmap)%list_elem_of_fmap
      (e2' & -> & (e2 & -> & H2)%list_elem_of_fmap)%list_elem_of_fmap.
    destruct (Htimes _ H1) as (r1 & Hr1 & Ht1), (Htimes _ H2) as (r2 & Hr2 & Ht2).
    specialize (Hnear r1 r2 Hr1 Hr2). unfold Time in *. rewrite Ht1, Ht2. exact Hnear.
  - by rewrite !list_lookup_fmap, Hi.
  - by rewrite !list_lookup_fmap, Hj.
  - rewrite Hans. by rewrite !list_lookup_fmap, Hi.
  - rewrite Hans. by rewrite !list_lookup_fmap, Hj.
Qed.

(** (C3) The scale-up floor, under concurrency and behind a cache that may lag.  Let [c0]
    be a state that the cluster, and every state the cache may still show, comes after:
    they have its HPAs with its [maxReplicas], and floors no lower than its own (nor
    above [maxReplicas], unless its own are).  Whatever requests run concurrently and
    however their calls interleave, lost updates and calls that fail or time out
    included, the cluster they leave comes after [c0] too.  When the cache has caught
    up, [c0] is the cluster the requests find; when it lags, a floor can fall as far back
    as what the cache shows, and no further. *)
Theorem concurrent_floors c0 reqs (s : st W) n tr pool s' :
  floors_ok c0 (cluster_of s) → (∀ c, cached (st_world s) c → floors_ok c0 c) →
  steps (requests reqs, s) n tr (pool, s') → floors_ok c0 (cluster_of s').
Proof.
  intros Hnow Hread Hs. set (I := floors_ok c0).
  enough (holds I I s') as [? _] by done.
  eapply pool_keeps; [|split_and!; [exact Hnow|exact Hread|done]|exact Hs].
  apply requests_keep_all.
  - intros inp. apply rollback_floors.
  - intros inp. apply scale_floors.
  - intros inp. apply circuitbreak_floors.
Qed.

(** Nothing the operator does lifts the brake.  Once the flag of a configmap is
    "false", it is "false" after every interleaving of the calls of any requests,
    whatever their reads show. *)
Theorem concurrent_brake reqs key (s : st W) n tr pool s' :
  engaged key (cluster_of s) → steps (requests reqs, s) n tr (pool, s') → engaged key (cluster_of s').
Proof.
  intros He Hs. enough (holds (engaged key) (λ _, True) s') as [? _] by done.
  eapply pool_keeps; [|by split|exact Hs]. apply requests_keep_all.
  - intros inp. apply rollback_engaged.
  - intros inp. apply scale_engaged.
  - intros inp. apply circuitbreak_engaged.
Qed.

(** Requests make at most six calls per alert between them, and a thread that has
    returned answers its request. *)
Lemma requests_calls reqs :
  Forall2 (λ n p, at_most n p) ((λ r, request_bound r.2) <$> reqs) (requests reqs).
Proof.
  unfold requests. apply Forall2_fmap, Forall_Forall2_diag, Forall_forall. intros r _.
  apply handleAlert_calls.
Qed.

Lemma requests_answered reqs (s : st W) n tr pool s' i r ops :
  steps (requests reqs, s) n tr (pool, s') → reqs !! i = Some r → pool !! i = Some (Ret ops) →
  status (serve ops) = match DecodePayload r.2 with Some _ => 202 | None => 400 end.
Proof.
  intros Hs Hr Hi. assert (Hops : ops = answer_to r.2).
  { eapply (pool_returns (λ j ops, ∀ r, reqs !! j = Some r → ops = answer_to r.2)); [|exact Hs|exact Hi|done].
    intros j p Hp. unfold requests in Hp. rewrite list_lookup_fmap in Hp.
    destruct (reqs !! j) as [r0|] eqn:Hj; [|done]. injection Hp as <-.
    eapply returns_weaken; [|apply handleAlert_returns]. by intros ? -> ? [= <-]. }
  rewrite Hops, serve_status. unfold answer_to. by destruct (DecodePayload r.2).
Qed.

End Pools.

(** ** Concrete runs

    Three pages on payments, each with a fingerprint of its own, posted at once to an
    operator whose payments HPA stands at [2, 10]. *)

Import FakeKube.
#[local] Instance no_wide : UnicodeTables := Server.no_wide.

Definition payments_page (fp : string) : Time * string :=
  (0, post_body [mkAlert "firing" {[ "severity" := "page"; "service" := "payments"; "burn_speed" := "fast" ]} ∅
                   Rfc3339.zero_time Rfc3339.zero_time fp]).

Definition three_pages : list (Time * string) := payments_page <$> ["a"; "b"; "c"].

Definition fresh_operator : st fake := mkSt (NewDedupe (10 * Minute)) (RemedyProps.payments_hpa 2 10).

Definition floor_after (sched : list nat) : option Z :=
  scale_current <$> hpas (cluster_of (snd (scheduled sched (requests three_pages) fresh_operator)))
                      !! ("reliability-lab", "payments-svc").

(** The first request reads the HPA, then the second and the third run; the floor
    goes up to 6. *)
Definition two_overtake : list nat := [0; 0; 0; 1; 1; 1; 1; 1; 2; 2; 2; 2; 2]%nat.

(** The scale-up can lower the floor: a request that was overtaken after its read
    patches the value it computed then, and takes the floor from 6 back to 4.  One
    after the other the three requests bring it to 8. *)
Theorem overtaken_scale_up_lowers_floor :
  floor_after two_overtake = Some 6 ∧
  floor_after (two_overtake ++ [0; 0]%nat) = Some 4 ∧
  floor_after (replicate 5 0 ++ replicate 5 1 ++ replicate 5 2)%nat = Some 8.
Proof. split_and!; vm_compute; reflexivity. Qed.

Definition overtaken : list (prog call (list rw_op)) * st fake :=
  scheduled (two_overtake ++ [0; 0]%nat) (requests three_pages) fresh_operator.

Lemma overtaken_reached :
  ∃ n tr, steps (requests three_pages, fresh_operator) n tr (overtaken.1, overtaken.2).
Proof.
  rewrite <- surjective_pairing. destruct (scheduled_steps (two_overtake ++ [0; 0]%nat)
    (requests three_pages) fresh_operator) as [n Hs]. eauto.
Qed.

Lemma concurrent_grants_witness :
  ∃ n tr, steps (requests three_pages, fresh_operator) n tr (overtaken.1, overtaken.2) ∧
    ∀ i j th1 th2 fp t1 t2,
      tr !! i = Some (th1, (fp, t1, true)) → tr !! j = Some (th2, (fp, t2, true)) → fp = "" ∨ i = j.
Proof.
  destruct overtaken_reached as (n & tr & Hs). exists n, tr. split; [exact Hs|].
  apply (concurrent_grants three_pages fresh_operator n tr overtaken.1 overtaken.2); [| |exact Hs].
  - split; vm_compute; congruence.
  - intros r1 r2 H1 H2. unfold three_pages in H1, H2.
    apply list_elem_of_fmap in H1 as (f1 & -> & _), H2 as (f2 & -> & _). vm_compute. reflexivity.
Defined.

(** A circuit break while the brake is engaged already, with a rollback beside it. *)
Definition braked_operator : st fake :=
  mkSt (NewDedupe (10 * Minute))
    (mkFake (mkCluster ∅ {[ ("reliability-lab", "orders-svc-flags") := mkCM (Some {[ "publish_enabled" := "false" ]}) ]}
               {[ ("Rollout", ("reliability-lab", "orders-svc")) := JObj [] ]}) ∅ []).

Definition two_pages : list (Time * string) :=
  [ (0, post_body [mkAlert "firing" {[ "severity" := "page"; "service" := "email-worker" ]} ∅
                     Rfc3339.zero_time Rfc3339.zero_time "e"]);
    (1, post_body [mkAlert "firing" {[ "severity" := "page"; "service" := "orders"; "burn_speed" := "fast" ]} ∅
                     Rfc3339.zero_time Rfc3339.zero_time "o"]) ].

Lemma concurrent_brake_witness :
  let after := snd (scheduled [0; 1; 0; 1; 0; 1; 0; 1]%nat (requests two_pages) braked_operator) in
  engaged ("reliability-lab", "orders-svc-flags") (cluster_of after).
Proof.
  destruct (scheduled_steps [0; 1; 0; 1; 0; 1; 0; 1]%nat (requests two_pages) braked_operator)
    as (n & Hs).
  rewrite (surjective_pairing (scheduled _ _ _)) in Hs.
  refine (concurrent_brake two_pages _ braked_operator n _ _ _ _ Hs).
  eexists. split; [reflexivity|]. vm_compute. reflexivity.
Defined.

(** ** A cache that lags

    The same operator behind a cache that never catches up during the run. *)

Import LaggingKube.

Definition lagging_operator (stored shown : cluster) : st lagging :=
  mkSt (NewDedupe (10 * Minute)) (mkLagging (mkFake stored ∅ []) shown []).

Definition flags_of (data : gmap string string) : cluster :=
  mkCluster ∅ {[ ("reliability-lab", "orders-svc-flags") := mkCM (Some data) ]} ∅.

Definition email_page : Time * string :=
  (0, post_body [mkAlert "firing" {[ "severity" := "page"; "service" := "email-worker" ]} ∅
                   Rfc3339.zero_time Rfc3339.zero_time "e"]).

(** A circuit break that reads a cache which still shows the flag of the last incident
    finds nothing to do: the request is answered 202 and publishing goes on.  On
    current reads the same request engages the brake.  Two scale-ups that read the
    same cached floor raise it once. *)
Theorem stale_reads :
  let key := ("reliability-lab", "orders-svc-flags") in
  let after shown := run (handleAlert_prog operator_ns email_page.1 email_page.2)
                       (lagging_operator (flags_of ∅) shown) in
  (fst (after (flags_of {[ "publish_enabled" := "false" ]})) = [WriteHeader StatusAccepted] ∧
   configmaps (cluster_of (snd (after (flags_of {[ "publish_enabled" := "false" ]})))) !! key =
     Some (mkCM (Some ∅))) ∧
  configmaps (cluster_of (snd (after (flags_of ∅)))) !! key =
    Some (mkCM (Some {[ "publish_enabled" := "false" ]})) ∧
  let hpa := mkCluster {[ ("reliability-lab", "payments-svc") := mkHPA (Some 2) 10 ]} ∅ ∅ in
  scale_current <$> hpas (cluster_of (snd (scheduled (replicate 5 0 ++ replicate 5 1)%nat
      (requests [payments_page "a"; payments_page "b"]) (lagging_operator hpa hpa))))
    !! ("reliability-lab", "payments-svc") = Some 4.
Proof. cbn zeta. split_and!; vm_compute; reflexivity. Qed.

(** Two scale-ups on an HPA that stands at [6, 10] behind a cache that still shows
    [2, 10]: both patch it to 4, below where it was, but not below what the cache shows. *)
Definition payments_at (min max : Z) : cluster :=
  mkCluster {[ ("reliability-lab", "payments-svc") := mkHPA (Some min) max ]} ∅ ∅.

Definition behind : list (prog call (list rw_op)) * st lagging :=
  scheduled (replicate 5 0 ++ replicate 5 1)%nat (requests [payments_page "a"; payments_page "b"])
    (lagging_operator (payments_at 6 10) (payments_at 2 10)).

Lemma behind_reached :
  ∃ n tr, steps (requests [payments_page "a"; payments_page "b"],
                 lagging_operator (payments_at 6 10) (payments_at 2 10)) n tr (behind.1, behind.2).
Proof.
  rewrite <- surjective_pairing. destruct (scheduled_steps (replicate 5 0 ++ replicate 5 1)%nat
    (requests [payments_page "a"; payments_page "b"])
    (lagging_operator (payments_at 6 10) (payments_at 2 10))) as [n Hs]. eauto.
Qed.

Lemma floor_ok_payments min0 min max :
  min0 ≤ min ≤ Z.max min0 max → floors_ok (payments_at min0 max) (payments_at min max).
Proof.
  intros Hle key. unfold payments_at. cbn [hpas].
  destruct (decide (key = ("reliability-lab", "payments-svc"))) as [->|Hne].
  - rewrite !lookup_singleton_eq. constructor. by split.
  - rewrite !lookup_singleton_ne by done. constructor.
Qed.

Lemma concurrent_floors_witness :
  floors_ok (cluster_of fresh_operator) (cluster_of overtaken.2) ∧
  scale_current <$> hpas (cluster_of behind.2) !! ("reliability-lab", "payments-svc") = Some 4 ∧
  floors_ok (payments_at 2 10) (cluster_of behind.2).
Proof.
  split; [|split; [vm_compute; reflexivity|]].
  - destruct overtaken_reached as (n & tr & Hs).
    refine (concurrent_floors _ three_pages fresh_operator n tr overtaken.1 overtaken.2 _ _ Hs).
    + apply floors_ok_refl.
    + intros c ->. apply floors_ok_refl.
  - destruct behind_reached as (n & tr & Hs).
    refine (concurrent_floors (payments_at 2 10) _ _ n tr behind.1 behind.2 _ _ Hs).
    + apply floor_ok_payments. lia.
    + intros c ->. apply floors_ok_refl.
Defined.

End Concurrent.
