(* ===== verification/Locked.v ===== *)
(** * Acquire under its mutex

    [Calls] makes an [Acquire] one atomic call.  The code of it is a lock, accesses of
    the map one by one, and an unlock (operator/internal/server/dedupe.go), while other
    requests go on: here it is that program.  Every run of it is a run of the atomic
    pool, so what [Concurrent] and [Frame] prove holds of it; no two requests touch the
    map at once; and no request waits for one that waits for the API server. *)

From Stdlib Require Import ZArith Lia.
From S2P Require Import Prelude GoLib GoText Rfc3339 Json Payload Kube Dedupe Http Server Pool Waiting Calls.
From S2P Require Import Manager Concurrent.
Import GoTime Payload Kube Dedupe Http Server Pool Waiting Calls Concurrent.

Module Locked.
Local Open Scope Z_scope.

(** ** Calls *)

(** Accesses of the fields of a [Dedupe]. *)
Inductive access : Type → Type :=
  | Seen (fp : string) : access (option Time)
  | Stamp (fp : string) (now : Time) : access unit
  | Entries : access (list (string * Time))
  | Delete (fp : string) : access unit
  | Cooldown : access Duration.

#[export] Instance access_handler : Handler access Dedupe := λ R a,
  match a in access R return M Dedupe R with
  | Seen fp => gets (λ d, Dedupe.seen d !! fp)
  | Stamp fp now => modify (λ d, mkDedupe (cooldown d) (<[fp := now]> (Dedupe.seen d)))
  | Entries => gets (λ d, map_to_list (Dedupe.seen d))
  | Delete fp => modify (λ d, mkDedupe (cooldown d) (delete fp (Dedupe.seen d)))
  | Cooldown => gets cooldown
  end.

Inductive call : Type → Type :=
  | Op {R} (c : Calls.call R) : call R
  | Access {R} (a : access R) : call R
  | Lock : call unit
  | Unlock : call unit.

#[export] Instance call_observer : Observer call (string * Time * bool) :=
  λ R c, match c in call R return R → list (string * Time * bool) with
  | Op c => shows c
  | _ => λ _, []
  end.

(** ** The code *)

(** [gcLocked], and the body of its loop. *)
Definition gc_entry_prog (now : Time) (e : string * Time) : prog access unit :=
  cd ← request Cooldown;
  if cd <=? Sub now e.2 then request (Delete e.1) else mret ().

Definition gcLocked_prog (now : Time) : prog access unit :=
  es ← request Entries;
  each es (gc_entry_prog now).

(** What [Acquire] does between its [Lock] and its [Unlock]. *)
Definition Acquire_body (fp : string) (now : Time) : prog access bool :=
  got ← request (Seen fp);
  recent ← match got with
           | Some t => cd ← request Cooldown; mret (Sub now t <? cd)
           | None => mret false
           end;
  if recent : bool then mret false
  else
    _ ← request (Stamp fp now);
    _ ← gcLocked_prog now;
    mret true.

Definition locked_section {A} (p : prog access A) : prog call A :=
  expand (λ R a, request (Access a)) p.

(** [Acquire]; the deferred [Unlock] runs at either return. *)
Definition Acquire_prog (fp : string) (now : Time) : prog call bool :=
  if bool_decide (fp = "") then mret true
  else
    _ ← request Lock;
    ok ← locked_section (Acquire_body fp now);
    _ ← request Unlock;
    mret ok.

(** The calls of a handler, with [Acquire] as it is written. *)
Definition serve_locked : ∀ R, Calls.call R → prog call R := λ R c,
  match c in Calls.call R return prog call R with
  | Calls.CAcquire fp now => Acquire_prog fp now
  | c => request (Op c)
  end.

Section Locked.
Context {UT : UnicodeTables} {W : Type} {KC : KubeClient W} {KL : Logger W}.

(** The state with its mutex: whether it is locked. *)
Definition state : Type := st W * bool.

#[export] Instance call_handler : Handler call state := λ R c,
  match c in call R return M state R with
  | Op c => λ s, let '(r, t) := do_call c s.1 in (r, (t, s.2))
  | Access a => λ s, let '(r, d) := do_call a (st_dedupe s.1) in (r, (mkSt d (st_world s.1), s.2))
  | Lock => λ s, ((), (s.1, true))
  | Unlock => λ s, ((), (s.1, false))
  end.

(** A [Lock] waits until the mutex is free. *)
#[export] Instance call_waits : Waits call state := λ R c s,
  match c with Lock => s.2 = false | _ => True end.

#[export] Instance ready_dec R (c : call R) (s : state) : Decision (ready c s).
Proof. destruct c; cbn; apply _. Defined.

Definition locked_requests (reqs : list (Time * string)) : list (prog call (list rw_op)) :=
  expand serve_locked <$> requests reqs.

(** ** The section alone does what [Dedupe.Acquire] does *)

Lemma gc_run now es d :
  run (each es (gc_entry_prog now)) d =
  ((), mkDedupe (cooldown d) (gc_loop now (cooldown d) es (Dedupe.seen d))).
Proof.
  revert d. induction es as [|e es IH]; intros d; [by destruct d|].
  cbn [each]. rewrite run_bind, IH. unfold gc_loop. cbn [foldl].
  assert (He : run (gc_entry_prog now e) d =
               ((), mkDedupe (cooldown d) (gc_entry now (cooldown d) (Dedupe.seen d) e))).
  { unfold gc_entry_prog. rewrite run_bind, run_request. cbn. unfold gc_entry. destruct d as [cd m]. cbn.
    by destruct (cd <=? _). }
  by rewrite He.
Qed.

Lemma body_run fp now d : fp ≠ "" → run (Acquire_body fp now) d = Acquire fp now d.
Proof.
  intros Hfp. unfold Acquire_body, Acquire. rewrite bool_decide_eq_false_2 by done.
  rewrite run_bind, run_request. cbn [do_call access_handler gets fst snd].
  assert (Hgo : run (_ ← request (Stamp fp now); _ ← gcLocked_prog now; mret true) d =
    (true, gcLocked now (mkDedupe (cooldown d) (<[fp := now]> (Dedupe.seen d))))).
  { rewrite run_bind, run_request. unfold gcLocked_prog. rewrite !run_bind, run_request.
    cbn [do_call access_handler gets fst snd]. by rewrite gc_run. }
  destruct (Dedupe.seen d !! fp) as [t|].
  - rewrite run_bind, run_bind, run_request. cbn [do_call access_handler gets fst snd run mret prog_ret M_ret].
    destruct (Sub now t <? cooldown d); [done|exact Hgo].
  - exact Hgo.
Qed.

(** The number of calls of a run. *)
Fixpoint ticks {A} (p : prog access A) (d : Dedupe) : nat :=
  match p with
  | Ret _ => 0
  | Call a k => S (ticks (k (fst (do_call a d))) (exec (do_call a) d))
  end.

Lemma ticks_bind {A B} (p : prog access A) (f : A → prog access B) d :
  ticks (p ≫= f) d = (ticks p d + ticks (f (fst (run p d))) (exec (run p) d))%nat.
Proof.
  revert d. induction p as [a|R a k IH]; intros d; [done|].
  change (Call a k ≫= f) with (Call a (λ r, k r ≫= f)). cbn [ticks]. rewrite IH.
  unfold exec. cbn [run]. by rewrite bind_run.
Qed.

Lemma gc_ticks now es d :
  (ticks (each es (gc_entry_prog now)) d
     ≤ 2 * length es)%nat.
Proof.
  revert d. induction es as [|e es IH]; intros d; [cbn; lia|]. cbn [each]. rewrite ticks_bind.
  assert (He : (ticks (gc_entry_prog now e) d ≤ 2)%nat) by (cbn; destruct (_ <=? _); cbn; lia).
  specialize (IH (exec (run (gc_entry_prog now e)) d)). cbn [length]. lia.
Qed.

(** The section makes two calls per entry of the map, and at most six more. *)
Lemma body_ticks fp now d : (ticks (Acquire_body fp now) d ≤ 2 * size (Dedupe.seen d) + 6)%nat.
Proof.
  set (d' := mkDedupe (cooldown d) (<[fp := now]> (Dedupe.seen d))).
  assert (Hgo : (ticks (_ ← request (Stamp fp now); _ ← gcLocked_prog now; mret true) d
                   ≤ 2 * size (Dedupe.seen d) + 4)%nat).
  { change (ticks (_ ← request (Stamp fp now); _ ← gcLocked_prog now; mret true) d)
      with (S (ticks (_ ← gcLocked_prog now; mret true) d')).
    rewrite ticks_bind. change (ticks (gcLocked_prog now) d')
      with (S (ticks (each (map_to_list (Dedupe.seen d')) (gc_entry_prog now)) d')).
    pose proof (gc_ticks now (map_to_list (Dedupe.seen d')) d') as Hgc.
    rewrite length_map_to_list in Hgc. cbn [ticks mret prog_ret].
    unfold d' in Hgc at 3. cbn [Dedupe.seen] in Hgc. rewrite map_size_insert in Hgc.
    destruct (Dedupe.seen d !! fp); cbn [id] in Hgc; lia. }
  change (ticks (Acquire_body fp now) d) with (S (ticks (
    recent ← match Dedupe.seen d !! fp with
             | Some t => cd ← request Cooldown; mret (Sub now t <? cd)
             | None => mret false
             end;
    if recent : bool then mret false
    else _ ← request (Stamp fp now); _ ← gcLocked_prog now; mret true) d)).
  destruct (Dedupe.seen d !! fp) as [t|]; [|etrans; [apply le_n_S, Hgo|lia]].
  change (ticks (recent ← (cd ← request Cooldown; mret (Sub now t <? cd)); _) d) with (S (ticks (
    if Sub now t <? cooldown d then mret false
    else _ ← request (Stamp fp now); _ ← gcLocked_prog now; mret true) d)).
  destruct (_ <? _); [cbn; lia|]. lia.
Qed.

(** ** A request and the atomic one it stands for *)

(** Past the [Acquire]s of empty fingerprints, which lock nothing. *)
Fixpoint settle {A} (p : prog Calls.call A) : prog Calls.call A :=
  match p with
  | Ret a => Ret a
  | @Call _ _ R c k =>
    match c in Calls.call R
      return (R → prog Calls.call A) → (R → prog Calls.call A) → prog Calls.call A with
    | Calls.CAcquire fp now => λ k sk,
        if bool_decide (fp = "") then sk true else Call (Calls.CAcquire fp now) k
    | c => λ k _, Call c k
    end k (λ r, settle (k r))
  end.

Definition settled {A} (p : prog Calls.call A) : Prop :=
  match p with
  | Ret _ => True
  | Call c _ => match c with Calls.CAcquire fp _ => fp ≠ "" | _ => True end
  end.

Lemma settle_settled {A} (p : prog Calls.call A) : settled (settle p).
Proof.
  induction p as [a|R c k IH]; [done|]. destruct c; try done. cbn [settle].
  case_bool_decide; [apply IH|done].
Qed.

Lemma expand_settle {A} (p : prog Calls.call A) : expand serve_locked (settle p) = expand serve_locked p.
Proof.
  induction p as [a|R c k IH]; [done|]. destruct c; try done. cbn [settle].
  case_bool_decide as Hfp; [|done]. rewrite IH. cbn [expand serve_locked]. subst. done.
Qed.

Lemma settle_steps {A} (p : prog Calls.call A) pool (s : st W) i :
  pool !! i = Some p → ∃ n tr, steps (pool, s) n tr (<[i := settle p]> pool, s).
Proof.
  revert pool. induction p as [a|R c k IH]; intros pool Hi.
  { exists 0%nat, []. cbn [settle]. rewrite list_insert_id by done. constructor. }
  assert (Hstay : ∃ n tr, steps (pool, s) n tr (<[i := Call c k]> pool, s)).
  { exists 0%nat, []. rewrite list_insert_id by done. constructor. }
  destruct c; try exact Hstay. cbn [settle]. case_bool_decide as Hfp; [|exact Hstay].
  destruct (IH true (<[i := k true]> pool)) as (n & tr & Hs).
  { apply list_lookup_insert_eq. by eapply lookup_lt_Some. }
  rewrite list_insert_insert_eq in Hs.
  eexists _, _. eapply steps_cons; [by apply step_call|].
  unfold exec. cbn [do_call Calls.call_handler]. unfold in_dedupe, Acquire.
  rewrite bool_decide_eq_true_2 by done. cbn [fst snd]. destruct s. exact Hs.
Qed.

Lemma settle_all_steps {A} (l1 l2 : list (prog Calls.call A)) (s : st W) :
  ∃ n tr, steps (l1 ++ l2, s) n tr (l1 ++ (settle <$> l2), s).
Proof.
  revert l1. induction l2 as [|p l2 IH]; intros l1; [exists 0%nat, []; constructor|].
  destruct (settle_steps p (l1 ++ p :: l2) s (length l1)) as (n1 & tr1 & H1).
  { apply list_lookup_middle. done. }
  rewrite insert_app_r_alt, Nat.sub_diag in H1 by done. cbn [insert list_insert] in H1. destruct (IH (l1 ++ [settle p])) as (n2 & tr2 & H2).
  rewrite <- !(assoc (++)) in H2. eexists _, _. by eapply steps_app.
Qed.

(** What is left of a request that holds the mutex. *)
Definition critical {A} (q : prog access bool) (k : bool → prog Calls.call A) : prog call A :=
  (ok ← locked_section q; _ ← request Unlock; mret ok) ≫= λ ok, expand serve_locked (k ok).

(** The next call of a request outside its sections. *)
Lemma outside_next {A} (p : prog Calls.call A) :
  settled p →
  match p with
  | Ret a => True
  | @Call _ _ R c k =>
    (∃ fp now k', fp ≠ "" ∧ p = Call (Calls.CAcquire fp now) k' ∧
       expand serve_locked p = Call Lock (λ _, critical (Acquire_body fp now) k')) ∨
    (∃ m, (∀ s : st W, do_call c s = in_world m s) ∧ expand serve_locked p = Call (Op c) (λ r, expand serve_locked (k r)))
  end.
Proof.
  destruct p as [a|R c k]; [done|]. intros Hs.
  destruct c as [fp now| | | | | | | | |]; [left|right; eexists; split; [intros s|]; reflexivity..].
  exists fp, now, k. split_and!; [done..|]. cbn [expand serve_locked]. unfold Acquire_prog.
  by rewrite bool_decide_eq_false_2.
Qed.

(** ** The invariant

    An atomic pool runs along.  While the mutex is free both agree on the map; while a
    request holds it, what is left of its section makes of the map what its atomic
    [Acquire], still to come, makes of the map before. *)

Context (reqs : list (Time * string)) (s0 : st W).

(** The calls that requests can make of the atomic pool, and of a section. *)
Definition all_calls_bound : nat := sum_list ((λ r, request_bound r.2) <$> reqs).
Definition section_bound : nat := 2 * (size (Dedupe.seen (st_dedupe s0)) + all_calls_bound) + 8.

Definition outside (pc : prog call (list rw_op)) (pa : prog Calls.call (list rw_op)) : Prop :=
  settled pa ∧ pc = expand serve_locked pa.

Definition matched (inside : nat → Prop) (pool : list (prog call (list rw_op)))
    (apool : list (prog Calls.call (list rw_op))) : Prop :=
  ∀ i pc, ¬ inside i → pool !! i = Some pc → ∃ pa, apool !! i = Some pa ∧ outside pc pa.

Inductive agrees (n na : nat) (pool : list (prog call (list rw_op)))
    (apool : list (prog Calls.call (list rw_op))) (d da : Dedupe) : bool → Prop :=
  | agrees_free :
      d = da → (n ≤ na * section_bound)%nat → matched (λ _, False) pool apool →
      agrees n na pool apool d da false
  | agrees_held h fp now k q :
      fp ≠ "" → apool !! h = Some (Call (Calls.CAcquire fp now) k) →
      pool !! h = Some (critical q k) → run q d = Acquire fp now da →
      (n + ticks q d + 1 ≤ (na + 1) * section_bound)%nat → matched (λ i, i = h) pool apool →
      agrees n na pool apool d da true.

Definition sim (n : nat) (pool : list (prog call (list rw_op))) (s : state) : Prop :=
  ∃ na tr apool da,
    steps (requests reqs, s0) na tr (apool, mkSt da (st_world s.1)) ∧
    (size (Dedupe.seen da) ≤ size (Dedupe.seen (st_dedupe s0)) + na)%nat ∧
    agrees n na pool apool (st_dedupe s.1) da s.2.

Lemma atomic_bound x na tr : steps (requests reqs, s0) na tr x → (na ≤ all_calls_bound)%nat.
Proof.
  intros Hs. exact (pool_bound (requests reqs, s0) x na tr _ (requests_calls reqs) Hs).
Qed.

Lemma matched_insert (inside inside' : nat → Prop) pool apool i pc pa :
  matched inside pool apool → (∀ j, j ≠ i → ¬ inside' j → ¬ inside j) → outside pc pa →
  (i < length apool)%nat → matched inside' (<[i := pc]> pool) (<[i := pa]> apool).
Proof.
  intros Hm Hin Hout Hi j pj Hj Hpj. destruct (decide (j = i)) as [->|Hne].
  - apply list_lookup_insert_Some in Hpj as [(_ & -> & _)|[? _]]; [|done].
    exists pa. by rewrite list_lookup_insert_eq.
  - rewrite list_lookup_insert_ne in Hpj by done. rewrite list_lookup_insert_ne by done.
    eapply Hm; [|exact Hpj]. by apply Hin.
Qed.

Lemma Acquire_size fp now d :
  (size (Dedupe.seen (exec (Acquire fp now) d)) ≤ S (size (Dedupe.seen d)))%nat.
Proof.
  unfold exec, Acquire. case_bool_decide; [cbn; lia|]. case_match; [|cbn; lia].
  cbn [snd gcLocked Dedupe.seen cooldown]. rewrite gc_loop_spec by done. unfold gc_spec.
  etrans; [apply map_subseteq_size, map_filter_subseteq|]. rewrite map_size_insert.
  destruct (Dedupe.seen d !! fp); cbn [id]; lia.
Qed.

(** A step of the atomic pool, and the steps after it that lock nothing. *)
Lemma atomic_step na tr apool (s : st W) i R (c : Calls.call R) k :
  steps (requests reqs, s0) na tr (apool, s) → apool !! i = Some (Call c k) →
  ∃ na' tr', (na < na')%nat ∧
    steps (requests reqs, s0) na' tr' (<[i := settle (k (fst (do_call c s)))]> apool, exec (do_call c) s).
Proof.
  intros Hs Hi.
  destruct (settle_steps (k (fst (do_call c s))) (<[i := k (fst (do_call c s))]> apool) (exec (do_call c) s) i)
    as (n2 & tr2 & H2).
  { apply list_lookup_insert_eq. by eapply lookup_lt_Some. }
  rewrite list_insert_insert_eq in H2. exists (na + S n2)%nat. eexists. split; [lia|].
  eapply steps_app; [exact Hs|]. eapply steps_cons; [by apply step_call|exact H2].
Qed.

Lemma sim_initial : sim 0 (locked_requests reqs) (s0, false).
Proof.
  destruct (settle_all_steps [] (requests reqs) s0) as (na & tr & Hs). cbn [app] in Hs.
  exists na, tr, (settle <$> requests reqs), (st_dedupe s0). split; [by destruct s0|]. split; [lia|].
  apply agrees_free; [done|lia|]. intros i pc _. unfold locked_requests. rewrite !list_lookup_fmap.
  destruct (requests reqs !! i) as [p|]; [|done]. intros [= <-]. exists (settle p). split; [done|].
  split; [apply settle_settled|]. by rewrite expand_settle.
Qed.

(** ** Its steps *)

(** A call outside the sections is a call of the atomic pool, whoever holds the mutex. *)
Lemma step_op n na tr apool da pool (s : st W) m i R (c : Calls.call R) k (op : M W R) :
  steps (requests reqs, s0) na tr (apool, mkSt da (st_world s)) →
  (size (Dedupe.seen da) ≤ size (Dedupe.seen (st_dedupe s0)) + na)%nat →
  agrees n na pool apool (st_dedupe s) da m →
  apool !! i = Some (Call c k) → (∀ s : st W, do_call c s = in_world op s) →
  (∀ fp now k', (Call c k : prog Calls.call (list rw_op)) ≠ Call (Calls.CAcquire fp now) k') →
  sim (S n) (<[i := expand serve_locked (k (fst (do_call c s)))]> pool) (exec (do_call c) s, m).
Proof.
  intros Hs Hsize Hag Hi Hop Hno.
  destruct (atomic_step _ _ _ _ _ _ _ _ Hs Hi) as (na' & tr' & Hlt & Hs').
  rewrite Hop in Hs'. unfold exec in Hs' at 1. rewrite Hop in Hs'.
  assert (Hr : fst (in_world op (mkSt da (st_world s))) = fst (in_world op s))
    by (unfold in_world; cbn; by destruct (op (st_world s))).
  rewrite Hr in Hs'. rewrite Hop. unfold exec. rewrite Hop.
  set (r := fst (in_world op s)) in *.
  exists na', tr', (<[i := settle (k r)]> apool), da.
  assert (Hw : snd (in_world op (mkSt da (st_world s))) = mkSt da (st_world (snd (in_world op s))))
    by (unfold in_world; cbn; by destruct (op (st_world s))).
  assert (Hd : st_dedupe (snd (in_world op s)) = st_dedupe s)
    by (unfold in_world; cbn; by destruct (op (st_world s))).
  rewrite Hw in Hs'. split; [exact Hs'|]. split; [lia|]. cbn [fst snd]. rewrite Hd.
  assert (Hout : outside (expand serve_locked (k r)) (settle (k r)))
    by (split; [apply settle_settled|by rewrite expand_settle]).
  apply lookup_lt_Some in Hi as Hlen.
  destruct Hag as [Hda Hn Hm|h fp now k' q Hfp Hah Hph Hrun Hn Hm].
  - apply agrees_free; [done|unfold section_bound in *; nia|]. eapply matched_insert; [exact Hm|auto|done|done].
  - assert (Hne : i ≠ h). { intros ->. rewrite Hi in Hah. by apply (Hno fp now k'), (inj Some). }
    eapply (agrees_held _ _ _ _ _ _ h); [done| | |done| |].
    + rewrite list_lookup_insert_ne by done. exact Hah.
    + by rewrite list_lookup_insert_ne.
    + unfold section_bound in *. nia.
    + eapply matched_insert; [exact Hm|auto|done|done].
Qed.

(** A request takes the mutex. *)
Lemma step_lock n na tr apool da pool (s : st W) i fp now k :
  steps (requests reqs, s0) na tr (apool, mkSt da (st_world s)) →
  (size (Dedupe.seen da) ≤ size (Dedupe.seen (st_dedupe s0)) + na)%nat →
  agrees n na pool apool (st_dedupe s) da false →
  fp ≠ "" → apool !! i = Some (Call (Calls.CAcquire fp now) k) → (i < length pool)%nat →
  sim (S n) (<[i := critical (Acquire_body fp now) k]> pool) (s, true).
Proof.
  intros Hs Hsize Hag Hfp Hi Hlen. exists na, tr, apool, da. split; [done|]. split; [done|].
  inversion Hag as [Hda Hn Hm|]; subst.
  eapply (agrees_held _ _ _ _ _ _ i); [done|exact Hi|by apply list_lookup_insert_eq|by apply body_run| |].
  - pose proof (body_ticks fp now (st_dedupe s)). pose proof (atomic_bound _ _ _ Hs).
    cbn [fst]. unfold section_bound in *. nia.
  - intros j pc Hj Hpc. rewrite list_lookup_insert_ne in Hpc by done. apply Hm; [intros []|done].
Qed.

(** What the holder does. *)
Lemma step_held n na tr apool da pool (s : st W) h fp now k q :
  steps (requests reqs, s0) na tr (apool, mkSt da (st_world s)) →
  (size (Dedupe.seen da) ≤ size (Dedupe.seen (st_dedupe s0)) + na)%nat →
  fp ≠ "" → apool !! h = Some (Call (Calls.CAcquire fp now) k) → pool !! h = Some (critical q k) →
  run q (st_dedupe s) = Acquire fp now da →
  (n + ticks q (st_dedupe s) + 1 ≤ (na + 1) * section_bound)%nat → matched (λ i, i = h) pool apool →
  match critical q k with
  | Ret _ => False
  | Call c kc =>
    sim (S n) (<[h := kc (fst (do_call c (s, true)))]> pool) (exec (do_call c) (s, true))
  end.
Proof.
  intros Hs Hsize Hfp Hah Hph Hrun Hn Hm. apply lookup_lt_Some in Hph as Hlen.
  destruct q as [b|R a kq].
  - change (sim (S n) (<[h := expand serve_locked (k b)]> pool) (s, false)).
    destruct (atomic_step _ _ _ _ _ _ _ _ Hs Hah) as (na' & tr' & Hlt & Hs').
    cbn [do_call Calls.call_handler] in Hs'. rewrite run_in_dedupe, exec_in_dedupe in Hs'.
    cbn [fst st_dedupe st_world] in Hs'. unfold exec in Hs'. rewrite <- Hrun in Hs'. cbn in Hs'.
    exists na', tr', (<[h := settle (k b)]> apool), (st_dedupe s). split; [exact Hs'|].
    pose proof (Acquire_size fp now da) as Hsz. unfold exec in Hsz. rewrite <- Hrun in Hsz. cbn in Hsz.
    cbn [fst snd]. split; [lia|]. apply agrees_free; [done|cbn in Hn; unfold section_bound in *; nia|].
    eapply matched_insert; [exact Hm|auto| |by apply lookup_lt_Some in Hah].
    split; [apply settle_settled|by rewrite expand_settle].
  - change (critical (Call a kq) k) with (Call (Access a) (λ r, critical (kq r) k)). cbn beta iota.
    unfold exec. cbn [do_call call_handler fst snd]. unfold exec in *.
    destruct (do_call a (st_dedupe s)) as [r d] eqn:Ha. cbn [fst snd].
    exists na, tr, apool, da. cbn [fst snd st_dedupe st_world]. split; [done|]. split; [done|].
    cbn [run ticks] in Hrun, Hn. rewrite bind_run in Hrun. unfold exec in Hn. rewrite Ha in Hrun, Hn.
    eapply (agrees_held _ _ _ _ _ _ h); [done|exact Hah|by apply list_lookup_insert_eq|exact Hrun| |].
    + cbn [fst snd] in Hn. lia.
    + intros j pc Hj Hpc. rewrite list_lookup_insert_ne in Hpc by done. by apply Hm.
Qed.

Lemma sim_step n pool s tr pool' s' :
  sim n pool s → wstep (pool, s) tr (pool', s') → sim (S n) pool' s'.
Proof.
  destruct s as [s m]. intros (na & tra & apool & da & Hs & Hsize & Hag) (i & p & Hi & Hp)%wstep_thread.
  cbn [fst snd] in Hs, Hag.
  assert (Hcase : (∃ pa, apool !! i = Some pa ∧ outside p pa) ∨
    m = true ∧ ∃ fp now k q, fp ≠ "" ∧ apool !! i = Some (Call (Calls.CAcquire fp now) k) ∧
      p = critical q k ∧ run q (st_dedupe s) = Acquire fp now da ∧
      (n + ticks q (st_dedupe s) + 1 ≤ (na + 1) * section_bound)%nat ∧ matched (λ j, j = i) pool apool).
  { destruct Hag as [_ _ Hm|h fp now k q ? ? Hph ? ? Hm]; [left; by eapply Hm; [intros []|]|].
    destruct (decide (i = h)) as [->|Hne]; [|left; by eapply Hm].
    right. split; [done|]. exists fp, now, k, q. rewrite Hi in Hph. by injection Hph as ->. }
  destruct Hcase as [(pa & Hpa & Hset & ->)|(-> & fp & now & k & q & ? & ? & -> & ? & ? & ?)].
  - pose proof (outside_next pa Hset) as Hnext. destruct pa as [a|R c k]; [done|].
    destruct Hnext as [(fp & now & k' & Hfp & Heq & Hexp)|(op & Hop & Hexp)]; rewrite Hexp in Hp; cbn beta iota in Hp.
    + destruct Hp as (Hfree & -> & ->). cbn in Hfree. subst m. rewrite Heq in Hpa.
      eapply step_lock; try done. by eapply lookup_lt_Some.
    + destruct Hp as (_ & -> & ->).
      assert (Hr : fst (do_call (S := state) (Op c) (s, m)) = fst (do_call c s)) by (cbn; by destruct (do_call c s)).
      assert (He : exec (do_call (S := state) (Op c)) (s, m) = (exec (do_call c) s, m))
        by (unfold exec; cbn; by destruct (do_call c s)).
      rewrite Hr, He. eapply step_op; try done.
      intros fp now k' Heq. rewrite Heq in Hexp. cbn [expand serve_locked] in Hexp. unfold Acquire_prog in Hexp.
      rewrite Heq in Hset. cbn in Hset. by rewrite bool_decide_eq_false_2 in Hexp.
  - pose proof (step_held n na tra apool da pool s i fp now k q) as Hstep.
    destruct (critical q k) as [|R c kc] eqn:Hc; [done|]. destruct Hp as (_ & -> & ->).
    apply Hstep; try done.
Qed.

Lemma sim_run n tr pool s : wsteps (locked_requests reqs, (s0, false)) n tr (pool, s) → sim n pool s.
Proof. intros Hs. eapply (wsteps_invariant sim); [exact sim_step|exact Hs|apply sim_initial]. Qed.

(** ** Who waits for whom *)

(** The calls of a request that holds the mutex. *)
Definition local {R} (c : call R) : bool :=
  match c with Access _ | Unlock => true | _ => false end.

Definition locally R (c : call R) : Prop := local c = true.

Definition inside {A} (p : prog call A) : bool :=
  match p with Call c _ => local c | Ret _ => false end.

Lemma outside_inside pc pa : outside pc pa → inside pc = false.
Proof.
  intros [Hset ->]. pose proof (outside_next pa Hset) as Hnext. destruct pa as [a|R c k]; [done|].
  by destruct Hnext as [(fp & now & k' & _ & _ & ->)|(op & _ & ->)].
Qed.

Lemma sim_inside n pool s m i p :
  sim n pool (s, m) → pool !! i = Some p → inside p = true →
  m = true ∧ ∀ j q, pool !! j = Some q → inside q = true → j = i.
Proof.
  intros (na & tr & apool & da & _ & _ & Hag) Hi Hp. cbn [fst snd] in Hag.
  destruct Hag as [_ _ Hm|h fp now k q _ _ _ _ _ Hm].
  - destruct (Hm i p) as (pa & _ & Ho); [by intros []|done|]. apply outside_inside in Ho. congruence.
  - split; [done|]. assert (Hone : ∀ j q, pool !! j = Some q → inside q = true → j = h).
    { intros j q' Hj Hq. destruct (decide (j = h)) as [|Hne]; [done|].
      destruct (Hm j q') as (pa & _ & Ho); [done..|]. apply outside_inside in Ho. congruence. }
    intros j q' Hj Hq. by rewrite (Hone j q'), (Hone i p).
Qed.

(** A request that has returned has returned in the atomic pool. *)
Lemma agrees_returned n na pool apool d da m i ops :
  agrees n na pool apool d da m → pool !! i = Some (Ret ops) → apool !! i = Some (Ret ops).
Proof.
  intros Hag Hi.
  assert (Hpa : ∃ pa, apool !! i = Some pa ∧ outside (Ret ops) pa).
  { destruct Hag as [_ _ Hm|h fp now k q _ _ Hh _ _ Hm]; (eapply Hm; [|exact Hi]); [intros []|].
    intros ->. rewrite Hh in Hi. by destruct q. }
  destruct Hpa as (pa & Hpa & Hset & Heq).
  pose proof (outside_next pa Hset) as Hnext. destruct pa as [a|R c k]; [by injection Heq as ->|].
  by destruct Hnext as [(? & ? & ? & _ & _ & Hx)|(? & _ & Hx)]; rewrite Hx in Heq.
Qed.

(** The holder gets out by itself. *)
Lemma holder_leaves (q : prog access bool) h (k : bool → prog Calls.call (list rw_op)) pool (s : st W) :
  pool !! h = Some (critical q k) →
  ∃ y, solo locally h (pool, (s, true)) y ∧ y.2.2 = false.
Proof.
  revert pool s. induction q as [b|R a kq IH]; intros pool s Hh.
  - exists (<[h := expand serve_locked (k b)]> pool, (s, false)). split; [|done].
    eapply (solo_cons _ _ _ Unlock (λ _, expand serve_locked (k b))); [exact Hh|done..|]. apply solo_nil.
  - set (r := do_call a (st_dedupe s)).
    destruct (IH (fst r) (<[h := critical (kq (fst r)) k]> pool) (mkSt (snd r) (st_world s))) as (y & Hy & Hf).
    { apply list_lookup_insert_eq. by eapply lookup_lt_Some. }
    exists y. split; [|done].
    eapply (solo_cons _ _ _ (Access a) (λ r, critical (kq r) k)); [exact Hh|done..|].
    unfold exec. cbn [do_call call_handler fst snd]. fold r. by destruct r.
Qed.
End Locked.

(** ** Properties *)

Section Properties.
Context {UT : UnicodeTables} {W : Type} {KC : KubeClient W} {KL : Logger W}.

(** (C2) The mutex makes [Acquire] atomic.  However the lock, the accesses of the map and
    the unlock of concurrent requests interleave with each other and with their calls to
    the cluster: no two requests are ever about to access the map, which in Go would be
    a fatal error, nor does one access it, or unlock, when the mutex is not locked; and
    the answers given and the world reached are those of a run in which every [Acquire]
    is one step, as is the map whenever the mutex is free. *)
Theorem Acquire_atomic reqs (s : st W) n tr pool s' locked :
  wsteps (locked_requests reqs, (s, false)) n tr (pool, (s', locked)) →
  (∀ i p, pool !! i = Some p → inside p = true →
     locked = true ∧ ∀ j q, pool !! j = Some q → inside q = true → j = i) ∧
  ∃ m tr' apool d,
    steps (requests reqs, s) m tr' (apool, mkSt d (st_world s')) ∧
    (locked = false → d = st_dedupe s') ∧
    ∀ i ops, pool !! i = Some (Ret ops) → apool !! i = Some (Ret ops).
Proof.
  intros Hs%sim_run. split; [intros i p; by eapply sim_inside|].
  destruct Hs as (na & tra & apool & da & Hs & _ & Hag). exists na, tra, apool, da.
  split; [exact Hs|]. cbn [fst snd] in Hag. split.
  - intros ->. by inversion Hag.
  - intros i ops. by apply agrees_returned with (1 := Hag).
Qed.

(** (C22) Every request is answered, and none waits for the API server on behalf of
    another.  Concurrent requests, with the mutex of the deduplication and its [Acquire]
    access by access, make boundedly many calls; a request that is not answered can make
    its next call, or it waits for the mutex, and then the request that holds it gets
    out by accesses of the map alone, after which the first can go on: a call to the
    cluster that hangs holds up its own request only.  And a request that has returned
    is answered 202, or 400 when its body does not decode. *)
Theorem concurrent_answers reqs (s : st W) n tr pool s' :
  wsteps (locked_requests reqs, (s, false)) n tr (pool, s') →
  (n ≤ (all_calls_bound reqs + 1) * section_bound reqs s)%nat ∧
  (∀ i p, pool !! i = Some p →
     returned p = true ∨ can_go (pool, s') i ∨
     ∃ h y, h ≠ i ∧ solo locally h (pool, s') y ∧ can_go y i) ∧
  ∀ i r ops, reqs !! i = Some r → pool !! i = Some (Ret ops) →
    status (serve ops) = match DecodePayload r.2 with Some _ => 202 | None => 400 end.
Proof.
  intros Hs%sim_run. split; [|split].
  - destruct Hs as (na & tra & apool & da & Hs & _ & Hag). pose proof (atomic_bound _ _ _ _ _ Hs).
    cbn [fst snd] in Hag. destruct s' as [s' m].
    destruct Hag as [_ Hn _|h fp now k q _ _ _ _ Hn _]; unfold section_bound in *; nia.
  - intros i p Hi. destruct p as [a|R c k] eqn:Hp; [by left|right].
    destruct s' as [s' m]. destruct c as [T c|T a| |]; try (left; by eexists _, _, k).
    destruct m; [right|left; by eexists _, _, k].
    destruct Hs as (na & tra & apool & da & _ & _ & Hag). cbn [fst snd] in Hag.
    inversion Hag as [|h fp now k' q _ _ Hh _ _ _]; subst.
    destruct (holder_leaves q h k' pool s' Hh) as (y & Hy & Hfree). exists h, y.
    assert (Hne : h ≠ i). { intros ->. rewrite Hi in Hh. by destruct q. }
    split; [done|]. split; [done|]. exists _, Lock, k. split; [|exact Hfree].
    rewrite (solo_others _ _ _ _ i Hy) by done. exact Hi.
  - intros i r ops Hr Hi. destruct s' as [s' m].
    assert (Hex : ∃ m tr' apool d, steps (requests reqs, s) m tr' (apool, mkSt d (st_world s')) ∧
              apool !! i = Some (Ret ops)).
    { destruct Hs as (na & tra & apool & da & Hs & _ & Hag). exists na, tra, apool, da.
      split; [exact Hs|]. by eapply agrees_returned. }
    destruct Hex as (m' & tr' & apool & d & Hsteps & Hret). by eapply requests_answered.
Qed.
End Properties.

(** ** Concrete runs

    One page delivered twice.  The first request is inside [Acquire] when the second
    gets to its lock; then both run to their ends, and the second is not granted. *)

Import FakeKube.
#[local] Instance no_wide : UnicodeTables := Server.no_wide.

Definition twice : list (Time * string) := payments_page <$> ["a"; "a"].

Definition second_waits : list nat := [0; 0; 0]%nat.
Definition both_done : list nat := (replicate 10 0 ++ replicate 5 1)%nat.

Definition page_threads : list (prog call (list rw_op)) := locked_requests twice.
Definition start : state := (fresh_operator, false).

Definition pool_run (sched : list nat) : list (prog call (list rw_op)) * state :=
  default (page_threads, start) (wscheduled sched page_threads start).

Lemma pool_run_steps sched :
  match wscheduled sched page_threads start with Some _ => true | None => false end = true →
  ∃ tr, wsteps (page_threads, start) (length sched) tr (pool_run sched).
Proof.
  unfold pool_run. destruct (wscheduled _ _ _) as [y|] eqn:Hy; [|done].
  intros _. by apply wscheduled_steps.
Qed.

Definition waiting := pool_run second_waits.
Definition finished := pool_run both_done.

Lemma waiting_steps :
  ∃ tr, wsteps (page_threads, start) 3 tr (waiting.1, (waiting.2.1, waiting.2.2)).
Proof.
  destruct (pool_run_steps second_waits) as [tr Hs]; [vm_compute; reflexivity|].
  exists tr. by rewrite <- !surjective_pairing.
Qed.

Lemma finished_steps :
  ∃ tr, wsteps (page_threads, start) 15 tr (finished.1, (finished.2.1, finished.2.2)).
Proof.
  destruct (pool_run_steps both_done) as [tr Hs]; [vm_compute; reflexivity|].
  exists tr. by rewrite <- !surjective_pairing.
Qed.

Lemma st_eta {W} (s : st W) : mkSt (st_dedupe s) (st_world s) = s.
Proof. by destruct s. Qed.

Lemma Acquire_atomic_witness :
  waiting.2.2 = true ∧
  finished.2.2 = false ∧
  ∃ m tr' apool, steps (requests twice, fresh_operator) m tr' (apool, finished.2.1) ∧
    apool !! 1%nat = Some (Ret [WriteHeader StatusAccepted]).
Proof.
  assert (Hfree : finished.2.2 = false) by (vm_compute; reflexivity).
  split; [|split; [exact Hfree|]].
  - destruct waiting_steps as [tr Hs]. destruct (Acquire_atomic twice _ _ _ _ _ _ Hs) as [Hin _].
    assert (H0 : match waiting.1 !! 0%nat with Some p => inside p | None => false end = true)
      by (vm_compute; reflexivity).
    destruct (waiting.1 !! 0%nat) as [p|] eqn:Hp; [|discriminate H0]. exact (proj1 (Hin _ _ Hp H0)).
  - destruct finished_steps as [tr Hs].
    destruct (Acquire_atomic twice _ _ _ _ _ _ Hs) as (_ & m & tr' & apool & d & Hrun & Hd & Hret).
    rewrite (Hd Hfree), st_eta in Hrun. exists m, tr', apool. split; [exact Hrun|].
    apply Hret. vm_compute. reflexivity.
Defined.

Definition at_lock {A} (p : prog call A) : bool :=
  match p with Call Lock _ => true | _ => false end.

Lemma ready_lock {W} `{KubeClient W, Logger W} (s : st W * bool) : ready Lock s → s.2 = false.
Proof. done. Qed.

(** The second request waits for the first, which lets it go on. *)
Lemma concurrent_answers_witness :
  (¬ can_go waiting 1 ∧ ∃ h y, h ≠ 1%nat ∧ solo locally h waiting y ∧ can_go y 1) ∧
  ∃ ops, finished.1 !! 1%nat = Some (Ret ops) ∧ status (serve ops) = 202.
Proof.
  split.
  - destruct waiting_steps as [tr Hs]. destruct (concurrent_answers twice _ _ _ _ _ Hs) as (_ & Hgo & _).
    rewrite <- !surjective_pairing in Hgo.
    assert (H1 : match waiting.1 !! 1%nat with Some p => at_lock p | None => false end = true)
      by (vm_compute; reflexivity).
    assert (Hheld : waiting.2.2 = true) by (vm_compute; reflexivity).
    destruct (waiting.1 !! 1%nat) as [p|] eqn:Hp; [|discriminate H1].
    assert (Hno : ¬ can_go waiting 1).
    { intros (R & c & k & Hc & Hr). rewrite Hp in Hc. apply (inj Some) in Hc. subst p.
      destruct c; try discriminate H1. apply ready_lock in Hr. rewrite Hheld in Hr. discriminate Hr. }
    split; [exact Hno|]. destruct (Hgo 1%nat p Hp) as [Hret|[Hcan|Hwait]]; [|by destruct Hno|exact Hwait].
    destruct p; [discriminate H1|discriminate Hret].
  - destruct finished_steps as [tr Hs]. destruct (concurrent_answers twice _ _ _ _ _ Hs) as (_ & _ & Hans).
    exists [WriteHeader StatusAccepted].
    assert (H1 : finished.1 !! 1%nat = Some (Ret [WriteHeader StatusAccepted])) by (vm_compute; reflexivity).
    split; [exact H1|]. rewrite (Hans 1%nat (payments_page "a") _ eq_refl H1). vm_compute. reflexivity.
Defined.

End Locked.
