(* ===== verification/Frame.v ===== *)
(** * What the operator can touch

    Whatever requests run concurrently, whatever their reads show and whatever others
    do to the cluster in the meantime: the only parts of it that a step of a request can
    change are the floors of the HPAs, the pause flags and the Rollout statuses that the
    firing alerts of its payload are classified to. *)

From Stdlib Require Import ZArith Lia.
From S2P Require Import Prelude GoLib GoText Rfc3339 Json Payload Classifier Kube Remedy RemedyProps Dedupe Http Server Pool Calls.
From S2P Require Import Manager Concurrent.
Import GoTime Json Payload Classifier Kube Remedy Dedupe Http Server Pool Calls Concurrent.

Module Frame.
Local Open Scope Z_scope.

(** The objects that a request's firing alerts are classified to, by the kind of remedy. *)
Definition targeted {UT : UnicodeTables} (reqs : list (Time * string)) (k : Kind) (key : NamespacedName) : Prop :=
  ∃ r p a, r ∈ reqs ∧ DecodePayload r.2 = Some p ∧ a ∈ p_Alerts p ∧ Firing a = true ∧
    d_Kind (Classify (a_Labels a)) = k ∧
    key = (operator_ns, d_Target (Classify (a_Labels a))).

(** A key of a configmap's data. *)
Definition cm_lookup (c : cluster) (key : NamespacedName) (k : string) : option string :=
  m ← configmaps c !! key; data_map m !! k.

(** [c] is [c0] but for what requests with these targets may have written. *)
Record framed (target : Kind → NamespacedName → Prop) (c0 c : cluster) : Prop := {
  framed_hpas key : ¬ target Classifier.ScaleUp key → hpas c !! key = hpas c0 !! key;
  framed_max key : MaxReplicas <$> hpas c !! key = MaxReplicas <$> hpas c0 !! key;
  framed_cms key : ¬ target CircuitBreak key → configmaps c !! key = configmaps c0 !! key;
  framed_data key k : k ≠ flagKey → cm_lookup c key k = cm_lookup c0 key k;
  framed_flag key : cm_lookup c key flagKey = cm_lookup c0 key flagKey ∨
                    cm_lookup c key flagKey = Some flagValuePaused;
  framed_statuses g key :
    ¬ (g = "Rollout" ∧ target Rollback key) → statuses c !! (g, key) = statuses c0 !! (g, key);
}.

Lemma framed_refl target c : framed target c c.
Proof. split; auto. Qed.

Lemma framed_trans target c0 c1 c2 : framed target c0 c1 → framed target c1 c2 → framed target c0 c2.
Proof.
  intros [A1 A2 A3 A4 A5 A6] [B1 B2 B3 B4 B5 B6]. split.
  - intros key Hk. rewrite B1 by done. by apply A1.
  - intros key. by rewrite B2.
  - intros key Hk. rewrite B3 by done. by apply A3.
  - intros key k Hk. rewrite B4 by done. by apply A4.
  - intros key. destruct (B5 key) as [->|H]; [apply A5|by right].
  - intros g key Hk. rewrite B6 by done. by apply A6.
Qed.

Lemma framed_weaken (t t' : Kind → NamespacedName → Prop) c0 c :
  (∀ k key, t k key → t' k key) → framed t c0 c → framed t' c0 c.
Proof.
  intros Ht [H1 H2 H3 H4 H5 H6]. split; auto.
  intros g key Hno. apply H6. intros [Hg Hk]. apply Hno. auto.
Qed.

(** ** The calls of a request

    Every write a request asks for is framed, in whatever state the cluster is when
    the API server gets to it: the others may have changed anything since the reads it
    is based on. *)

Section Frames.
Context {UT : UnicodeTables} {W : Type} {KC : KubeClient W} (target : Kind → NamespacedName → Prop).

Definition framed_call (R : Type) (c : call R) : Prop := ∀ c1 c2, may_write c c1 c2 → framed target c1 c2.

Lemma framed_with_hpa key cur h c :
  target Classifier.ScaleUp key → hpas c !! key = Some cur → MaxReplicas h = MaxReplicas cur →
  framed target c (with_hpa key h c).
Proof.
  intros Ht Hcur Hmax. split; auto; cbn [with_hpa hpas].
  - intros k Hk. by rewrite lookup_insert_ne by congruence.
  - intros k. destruct (decide (key = k)) as [<-|Hne]; [|by rewrite lookup_insert_ne].
    rewrite lookup_insert_eq, Hcur. cbn. by rewrite Hmax.
Qed.

Lemma framed_with_cm key m c :
  target CircuitBreak key →
  (∀ k, k ≠ flagKey → data_map m !! k = cm_lookup c key k) → data_map m !! flagKey = Some flagValuePaused →
  framed target c (with_cm key m c).
Proof.
  intros Ht Hk Hf. split; auto.
  - intros key' Hk'. cbn [with_cm configmaps]. by rewrite lookup_insert_ne by congruence.
  - intros key' k Hne. unfold cm_lookup at 1. cbn [with_cm configmaps].
    destruct (decide (key = key')) as [<-|Hn]; [rewrite lookup_insert_eq; by apply Hk|].
    by rewrite lookup_insert_ne.
  - intros key'. unfold cm_lookup at 1 3. cbn [with_cm configmaps].
    destruct (decide (key = key')) as [<-|Hn]; [rewrite lookup_insert_eq; by right|].
    rewrite lookup_insert_ne by done. by left.
Qed.

(** The log line before a return. *)
Lemma framed_log {A} msg (x : A) : all_calls framed_call (_ ← request (CLogInfo msg); mret x).
Proof. by split. Qed.

(** A write, and the branches after it. *)
Lemma framed_write (c : call (option error)) {A} (f : error → A) msg (x : A) :
  framed_call _ c →
  all_calls framed_call (err ← request c;
    match err with Some e => mret (f e) | None => _ ← request (CLogInfo msg); mret x end).
Proof. intros Hc. apply all_calls_bind; [by split|]. intros [e|]; [done|apply framed_log]. Qed.

Lemma scale_framed sc inp :
  target Classifier.ScaleUp (target_key inp) → all_calls framed_call (scale_prog sc inp).
Proof.
  intros Ht. unfold scale_prog. apply all_calls_bind; [by split|]. intros [e|h]; [done|].
  case_match; [apply framed_log|]. apply framed_write. intros c1 c2 (cur & Hcur & ->).
  eapply framed_with_hpa; [done|done|]. unfold merge_hpa. cbn [MaxReplicas]. by rewrite merge_field_same.
Qed.

Lemma rollback_framed inp : target Rollback (target_key inp) → all_calls framed_call (rollback_prog inp).
Proof.
  intros Ht. unfold rollback_prog. apply framed_write. intros c1 c2 [j ->]. split; auto.
  intros g key Hno. cbn [with_status statuses]. rewrite lookup_insert_ne; [done|].
  intros [= <- <-]. by apply Hno.
Qed.

Lemma circuitbreak_framed inp :
  target CircuitBreak (target_key inp) → all_calls framed_call (circuitbreak_prog inp).
Proof.
  intros Ht. unfold circuitbreak_prog. apply all_calls_bind; [by split|]. intros [e|cm].
  - destruct (IsNotFound e); [|done]. apply framed_write. intros c1 c2 [Hnone ->].
    apply framed_with_cm; [done| |by apply lookup_singleton_Some].
    intros k Hk. unfold cm_lookup. rewrite Hnone.
    change (({[ flagKey := flagValuePaused ]} : gmap string string) !! k = None).
    by apply lookup_singleton_None.
  - case_bool_decide as Hflag; [apply framed_log|]. apply framed_write. intros c1 c2 (cur & Hcur & ->).
    apply framed_with_cm; [done| |].
    + intros k Hk. unfold cm_lookup. rewrite Hcur. cbn. unfold merge_cm, paused_data. cbn [data_map].
      case_bool_decide; [done|].
      change (merge_data (data_map cm) (<[flagKey := flagValuePaused]> (data_map cm)) (data_map cur) !! k
              = data_map cur !! k).
      rewrite lookup_merge_data, bool_decide_eq_true_2; [done|]. by rewrite lookup_insert_ne.
    + rewrite merge_paused; [apply lookup_insert_eq|]. intros Heq. by rewrite Heq in Hflag.
Qed.
End Frames.

(** What a request asks for is what its own firing alerts are classified to. *)
Lemma handleAlert_framed {UT : UnicodeTables} `{KubeClient W} (r : Time * string) :
  all_calls (framed_call (targeted [r])) (handleAlert_prog operator_ns r.1 r.2).
Proof.
  unfold handleAlert_prog. destruct (DecodePayload r.2) as [p|] eqn:Hp; [|by split].
  apply all_calls_bind; [|done]. apply all_calls_each. intros a Ha. unfold handle_one_prog.
  destruct (Firing a) eqn:Hf; cbn [negb]; [|by split].
  apply all_calls_bind; [by split|]. intros [|]; [|by split].
  apply all_calls_bind; [by split|]. intros _. unfold dispatch_prog.
  assert (Ht : targeted [r] (d_Kind (Classify (a_Labels a)))
                 (target_key (mkInput operator_ns (Classify (a_Labels a)))))
    by (exists r, p, a; split_and!; [by left|done..]).
  destruct (d_Kind (Classify (a_Labels a))); cbn [remedy_prog]; [by split|..];
    (apply all_calls_bind; [|intros [e|]; [by split|done]]).
  - by apply rollback_framed.
  - by apply scale_framed.
  - by apply circuitbreak_framed.
Qed.

(** ** Other editors

    People, controllers and pipelines edit the same cluster: threads of the pool whose
    calls may do anything to it. *)

Inductive mixed (W : Type) : Type → Type :=
  | Operator {R} (c : call R) : mixed W R
  | Edit (f : W → W) : mixed W unit.
Arguments Operator {W R}.
Arguments Edit {W}.

#[export] Instance mixed_handler {W} {KC : KubeClient W} {KL : Logger W} : Handler (mixed W) (st W) :=
  λ R c, match c in mixed _ R return M (st W) R with
  | Operator c => do_call c
  | Edit f => in_world (modify f)
  end.

#[export] Instance mixed_observer {W} : Observer (mixed W) (string * Time * bool) :=
  λ R c, match c in mixed _ R return R → list (string * Time * bool) with
  | Operator c => shows c
  | Edit _ => λ _, []
  end.

Section Editors.
Context {UT : UnicodeTables} {W : Type} {KC : KubeClient W} {KL : Logger W} {KV : ClusterView W}
        {KLaws : KubeLaws W} {KF : KubeFailures W}.

(** The requests of the webhook beside any other threads. *)
Definition among (reqs : list (Time * string)) (editors : list (prog (mixed W) (list rw_op)))
    : list (prog (mixed W) (list rw_op)) :=
  (expand (λ R c, request (Operator c)) <$> requests reqs) ++ editors.

(** A step of the operator's is framed. *)
Definition framed_mixed (r : option (Time * string)) (R : Type) (c : mixed W R) : Prop :=
  match r with
  | Some r => ∀ s : st W, framed (targeted [r]) (cluster_of s) (cluster_of (exec (do_call c) s))
  | None => True
  end.

Lemma among_framed reqs editors i p :
  among reqs editors !! i = Some p → all_calls (framed_mixed (reqs !! i)) p.
Proof.
  unfold among. intros [H|[Hi _]]%lookup_app_Some.
  - unfold requests in H. rewrite !list_lookup_fmap in H.
    destruct (reqs !! i) as [r|]; [|done]. injection H as <-.
    eapply all_calls_expand_if; [|apply handleAlert_framed].
    intros R c Hc. split; [|done]. intros s. cbn.
    destruct (do_call_effect c s) as [->|Hw]; [apply framed_refl|by apply Hc].
  - rewrite !length_fmap in Hi. unfold requests in Hi. rewrite length_fmap in Hi.
    rewrite (lookup_ge_None_2 _ _ Hi). clear. induction p; [done|by split].
Qed.

(** (C5) The operator touches only what its alerts name, whoever else edits the
    cluster.  Whatever requests run concurrently, however their calls interleave with
    each other and with anything that others do to the cluster, whatever their reads
    show and whichever calls fail: each step of a request leaves an HPA, a configmap or
    a Rollout status that no firing alert of its own payload is classified to as it
    found it; of an HPA it changes nothing but [minReplicas]; of a configmap nothing but
    the pause flag, and that only to "false"; and no status of another kind of object.
    When nobody else edits, the same holds of a whole run for all its requests. *)
Theorem concurrent_frame reqs editors (s : st W) n tr pool s' :
  steps (among reqs editors, s) n tr (pool, s') →
  (∀ i r R (c : mixed W R) k, reqs !! i = Some r → pool !! i = Some (Call c k) →
     framed (targeted [r]) (cluster_of s') (cluster_of (exec (do_call c) s'))) ∧
  (editors = [] → framed (targeted reqs) (cluster_of s) (cluster_of s')).
Proof.
  intros Hs. split.
  - intros i r R c k Hi Hc.
    eassert (Hall : ∀ i p, pool !! i = Some p → all_calls (framed_mixed (reqs !! i)) p);
      [|destruct (Hall _ _ Hc) as [Hr _]; rewrite Hi in Hr; apply Hr].
    eapply (pool_promise (λ i, all_calls (framed_mixed (reqs !! i))) (λ _, True));
      [|exact Hs|by apply among_framed|done].
    intros j R' c' k' s0 [_ Hk] _. split; [apply Hk|done].
  - intros ->.
    eapply (pool_promise (λ i p, (∃ r, reqs !! i = Some r) ∧ all_calls (framed_mixed (reqs !! i)) p)
      (λ s', framed (targeted reqs) (cluster_of s) (cluster_of s'))); [|exact Hs| |apply framed_refl].
    + intros j R' c' k' s0 [[r Hr] Hck] HJ. rewrite Hr in *. destruct Hck as [Hc Hk].
      split; [by split; [exists r|apply Hk]|]. eapply framed_trans; [exact HJ|].
      eapply framed_weaken; [|apply Hc]. intros kd key (r' & p & a & ->%list_elem_of_singleton & H).
      exists r, p, a. split; [by eapply list_elem_of_lookup_2|exact H].
    + intros i p Hp. split; [|by eapply among_framed].
      unfold among, requests in Hp. rewrite app_nil_r, !list_lookup_fmap in Hp.
      destruct (reqs !! i) as [r|]; [by exists r|done].
Qed.
End Editors.

Import FakeKube.

(** The first of three pages has read an HPA of [2, 10] when somebody sets it to
    [3, 20]; its patch keeps the new [maxReplicas]. *)
Definition raise_limit (w : fake) : fake :=
  set_cluster (with_hpa ("reliability-lab", "payments-svc") (mkHPA (Some 3) 20) (fk_cluster w)) w.

Definition edited_threads : list (prog (mixed fake) (list rw_op)) :=
  among (UT := Server.no_wide) three_pages [_ ← request (Edit raise_limit); mret []].

Definition edited := scheduled [0; 0; 0; 3]%nat edited_threads fresh_operator.

Lemma edited_steps : ∃ n tr, steps (edited_threads, fresh_operator) n tr (edited.1, edited.2).
Proof.
  destruct (scheduled_steps [0; 0; 0; 3]%nat edited_threads fresh_operator) as [n Hs].
  exists n. eexists. rewrite <- surjective_pairing. exact Hs.
Qed.

Lemma concurrent_frame_witness :
  ∃ R (c : mixed fake R) k, edited.1 !! 0%nat = Some (Call c k) ∧
    hpas (cluster_of (exec (do_call c) edited.2)) !! ("reliability-lab", "payments-svc") =
      Some (mkHPA (Some 4) 20) ∧
    framed (targeted (UT := Server.no_wide) (take 1 three_pages)) (cluster_of edited.2)
      (cluster_of (exec (do_call c) edited.2)).
Proof.
  destruct edited_steps as (n & tr & Hs).
  destruct (concurrent_frame (UT := Server.no_wide) three_pages _ fresh_operator n tr edited.1 edited.2 Hs)
    as [Hstep _].
  eassert (Hc : edited.1 !! 0%nat = Some (Call _ _)) by (vm_compute; reflexivity).
  eexists _, _, _. split; [exact Hc|]. split; [vm_compute; reflexivity|].
  exact (Hstep 0%nat _ _ _ _ eq_refl Hc).
Defined.

End Frame.
