(* ===== verification/System.v ===== *)
(** * The parts together

    - the circuit break, from the operator's remedy to the publisher that stops;
    - an order through payments-svc and inventory-svc, called through their
      generated stubs and handlers;
    - the order event, from the publisher's encoding to the worker's decoding. *)

From Stdlib Require Import ZArith NArith Lia.
From S2P Require Import Prelude GoLib GoText Http Mux Json JsonCodec JsonStruct Rfc3339 Classifier Payload Kube.
From S2P Require Import Remedy RemedyProps Server Obs Rpc Inventory Payments Orders CbWatch Pool OrdersPool EmailWorker Manager.
Import GoTime Rfc3339 Http Json JsonCodec JsonStruct Classifier Kube Remedy Obs Rpc.
Import FakeKube Orders.Recording.

Module System.
Local Open Scope Z_scope.

(** ** The flag's way from the cluster to the publisher

    The flags ConfigMap is mounted into the orders-svc pod: the file of a key holds
    the key's value, and is missing when the key or the ConfigMap is. *)

Definition flags_key : NamespacedName := ("reliability-lab", "orders-svc-flags").

Definition mounted (c : cluster) : option string := cm_data_at flags_key c !! flagKey.

(** The labels of an alert the operator answers with the circuit break. *)
Definition email_page (labels : gmap string string) : Prop :=
  label labels "severity" = "page" ∧ label labels "service" = "email-worker".

Lemma email_page_decision `{UnicodeTables} labels :
  email_page labels →
  d_Kind (Classify labels) = CircuitBreak ∧ d_Target (Classify labels) = "orders-svc-flags".
Proof.
  intros [Hsev Hsvc]. unfold Classify. rewrite Hsev, Hsvc. done.
Qed.

Lemma lookup_flag_of m : data_map (mkCM (Some m)) = m.
Proof. done. Qed.

(** What is mounted once the data under the key is known. *)
Lemma mounted_with_cm m c : mounted (with_cm flags_key (mkCM (Some m)) c) = m !! flagKey.
Proof. unfold mounted, cm_data_at. by rewrite with_cm_lookup. Qed.

(** A watcher that has read [file] last. *)
Lemma watch_last_read flagFile first evs file s :
  existsb CbWatch.ends evs = false →
  CbWatch.paused (exec (CbWatch.watchCircuitBreak None (λ _, None) flagFile first
                          (evs ++ [CbWatch.FsEvent file])) s) = CbWatch.says_paused file.
Proof.
  intros Hev. unfold exec. rewrite CbWatch.watch_run. cbn zeta. cbn [snd].
  rewrite CbWatch.loop_paused.
  assert (Hr : CbWatch.reads (evs ++ [CbWatch.FsEvent file]) = CbWatch.reads evs ++ [file]).
  { induction evs as [|ev evs IH]; [done|]. cbn [existsb] in Hev.
    apply orb_false_iff in Hev as [Hev1 Hev2]. destruct ev; cbn in *; rewrite ?IH; done. }
  rewrite Hr, fmap_app. cbn. by rewrite last_snoc.
Qed.

(** What a successful circuit break leaves, whatever the cache showed it. *)
Lemma circuit_break_mounts {W} {KC : KubeClient W} {KL : Logger W} {KV : ClusterView W}
    {KLaws : KubeLaws W} {KR : CachedReads W} inp (w : W) :
  target_key inp = flags_key → fst (CircuitBreak_Apply inp w) = None →
  let c := view (exec (CircuitBreak_Apply inp) w) in
  mounted c = Some "false" ∨ c = view w ∧ ∃ old, cached w old ∧ mounted old = Some "false".
Proof.
  intros Hkey. cbn zeta. unfold CircuitBreak_Apply, exec. rewrite bind_run, Hkey.
  pose proof (GetConfigMap_view flags_key w) as Hv. pose proof (GetConfigMap_cached flags_key w) as Hc.
  unfold exec in Hv. set (w1 := snd (GetConfigMap flags_key w)) in *.
  destruct (fst (GetConfigMap flags_key w)) as [e|cm].
  - destruct (IsNotFound e); [|done]. rewrite bind_run.
    pose proof (CreateConfigMap_ok flags_key (mkCM (Some {[ flagKey := flagValuePaused ]})) w1) as Hp.
    unfold exec in Hp. destruct (fst (CreateConfigMap _ _ w1)) as [e'|]; [done|]. intros _.
    destruct Hp as [_ Hp]; [done|]. rewrite view_log by apply LogInfo_view. rewrite Hp. left.
    rewrite mounted_with_cm. apply lookup_singleton_eq.
  - destruct (Hc cm eq_refl) as (old & Hold & Hlk). case_bool_decide as Hflag.
    + rewrite view_log by apply LogInfo_view. rewrite Hv. intros _. right. split; [done|].
      exists old. split; [done|]. unfold mounted, cm_data_at. rewrite Hlk. cbn.
      destruct (data_map cm !! flagKey) as [v|]; cbn in Hflag; [by rewrite Hflag|done].
    + rewrite bind_run. pose proof (PatchConfigMap_ok flags_key cm (paused_data cm) w1) as Hp.
      unfold exec in Hp. destruct (fst (PatchConfigMap _ _ _ w1)) as [e'|]; [done|]. intros _.
      destruct Hp as (cur & _ & Hp); [done|]. rewrite view_log by apply LogInfo_view. rewrite Hp. left.
      unfold mounted, cm_data_at. rewrite with_cm_lookup. cbn.
      rewrite merge_paused by (intros Heq; by rewrite Heq in Hflag). apply lookup_insert_eq.
Qed.

(** An order handled by an orders-svc whose flag is its watcher's, over a payments service
    that answers [out]; calls are noted. *)
Definition handled Inject subj out took pub r_ctx orderID body (ow : world) (f : CbWatch.wst)
    : list rw_op * list event :=
  let '(ops, (ow', _)) :=
    Orders.handleCreate (CW := OrdersPool.with_flag_clock) (WW := OrdersPool.with_flag_wall)
      (FW := OrdersPool.with_flag_paused) (JW := OrdersPool.with_flag_js (JW := jetstream pub)) Inject
      (OrdersPool.app_with_flag (Orders.mkApp (client out took false) subj)) r_ctx orderID body (ow, f) in
  (ops, log ow').

(** Whatever the flag: the same answer, the same charge, and the event only when the flag
    is down. *)
Lemma handled_run Inject subj out took pub r_ctx orderID body ow :
  match Orders.decode_order body with
  | None => ∀ f, handled Inject subj out took pub r_ctx orderID body ow f =
              (Orders.answer orderID Orders.BadRequest, log ow)
  | Some req => ∃ ctx rq m, ∀ f,
      handled Inject subj out took pub r_ctx orderID body ow f =
        (Orders.answer orderID (Orders.outcome_of (Some req) out),
         log ow ++ [Charged ctx rq] ++
           if Orders.authorized out && negb (CbWatch.paused f) then [Published ctx m] else [])
  end.
Proof.
  unfold handled. destruct (Orders.decode_order body) as [req|] eqn:Hreq.
  2:{ intros f. by rewrite Orders.handleCreate_run, Hreq. }
  set (ctx := ctx_WithTimeout (clock ow) r_ctx (5 * Second)).
  exists ctx, (Some (Orders.charge_request orderID req)).
  exists (Orders.event_msg Inject (Orders.mkApp (client out took false) subj) ctx
            (Orders.event_of orderID req (wall ow + took))).
  intros f. rewrite Orders.handleCreate_run, Hreq. cbn.
  change (publishingPaused (_, f)) with (CbWatch.paused f).
  destruct (Orders.authorized out && negb (CbWatch.paused f)); cbn; [|done].
  by rewrite <- (assoc (++)).
Qed.

(** (C9) The circuit break, end to end.  When the operator, wired as in its main, applies
    the remedy of a paging email-worker alert without an error, behind a cache that may
    lag: the flag file mounted from the cluster it leaves says "false", or the remedy
    left the cluster alone because the cache showed it the flag at "false".  Once the
    mounted file says "false", an orders-svc whose watcher reads it last, whatever it
    read before, charges an order and answers it as it would otherwise, and publishes
    nothing; and when the key is deleted afterwards, an orders-svc whose watcher reads
    the file last publishes the events of authorized orders again. *)
Theorem circuit_break_stops_publishing {UT : UnicodeTables} {W} {KC : KubeClient W} {KL : Logger W}
    {KV : ClusterView W} {KLaws : KubeLaws W} {KR : CachedReads W} labels (w : W) :
  email_page labels →
  let apply := Registry_Apply Manager.manager_registry (mkInput "reliability-lab" (Classify labels)) in
  fst (apply w) = None →
  let c := view (exec apply w) in
  let lifted := with_cm flags_key (mkCM (Some (delete flagKey (cm_data_at flags_key c)))) c in
  (mounted c = Some "false" ∨ c = view w ∧ ∃ old, cached w old ∧ mounted old = Some "false") ∧
  (mounted c = Some "false" →
   ∀ flagFile first evs s Inject subj out took pub r_ctx orderID body ow,
     existsb CbWatch.ends evs = false →
     let watched file := exec (CbWatch.watchCircuitBreak None (λ _, None) flagFile first
                                 (evs ++ [CbWatch.FsEvent file])) s in
     let '(ops, noted) := handled Inject subj out took pub r_ctx orderID body ow (watched (mounted c)) in
     let '(ops', noted') := handled Inject subj out took pub r_ctx orderID body ow (watched (mounted lifted)) in
     ops = ops' ∧
     (∀ ctx m, Published ctx m ∈ noted → Published ctx m ∈ log ow) ∧
     (Orders.decode_order body ≠ None → Orders.authorized out = true →
        ∃ ctx m, noted' = noted ++ [Published ctx m])).
Proof.
  intros Hpage apply Hok c lifted.
  destruct (email_page_decision labels Hpage) as [Hk Ht].
  assert (Happly : apply = CircuitBreak_Apply (mkInput "reliability-lab" (Classify labels))).
  { unfold apply, Registry_Apply. cbn [in_Decision]. by rewrite Hk. }
  split.
  - unfold c. rewrite Happly in Hok |- *. apply circuit_break_mounts; [|done].
    unfold target_key, flags_key. cbn [in_Namespace in_Decision]. by rewrite Ht.
  - intros Hm flagFile first evs s Inject subj out took pub r_ctx orderID body ow Hev. cbv beta zeta.
    pose proof (handled_run Inject subj out took pub r_ctx orderID body ow) as Hrun.
    destruct (Orders.decode_order body) as [req|]; [|rewrite !Hrun; split_and!; [done..|by intros []]].
    destruct Hrun as (ctx & rq & m & Hrun). rewrite !Hrun, !watch_last_read, Hm by done.
    unfold lifted. rewrite mounted_with_cm, lookup_delete_eq. cbn [CbWatch.says_paused].
    split; [done|]. change (CbWatch.says_paused (Some "false")) with true. cbn [negb].
    rewrite andb_false_r, andb_true_r. split.
    + intros ctx' m'. rewrite app_nil_r, elem_of_app, list_elem_of_singleton. by intros [|].
    + intros _ ->. exists ctx, m. by rewrite app_nil_r, <- (assoc (++)).
Qed.

(** The brake engaged, and an order after it. *)
Definition email_labels : gmap string string :=
  {[ "severity" := "page"; "service" := "email-worker"; "slo" := "email_delivery" ]}.

Definition braking : M fake (option error) :=
  Registry_Apply Manager.manager_registry
    (mkInput "reliability-lab" (Classify (UT := Server.no_wide) email_labels)).

Definition authorized_result : result Paymentsv1.ChargeResponse :=
  (Some (Paymentsv1.mkChargeResponse "p" Paymentsv1.ChargeResponse_STATUS_AUTHORIZED ""), None).

Definition after_brake (file : option string) : list rw_op * list event :=
  handled (λ _ h, h) "orders.events.created" authorized_result 0 None Background "o-1" "{}"
    (mkWorld [] 0 0 false)
    (exec (CbWatch.watchCircuitBreak None (λ _, None) "/etc/orders-flags/publish_enabled" (Some "true")
             ([] ++ [CbWatch.FsEvent file])) (CbWatch.mkWst false [])).

Lemma circuit_break_stops_publishing_witness :
  mounted (view RemedyProps.flags_true) = Some "true" ∧
  (mounted (view (exec braking RemedyProps.flags_true)) = Some "false" ∨
   view (exec braking RemedyProps.flags_true) = view RemedyProps.flags_true ∧
   ∃ old, cached RemedyProps.flags_true old ∧ mounted old = Some "false") ∧
  ∀ ctx m, Published ctx m ∉ snd (after_brake (mounted (view (exec braking RemedyProps.flags_true)))).
Proof.
  assert (Hpage : email_page email_labels) by (split; vm_compute; reflexivity).
  assert (Hok : fst (braking RemedyProps.flags_true) = None) by (vm_compute; reflexivity).
  assert (Hm : mounted (view (exec braking RemedyProps.flags_true)) = Some "false")
    by (vm_compute; reflexivity).
  destruct (circuit_break_stops_publishing (UT := Server.no_wide) email_labels
              RemedyProps.flags_true Hpage Hok) as [Hmount Hstop].
  split; [vm_compute; reflexivity|]. split; [exact Hmount|].
  pose proof (Hstop Hm "/etc/orders-flags/publish_enabled" (Some "true") [] (CbWatch.mkWst false [])
    (λ _ h, h) "orders.events.created" authorized_result 0 None Background "o-1" "{}"
    (mkWorld [] 0 0 false) eq_refl) as Horder.
  cbv zeta beta in Horder. intros ctx m. unfold after_brake, braking. revert Horder.
  match goal with |- (let '(_, _) := ?h in _) → _ => destruct h as [ops noted] end.
  destruct (handled _ _ _ _ _ _ _ _ _ _) as [ops' noted']. intros (_ & Hnone & _) Hin.
  by apply (Hnone ctx m), not_elem_of_nil in Hin.
Defined.

(** ** The order event *)

(** The data of an event whose time has a text. *)
Lemma event_data_doc orderID req created text :
  Orders.wf_request req → valid_utf8 orderID → FormatTime created = Some text →
  ∃ j, Orders.event_data (Orders.event_of orderID req created) = Marshal j ∧ wf j ∧
    (depth j ≤ maxNestingDepth)%nat ∧
    decode_struct EmailWorker.incoming_fields (EmailWorker.mkIncoming "" "") j =
      Some (EmailWorker.mkIncoming orderID (Orders.CustomerEmail req)).
Proof.
  intros (H1 & H2 & _ & H3 & _) Hid Ht. pose proof (Payload.time_utf8 _ _ Ht) as Hutf.
  unfold Orders.event_data, Orders.event_json. cbn [Orders.e_CreatedAt Orders.event_of].
  rewrite Ht. cbn [mbind option_bind]. eexists. split; [reflexivity|].
  split; [|split; [apply flat_nesting|reflexivity]].
  repeat split; try done; first [by apply ascii_text_utf8|apply number_lexeme_FormatInt].
Qed.

(** How email-worker settles a message with this data, whatever its decoder's error
    text, its test for a closed connection and the server's answer to an Ack. *)
Definition settled_as (data : string) (how : EmailWorker.action) : Prop :=
  ∀ derr closed ack, EmailWorker.settles (EmailWorker.body_of derr closed ack data) = [how].

(** (C13) Publisher and worker agree on the event.  For every request body that decodes,
    every order id and every instant: when the instant has a text (its year is in
    0..9999), email-worker reads from the published data exactly the order id and the
    email address of the request, through any characters that need escaping, and
    acknowledges the event; otherwise the data is empty and the worker terminates it. *)
Theorem event_roundtrip body req orderID created :
  Orders.decode_order body = Some req → valid_utf8 orderID →
  let data := Orders.event_data (Orders.event_of orderID req created) in
  match FormatTime created with
  | Some _ =>
    EmailWorker.decode_event data = Some (EmailWorker.mkIncoming orderID (Orders.CustomerEmail req)) ∧
    settled_as data EmailWorker.Ack
  | None => data = "" ∧ settled_as data EmailWorker.Term
  end.
Proof.
  intros Hreq Hid data. apply Orders.decode_order_wf in Hreq.
  destruct (FormatTime created) as [text|] eqn:Ht.
  - destruct (event_data_doc _ _ _ _ Hreq Hid Ht) as (j & Hdata & Hwf & Hdepth & Hdec).
    assert (Hd : EmailWorker.decode_event data =
                 Some (EmailWorker.mkIncoming orderID (Orders.CustomerEmail req))).
    { unfold data, EmailWorker.decode_event, Unmarshal. rewrite Hdata, parse_Marshal by done. exact Hdec. }
    split; [exact Hd|]. intros derr closed ack. unfold EmailWorker.body_of. rewrite Hd.
    destruct ack as [x|]; [destruct (closed x)|]; done.
  - assert (Hd : data = "").
    { unfold data, Orders.event_data, Orders.event_json. cbn [Orders.e_CreatedAt Orders.event_of]. by rewrite Ht. }
    split; [exact Hd|]. rewrite Hd. done.
Qed.

Lemma event_roundtrip_witness :
  let q s := of_bytes [34%N] +:+ s +:+ of_bytes [34%N] in
  let body := "{" +:+ q "customer_email" +:+ ":" +:+ q "ann<a>@example.org" +:+ "}" in
  let req := Orders.mkOrderRequest "" "ann<a>@example.org" 0 "" "" 0 in
  EmailWorker.decode_event (Orders.event_data (Orders.event_of "o-1" req 0)) =
    Some (EmailWorker.mkIncoming "o-1" "ann<a>@example.org").
Proof.
  intros q body req.
  assert (Hreq : Orders.decode_order body = Some req) by (vm_compute; reflexivity).
  assert (Hid : valid_utf8 "o-1") by (apply ascii_text_utf8; reflexivity).
  exact (proj1 (event_roundtrip body req "o-1" 0 Hreq Hid)).
Defined.

(** ** An order through the three services

    One world for the three processes: the inventory's store, the number of
    identifiers drawn, the clock (the wall clock too), the pause flag, the events published, and whether
    the inventory can be reached.  Calls go through the generated stubs and
    handlers; [uuid] gives the identifiers drawn, [rnd] the bank's latency. *)

Record world := mkWorld {
  w_inv : Inventory.server;
  w_drawn : nat;
  w_clock : Time;
  w_paused : bool;
  w_published : list Msg;
  w_down : bool;
}.

#[export] Instance world_clock : Clock world := w_clock.
#[export] Instance world_wall : WallClock world := w_clock.
#[export] Instance world_flag : PauseFlag world := w_paused.
#[export] Instance world_timer : Timer world := λ d,
  modify (λ w, mkWorld (w_inv w) (w_drawn w) (w_clock w + d) (w_paused w) (w_published w) (w_down w)).
#[export] Instance world_js : JetStream world := λ _ m w,
  (None, mkWorld (w_inv w) (w_drawn w) (w_clock w) (w_paused w) (w_published w ++ [m]) (w_down w)).

Section Path.
Context (uuid : nat → string) (rnd : Z).

Definition unavailable : error := Error "rpc error: code = Unavailable".

Definition inventory_server : InventoryServiceServer world :=
  mkInventoryServiceServer
    (λ ctx req w,
      let '(r, s) := Inventory.server_Reserve (uuid (w_drawn w)) ctx req (w_inv w) in
      (r, mkWorld s (S (w_drawn w)) (w_clock w) (w_paused w) (w_published w) (w_down w)))
    (λ ctx req w,
      let '(r, s) := Inventory.server_Release ctx req (w_inv w) in
      (r, mkWorld s (w_drawn w) (w_clock w) (w_paused w) (w_published w) (w_down w))).

(** What a client finds after a call: the server's error, or its message. *)
Definition delivered {Resp} (zero : Resp) (x : result Resp * world) : option error * Resp * world :=
  (snd (fst x), default zero (fst (fst x)), snd x).

(** A connection to the inventory. *)
Definition inventory_conn : ClientConn world := λ Req Resp m,
  match m in rpc Req Resp return Context → option Req → M world (option error * Resp) with
  | Rpc.Reserve => λ ctx req w,
      if w_down w then (Some unavailable, Inventoryv1.ReserveResponse_Reset, w)
      else delivered Inventoryv1.ReserveResponse_Reset
             (_InventoryService_Reserve_Handler inventory_server ctx
                (inr (default Inventoryv1.ReserveRequest_Reset req)) None w)
  | Rpc.Release => λ ctx req w,
      if w_down w then (Some unavailable, Inventoryv1.ReleaseResponse_Reset, w)
      else delivered Inventoryv1.ReleaseResponse_Reset
             (_InventoryService_Release_Handler inventory_server ctx
                (inr (default Inventoryv1.ReleaseRequest_Reset req)) None w)
  | Rpc.Charge => λ _ _ w, (Some unavailable, Paymentsv1.ChargeResponse_Reset, w)
  end.

Definition payments_server : PaymentsServiceServer world :=
  mkPaymentsServiceServer (λ ctx req w,
    Payments.Charge (Payments.mkServer (NewInventoryServiceClient (H := inventory_conn)))
      rnd (uuid (w_drawn w)) ctx req
      (mkWorld (w_inv w) (S (w_drawn w)) (w_clock w) (w_paused w) (w_published w) (w_down w))).

(** A connection to payments-svc. *)
Definition payments_conn : ClientConn world := λ Req Resp m,
  match m in rpc Req Resp return Context → option Req → M world (option error * Resp) with
  | Rpc.Charge => λ ctx req w,
      delivered Paymentsv1.ChargeResponse_Reset
        (_PaymentsService_Charge_Handler payments_server ctx
           (inr (default Paymentsv1.ChargeRequest_Reset req)) None w)
  | Rpc.Reserve => λ _ _ w, (Some unavailable, Inventoryv1.ReserveResponse_Reset, w)
  | Rpc.Release => λ _ _ w, (Some unavailable, Inventoryv1.ReleaseResponse_Reset, w)
  end.

Definition orders_app (subj : string) : Orders.app world :=
  Orders.mkApp (NewPaymentsServiceClient (H := payments_conn)) subj.

Lemma charge_path subj r_ctx orderID req w :
  let '(r, w') := Orders.charge_of (orders_app subj) r_ctx orderID req w in
  w_paused w' = w_paused w ∧ w_published w' = w_published w ∧
  if w_down w then
    r = (Some (Paymentsv1.mkChargeResponse (uuid (w_drawn w))
           Paymentsv1.ChargeResponse_STATUS_DECLINED "inventory unavailable"), None) ∧
    w_inv w' = w_inv w
  else
    r = (Some (Paymentsv1.mkChargeResponse (uuid (w_drawn w))
           Paymentsv1.ChargeResponse_STATUS_AUTHORIZED ""), None) ∧
    Inventory.store (w_inv w') =
      <[uuid (S (w_drawn w)) := [Some (Inventoryv1.mkLineItem "DEFAULT" 1)]]>
        (Inventory.store (w_inv w)).
Proof. destruct w as [inv n clk pz pub []]; by cbn. Qed.
End Path.

(** (C28) An order through the three services.  With the inventory reachable, an order
    that decodes is answered 200 and leaves exactly one new reservation, under a
    fresh identifier and of one DEFAULT item whatever the order asked for, and one
    event on the order's subject unless publishing is paused.  With the inventory
    down it is answered 402, not with a server error; nothing is reserved and
    nothing is published. *)
Theorem order_through_services uuid rnd subj Inject r_ctx orderID body req w :
  Orders.decode_order body = Some req →
  let '(ops, w') := Orders.handleCreate Inject (orders_app uuid rnd subj)
                      r_ctx orderID body w in
  if w_down w then
    status (serve ops) = 402 ∧ w_inv w' = w_inv w ∧ w_published w' = w_published w
  else
    status (serve ops) = 200 ∧
    Inventory.store (w_inv w') =
      <[uuid (S (w_drawn w)) := [Some (Inventoryv1.mkLineItem "DEFAULT" 1)]]>
        (Inventory.store (w_inv w)) ∧
    ∃ events, w_published w' = w_published w ++ events ∧
      m_Subject <$> events = if w_paused w then [] else [subj].
Proof.
  intros Hreq. rewrite Orders.handleCreate_run, Hreq. cbn zeta.
  pose proof (charge_path uuid rnd subj r_ctx orderID req w) as Hc.
  destruct (Orders.charge_of _ _ _ _ _) as [r w1]. destruct Hc as (Hp & Hpub & Hc).
  rewrite Orders.answer_status. destruct (w_down w); destruct Hc as [-> Hinv].
  { split; [reflexivity|]. split; [exact Hinv|exact Hpub]. }
  split; [reflexivity|].
  match goal with |- context [Orders.authorized ?r] => change (Orders.authorized r) with true end.
  cbn [andb]. change (publishingPaused w1) with (w_paused w1). rewrite Hp.
  destruct (w_paused w); cbn [negb]; (split; [exact Hinv|]).
  - exists []. by rewrite app_nil_r.
  - eexists. split; [cbn; rewrite Hpub; reflexivity|done].
Qed.

Lemma order_through_services_witness :
  let uuid n := FormatInt (Z.of_nat n) in
  let w := mkWorld Inventory.new_server 0 0 false [] false in
  let body := "{" +:+ of_bytes [34%N] +:+ "sku" +:+ of_bytes [34%N] +:+ ":null}" in
  let '(ops, w') := Orders.handleCreate (λ _ h, h) (orders_app uuid 3 "s")
                      Background "o" body w in
  status (serve ops) = 200 ∧ size (Inventory.store (w_inv w')) = 1%nat.
Proof.
  intros uuid w body.
  assert (Hreq : Orders.decode_order body = Some Orders.zero_orderRequest) by (vm_compute; reflexivity).
  pose proof (order_through_services uuid 3 "s" (λ _ h, h) Background "o" body
                Orders.zero_orderRequest w Hreq) as Hpath.
  destruct (Orders.handleCreate _ _ _ _ _ _) as [ops w']. destruct Hpath as (Hst & Hstore & _).
  split; [exact Hst|]. rewrite Hstore. vm_compute. reflexivity.
Defined.

(** The application of orders-svc in front of a payments service over [inv]. *)
Definition app_over {W} `{Timer W, Clock W} (inv : InventoryServiceClient W) (rnd : Z)
    (pid subj : string) : Orders.app W :=
  Orders.mkApp (mkPaymentsServiceClient (Payments.Charge (Payments.mkServer inv) rnd pid)) subj.

(** (C38) An inventory outage never counts against the availability of orders.  Over
    any inventory client whose reservations fail, and in any world, an order that
    decodes is declined with 402: the RED metric the availability objective divides
    is not a 5xx, so the outage is not an error of orders-svc. *)
Theorem inventory_outage_declines {W} `{Timer W, Clock W, WallClock W, PauseFlag W, JetStream W} Inject
    (inv : InventoryServiceClient W) rnd pid subj r_ctx orderID body req method m w :
  (∀ ctx rq w', snd (fst (inv_Reserve inv ctx rq w')) ≠ None) →
  Orders.decode_order body = Some req →
  let '(ops, (m', _)) := Wrap "post_orders" method
    (Orders.handleCreate Inject (app_over inv rnd pid subj) r_ctx orderID body) (m, w) in
  status (serve ops) = 402 ∧
  count m' ("post_orders", method, "402") = S (count m ("post_orders", method, "402")).
Proof.
  intros Hfail Hreq. unfold Wrap.
  pose proof (Orders.handleCreate_ops Inject (app_over inv rnd pid subj) r_ctx orderID body w)
    as Hops.
  destruct (Orders.handleCreate _ _ _ _ _ _) as [ops w']. cbn [fst] in Hops.
  assert (Ho : Orders.order_outcome (app_over inv rnd pid subj) r_ctx orderID body w =
               Orders.Declined "inventory unavailable").
  { unfold Orders.order_outcome, Orders.charge_of. rewrite Hreq. unfold app_over. cbn [Orders.pay pay_Charge].
    rewrite Payments.Charge_run. cbn zeta. cbn [fst]. unfold Payments.charge_response, Payments.reserved_ok.
    rewrite bool_decide_eq_false_2 by apply Hfail. done. }
  rewrite Ho in Hops. subst ops. cbn zeta.
  rewrite recorded_status by apply Orders.answer_header_first. rewrite Orders.answer_status.
  split; [done|]. unfold count, Observe, Inc. cbn. by rewrite lookup_insert_eq.
Qed.

Lemma inventory_outage_declines_witness :
  let down := mkInventoryServiceClient (W := world) (λ _ _ w, ((None, Some unavailable), w))
                (λ _ _ w, ((None, Some unavailable), w)) in
  let body := "{" +:+ of_bytes [34%N] +:+ "sku" +:+ of_bytes [34%N] +:+ ":null}" in
  let w := mkWorld Inventory.new_server 0 0 false [] true in
  let '(ops, _) := Wrap "post_orders" "POST"
    (Orders.handleCreate (λ _ h, h) (app_over down 0 "p" "s") Background "o" body)
    (new_metrics, w) in
  status (serve ops) = 402.
Proof.
  intros down body w.
  assert (Hreq : Orders.decode_order body = Some Orders.zero_orderRequest) by (vm_compute; reflexivity).
  assert (Hfail : ∀ ctx rq w', snd (fst (inv_Reserve down ctx rq w')) ≠ None) by (intros; discriminate).
  pose proof (inventory_outage_declines (λ _ h, h) down 0 "p" "s" Background "o" body
                Orders.zero_orderRequest "POST" new_metrics w Hfail Hreq) as Hout.
  cbn zeta in Hout.
  destruct (Wrap _ _ _ _) as [ops [m' w']]. exact (proj1 Hout).
Defined.

End System.
